(* ===== verification/_CoqProject ===== *)
-Q . S2P
Prelude.v
Varint.v
Types.v
Io.v
Text.v
Wire.v
Ser.v
De.v
Properties.v
Packets.v
Serde.v
Received.v
Layout.v
SerdePackets.v
PacketReader.v
Fuzz.v
Outbound.v
Config.v
Session.v
Connection.v
Driver.v
Operations.v
Handshake.v
Lifecycle.v
Qos2Spec.v
Qos1Spec.v
Duplex.v
Link.v
Peers.v
Delivery.v
Rpc.v
Staging.v
Transfers.v
Upload.v
Startup.v
