(* ===== verification/Prelude.v ===== *)
(** * Minimq: a verification library

    Minimq is an MQTT 5 client for embedded systems: no heap, fixed buffers, async
    transports that may be dropped at any [.await]. Two small services are built on
    it: [mqtt-rpc] answers requests, [mqtt-staging] moves one object into storage.
    This library models the three crates ([src/minimq/src], [src/mqtt-rpc/src],
    [src/mqtt-staging/src]) and proves what makes them correct. The definitions are
    executable and keep the names of the source.

    ** The program and the files

    Bytes to packets and back:
    - [Prelude]: machine integers, slices of byte lists, results, the state and error
      monad [ST], UTF-8, tactics and hints. No part of the program.
    - [Varint] ([varint.rs]): the variable byte integer: encoder, decoder, probe.
    - [Types] ([lib.rs], [types.rs], [reason_codes.rs]): enums, errors, conversions.
    - [Text]: what the helper crates use of Rust's strings and [heapless::String].
    - [Wire] ([wire.rs]): fixed header, control flags.
    - [Ser] ([ser/mod.rs]), [De] ([de/deserializer.rs]): the serde back ends; serde's
      dispatch is resolved by hand for the types of the crate.
    - [Serde] (the same files): the two serde interfaces as a whole, on the calls an
      implementation makes and the shapes it asks for; [SerdePackets]: the decoders of
      the packet types against them.
    - [Properties] ([properties.rs]): properties, their collections and iterators.
    - [Packets] ([packets.rs], [will.rs], [publication.rs]), [Received]
      ([de/received_packet.rs]): the packets sent and the packets received.
    - [Layout]: the wire format of MQTT 5, written out from the standard.
    - [PacketReader] ([de/packet_reader.rs], and the read loop of [drive.rs]).
    - [Fuzz] ([fuzzing.rs]): the harness functions of the fuzz targets.

    The client:
    - [Io]: the world outside: transport, clock, dropped futures.
    - [Outbound] ([mqtt_client/outbound.rs]): the arena of packets that wait for an
      acknowledgement, the control and release queues, what is sent next, replay.
    - [Config] ([config.rs]), [Session] ([session/state.rs], [session/inbound.rs]):
      configuration, session and connection state, the handler of received packets.
    - [Connection] ([session/mod.rs], [drive.rs], [operations.rs]): the connected
      client; [Driver] and [Operations] hold the proofs about it.
    - [Handshake] ([session/handshake.rs]): connecting, resuming, replacing a session.
    - [Lifecycle]: a session from its creation over any number of connections.
    - [Qos2Spec], [Qos1Spec]: QoS 2 and QoS 1 delivery as abstract machines; [Duplex]:
      the machine of two sides that publish to each other at every QoS, whose flows
      follow them. Specifications only.
    - [Link]: two sessions joined by a link of packets, and the calls of the connection
      its moves stand for; [Peers]: a session as a side of [Duplex]; [Delivery]: the
      link refines it, and what it therefore delivers.

    The services:
    - [Rpc] ([mqtt-rpc/src/lib.rs]).
    - [Staging] ([mqtt-staging/src/lib.rs]): the service; [Transfers]: the service with
      the storage it drives; [Upload]: the host's side of the protocol; [Startup]: its
      use of the connection.

    How they interact: [Connection] owns a [Session], which owns the packet reader,
    [SessionData] (with the [Outbound] tables) and [RuntimeState]. Driving a connection
    fills the reader, decodes with [Received], handles with [Session.handle_packet],
    and sends what [Outbound.next_step] selects. The operations encode with [Ser] into
    the arena and return an [Op]; [Session.status] tells what became of it. The
    services hold an [Op] at a time and ask for its status.

    ** How the code is modelled

    - Integers are [Z] in the range of their Rust type, and the operations that wrap
      or saturate write it out. A [usize] is unbounded: buffers bound lengths and
      indices, and sizes a caller configures freely ([max_chunk_size] of the staging
      service) are taken to leave room for the few bytes added to them.
    - A [&mut] state is passed explicitly. [ST] keeps the state reached on an error,
      as [?] does. [Async] adds a third outcome, [None]: the future was dropped at an
      [.await], and the state is what the owner finds then.
    - Loops are fixpoints on fuel computed from the data ([encoded_len_loop],
      [iter_fuel], [fill_fuel], the packet identifiers tried by [next_packet_id_loop],
      the measure of the send and drive loops). Each has a lemma that the fuel is
      enough, or that the loop ends with its own result ([varint] lemmas,
      [property_iteration_ends], [fill_safe], [next_packet_id_fresh], [drive_ends]).
    - Code that is not in the repository is a parameter: [Io.Transport] and
      [Io.Streaming], [Io.Recording], [Io.Delivering] (a transport with a record of what
      it delivered; [Io.Logged] makes one of any transport) for [embedded_io_async], [Io.Time], [Io.Clock]
      for [embassy_time], [Ser.ToPayload] for the payload of a user, and
      [Staging.Formats] for [serde_json_core] and [itoa]. Their laws state documented
      behaviour; [Io.Scripted] and [Transfers.demo_formats] are instances, which the
      examples run on.
    - The moves of [Link] are those of the connection ([publish_accepts],
      [publish_sends], [flush_idle], [transmit_performs], [flush_peer_flushes],
      [receive_processes], [resume_disconnects]): a packet enters the link when its last
      byte is written, and a session reads with its own acknowledgements sent, as the
      driver does ([idle_controls_gone]). The link accepts every publication the code
      accepts. The states its theorems are about ([Delivery.reachable]) are those of runs
      that meet conditions the code does not check: a side publishes a QoS 2 message with
      fewer than eight, the size of the release table, of its QoS 2 publications
      incomplete ([release_overflow_keeps_identifier]), and a QoS 1 message with an
      identifier of which no packet is on the way ([wrapped_identifier_loses_message]).
      Every connection has its own maximum packet size in each direction, of at least the
      five bytes of an acknowledgement ([refused_publish_is_lost]); that delivery
      completes also needs the retained packets to fit the last one ([link_fits],
      [lowered_limit_blocks_replay]). The theorems in brackets show what happens
      otherwise.
    - Interfaces: [Ser.Serialize], [Wire.ControlPacket] are the traits of the source;
      [Packets.PacketSpec] is what a packet promises the encoder, and the encoder's
      theorems hold for every instance; [Serde.SerdeSpec] is what its serializer owes
      to serde.

    ** What is proved

    - Encodings: encoding and decoding of varints, properties, PUBLISH and the
      acknowledgements are inverse; what the client sends, and what it is sent, has the
      layout of the standard; the decoder accepts only canonical varints, stays
      inside its buffer on every input, and guarantees what the handlers rely on.
    - Serde: which values the serializer takes and their bytes; the deserializer stays
      inside its buffer whatever it is asked for and reads back what was written, except
      64-bit integers, which it refuses ([wide_integers_not_read]); the
      encoders and decoders of the packets make exactly the calls of their types.
    - Fuzz harnesses: the reader harness ends and splits its input into whole packets;
      what the encoder harness produces is one packet of the shape asked for, which the
      decoder harness accepts.
    - Receiving: the packet found does not depend on how the transport splits the
      stream or on dropped reads, and the reader never reads past the packet.
    - Outbound: the arena refines a list of packets: admitting appends, an
      acknowledgement removes the packet it names and no other, replay restarts all;
      packets are never interleaved on the wire.
    - Session: identifiers in use are never given out again; a QoS 2 message is
      delivered at most once; an operation ends only by its own acknowledgement or
      with its session; the invariant holds for every received packet.
    - Connection: every call keeps the invariant whatever the transport does; sending
      delivers the queue packet by packet; driving ends; a silent broker is given up.
    - Handshake and lifecycle: what the CONNACK that was received leads to, that operations survive or are
      invalidated together, that retained packets never take the space of the next
      CONNECT, and the invariant over the whole life of a session.
    - Delivery: over a link that may fail at any point, any number of times, and in both
      directions at once, the receiver is handed a prefix of the QoS 2 publications
      accepted, each once and in order, a prefix of the QoS 1 publications in order with
      repetitions, and some of the QoS 0 publications in order; while the link holds, the
      protocol cannot get stuck before everything of QoS 1 and 2 was delivered and both
      sessions forgot about it (under the conditions above).
    - RPC: which publications are requests, where responses go, one subscription.
    - Staging: a completed transfer is the whole object with its checksum; transfers
      only go forward; which chunks are accepted; uploads complete; chunks survive the
      wire and those of an accepted manifest fit the receive buffer; the subscription
      is neither lost nor overtaken by a status.

    ** Not modelled

    Logging (of [mqtt-staging] only the level is), [Display] and [Debug] texts and plain
    accessors; the fuzz targets, which only call the harness functions; tests, examples
    and the Python clients, which are not part of the libraries (the host of [Upload]
    follows the protocol description and [mqtt_staging.py]). Panics are not a value of
    the model: where the source indexes, slices or unwraps, a lemma shows that it is in
    range. *)

From stdpp Require Export prelude.
From Stdlib Require Export Lia ZArith.

#[global] Open Scope Z_scope.

Declare Scope minimq_scope.
Delimit Scope minimq_scope with minimq.
#[global] Open Scope minimq_scope.

(** * Machine integers

    Rust's unsigned integers are [Z] with their range as a predicate;
    operations that wrap write the reduction out. *)

Definition is_u8 (z : Z) : Prop := 0 <= z < 2 ^ 8.
Definition is_u16 (z : Z) : Prop := 0 <= z < 2 ^ 16.
Definition is_u32 (z : Z) : Prop := 0 <= z < 2 ^ 32.

Definition u16_wrapping_add (a b : Z) : Z := (a + b) mod 2 ^ 16.
Definition u32_wrapping_add (a b : Z) : Z := (a + b) mod 2 ^ 32.
Definition u16_saturating_add (a b : Z) : Z := Z.min (a + b) (2 ^ 16 - 1).
Definition u16_saturating_sub (a b : Z) : Z := Z.max (a - b) 0.
Definition usize_saturating_sub (a b : Z) : Z := Z.max (a - b) 0.
Definition usize_checked_sub (a b : Z) : option Z :=
  if b <=? a then Some (a - b) else None.
Definition u32_checked_add (a b : Z) : option Z :=
  if a + b <? 2 ^ 32 then Some (a + b) else None.

(** A byte string: a list of [u8] values. *)
Abbreviation bytes := (list Z).
Abbreviation all_u8 := (Forall is_u8).

(** * Results and the error-and-state monad

    The state is kept when a computation fails: Rust's [?] leaves the
    mutations made so far in place. *)

Inductive result (E A : Type) : Type :=
| Ok (a : A)
| Err (e : E).
Arguments Ok {E A} a.
Arguments Err {E A} e.

Definition is_ok {E A} (r : result E A) : bool :=
  match r with Ok _ => true | Err _ => false end.

Definition map_err {E F A} (f : E -> F) (r : result E A) : result F A :=
  match r with Ok a => Ok a | Err e => Err (f e) end.

Definition ok_or {E A} (e : E) (o : option A) : result E A :=
  match o with Some a => Ok a | None => Err e end.

Definition ST (S E A : Type) : Type := S -> S * result E A.

Section Monad.
Context {S E : Type}.

Definition ret {A} (a : A) : ST S E A := fun s => (s, Ok a).

Definition raise {A} (e : E) : ST S E A := fun s => (s, Err e).

Definition bind {A B} (m : ST S E A) (k : A -> ST S E B) : ST S E B :=
  fun s => match m s with
           | (s', Ok a) => k a s'
           | (s', Err e) => (s', Err e)
           end.

Definition lift {A} (r : result E A) : ST S E A := fun s => (s, r).

Lemma bind_ok {A B} (m : ST S E A) (k : A -> ST S E B) s s' a :
  m s = (s', Ok a) -> bind m k s = k a s'.
Proof. intros H. unfold bind. by rewrite H. Qed.

Lemma bind_err {A B} (m : ST S E A) (k : A -> ST S E B) s s' e :
  m s = (s', Err e) -> bind m k s = (s', Err e).
Proof. intros H. unfold bind. by rewrite H. Qed.

Lemma bind_inv_ok {A B} (m : ST S E A) (k : A -> ST S E B) s s2 b :
  bind m k s = (s2, Ok b) ->
  exists s1 a, m s = (s1, Ok a) /\ k a s1 = (s2, Ok b).
Proof. unfold bind. intros H. repeat case_match; naive_solver. Qed.
End Monad.

Notation "'let!' x ':=' m 'in' k" := (bind m (fun x => k))
  (at level 10, x name, m at level 100, k at level 200,
   format "'let!'  x  ':='  m  'in' '//' k") : minimq_scope.
Notation "'let!' ' p ':=' m 'in' k" := (bind m (fun x => match x with p => k end))
  (at level 10, p strict pattern, m at level 100, k at level 200) : minimq_scope.
Notation "'do!' m 'in' k" := (bind m (fun _ => k))
  (at level 10, m at level 100, k at level 200,
   format "'do!'  m  'in' '//' k") : minimq_scope.
Notation "'let?' x ':=' m 'in' k" :=
  (match m with Ok x => k | Err e => Err e end)
  (at level 10, x name, m at level 100, k at level 200) : minimq_scope.

(** * Slices

    Buffer positions are [usize] values; [zlen] is Rust's [len()]. *)

Definition zlen {A} (l : list A) : Z := Z.of_nat (length l).
Definition ztake {A} (n : Z) (l : list A) : list A := take (Z.to_nat n) l.
Definition zdrop {A} (n : Z) (l : list A) : list A := drop (Z.to_nat n) l.

(** [l[i..j]] for [i <= j <= l.len()]. *)
Definition zslice {A} (i j : Z) (l : list A) : list A := ztake (j - i) (zdrop i l).

(** [l.get(i)]. *)
Definition zget {A} (l : list A) (i : Z) : option A :=
  if (0 <=? i) && (i <? zlen l) then l !! Z.to_nat i else None.

(** [l[i..i + bs.len()].copy_from_slice(bs)]. *)
Definition zwrite {A} (l : list A) (i : Z) (bs : list A) : list A :=
  ztake i l ++ bs ++ zdrop (i + zlen bs) l.

(** [l.copy_within(i..j, d)]. *)
Definition copy_within {A} (l : list A) (i j d : Z) : list A :=
  zwrite l d (zslice i j l).

(** * Big-endian integers: [to_be_bytes] and [from_be_bytes] *)

Fixpoint to_be_bytes (n : nat) (v : Z) : bytes :=
  match n with
  | O => []
  | S n' => to_be_bytes n' (v / 256) ++ [v mod 256]
  end.

Definition from_be_bytes (bs : bytes) : Z :=
  fold_left (fun acc b => acc * 256 + b) bs 0.

(** * Fixed-capacity vectors

    [heapless::Vec<T, N>] is a list with its capacity checked on [push];
    [swap_remove] moves the last element into the hole. *)

Definition vec_push {A} (cap : nat) (l : list A) (x : A) : option (list A) :=
  if (length l <? cap)%nat then Some (l ++ [x]) else None.

Definition swap_remove {A} (l : list A) (i : nat) : list A :=
  match last l with
  | None => l
  | Some x =>
      let l' := removelast l in
      if (i <? length l')%nat then <[i := x]> l' else l'
  end.

(** [iter().position(f)]. *)
Fixpoint position {A} (f : A -> bool) (l : list A) : option nat :=
  match l with
  | [] => None
  | x :: l' => if f x then Some O else option_map S (position f l')
  end.

(** [iter_mut().find(f)] followed by an update of the element found. *)
Fixpoint update_first {A} (f : A -> bool) (g : A -> A) (l : list A) : option (list A) :=
  match l with
  | [] => None
  | x :: l' =>
      if f x then Some (g x :: l') else option_map (cons x) (update_first f g l')
  end.

Definition sum_by {A} (f : A -> Z) (l : list A) : Z := foldr (fun x acc => f x + acc) 0 l.

(** * UTF-8: [core::str::from_utf8]

    The well-formed byte sequences of the Unicode Standard, table 3-7. A
    [&str] is the list of its bytes. *)

Definition in_range (lo hi b : Z) : bool := (lo <=? b) && (b <=? hi).
Definition utf8_tail (b : Z) : bool := in_range 128 191 b.

Fixpoint from_utf8 (bs : bytes) : bool :=
  match bs with
  | [] => true
  | b0 :: r0 =>
      if in_range 0 127 b0 then from_utf8 r0 else
      match r0 with
      | [] => false
      | b1 :: r1 =>
          if in_range 194 223 b0 then utf8_tail b1 && from_utf8 r1 else
          match r1 with
          | [] => false
          | b2 :: r2 =>
              let second_ok :=
                if b0 =? 224 then in_range 160 191 b1
                else if b0 =? 237 then in_range 128 159 b1
                else in_range 225 239 b0 && utf8_tail b1 in
              if second_ok && utf8_tail b2 then from_utf8 r2 else
              match r2 with
              | [] => false
              | b3 :: r3 =>
                  let second_ok :=
                    if b0 =? 240 then in_range 144 191 b1
                    else if b0 =? 244 then in_range 128 143 b1
                    else in_range 241 243 b0 && utf8_tail b1 in
                  second_ok && utf8_tail b2 && utf8_tail b3 && from_utf8 r3
              end
          end
      end
  end.

(** * Lemmas on slices *)

Create HintDb slices.
Create Rewrite HintDb slices.

Section Slices.
Context {A : Type}.
Implicit Types l bs : list A.

Lemma zlen_nil : zlen (@nil A) = 0.
Proof. done. Qed.

Lemma zlen_cons x l : zlen (x :: l) = 1 + zlen l.
Proof. unfold zlen. simpl. lia. Qed.

Lemma zlen_app l1 l2 : zlen (l1 ++ l2) = zlen l1 + zlen l2.
Proof. unfold zlen. rewrite length_app. lia. Qed.

Lemma zlen_nonneg l : 0 <= zlen l.
Proof. unfold zlen. lia. Qed.

Lemma zlen_replicate (n : nat) (x : A) : zlen (replicate n x) = Z.of_nat n.
Proof. unfold zlen. by rewrite length_replicate. Qed.

Lemma zlen_zero l : zlen l = 0 -> l = [].
Proof. destruct l; [done|]. rewrite zlen_cons. pose proof (zlen_nonneg l). lia. Qed.

Lemma zlen_ztake n l : 0 <= n <= zlen l -> zlen (ztake n l) = n.
Proof. unfold zlen, ztake. rewrite length_take. lia. Qed.

Lemma zlen_ztake_le n l : zlen (ztake n l) <= zlen l.
Proof. unfold zlen, ztake. rewrite length_take. lia. Qed.

Lemma zlen_zdrop n l : 0 <= n <= zlen l -> zlen (zdrop n l) = zlen l - n.
Proof. unfold zlen, zdrop. rewrite length_drop. lia. Qed.

Lemma zlen_zslice i j l : 0 <= i <= j -> j <= zlen l -> zlen (zslice i j l) = j - i.
Proof.
  intros. unfold zslice. rewrite zlen_ztake; [lia|]. rewrite zlen_zdrop; lia.
Qed.

Lemma ztake_0 l : ztake 0 l = [].
Proof. done. Qed.

Lemma zdrop_0 l : zdrop 0 l = l.
Proof. done. Qed.

Lemma zslice_0 n l : zslice 0 n l = ztake n l.
Proof. unfold zslice. by rewrite zdrop_0, Z.sub_0_r. Qed.

Lemma ztake_full n l : zlen l <= n -> ztake n l = l.
Proof. unfold zlen, ztake. intros. apply take_ge. lia. Qed.

Lemma zdrop_full n l : zlen l <= n -> zdrop n l = [].
Proof. unfold zlen, zdrop. intros. apply drop_ge. lia. Qed.

Lemma ztake_zdrop n l : ztake n l ++ zdrop n l = l.
Proof. apply take_drop. Qed.

Lemma ztake_app_le n l1 l2 : n <= zlen l1 -> ztake n (l1 ++ l2) = ztake n l1.
Proof. unfold zlen, ztake. intros. apply take_app_le. lia. Qed.

Lemma ztake_app_ge n l1 l2 :
  zlen l1 <= n -> ztake n (l1 ++ l2) = l1 ++ ztake (n - zlen l1) l2.
Proof.
  unfold zlen, ztake. intros. rewrite take_app_ge by lia. do 2 f_equal. lia.
Qed.

Lemma zdrop_app_le n l1 l2 : n <= zlen l1 -> zdrop n (l1 ++ l2) = zdrop n l1 ++ l2.
Proof. unfold zlen, zdrop. intros. apply drop_app_le. lia. Qed.

Lemma zdrop_app_ge n l1 l2 :
  zlen l1 <= n -> zdrop n (l1 ++ l2) = zdrop (n - zlen l1) l2.
Proof.
  unfold zlen, zdrop. intros. rewrite drop_app_ge by lia. f_equal. lia.
Qed.

Lemma ztake_app_exact l1 l2 n : n = zlen l1 -> ztake n (l1 ++ l2) = l1.
Proof.
  intros ->. rewrite ztake_app_ge by lia. by rewrite Z.sub_diag, ztake_0, app_nil_r.
Qed.

Lemma zdrop_app_exact l1 l2 n : n = zlen l1 -> zdrop n (l1 ++ l2) = l2.
Proof. intros ->. rewrite zdrop_app_ge by lia. by rewrite Z.sub_diag. Qed.

Lemma zdrop_zdrop a b l : 0 <= a -> 0 <= b -> zdrop a (zdrop b l) = zdrop (b + a) l.
Proof. unfold zdrop. intros. rewrite drop_drop. f_equal. lia. Qed.

Lemma ztake_ztake a b l : a <= b -> ztake a (ztake b l) = ztake a l.
Proof. unfold ztake. intros. rewrite take_take. f_equal. lia. Qed.

Lemma zslice_app_mid l1 l2 l3 i j :
  i = zlen l1 -> j = zlen l1 + zlen l2 -> zslice i j (l1 ++ l2 ++ l3) = l2.
Proof.
  intros -> ->. unfold zslice. rewrite zdrop_app_exact by done.
  apply ztake_app_exact. lia.
Qed.

Lemma zslice_ztake i j n l : 0 <= i -> j <= n -> zslice i j (ztake n l) = zslice i j l.
Proof.
  intros. unfold zslice, ztake, zdrop. rewrite skipn_firstn_comm, take_take.
  f_equal. lia.
Qed.

Lemma zslice_zdrop i j n l :
  0 <= i -> 0 <= n -> zslice i j (zdrop n l) = zslice (n + i) (n + j) l.
Proof. intros. unfold zslice. rewrite zdrop_zdrop by lia. f_equal. lia. Qed.

Lemma zslice_split i j k l :
  0 <= i <= j -> j <= k -> zslice i k l = zslice i j l ++ zslice j k l.
Proof.
  intros. unfold zslice, ztake, zdrop.
  replace (Z.to_nat (k - i)) with (Z.to_nat (j - i) + Z.to_nat (k - j))%nat by lia.
  rewrite <- take_take_drop, drop_drop. do 3 f_equal. lia.
Qed.

Lemma ztake_zslice j k l : 0 <= j <= k -> ztake k l = ztake j l ++ zslice j k l.
Proof. intros. rewrite <- !zslice_0. apply zslice_split; lia. Qed.

Lemma zlen_zwrite l i bs :
  0 <= i -> i + zlen bs <= zlen l -> zlen (zwrite l i bs) = zlen l.
Proof.
  intros. pose proof (zlen_nonneg bs). unfold zwrite.
  rewrite !zlen_app, zlen_ztake, zlen_zdrop; lia.
Qed.

Lemma ztake_zwrite l i bs j :
  j <= i <= zlen l -> ztake j (zwrite l i bs) = ztake j l.
Proof.
  intros. destruct (Z.le_gt_cases j 0).
  - unfold ztake. replace (Z.to_nat j) with O by lia. done.
  - unfold zwrite. rewrite ztake_app_le by (rewrite zlen_ztake; lia).
    apply ztake_ztake. lia.
Qed.

Lemma zslice_zwrite l i bs :
  0 <= i <= zlen l -> zslice i (i + zlen bs) (zwrite l i bs) = bs.
Proof. intros. unfold zwrite. apply zslice_app_mid; rewrite zlen_ztake; lia. Qed.

Lemma zslice_zwrite_eq l i bs j :
  0 <= i <= zlen l -> j = i + zlen bs -> zslice i j (zwrite l i bs) = bs.
Proof. intros ? ->. by apply zslice_zwrite. Qed.

Lemma zslice_zwrite_before l i bs j k :
  0 <= j -> k <= i <= zlen l -> zslice j k (zwrite l i bs) = zslice j k l.
Proof.
  intros. rewrite <- (zslice_ztake j k i (zwrite l i bs)) by lia.
  rewrite ztake_zwrite by lia. by rewrite zslice_ztake by lia.
Qed.

Lemma zdrop_zwrite l i bs j :
  0 <= i -> i + zlen bs <= j -> j <= zlen l -> zdrop j (zwrite l i bs) = zdrop j l.
Proof.
  intros. pose proof (zlen_nonneg bs). unfold zwrite.
  rewrite zdrop_app_ge by (rewrite zlen_ztake; lia). rewrite zlen_ztake by lia.
  rewrite zdrop_app_ge by lia. rewrite zdrop_zdrop by lia. f_equal. lia.
Qed.

Lemma zslice_zwrite_after l i bs j k :
  0 <= i -> i + zlen bs <= j -> j <= zlen l ->
  zslice j k (zwrite l i bs) = zslice j k l.
Proof. intros. unfold zslice. by rewrite zdrop_zwrite by lia. Qed.

Lemma ztake_zwrite_through l i bs :
  0 <= i <= zlen l -> ztake (i + zlen bs) (zwrite l i bs) = ztake i l ++ bs.
Proof.
  intros. pose proof (zlen_nonneg bs). rewrite (ztake_zslice i) by lia.
  by rewrite ztake_zwrite, zslice_zwrite by lia.
Qed.

Lemma zwrite_app l1 l2 i bs :
  zlen l1 = i -> zlen bs <= zlen l2 ->
  zwrite (l1 ++ l2) i bs = l1 ++ bs ++ zdrop (zlen bs) l2.
Proof.
  intros <- ?. pose proof (zlen_nonneg bs). unfold zwrite.
  rewrite ztake_app_exact, zdrop_app_ge by lia. by rewrite Z.add_simpl_l.
Qed.

Lemma zwrite_nil l i : zwrite l i [] = l.
Proof. unfold zwrite. simpl. rewrite Z.add_0_r. apply ztake_zdrop. Qed.

Lemma zwrite_zwrite l i b1 b2 :
  0 <= i -> i + zlen b1 + zlen b2 <= zlen l ->
  zwrite (zwrite l i b1) (i + zlen b1) b2 = zwrite l i (b1 ++ b2).
Proof.
  intros. pose proof (zlen_nonneg b1). pose proof (zlen_nonneg b2).
  unfold zwrite at 1. rewrite zdrop_zwrite by lia.
  rewrite (ztake_zslice i) by lia. rewrite ztake_zwrite, zslice_zwrite by lia.
  unfold zwrite. rewrite zlen_app. by rewrite <- !app_assoc, Z.add_assoc.
Qed.

Lemma zget_some l i x : zget l i = Some x -> 0 <= i < zlen l.
Proof. unfold zget. destruct (_ && _) eqn:?; [lia|done]. Qed.

Lemma zget_zdrop l i x :
  zget l i = Some x -> zdrop i l = x :: zdrop (i + 1) l.
Proof.
  unfold zget. destruct (_ && _) eqn:Hb; [|done]. intros Hx. unfold zdrop.
  rewrite (drop_S _ _ _ Hx). do 2 f_equal. lia.
Qed.

Lemma zget_is_some l i : 0 <= i < zlen l -> exists x, zget l i = Some x.
Proof.
  intros. unfold zget. replace (_ && _) with true by lia.
  apply lookup_lt_is_Some. unfold zlen in *. lia.
Qed.

Lemma zdrop_cons_zget l i x r :
  0 <= i -> zdrop i l = x :: r -> zget l i = Some x /\ r = zdrop (i + 1) l.
Proof.
  intros Hi Hd. assert (i < zlen l) as Hlt.
  { destruct (Z.le_gt_cases (zlen l) i); [|lia].
    rewrite zdrop_full in Hd by lia. done. }
  destruct (zget_is_some l i) as [y Hy]; [lia|].
  rewrite (zget_zdrop _ _ _ Hy) in Hd. by injection Hd as -> <-.
Qed.
End Slices.

#[export] Hint Rewrite @zlen_nil @zlen_cons @zlen_app @ztake_0 @zdrop_0 @zslice_0
  @zwrite_nil : slices.
#[export] Hint Resolve zlen_nonneg : slices.

(** [zsimpl] normalises lengths; [zlia] also knows that lengths are not
    negative. *)
Ltac zsimpl := autorewrite with slices in *.
Ltac pose_zlen :=
  repeat match goal with
  | |- context [zlen ?l] =>
      lazymatch goal with H : 0 <= zlen l |- _ => fail | _ => pose proof (zlen_nonneg l) end
  | _ : context [zlen ?l] |- _ =>
      lazymatch goal with H : 0 <= zlen l |- _ => fail | _ => pose proof (zlen_nonneg l) end
  end.
Ltac zlia := zsimpl; pose_zlen; lia.

(** * Lemmas on integers and bytes *)

Lemma is_u8_forall (P : Z -> bool) :
  forallb P (seqZ 0 256) = true -> forall b, is_u8 b -> P b = true.
Proof.
  intros H b Hb. rewrite forallb_forall in H. apply H.
  apply list_elem_of_In, elem_of_seqZ. unfold is_u8 in Hb. lia.
Qed.

Lemma length_to_be_bytes n v : length (to_be_bytes n v) = n.
Proof.
  revert v. induction n as [|n IH]; intros v; simpl; [done|].
  rewrite length_app, IH. simpl. lia.
Qed.

Lemma zlen_to_be_bytes n v : zlen (to_be_bytes n v) = Z.of_nat n.
Proof. unfold zlen. by rewrite length_to_be_bytes. Qed.

Lemma to_be_bytes_u8 n v : all_u8 (to_be_bytes n v).
Proof.
  revert v. induction n as [|n IH]; intros v; simpl; [by constructor|].
  apply Forall_app; split; [apply IH|]. constructor; [|constructor].
  unfold is_u8. pose proof (Z.mod_pos_bound v 256). lia.
Qed.

Lemma from_be_bytes_snoc bs b : from_be_bytes (bs ++ [b]) = from_be_bytes bs * 256 + b.
Proof. unfold from_be_bytes. by rewrite fold_left_app. Qed.

Lemma from_to_be_bytes n v :
  0 <= v < 256 ^ Z.of_nat n -> from_be_bytes (to_be_bytes n v) = v.
Proof.
  revert v. induction n as [|n IH]; intros v Hv.
  - unfold from_be_bytes. simpl in *. lia.
  - cbn [to_be_bytes]. rewrite from_be_bytes_snoc, IH.
    + pose proof (Z.div_mod v 256). lia.
    + rewrite Nat2Z.inj_succ, Z.pow_succ_r in Hv by lia. split.
      * apply Z.div_pos; lia.
      * apply Z.div_lt_upper_bound; lia.
Qed.

Lemma from_be_bytes_bound bs :
  all_u8 bs -> 0 <= from_be_bytes bs < 256 ^ zlen bs.
Proof.
  induction bs as [|b bs IH] using rev_ind; intros H; [done|].
  apply Forall_app in H as [H1 H2]. inversion_clear H2. specialize (IH H1).
  unfold is_u8 in *. rewrite from_be_bytes_snoc, zlen_app. change (zlen [b]) with 1.
  rewrite Z.pow_add_r by (pose_zlen; lia). lia.
Qed.

Lemma to_from_be_bytes bs :
  all_u8 bs -> to_be_bytes (length bs) (from_be_bytes bs) = bs.
Proof.
  induction bs as [|b bs IH] using rev_ind; intros H; [done|].
  apply Forall_app in H as [H1 H2]. inversion_clear H2. specialize (IH H1).
  unfold is_u8 in *. rewrite from_be_bytes_snoc, length_app, Nat.add_comm.
  cbn [length Nat.add to_be_bytes]. f_equal.
  - rewrite Z.div_add_l, (Z.div_small b), Z.add_0_r by lia. done.
  - f_equal. rewrite Z.add_comm, Z_mod_plus_full, Z.mod_small by lia. done.
Qed.

Lemma from_utf8_u8 s : from_utf8 s = true -> all_u8 s.
Proof.
  assert (forall n s, (length s <= n)%nat -> from_utf8 s = true -> all_u8 s) as H.
  { induction n as [|n IH]; intros [|b0 r0] Hl H; simpl in Hl; try lia; try by constructor.
    cbn [from_utf8] in H. unfold utf8_tail, in_range in *.
    destruct ((0 <=? b0) && (b0 <=? 127)) eqn:H0.
    { constructor; [unfold is_u8; lia|]. apply IH; [lia|done]. }
    destruct r0 as [|b1 r1]; [done|]. simpl in Hl.
    destruct ((194 <=? b0) && (b0 <=? 223)) eqn:H1.
    { apply andb_prop in H as [? ?].
      do 2 (constructor; [unfold is_u8; lia|]). apply IH; [lia|done]. }
    destruct r1 as [|b2 r2]; [done|]. simpl in Hl. cbv zeta in H.
    match type of H with (if ?c && ?d then _ else _) = _ =>
      destruct (c && d) eqn:H2 end.
    { apply andb_prop in H2 as [? ?].
      do 3 (constructor; [unfold is_u8; repeat case_match; lia|]). apply IH; [lia|done]. }
    destruct r2 as [|b3 r3]; [done|]. simpl in Hl. rewrite !andb_true_iff in H.
    destruct H as [[[? ?] ?] ?].
    do 4 (constructor; [unfold is_u8; repeat case_match; lia|]). apply IH; [lia|done]. }
  by apply (H (length s)).
Qed.

(** * Lemmas on vectors *)

Lemma position_some {A} (f : A -> bool) l i :
  position f l = Some i ->
  exists l1 x l2, l = l1 ++ x :: l2 /\ length l1 = i /\ f x = true /\
                  Forall (fun y => f y = false) l1.
Proof.
  revert i. induction l as [|y l IH]; intros i H; simpl in H; [done|].
  destruct (f y) eqn:Hy.
  - simplify_eq. exists [], y, l. naive_solver.
  - destruct (position f l) as [j|]; simpl in H; [|done]. simplify_eq.
    destruct (IH j) as (l1 & x & l2 & -> & <- & Hx & Hall); [done|].
    exists (y :: l1), x, l2. naive_solver.
Qed.

Lemma position_none {A} (f : A -> bool) l :
  position f l = None <-> Forall (fun y => f y = false) l.
Proof.
  induction l as [|y l IH]; simpl; [split; by constructor|].
  destruct (f y) eqn:Hy.
  - split; [done|]. inversion_clear 1. congruence.
  - rewrite Forall_cons, <- IH. clear IH. destruct (position f l); simpl; intuition done.
Qed.

Lemma existsb_position {A} (f : A -> bool) l :
  existsb f l = true <-> is_Some (position f l).
Proof.
  induction l as [|y l IH]; simpl; [split; [done|by intros [? ?]]|].
  destruct (f y); simpl; [clear IH; naive_solver|]. rewrite IH. clear IH.
  destruct (position f l); simpl; split; intros [? ?]; naive_solver.
Qed.

Lemma vec_push_some {A} cap (l l' : list A) x :
  vec_push cap l x = Some l' -> l' = l ++ [x] /\ (length l < cap)%nat.
Proof.
  unfold vec_push. destruct (Nat.ltb_spec (length l) cap); naive_solver.
Qed.

Lemma swap_remove_app {A} (l1 l2 : list A) x :
  swap_remove (l1 ++ x :: l2) (length l1) ≡ₚ l1 ++ l2.
Proof.
  destruct l2 as [|z l2 _] using rev_ind.
  - unfold swap_remove. rewrite last_snoc, removelast_last, app_nil_r.
    by rewrite Nat.ltb_irrefl.
  - replace (l1 ++ x :: l2 ++ [z]) with ((l1 ++ x :: l2) ++ [z]) by
      (rewrite <- app_assoc; done).
    unfold swap_remove. rewrite last_snoc, removelast_last, length_app. simpl.
    rewrite (proj2 (Nat.ltb_lt _ _)) by lia.
    rewrite insert_app_r_alt by lia. rewrite Nat.sub_diag. simpl.
    apply Permutation_app_head. by rewrite Permutation_cons_append.
Qed.

Lemma swap_remove_position {A} (f : A -> bool) l i :
  position f l = Some i ->
  exists x, f x = true /\ l ≡ₚ x :: swap_remove l i.
Proof.
  intros (l1 & x & l2 & -> & <- & Hx & _)%position_some. exists x. split; [done|].
  rewrite swap_remove_app. by rewrite Permutation_middle.
Qed.

Lemma sum_by_cons {A} (f : A -> Z) x l : sum_by f (x :: l) = f x + sum_by f l.
Proof. done. Qed.

Lemma sum_by_app {A} (f : A -> Z) l1 l2 : sum_by f (l1 ++ l2) = sum_by f l1 + sum_by f l2.
Proof. induction l1 as [|x l1 IH]; unfold sum_by in *; simpl; lia. Qed.

Lemma sum_by_nonneg {A} (f : A -> Z) l :
  Forall (fun x => 0 <= f x) l -> 0 <= sum_by f l.
Proof. induction 1; unfold sum_by in *; simpl; lia. Qed.

#[global] Arguments to_be_bytes n v : simpl never.
