(* ===== verification/Varint.v ===== *)
(** MQTT variable byte integers: [src/minimq/src/varint.rs].

    [write_mqtt_u32_varint] and [read_mqtt_u32_varint] are the loops of the
    source; [base128] is the reference encoding of the MQTT specification
    that both are shown to implement. *)

From S2P Require Import Prelude.

Definition MQTT_VARINT_DATA_BITS : Z := 7.
Definition MQTT_VARINT_MAX_BYTES : nat := 4.
Definition MQTT_VARINT_DATA_MASK : Z := Z.shiftl 1 MQTT_VARINT_DATA_BITS - 1.
Definition MQTT_VARINT_CONTINUATION : Z := Z.shiftl 1 MQTT_VARINT_DATA_BITS.
Definition MQTT_VARINT_BASE : Z := Z.shiftl 1 MQTT_VARINT_DATA_BITS.
Definition MQTT_VARINT_MAX : Z :=
  Z.shiftl 1 (MQTT_VARINT_DATA_BITS * Z.of_nat MQTT_VARINT_MAX_BYTES) - 1.

Record Varint : Type := mkVarint { varint_value : Z }.

(** The loop of [encoded_len] divides a [u32] by 128 at most four times;
    [encoded_len_fuel] shows that more fuel changes nothing. *)
Fixpoint encoded_len_loop (fuel : nat) (value len : Z) : Z :=
  match fuel with
  | O => len
  | S fuel' =>
      if MQTT_VARINT_BASE <=? value
      then encoded_len_loop fuel' (value / MQTT_VARINT_BASE) (len + 1)
      else len
  end.

Definition encoded_len (v : Varint) : Z := encoded_len_loop 5 (varint_value v) 1.

Record VarintBuffer : Type := mkVarintBuffer { vb_data : bytes; vb_len : Z }.

Definition VarintBuffer_new : VarintBuffer :=
  mkVarintBuffer (replicate MQTT_VARINT_MAX_BYTES 0) 0.

Definition as_slice (b : VarintBuffer) : bytes := ztake (vb_len b) (vb_data b).

Definition VarintBuffer_push (byte : Z) : ST VarintBuffer unit unit :=
  fun b =>
    let index := vb_len b in
    match zget (vb_data b) index with
    | None => (b, Err tt)
    | Some _ =>
        (mkVarintBuffer (zwrite (vb_data b) index [byte]) (vb_len b + 1), Ok tt)
    end.

(** Each turn of the loop pushes one byte and the fifth push fails, so five
    units of fuel cover every input. *)
Fixpoint write_varint_loop (fuel : nat) (value : Z) : ST VarintBuffer unit unit :=
  match fuel with
  | O => raise tt
  | S fuel' =>
      let byte := Z.land value MQTT_VARINT_DATA_MASK in
      let value := Z.shiftr value MQTT_VARINT_DATA_BITS in
      let byte := if negb (value =? 0) then Z.lor byte MQTT_VARINT_CONTINUATION else byte in
      do! VarintBuffer_push byte in
      if value =? 0 then ret tt else write_varint_loop fuel' value
  end.

Definition write_mqtt_u32_varint (value : Z) : ST VarintBuffer unit unit :=
  if MQTT_VARINT_MAX <? value then raise tt else write_varint_loop 5 value.

(** [for index in 0..4]: [n] turns are left, the current one is [4 - n]. *)
Fixpoint read_varint_loop {S E} (read : ST S E Z) (invalid : E) (n : nat) (value : Z)
  : ST S E Z :=
  match n with
  | O => raise invalid
  | S n' =>
      let index := Z.of_nat MQTT_VARINT_MAX_BYTES - Z.of_nat n in
      let shift := index * MQTT_VARINT_DATA_BITS in
      let! byte := read in
      let part := Z.land byte MQTT_VARINT_DATA_MASK in
      let value := Z.lor value (Z.shiftl part shift) in
      if MQTT_VARINT_MAX <? value then raise invalid
      else if Z.land byte MQTT_VARINT_CONTINUATION =? 0 then
        if negb (shift =? 0) && (part =? 0) then raise invalid else ret value
      else read_varint_loop read invalid n' value
  end.

Definition read_mqtt_u32_varint {S E} (read : ST S E Z) (invalid : E) : ST S E Z :=
  read_varint_loop read invalid MQTT_VARINT_MAX_BYTES 0.

Inductive ProbeError : Type := Incomplete | Invalid.

(** The closure of [probe_mqtt_u32_varint]; its state is [len]. *)
Definition probe_read (bs : bytes) : ST Z ProbeError Z :=
  fun len => match zget bs len with
             | None => (len, Err Incomplete)
             | Some byte => (len + 1, Ok byte)
             end.

Definition probe_mqtt_u32_varint (bs : bytes) : result unit (option (Z * Z)) :=
  match read_mqtt_u32_varint (probe_read bs) Invalid 0 with
  | (len, Ok value) => Ok (Some (value, len))
  | (_, Err Incomplete) => Ok None
  | (_, Err Invalid) => Err tt
  end.

(** * Reference encoding *)

Lemma MQTT_VARINT_MAX_eq : MQTT_VARINT_MAX = 268435455.
Proof. done. Qed.

(** The digits of [v] in base 128, least significant first, at most [n]. *)
Fixpoint base128 (n : nat) (v : Z) : bytes :=
  match n with
  | O => []
  | S n' => if v <? 128 then [v] else (v mod 128 + 128) :: base128 n' (v / 128)
  end.

Definition varint_bytes (v : Z) : bytes := base128 MQTT_VARINT_MAX_BYTES v.

Lemma varint_bytes_length v :
  0 <= v -> 1 <= zlen (varint_bytes v) <= 4.
Proof.
  intros. unfold varint_bytes, MQTT_VARINT_MAX_BYTES. simpl.
  repeat case_match; zlia.
Qed.

Lemma base128_u8 n v : 0 <= v < 128 ^ Z.of_nat n -> all_u8 (base128 n v).
Proof.
  revert v. induction n as [|n IH]; intros v Hv; simpl; [by constructor|].
  rewrite Nat2Z.inj_succ, Z.pow_succ_r in Hv by lia.
  pose proof (Z.mod_pos_bound v 128). pose proof (Z.div_mod v 128).
  destruct (Z.ltb_spec v 128).
  - constructor; [unfold is_u8; lia|constructor].
  - constructor; [unfold is_u8; lia|]. apply IH.
    split; [apply Z.div_pos|apply Z.div_lt_upper_bound]; lia.
Qed.

Lemma varint_bytes_u8 v : 0 <= v <= MQTT_VARINT_MAX -> all_u8 (varint_bytes v).
Proof.
  rewrite MQTT_VARINT_MAX_eq. intros. apply base128_u8.
  change (128 ^ Z.of_nat MQTT_VARINT_MAX_BYTES) with 268435456. lia.
Qed.

(** Bit operations of the loops as arithmetic. *)

Lemma land_mask v : Z.land v MQTT_VARINT_DATA_MASK = v mod 128.
Proof. apply (Z.land_ones v 7). lia. Qed.

Lemma shiftr_bits v : Z.shiftr v MQTT_VARINT_DATA_BITS = v / 128.
Proof. apply (Z.shiftr_div_pow2 v 7). lia. Qed.

Lemma lor_continuation v : Z.lor (v mod 128) MQTT_VARINT_CONTINUATION = v mod 128 + 128.
Proof.
  pose proof (Z.mod_pos_bound v 128) as H.
  assert (forall b, is_u8 b ->
    ((128 <=? b) || (Z.lor b 128 =? b + 128)) = true) as Hall
    by (apply is_u8_forall; vm_compute; reflexivity).
  specialize (Hall (v mod 128)). unfold is_u8, MQTT_VARINT_CONTINUATION in *.
  change (Z.shiftl 1 MQTT_VARINT_DATA_BITS) with 128. lia.
Qed.

Lemma lor_shift_add value part k :
  0 <= k -> 0 <= value < 2 ^ k -> Z.lor value (Z.shiftl part k) = value + part * 2 ^ k.
Proof.
  intros Hk Hv. rewrite <- Z.shiftl_mul_pow2 by lia.
  enough (Z.land value (Z.shiftl part k) = 0) as Hand
    by (rewrite Z.add_nocarry_lxor, Z.lxor_lor by done; done).
  apply Z.bits_inj'. intros i Hi. rewrite Z.land_spec, Z.bits_0, Z.shiftl_spec by lia.
  destruct (Z.lt_ge_cases i k).
  - rewrite (Z.testbit_neg_r part) by lia. apply andb_false_r.
  - rewrite <- (Z.mod_small value (2 ^ k)) by lia.
    rewrite Z.mod_pow2_bits_high by lia. done.
Qed.

(** * The writer implements the reference encoding *)

(** A buffer that holds exactly the bytes [bs]. *)
Definition holds (b : VarintBuffer) (bs : bytes) : Prop :=
  vb_len b = zlen bs /\ zlen (vb_data b) = 4 /\ ztake (zlen bs) (vb_data b) = bs.

Lemma push_holds b bs byte :
  holds b bs -> zlen bs < 4 ->
  exists b', VarintBuffer_push byte b = (b', Ok tt) /\ holds b' (bs ++ [byte]).
Proof.
  intros (Hl & Hd & Ht) Hlt. unfold VarintBuffer_push. rewrite Hl.
  destruct (zget_is_some (vb_data b) (zlen bs)) as [x ->]; [zlia|].
  eexists. split; [done|]. unfold holds. simpl. repeat split.
  - zlia.
  - rewrite zlen_zwrite; zlia.
  - rewrite zlen_app. change (zlen [byte]) with 1.
    rewrite (ztake_zslice (zlen bs)) by zlia. rewrite ztake_zwrite by zlia.
    rewrite Ht. f_equal. apply (zslice_zwrite _ _ [byte]). zlia.
Qed.

Lemma push_full b bs byte :
  holds b bs -> zlen bs = 4 -> VarintBuffer_push byte b = (b, Err tt).
Proof.
  intros (Hl & Hd & _) Hlen. unfold VarintBuffer_push, zget.
  rewrite Hl, Hd, Hlen. done.
Qed.

Lemma write_varint_loop_spec k fuel v b bs :
  holds b bs -> zlen bs = 4 - Z.of_nat k -> (k < fuel)%nat ->
  0 <= v < 128 ^ Z.of_nat k -> (0 < k)%nat ->
  exists b', write_varint_loop fuel v b = (b', Ok tt) /\ holds b' (bs ++ base128 k v).
Proof.
  revert fuel v b bs. induction k as [|k IH]; intros [|fuel] v b bs Hb Hlen Hf Hv Hk;
    try lia.
  rewrite Nat2Z.inj_succ, Z.pow_succ_r in Hv by lia.
  cbn [write_varint_loop base128]. rewrite land_mask, shiftr_bits, lor_continuation.
  pose proof (Z.div_mod v 128). pose proof (Z.mod_pos_bound v 128).
  pose proof (Z.div_pos v 128).
  destruct (Z.eqb_spec (v / 128) 0) as [Hz|Hz]; simpl negb; cbn iota.
  - destruct (push_holds b bs (v mod 128)) as (b1 & Hp & Hb1); [done|lia|].
    rewrite (bind_ok _ _ _ _ _ Hp), (proj2 (Z.ltb_lt v 128)) by lia.
    exists b1. split; [done|]. by replace v with (v mod 128) at 1 by lia.
  - destruct (push_holds b bs (v mod 128 + 128)) as (b1 & Hp & Hb1); [done|lia|].
    rewrite (bind_ok _ _ _ _ _ Hp), (proj2 (Z.ltb_ge v 128)) by lia.
    assert (v / 128 < 128 ^ Z.of_nat k) by (apply Z.div_lt_upper_bound; lia).
    destruct k as [|k]; [simpl in *; lia|].
    destruct (IH fuel (v / 128) b1 (bs ++ [v mod 128 + 128])) as (b2 & Hw & Hb2);
      [done|zlia|lia|lia|lia|].
    exists b2. split; [done|]. by rewrite <- app_assoc in Hb2.
Qed.

Lemma holds_new : holds VarintBuffer_new [].
Proof. done. Qed.

Lemma holds_as_slice b bs : holds b bs -> as_slice b = bs.
Proof. intros (Hl & _ & Ht). unfold as_slice. by rewrite Hl. Qed.

(** Every value the MQTT format can express is written as its reference
    encoding. *)
Lemma write_varint_spec v :
  0 <= v <= MQTT_VARINT_MAX ->
  exists b, write_mqtt_u32_varint v VarintBuffer_new = (b, Ok tt) /\
            as_slice b = varint_bytes v.
Proof.
  intros Hv. unfold write_mqtt_u32_varint. rewrite (proj2 (Z.ltb_ge _ _)) by lia.
  rewrite MQTT_VARINT_MAX_eq in Hv.
  destruct (write_varint_loop_spec 4 5 v VarintBuffer_new []) as (b & Hw & Hb);
    [apply holds_new|done|lia| |lia|].
  - change (128 ^ Z.of_nat 4) with 268435456. lia.
  - exists b. split; [done|]. by rewrite (holds_as_slice _ _ Hb).
Qed.

Lemma write_varint_too_large v :
  MQTT_VARINT_MAX < v ->
  write_mqtt_u32_varint v VarintBuffer_new = (VarintBuffer_new, Err tt).
Proof. intros. unfold write_mqtt_u32_varint. by rewrite (proj2 (Z.ltb_lt _ _)). Qed.

(** * The reader *)

Lemma land_continuation_lo b : 0 <= b < 128 -> Z.land b MQTT_VARINT_CONTINUATION = 0.
Proof.
  intros. assert (forall b, is_u8 b -> ((128 <=? b) || (Z.land b 128 =? 0)) = true) as Hall
    by (apply is_u8_forall; vm_compute; reflexivity).
  specialize (Hall b). unfold is_u8 in Hall. change MQTT_VARINT_CONTINUATION with 128. lia.
Qed.

Lemma land_continuation_hi b : 128 <= b < 256 -> Z.land b MQTT_VARINT_CONTINUATION = 128.
Proof.
  intros. assert (forall b, is_u8 b -> ((b <? 128) || (Z.land b 128 =? 128)) = true) as Hall
    by (apply is_u8_forall; vm_compute; reflexivity).
  specialize (Hall b). unfold is_u8 in Hall. change MQTT_VARINT_CONTINUATION with 128. lia.
Qed.

Lemma mod_hi b : 128 <= b < 256 -> b mod 128 = b - 128.
Proof. intros. symmetry. apply Z.mod_unique_pos with (q := 1); lia. Qed.

Lemma base128_step k b v :
  128 <= b < 256 -> 0 < v -> base128 (S k) ((b - 128) + 128 * v) = b :: base128 k v.
Proof.
  intros. cbn [base128]. rewrite (proj2 (Z.ltb_ge _ _)) by lia.
  rewrite Z.mul_comm, Z.mod_add, Z.mod_small by lia.
  rewrite Z.div_add, Z.div_small by lia. f_equal. lia.
Qed.

(** [reads read enc s]: the reader delivers the bytes [enc] one by one from
    state [s] and ends in the state given by [adv]. *)
Section Reader.
Context {S E : Type} (read : ST S E Z) (invalid : E).
Context (good : S -> Prop) (view : S -> bytes) (adv : S -> S) (eof : E).

(** What the source's closures guarantee in a good state: a read takes the
    first byte of the view and advances; on an empty view it fails and
    stays. *)
Hypothesis read_byte : forall s b r, good s -> view s = b :: r ->
  read s = (adv s, Ok b) /\ view (adv s) = r /\ good (adv s).
Hypothesis read_eof : forall s, good s -> view s = [] -> read s = (s, Err eof).

Fixpoint adv_n (n : nat) (s : S) : S :=
  match n with O => s | Datatypes.S n' => adv_n n' (adv s) end.

Lemma view_adv_n n s bs r :
  good s -> view s = bs ++ r -> length bs = n ->
  view (adv_n n s) = r /\ good (adv_n n s).
Proof.
  revert s bs. induction n as [|n IH]; intros s [|b bs] Hg Hs Hl; simpl in *;
    try done. destruct (read_byte s b (bs ++ r) Hg Hs) as (_ & H & Hg').
  apply (IH _ bs); [done|done|lia].
Qed.

Lemma read_loop_ok k value v s rest :
  (0 < k <= 4)%nat -> 0 <= v < 128 ^ Z.of_nat k ->
  (k = 4%nat \/ 0 < v) -> 0 <= value < 2 ^ (7 * (4 - Z.of_nat k)) ->
  good s -> view s = base128 k v ++ rest ->
  exists s', read_varint_loop read invalid k value s =
               (s', Ok (value + v * 2 ^ (7 * (4 - Z.of_nat k)))) /\
             s' = adv_n (length (base128 k v)) s.
Proof.
  revert value v s. induction k as [|k IH]; intros value v s Hk Hv Hpos Hval Hg Hview;
    [lia|].
  rewrite Nat2Z.inj_succ, Z.pow_succ_r in Hv by lia.
  pose proof (Z.div_mod v 128). pose proof (Z.mod_pos_bound v 128).
  assert (Hsh : (Z.of_nat MQTT_VARINT_MAX_BYTES - Z.of_nat (Datatypes.S k)) *
          MQTT_VARINT_DATA_BITS = 7 * (4 - Z.of_nat (Datatypes.S k)))
    by (unfold MQTT_VARINT_DATA_BITS, MQTT_VARINT_MAX_BYTES; lia).
  set (p := 7 * (4 - Z.of_nat (Datatypes.S k))) in *.
  assert (Hmax : forall part, 0 <= part < 128 -> value + part * 2 ^ p <= MQTT_VARINT_MAX).
  { intros part Hp. rewrite MQTT_VARINT_MAX_eq.
    assert (2 ^ p * 128 <= 268435456); [|nia].
    change 128 with (2 ^ 7). rewrite <- Z.pow_add_r by lia.
    change 268435456 with (2 ^ 28). apply Z.pow_le_mono_r; lia. }
  cbn [base128] in *. cbn [read_varint_loop]. rewrite Hsh.
  destruct (Z.ltb_spec v 128) as [Hlt|Hge].
  - destruct (read_byte s v rest Hg Hview) as [Hr _]. rewrite (bind_ok _ _ _ _ _ Hr).
    rewrite land_mask, (Z.mod_small v) by lia. rewrite lor_shift_add by lia.
    rewrite (proj2 (Z.ltb_ge _ _)) by (apply Hmax; lia).
    rewrite (land_continuation_lo v) by lia.
    cbn [Z.eqb]. replace (negb (p =? 0) && (v =? 0)) with false by lia.
    eexists. split; [done|]. done.
  - destruct (read_byte s (v mod 128 + 128) (base128 k (v / 128) ++ rest) Hg Hview)
      as (Hr & Hv' & Hg').
    rewrite (bind_ok _ _ _ _ _ Hr).
    rewrite land_mask. replace ((v mod 128 + 128) mod 128) with (v mod 128)
      by (rewrite (mod_hi (v mod 128 + 128)), Z.add_simpl_r by lia; done).
    rewrite lor_shift_add by lia.
    rewrite (proj2 (Z.ltb_ge _ _)) by (apply Hmax; lia).
    rewrite (land_continuation_hi (v mod 128 + 128)) by lia.
    cbn [Z.eqb]. change (128 =? 0) with false. cbn iota.
    assert (Hp7 : 2 ^ (7 * (4 - Z.of_nat k)) = 2 ^ p * 128).
    { change 128 with (2 ^ 7). rewrite <- Z.pow_add_r by lia. f_equal. lia. }
    assert (v / 128 < 128 ^ Z.of_nat k) by (apply Z.div_lt_upper_bound; lia).
    assert (0 < 2 ^ p) by (apply Z.pow_pos_nonneg; lia).
    destruct k as [|k]; [simpl in *; lia|].
    destruct (IH (value + v mod 128 * 2 ^ p) (v / 128) (adv s)) as (s' & Hl & Hs');
      [lia| |right|rewrite Hp7; nia|done|done|].
    + split; [apply Z.div_pos|]; lia.
    + apply Z.div_str_pos; lia.
    + exists s'. rewrite Hl, Hp7. split; [|done]. do 2 f_equal. nia.
Qed.

Hypothesis view_u8 : forall s, good s -> all_u8 (view s).
Hypothesis eof_invalid : eof <> invalid.

(** What one turn of the loop does, by the first byte of the view. *)
Lemma read_loop_step k value s :
  (0 < k <= 4)%nat -> 0 <= value < 2 ^ (7 * (4 - Z.of_nat k)) -> good s ->
  let p := 7 * (4 - Z.of_nat k) in
  match view s with
  | [] => read_varint_loop read invalid k value s = (s, Err eof)
  | b :: _ =>
      if b <? 128 then
        read_varint_loop read invalid k value s =
          (adv s, if negb (p =? 0) && (b =? 0) then Err invalid else Ok (value + b * 2 ^ p))
      else
        read_varint_loop read invalid k value s =
          read_varint_loop read invalid (pred k) (value + (b - 128) * 2 ^ p) (adv s)
        /\ 0 <= value + (b - 128) * 2 ^ p < 2 ^ (7 * (4 - Z.of_nat (pred k)))
  end.
Proof.
  intros Hk Hval Hg p. destruct k as [|k]; [lia|]. fold p in Hval.
  cbn [pred read_varint_loop].
  replace ((Z.of_nat MQTT_VARINT_MAX_BYTES - Z.of_nat (Datatypes.S k)) *
          MQTT_VARINT_DATA_BITS) with p
    by (unfold MQTT_VARINT_DATA_BITS, MQTT_VARINT_MAX_BYTES, p; lia).
  pose proof (view_u8 s Hg) as Hu8. destruct (view s) as [|b r] eqn:Hview.
  { by rewrite (bind_err _ _ _ _ _ (read_eof s Hg Hview)). }
  inversion_clear Hu8. unfold is_u8 in *.
  destruct (read_byte s b r Hg Hview) as [Hr _]. rewrite (bind_ok _ _ _ _ _ Hr).
  assert (Hp7 : 2 ^ (7 * (4 - Z.of_nat k)) = 2 ^ p * 128).
  { change 128 with (2 ^ 7). rewrite <- Z.pow_add_r by lia. f_equal. lia. }
  assert (2 ^ p * 128 <= 268435456).
  { rewrite <- Hp7. change 268435456 with (2 ^ 28). apply Z.pow_le_mono_r; lia. }
  assert (0 < 2 ^ p) by (apply Z.pow_pos_nonneg; lia).
  rewrite land_mask. destruct (Z.ltb_spec b 128) as [Hlt|Hge].
  - rewrite (Z.mod_small b), lor_shift_add by lia.
    rewrite (proj2 (Z.ltb_ge _ _)) by (rewrite MQTT_VARINT_MAX_eq; nia).
    rewrite land_continuation_lo by lia. cbn [Z.eqb]. by destruct (_ && _).
  - rewrite mod_hi, lor_shift_add by lia.
    rewrite (proj2 (Z.ltb_ge _ _)) by (rewrite MQTT_VARINT_MAX_eq; nia).
    rewrite land_continuation_hi by lia. split; [done|]. rewrite Hp7. nia.
Qed.

Lemma read_loop_canonical k value s s' w :
  (k <= 4)%nat -> 0 <= value < 2 ^ (7 * (4 - Z.of_nat k)) -> good s ->
  read_varint_loop read invalid k value s = (s', Ok w) ->
  exists v, 0 <= v < 128 ^ Z.of_nat k /\ (k = 4%nat \/ 0 < v) /\
    w = value + v * 2 ^ (7 * (4 - Z.of_nat k)) /\
    view s = base128 k v ++ view s' /\ s' = adv_n (length (base128 k v)) s.
Proof.
  revert value s. induction k as [|k IH]; intros value s Hk Hval Hg Hrun; [done|].
  pose proof (read_loop_step (Datatypes.S k) value s) as Hstep.
  specialize (Hstep ltac:(lia) Hval Hg). cbv zeta in Hstep.
  set (p := 7 * (4 - Z.of_nat (Datatypes.S k))) in *.
  pose proof (view_u8 s Hg) as Hu8.
  destruct (view s) as [|b r] eqn:Hview; [congruence|].
  inversion_clear Hu8. unfold is_u8 in *.
  destruct (read_byte s b r Hg Hview) as (_ & Hr & Hg').
  destruct (Z.ltb_spec b 128) as [Hlt|Hge].
  - destruct (negb (p =? 0) && (b =? 0)) eqn:Hz; [congruence|].
    exists b. cbn [base128]. rewrite (proj2 (Z.ltb_lt b 128)) by lia.
    assert (128 ^ 1 <= 128 ^ Z.of_nat (Datatypes.S k)) by (apply Z.pow_le_mono_r; lia).
    rewrite Hstep in Hrun. simplify_eq. simpl. repeat split; try done; lia.
  - destruct Hstep as [Hstep Hval']. rewrite Hstep in Hrun. cbn [pred] in *.
    destruct (IH _ _ ltac:(lia) Hval' Hg' Hrun) as (v & Hv & Hpos & -> & Hvw & ->).
    exists ((b - 128) + 128 * v). rewrite base128_step by lia.
    rewrite Nat2Z.inj_succ, Z.pow_succ_r by lia.
    assert (Hp7 : 2 ^ (7 * (4 - Z.of_nat k)) = 2 ^ p * 128).
    { change 128 with (2 ^ 7). rewrite <- Z.pow_add_r by lia. f_equal. lia. }
    rewrite Hp7. rewrite Hr in Hvw. simpl. rewrite <- Hvw.
    repeat split; try done; nia.
Qed.

Lemma read_loop_incomplete k value s s' :
  (k <= 4)%nat -> 0 <= value < 2 ^ (7 * (4 - Z.of_nat k)) -> good s ->
  read_varint_loop read invalid k value s = (s', Err eof) ->
  exists v b tl, 0 < v < 128 ^ Z.of_nat k /\ base128 k v = view s ++ b :: tl.
Proof.
  revert value s. induction k as [|k IH]; intros value s Hk Hval Hg Hrun;
    [simpl in Hrun; unfold raise in Hrun; congruence|].
  pose proof (read_loop_step (Datatypes.S k) value s) as Hstep.
  specialize (Hstep ltac:(lia) Hval Hg). cbv zeta in Hstep.
  rewrite Nat2Z.inj_succ, Z.pow_succ_r by lia.
  assert (0 < 128 ^ Z.of_nat k) by (apply Z.pow_pos_nonneg; lia).
  pose proof (view_u8 s Hg) as Hu8.
  destruct (view s) as [|b r] eqn:Hview; [exists 1, 1, []; split; [lia|done]|].
  inversion_clear Hu8. unfold is_u8 in *.
  destruct (read_byte s b r Hg Hview) as (_ & Hr & Hg').
  destruct (Z.ltb_spec b 128) as [Hlt|Hge].
  - destruct (_ && _); congruence.
  - destruct Hstep as [Hstep Hval']. rewrite Hstep in Hrun. cbn [pred] in *.
    destruct (IH _ _ ltac:(lia) Hval' Hg' Hrun) as (v & c & tl & Hv & Hvw).
    exists ((b - 128) + 128 * v), c, tl. rewrite base128_step by lia.
    rewrite Hr in Hvw. rewrite Hvw. split; [lia|done].
Qed.

Lemma read_loop_prefix k value v s b tl :
  (k <= 4)%nat -> 0 <= value < 2 ^ (7 * (4 - Z.of_nat k)) -> good s ->
  0 <= v < 128 ^ Z.of_nat k -> base128 k v = view s ++ b :: tl ->
  exists s', read_varint_loop read invalid k value s = (s', Err eof).
Proof.
  revert value v s. induction k as [|k IH]; intros value v s Hk Hval Hg Hv Hb;
    [by destruct (view s)|].
  pose proof (read_loop_step (Datatypes.S k) value s) as Hstep.
  specialize (Hstep ltac:(lia) Hval Hg). cbv zeta in Hstep.
  rewrite Nat2Z.inj_succ, Z.pow_succ_r in Hv by lia.
  destruct (view s) as [|x r] eqn:Hview; [eauto|].
  destruct (read_byte s x r Hg Hview) as (_ & Hr & Hg'). cbn [base128] in Hb.
  pose proof (Z.mod_pos_bound v 128).
  destruct (Z.ltb_spec v 128); injection Hb as <- Hb; [by destruct r|].
  rewrite (proj2 (Z.ltb_ge _ _)) in Hstep by lia. destruct Hstep as [-> Hval'].
  rewrite <- Hr in Hb. apply (IH _ (v / 128)); [lia|done|done| |done].
  split; [apply Z.div_pos|apply Z.div_lt_upper_bound]; lia.
Qed.
End Reader.

(** * [encoded_len] is the length of the encoding *)

Lemma encoded_len_loop_spec n fuel v len :
  (0 < n <= fuel)%nat -> 0 <= v < 128 ^ Z.of_nat n ->
  encoded_len_loop fuel v len = len - 1 + zlen (base128 n v).
Proof.
  revert fuel v len. induction n as [|n IH]; intros [|fuel] v len Hn Hv; try lia.
  rewrite Nat2Z.inj_succ, Z.pow_succ_r in Hv by lia.
  cbn [encoded_len_loop base128]. change MQTT_VARINT_BASE with 128.
  destruct (Z.leb_spec 128 v), (Z.ltb_spec v 128); try lia; [|zlia].
  assert (v / 128 < 128 ^ Z.of_nat n) by (apply Z.div_lt_upper_bound; lia).
  assert (1 <= v / 128) by (apply Z.div_le_lower_bound; lia).
  destruct n as [|n]; [simpl in *; lia|].
  rewrite IH by lia. zlia.
Qed.

(** * Probing a receive buffer *)

Section Probe.
Context (bs : bytes).

Let good (len : Z) : Prop := 0 <= len.
Let view (len : Z) : bytes := zdrop len bs.
Let adv (len : Z) : Z := len + 1.

Local Lemma probe_byte s b r :
  good s -> view s = b :: r ->
  probe_read bs s = (adv s, Ok b) /\ view (adv s) = r /\ good (adv s).
Proof.
  intros Hg Hv. destruct (zdrop_cons_zget _ _ _ _ Hg Hv) as [Hget ->].
  unfold probe_read. rewrite Hget. unfold good, adv, view in *. split_and!; [done|done|lia].
Qed.

Local Lemma probe_eof s : good s -> view s = [] -> probe_read bs s = (s, Err Incomplete).
Proof.
  intros Hg Hv. unfold probe_read. destruct (zget bs s) eqn:Hz; [|done].
  apply zget_zdrop in Hz. unfold view in Hv. congruence.
Qed.

Local Lemma probe_adv_n n s : adv_n adv n s = s + Z.of_nat n.
Proof. revert s. induction n as [|n IH]; intros s; simpl; [lia|]. rewrite IH. unfold adv. lia. Qed.

Lemma probe_varint_bytes v rest :
  0 <= v <= MQTT_VARINT_MAX -> bs = varint_bytes v ++ rest ->
  probe_mqtt_u32_varint bs = Ok (Some (v, zlen (varint_bytes v))).
Proof.
  intros Hv Hbs. rewrite MQTT_VARINT_MAX_eq in Hv.
  destruct (read_loop_ok (probe_read bs) Invalid good view adv probe_byte
              4 0 v 0 rest) as (s' & Hr & Hs'); try done; try lia.
  unfold probe_mqtt_u32_varint, read_mqtt_u32_varint.
  change MQTT_VARINT_MAX_BYTES with 4%nat. rewrite Hr, Hs', probe_adv_n.
  simpl Z.sub. rewrite Z.mul_0_r, Z.pow_0_r, Z.mul_1_r. done.
Qed.

Hypothesis bs_u8 : all_u8 bs.

Local Lemma probe_u8 s : good s -> all_u8 (view s).
Proof. intros _. unfold view, zdrop. by apply Forall_drop. Qed.

Lemma probe_inv v n :
  probe_mqtt_u32_varint bs = Ok (Some (v, n)) ->
  0 <= v <= MQTT_VARINT_MAX /\ n = zlen (varint_bytes v) /\
  bs = varint_bytes v ++ zdrop n bs.
Proof.
  unfold probe_mqtt_u32_varint, read_mqtt_u32_varint.
  destruct (read_varint_loop _ _ _ _ _) as [s' [w|[]]] eqn:Hrun; intros H; simplify_eq.
  destruct (read_loop_canonical (probe_read bs) Invalid good view adv Incomplete
              probe_byte probe_eof probe_u8 4 0 0 n v)
    as (u & Hu & _ & -> & Hvw & ->); try done.
  simpl Z.sub in *. rewrite Z.mul_0_r, Z.pow_0_r, Z.mul_1_r, Z.add_0_l.
  rewrite probe_adv_n in *. rewrite MQTT_VARINT_MAX_eq. split_and!.
  - lia.
  - change (128 ^ Z.of_nat 4) with 268435456 in Hu. lia.
  - done.
  - unfold view in Hvw at 1. by rewrite zdrop_0 in Hvw.
Qed.

Lemma probe_none :
  probe_mqtt_u32_varint bs = Ok None <->
  exists v b tl, 0 <= v <= MQTT_VARINT_MAX /\ varint_bytes v = bs ++ b :: tl.
Proof.
  rewrite MQTT_VARINT_MAX_eq.
  unfold probe_mqtt_u32_varint, read_mqtt_u32_varint, varint_bytes.
  change MQTT_VARINT_MAX_BYTES with 4%nat. split.
  - destruct (read_varint_loop _ _ _ _ _) as [s' [w|[]]] eqn:Hrun; intros H; simplify_eq.
    destruct (read_loop_incomplete (probe_read bs) Invalid good view adv Incomplete
                probe_byte probe_eof probe_u8 ltac:(done) 4 0 0 s')
      as (v & b & tl & Hv & Hb); try done.
    change (128 ^ Z.of_nat 4) with 268435456 in Hv.
    exists v, b, tl. split; [lia|done].
  - intros (v & b & tl & Hv & Hb).
    destruct (read_loop_prefix (probe_read bs) Invalid good view adv Incomplete
                probe_byte probe_eof probe_u8 4 0 v 0 b tl) as (s' & ->); try done.
    change (128 ^ Z.of_nat 4) with 268435456. lia.
Qed.
End Probe.

(** * Properties *)

(** Encoding a value of the MQTT range succeeds, and probing any buffer
    that starts with the encoding returns that value and the length of the
    encoding, whatever follows it. *)
Theorem varint_roundtrip v rest :
  0 <= v <= MQTT_VARINT_MAX ->
  exists b, write_mqtt_u32_varint v VarintBuffer_new = (b, Ok tt) /\
    probe_mqtt_u32_varint (as_slice b ++ rest) = Ok (Some (v, zlen (as_slice b))).
Proof.
  intros Hv. destruct (write_varint_spec v Hv) as (b & Hw & Hb).
  exists b. split; [done|]. rewrite Hb. by apply probe_varint_bytes with rest.
Qed.

Lemma varint_roundtrip_witness :
  exists b, write_mqtt_u32_varint 16384 VarintBuffer_new = (b, Ok tt) /\
    probe_mqtt_u32_varint (as_slice b ++ [7]) = Ok (Some (16384, zlen (as_slice b))).
Proof. apply (varint_roundtrip 16384 [7]). rewrite MQTT_VARINT_MAX_eq. lia. Defined.

(** C31: the decoder is canonical: whenever probing accepts a prefix of the
    buffer as the integer [v], that prefix is exactly what the encoder writes
    for [v], so no value has two accepted encodings. *)
Theorem varint_canonical bs v n :
  all_u8 bs -> probe_mqtt_u32_varint bs = Ok (Some (v, n)) ->
  exists b, write_mqtt_u32_varint v VarintBuffer_new = (b, Ok tt) /\
    as_slice b = ztake n bs /\ 1 <= n <= 4.
Proof.
  intros Hu8 Hp. destruct (probe_inv bs Hu8 v n Hp) as (Hv & -> & Hbs).
  destruct (write_varint_spec v Hv) as (b & Hw & Hb). exists b.
  split_and!; [done| |apply varint_bytes_length; lia|apply varint_bytes_length; lia].
  rewrite Hb, Hbs. by rewrite ztake_app_exact.
Qed.

Lemma varint_canonical_witness :
  exists b, write_mqtt_u32_varint 128 VarintBuffer_new = (b, Ok tt) /\
    as_slice b = ztake 2 [128; 1; 9] /\ 1 <= 2 <= 4.
Proof.
  apply (varint_canonical [128; 1; 9] 128 2); [|vm_compute; reflexivity].
  repeat constructor; unfold is_u8; lia.
Defined.

(** Probing asks for more bytes exactly when the buffer is a proper prefix
    of the encoding of some value: a good prefix is never rejected and a
    hopeless one is never waited on. *)
Theorem varint_incomplete_iff bs :
  all_u8 bs ->
  probe_mqtt_u32_varint bs = Ok None <->
  exists v b tl, 0 <= v <= MQTT_VARINT_MAX /\ varint_bytes v = bs ++ b :: tl.
Proof. apply probe_none. Qed.

Lemma varint_incomplete_iff_witness :
  probe_mqtt_u32_varint [255; 255] = Ok None <->
  exists v b tl, 0 <= v <= MQTT_VARINT_MAX /\ varint_bytes v = [255; 255] ++ b :: tl.
Proof. apply varint_incomplete_iff. repeat constructor; unfold is_u8; lia. Defined.

(** [encoded_len], which the property sizes rest on, is the number of
    bytes the encoder writes. *)
Theorem encoded_len_correct v :
  0 <= v <= MQTT_VARINT_MAX ->
  encoded_len (mkVarint v) =
    zlen (as_slice (fst (write_mqtt_u32_varint v VarintBuffer_new))).
Proof.
  intros Hv. destruct (write_varint_spec v Hv) as (b & Hw & Hb).
  rewrite Hw. simpl fst. rewrite Hb. unfold encoded_len. cbn [varint_value].
  rewrite (encoded_len_loop_spec 4);
    [unfold varint_bytes, MQTT_VARINT_MAX_BYTES; lia|lia|].
  rewrite MQTT_VARINT_MAX_eq in Hv. change (128 ^ Z.of_nat 4) with 268435456. lia.
Qed.

Lemma encoded_len_correct_witness :
  encoded_len (mkVarint 300) =
    zlen (as_slice (fst (write_mqtt_u32_varint 300 VarintBuffer_new))).
Proof. apply encoded_len_correct. rewrite MQTT_VARINT_MAX_eq. lia. Defined.
