(* ===== verification/Types.v ===== *)
(** Shared data types: the enums and errors of [src/minimq/src/lib.rs],
    [src/minimq/src/reason_codes.rs] and [src/minimq/src/types.rs].

    Each Rust enum is an inductive type in a module of its own, so that the
    constructors keep their source names ([QoS.AtLeastOnce],
    [ReasonCode.Success]); the discriminants of [#[repr(u8)]] enums are
    explicit functions. *)

From S2P Require Import Prelude.

Module QoS.
Inductive QoS : Type := AtMostOnce | AtLeastOnce | ExactlyOnce.
End QoS.
Abbreviation QoS := QoS.QoS.

Definition qos_u8 (q : QoS) : Z :=
  match q with QoS.AtMostOnce => 0 | QoS.AtLeastOnce => 1 | QoS.ExactlyOnce => 2 end.

(** [QoS::try_from(u8)], derived by [TryFromPrimitive]. *)
Definition qos_try_from (b : Z) : option QoS :=
  if b =? 0 then Some QoS.AtMostOnce
  else if b =? 1 then Some QoS.AtLeastOnce
  else if b =? 2 then Some QoS.ExactlyOnce
  else None.

(** The derived order of [QoS] is that of its discriminants. *)
Definition qos_gt (a b : QoS) : bool := qos_u8 b <? qos_u8 a.

Module Retain.
Inductive Retain : Type := NotRetained | Retained.
End Retain.
Abbreviation Retain := Retain.Retain.

#[export] Instance QoS_eq_dec : EqDecision QoS.
Proof. solve_decision. Defined.
#[export] Instance Retain_eq_dec : EqDecision Retain.
Proof. solve_decision. Defined.

(** * Reason codes *)

Module ReasonCode.
Inductive ReasonCode : Type :=
| Success
| GrantedQos1
| GrantedQos2
| DisconnectWithWill
| NoMatchingSubscribers
| NoSubscriptionExisted
| ContinueAuthentication
| Reauthenticate
| UnspecifiedError
| MalformedPacket
| ProtocolError
| ImplementationError
| UnsupportedProtocol
| ClientIdentifierInvalid
| BadUsernameOrPassword
| NotAuthorized
| ServerUnavailable
| ServerBusy
| BadAuthMethod
| KeepAliveTimeout
| SessionTakenOver
| TopicFilterInvalid
| TopicNameInvalid
| PacketIdInUse
| PacketIdNotFound
| ReceiveMaxExceeded
| TopicAliasInvalid
| PacketTooLarge
| MessageRateTooHigh
| QuotaExceeded
| AdministrativeAction
| PayloadFormatInvalid
| RetainNotSupported
| QoSNotSupported
| UseAnotherServer
| ServerMoved
| SharedSubscriptionsNotSupported
| ConnectionRateExceeded
| MaximumConnectTime
| SubscriptionIdentifiersNotSupported
| WildcardSubscriptionsNotSupported
| Unknown.
End ReasonCode.
Abbreviation ReasonCode := ReasonCode.ReasonCode.

#[export] Instance ReasonCode_eq_dec : EqDecision ReasonCode.
Proof. solve_decision. Defined.

(** The discriminants ([IntoPrimitive]). *)
Definition reason_code_u8 (c : ReasonCode) : Z :=
  match c with
  | ReasonCode.Success => 0
  | ReasonCode.GrantedQos1 => 1
  | ReasonCode.GrantedQos2 => 2
  | ReasonCode.DisconnectWithWill => 4
  | ReasonCode.NoMatchingSubscribers => 16
  | ReasonCode.NoSubscriptionExisted => 17
  | ReasonCode.ContinueAuthentication => 24
  | ReasonCode.Reauthenticate => 25
  | ReasonCode.UnspecifiedError => 128
  | ReasonCode.MalformedPacket => 129
  | ReasonCode.ProtocolError => 130
  | ReasonCode.ImplementationError => 131
  | ReasonCode.UnsupportedProtocol => 132
  | ReasonCode.ClientIdentifierInvalid => 133
  | ReasonCode.BadUsernameOrPassword => 134
  | ReasonCode.NotAuthorized => 135
  | ReasonCode.ServerUnavailable => 136
  | ReasonCode.ServerBusy => 137
  | ReasonCode.BadAuthMethod => 140
  | ReasonCode.KeepAliveTimeout => 141
  | ReasonCode.SessionTakenOver => 142
  | ReasonCode.TopicFilterInvalid => 143
  | ReasonCode.TopicNameInvalid => 144
  | ReasonCode.PacketIdInUse => 145
  | ReasonCode.PacketIdNotFound => 146
  | ReasonCode.ReceiveMaxExceeded => 147
  | ReasonCode.TopicAliasInvalid => 148
  | ReasonCode.PacketTooLarge => 149
  | ReasonCode.MessageRateTooHigh => 150
  | ReasonCode.QuotaExceeded => 151
  | ReasonCode.AdministrativeAction => 152
  | ReasonCode.PayloadFormatInvalid => 153
  | ReasonCode.RetainNotSupported => 154
  | ReasonCode.QoSNotSupported => 155
  | ReasonCode.UseAnotherServer => 156
  | ReasonCode.ServerMoved => 157
  | ReasonCode.SharedSubscriptionsNotSupported => 158
  | ReasonCode.ConnectionRateExceeded => 159
  | ReasonCode.MaximumConnectTime => 160
  | ReasonCode.SubscriptionIdentifiersNotSupported => 161
  | ReasonCode.WildcardSubscriptionsNotSupported => 162
  | ReasonCode.Unknown => 255
  end.

(** [ReasonCode::from(u8)], derived by [FromPrimitive] with [Unknown] as the
    default of the values that are no discriminant. *)
Definition reason_code_from (b : Z) : ReasonCode :=
  if b =? 0 then ReasonCode.Success else
  if b =? 1 then ReasonCode.GrantedQos1 else
  if b =? 2 then ReasonCode.GrantedQos2 else
  if b =? 4 then ReasonCode.DisconnectWithWill else
  if b =? 16 then ReasonCode.NoMatchingSubscribers else
  if b =? 17 then ReasonCode.NoSubscriptionExisted else
  if b =? 24 then ReasonCode.ContinueAuthentication else
  if b =? 25 then ReasonCode.Reauthenticate else
  if b =? 128 then ReasonCode.UnspecifiedError else
  if b =? 129 then ReasonCode.MalformedPacket else
  if b =? 130 then ReasonCode.ProtocolError else
  if b =? 131 then ReasonCode.ImplementationError else
  if b =? 132 then ReasonCode.UnsupportedProtocol else
  if b =? 133 then ReasonCode.ClientIdentifierInvalid else
  if b =? 134 then ReasonCode.BadUsernameOrPassword else
  if b =? 135 then ReasonCode.NotAuthorized else
  if b =? 136 then ReasonCode.ServerUnavailable else
  if b =? 137 then ReasonCode.ServerBusy else
  if b =? 140 then ReasonCode.BadAuthMethod else
  if b =? 141 then ReasonCode.KeepAliveTimeout else
  if b =? 142 then ReasonCode.SessionTakenOver else
  if b =? 143 then ReasonCode.TopicFilterInvalid else
  if b =? 144 then ReasonCode.TopicNameInvalid else
  if b =? 145 then ReasonCode.PacketIdInUse else
  if b =? 146 then ReasonCode.PacketIdNotFound else
  if b =? 147 then ReasonCode.ReceiveMaxExceeded else
  if b =? 148 then ReasonCode.TopicAliasInvalid else
  if b =? 149 then ReasonCode.PacketTooLarge else
  if b =? 150 then ReasonCode.MessageRateTooHigh else
  if b =? 151 then ReasonCode.QuotaExceeded else
  if b =? 152 then ReasonCode.AdministrativeAction else
  if b =? 153 then ReasonCode.PayloadFormatInvalid else
  if b =? 154 then ReasonCode.RetainNotSupported else
  if b =? 155 then ReasonCode.QoSNotSupported else
  if b =? 156 then ReasonCode.UseAnotherServer else
  if b =? 157 then ReasonCode.ServerMoved else
  if b =? 158 then ReasonCode.SharedSubscriptionsNotSupported else
  if b =? 159 then ReasonCode.ConnectionRateExceeded else
  if b =? 160 then ReasonCode.MaximumConnectTime else
  if b =? 161 then ReasonCode.SubscriptionIdentifiersNotSupported else
  if b =? 162 then ReasonCode.WildcardSubscriptionsNotSupported else
  ReasonCode.Unknown.

Definition success (c : ReasonCode) : bool := reason_code_u8 c <? 128.
Definition failed (c : ReasonCode) : bool := negb (success c).

(** * Errors *)

Module ConfigError.
Inductive ConfigError : Type :=
| BufferSplit | ClientIdTooLong | TopicTooLong | DuplicateConfig | InvalidConfig.
End ConfigError.
Abbreviation ConfigError := ConfigError.ConfigError.

Module PeerError.
Inductive PeerError : Type := Rejected (code : ReasonCode) | InvalidPacket.
End PeerError.
Abbreviation PeerError := PeerError.PeerError.

Module ResourceError.
Inductive ResourceError : Type := BufferTooSmall | PacketTooLarge | InflightExhausted.
End ResourceError.
Abbreviation ResourceError := ResourceError.ResourceError.

(** [ser::Error] and [de::Error]. *)
Module SerError.
Inductive SerError : Type := InsufficientMemory | Custom.
End SerError.
Abbreviation SerError := SerError.SerError.

Module DeError.
Inductive DeError : Type := Custom | BadString | BadBool | BadVarint | InsufficientData.
End DeError.
Abbreviation DeError := DeError.DeError.

(** [ser::PubError]. *)
Module SerPubError.
Inductive SerPubError (P : Type) : Type := Encode (e : SerError) | Payload (e : P).
Arguments Encode {P} e.
Arguments Payload {P} e.
End SerPubError.
Abbreviation SerPubError := SerPubError.SerPubError.

Module ProtocolError.
Inductive ProtocolError : Type :=
| UnexpectedPacket | MalformedPacket | InflightMetadataExhausted | PacketTooLarge
| Encode (e : SerError) | Deserialization (e : DeError).
End ProtocolError.
Abbreviation ProtocolError := ProtocolError.ProtocolError.

(** [crate::Error<E>], with [E] the transport's error type. *)
Module Error.
Inductive Error (E : Type) : Type :=
| NotReady | Disconnected | InvalidRequest | Peer (e : PeerError)
| Resource (e : ResourceError) | Transport (e : E) | WriteZero.
Arguments NotReady {E}.
Arguments Disconnected {E}.
Arguments InvalidRequest {E}.
Arguments Peer {E} e.
Arguments Resource {E} e.
Arguments Transport {E} e.
Arguments WriteZero {E}.
End Error.
Abbreviation Error := Error.Error.

(** [crate::PubError<P, T>]. *)
Module PubError.
Inductive PubError (P T : Type) : Type := Session (e : Error T) | Payload (e : P).
Arguments Session {P T} e.
Arguments Payload {P T} e.
End PubError.
Abbreviation PubError := PubError.PubError.

Definition error_of_ser {E} (e : SerError) : Error E :=
  match e with
  | SerError.InsufficientMemory => Error.Resource ResourceError.BufferTooSmall
  | SerError.Custom => Error.InvalidRequest
  end.

Definition error_of_protocol {E} (p : ProtocolError) : Error E :=
  match p with
  | ProtocolError.UnexpectedPacket
  | ProtocolError.MalformedPacket
  | ProtocolError.Deserialization _ => Error.Peer PeerError.InvalidPacket
  | ProtocolError.InflightMetadataExhausted =>
      Error.Resource ResourceError.InflightExhausted
  | ProtocolError.PacketTooLarge => Error.Resource ResourceError.PacketTooLarge
  | ProtocolError.Encode e => error_of_ser e
  end.

Definition pub_error_of_ser {P T} (e : SerPubError P) : PubError P T :=
  match e with
  | SerPubError.Payload e => PubError.Payload e
  | SerPubError.Encode e => PubError.Session (error_of_ser e)
  end.

Definition pub_error_of_protocol {P T} (e : ProtocolError) : PubError P T :=
  PubError.Session (error_of_protocol e).

(** [ReasonCode::as_result]. *)
Definition as_result (c : ReasonCode) : result PeerError unit :=
  if success c then Ok tt else Err (PeerError.Rejected c).

(** * Subscription options *)

Module RetainHandling.
Inductive RetainHandling : Type := Immediately | IfSubscriptionDoesNotExist | Never.
End RetainHandling.
Abbreviation RetainHandling := RetainHandling.RetainHandling.

Definition retain_handling_u8 (r : RetainHandling) : Z :=
  match r with
  | RetainHandling.Immediately => 0
  | RetainHandling.IfSubscriptionDoesNotExist => 1
  | RetainHandling.Never => 2
  end.

Record SubscriptionOptions : Type := mkSubscriptionOptions {
  so_maximum_qos : QoS;
  so_no_local : bool;
  so_retain_as_published : bool;
  so_retain_behavior : RetainHandling
}.

Definition SubscriptionOptions_default : SubscriptionOptions :=
  mkSubscriptionOptions QoS.AtMostOnce false false RetainHandling.Immediately.

Definition maximum_qos (o : SubscriptionOptions) (qos : QoS) : SubscriptionOptions :=
  mkSubscriptionOptions qos (so_no_local o) (so_retain_as_published o) (so_retain_behavior o).

Definition retain_behavior (o : SubscriptionOptions) (h : RetainHandling) : SubscriptionOptions :=
  mkSubscriptionOptions (so_maximum_qos o) (so_no_local o) (so_retain_as_published o) h.

Definition ignore_local_messages (o : SubscriptionOptions) : SubscriptionOptions :=
  mkSubscriptionOptions (so_maximum_qos o) true (so_retain_as_published o) (so_retain_behavior o).

Definition retain_as_published (o : SubscriptionOptions) : SubscriptionOptions :=
  mkSubscriptionOptions (so_maximum_qos o) (so_no_local o) true (so_retain_behavior o).

Definition SUBSCRIPTION_NO_LOCAL_FLAG : Z := Z.shiftl 1 2.
Definition SUBSCRIPTION_RETAIN_AS_PUBLISHED_FLAG : Z := Z.shiftl 1 3.
Definition SUBSCRIPTION_RETAIN_HANDLING_SHIFT : Z := 4.

(** The option byte that [SubscriptionOptions::serialize] emits. *)
Definition subscription_options_byte (o : SubscriptionOptions) : Z :=
  let value := qos_u8 (so_maximum_qos o) in
  let value := if so_no_local o then Z.lor value SUBSCRIPTION_NO_LOCAL_FLAG else value in
  let value := if so_retain_as_published o
               then Z.lor value SUBSCRIPTION_RETAIN_AS_PUBLISHED_FLAG else value in
  Z.lor value (Z.shiftl (retain_handling_u8 (so_retain_behavior o))
                        SUBSCRIPTION_RETAIN_HANDLING_SHIFT).

Record TopicFilter : Type := mkTopicFilter {
  tf_topic : bytes;
  tf_options : SubscriptionOptions
}.

Definition TopicFilter_new (topic : bytes) : TopicFilter :=
  mkTopicFilter topic SubscriptionOptions_default.

Definition TopicFilter_options (t : TopicFilter) (o : SubscriptionOptions) : TopicFilter :=
  mkTopicFilter (tf_topic t) o.

(** Username and password of a CONNECT. *)
Record Auth : Type := mkAuth { user_name : bytes; password : bytes }.

(** * Lemmas *)

Lemma qos_try_from_u8 q : qos_try_from (qos_u8 q) = Some q.
Proof. by destruct q. Qed.

Lemma reason_code_from_u8 c : reason_code_from (reason_code_u8 c) = c.
Proof. by destruct c. Qed.

Lemma reason_code_is_u8 c : is_u8 (reason_code_u8 c).
Proof. destruct c; unfold is_u8; simpl; lia. Qed.

Lemma subscription_options_u8 o : is_u8 (subscription_options_byte o).
Proof. destruct o as [[] [] [] []]; unfold is_u8; vm_compute; split; discriminate || done. Qed.

(** An unassigned reason code counts as a failure: the default [Unknown] of
    [reason_code_from] lies in the error range. *)
Lemma reason_code_from_success b :
  is_u8 b -> success (reason_code_from b) = true -> b < 128.
Proof.
  intros Hb. assert (forall b, is_u8 b ->
    (negb (success (reason_code_from b)) || (b <? 128)) = true) as Hall
    by (apply is_u8_forall; vm_compute; reflexivity).
  specialize (Hall b Hb). intros H. rewrite H in Hall. simpl in Hall. lia.
Qed.
