(* ===== verification/Io.v ===== *)
(** The environment of a session: transport and clock.

    [embedded_io_async] and [embassy_time] are not part of the repository; they
    are the classes [Transport] and [Time] here, with what the code relies on
    as laws. Async functions are state-passing computations that may also be
    dropped at an [.await]: the outcome [None] is a future that is never
    polled again, and the state is what the caller finds then. The module
    [Scripted] is a transport that follows a script, used to run the model. *)

From S2P Require Import Prelude Types.

(** * Async computations *)

Definition Async (S E A : Type) : Type := S -> S * option (result E A).

Section Async.
Context {S E : Type}.

Definition aret {A} (a : A) : Async S E A := fun s => (s, Some (Ok a)).
Definition araise {A} (e : E) : Async S E A := fun s => (s, Some (Err e)).

Definition abind {A B} (m : Async S E A) (k : A -> Async S E B) : Async S E B :=
  fun s => match m s with
           | (s', Some (Ok a)) => k a s'
           | (s', Some (Err e)) => (s', Some (Err e))
           | (s', None) => (s', None)
           end.

(** A synchronous step. *)
Definition sync {A} (m : ST S E A) : Async S E A :=
  fun s => let '(s', r) := m s in (s', Some r).

Definition alift {A} (r : result E A) : Async S E A := fun s => (s, Some r).
Definition aget {A} (f : S -> A) : Async S E A := fun s => (s, Some (Ok (f s))).
Definition amodify (f : S -> S) : Async S E unit := fun s => (f s, Some (Ok tt)).

Lemma abind_ok {A B} (m : Async S E A) (k : A -> Async S E B) s s' a :
  m s = (s', Some (Ok a)) -> abind m k s = k a s'.
Proof. unfold abind. by intros ->. Qed.

Lemma abind_err {A B} (m : Async S E A) (k : A -> Async S E B) s s' e :
  m s = (s', Some (Err e)) -> abind m k s = (s', Some (Err e)).
Proof. unfold abind. by intros ->. Qed.

Lemma abind_amodify {B} f (k : unit -> Async S E B) s : abind (amodify f) k s = k tt (f s).
Proof. done. Qed.

Lemma abind_aget {A B} (f : S -> A) (k : A -> Async S E B) s : abind (aget f) k s = k (f s) s.
Proof. done. Qed.

(** A property of the state that every step keeps, also when it fails or is
    dropped. *)
Definition keeps (P : S -> Prop) {A} (m : Async S E A) : Prop :=
  forall s, P s -> P (fst (m s)).

Lemma keeps_aret P {A} (a : A) : keeps P (aret a).
Proof. by intros s. Qed.

Lemma keeps_araise P {A} e : keeps P (@araise A e).
Proof. by intros s. Qed.

Lemma keeps_abind P {A B} (m : Async S E A) (k : A -> Async S E B) :
  keeps P m -> (forall a, keeps P (k a)) -> keeps P (abind m k).
Proof.
  intros Hm Hk s Hs. specialize (Hm s Hs). unfold abind.
  destruct (m s) as [s' [[a|e]|]]; simpl in *; [by apply Hk|done|done].
Qed.

(** The same, when the rest relies on what [m] returned. *)
Lemma keeps_abind_result P {A B} (Q : A -> Prop) (m : Async S E A) (k : A -> Async S E B) :
  keeps P m -> (forall s s' a, P s -> m s = (s', Some (Ok a)) -> Q a) ->
  (forall a, Q a -> keeps P (k a)) -> keeps P (abind m k).
Proof.
  intros Hm HQ Hk s Hs. pose proof (Hm s Hs) as Hs'. specialize (HQ s). unfold abind.
  destruct (m s) as [s' [[a|e]|]]; simpl in *; [|done|done]. by apply (Hk a); [eapply HQ|].
Qed.

Lemma abind_inv_ok {A B} (m : Async S E A) (k : A -> Async S E B) s s' b :
  abind m k s = (s', Some (Ok b)) ->
  exists s1 a, m s = (s1, Some (Ok a)) /\ k a s1 = (s', Some (Ok b)).
Proof. unfold abind. destruct (m s) as [s1 [[a|e]|]]; try done. by exists s1, a. Qed.

Lemma keeps_aget P {A} (f : S -> A) : keeps P (aget f).
Proof. by intros s. Qed.

Lemma keeps_alift P {A} (r : result E A) : keeps P (alift r).
Proof. by intros s. Qed.

Lemma keeps_amodify P f : (forall s, P s -> P (f s)) -> keeps P (amodify f).
Proof. intros Hf s Hs. by apply Hf. Qed.

(** * Loops

    One turn of a [loop]: [None] goes on with the next turn, [Some a] leaves
    the loop. [aloop] runs at most [fuel] turns; its outcome [None] means that
    they were not enough. *)
Fixpoint aloop {A} (fuel : nat) (body : Async S E (option A)) (s : S)
  : S * option (option (result E A)) :=
  match fuel with
  | O => (s, None)
  | Datatypes.S fuel' =>
      match body s with
      | (s', Some (Ok None)) => aloop fuel' body s'
      | (s', Some (Ok (Some a))) => (s', Some (Some (Ok a)))
      | (s', Some (Err e)) => (s', Some (Some (Err e)))
      | (s', None) => (s', Some None)
      end
  end.

(** A loop run with fuel that depends on the state it starts from. *)
Definition arun {A} (fuel : S -> nat) (body : Async S E (option A)) : Async S E A :=
  fun s => let '(s', r) := aloop (fuel s) body s in
           (s', match r with Some r => r | None => None end).

Lemma aloop_keeps P {A} (body : Async S E (option A)) fuel s :
  keeps P body -> P s -> P (fst (aloop fuel body s)).
Proof.
  intros Hb. revert s. induction fuel as [|fuel IH]; intros s Hs; simpl; [done|].
  specialize (Hb s Hs). destruct (body s) as [s' [[[a|]|e]|]]; simpl in *; auto.
Qed.

Lemma keeps_arun P {A} fuel (body : Async S E (option A)) :
  keeps P body -> keeps P (arun fuel body).
Proof.
  intros Hb s Hs. unfold arun. pose proof (aloop_keeps P body (fuel s) s Hb Hs).
  by destruct (aloop _ body s).
Qed.

(** A loop whose turns decrease a measure ends within it. *)
Lemma aloop_ends (I : S -> Prop) (measure : S -> nat) {A} (body : Async S E (option A)) fuel s :
  (forall s s', I s -> body s = (s', Some (Ok None)) -> I s' /\ (measure s' < measure s)%nat) ->
  I s -> (measure s < fuel)%nat -> snd (aloop fuel body s) <> None.
Proof.
  intros Hb. revert s. induction fuel as [|fuel IH]; intros s Hs Hf; simpl; [lia|].
  destruct (body s) as [s' [[[a|]|e]|]] eqn:Hbody; try done.
  destruct (Hb s s' Hs Hbody). apply IH; [done|lia].
Qed.

(** The rule for loops: an invariant of the turns, and what holds when the
    loop is left. *)
Lemma arun_rule (I : S -> Prop) {A} (Q : S -> option (result E A) -> Prop) (measure : S -> nat)
    (body : Async S E (option A)) s :
  (forall s, I s ->
     match body s with
     | (s', Some (Ok None)) => I s' /\ (measure s' < measure s)%nat
     | (s', Some (Ok (Some a))) => Q s' (Some (Ok a))
     | (s', Some (Err e)) => Q s' (Some (Err e))
     | (s', None) => Q s' None
     end) ->
  I s -> let '(s', r) := arun (fun s => Datatypes.S (measure s)) body s in Q s' r.
Proof.
  intros Hb Hs. unfold arun.
  assert (forall fuel s, I s -> (measure s < fuel)%nat ->
    exists s' r, aloop fuel body s = (s', Some r) /\ Q s' r) as Hgen.
  { clear s Hs. induction fuel as [|fuel IH]; intros s Hs Hf; [lia|]. simpl.
    specialize (Hb s Hs). destruct (body s) as [s' [[[a|]|e]|]]; eauto.
    destruct Hb. apply IH; [done|lia]. }
  destruct (Hgen (Datatypes.S (measure s)) s Hs ltac:(lia)) as (s' & r & -> & HQ). done.
Qed.

(** More fuel does not change the outcome of a loop that ends. *)
Lemma aloop_more {A} (body : Async S E (option A)) n m s :
  snd (aloop n body s) <> None -> (n <= m)%nat -> aloop m body s = aloop n body s.
Proof.
  revert m s. induction n as [|n IH]; intros m s Hn Hm; simpl in *; [done|].
  destruct m as [|m]; [lia|]. simpl.
  destruct (body s) as [s' [[[a|]|e]|]]; try done. apply IH; [done|lia].
Qed.
End Async.

Notation "'let*' x ':=' m 'in' k" := (abind m (fun x => k))
  (at level 10, x name, m at level 100, k at level 200,
   format "'let*'  x  ':='  m  'in' '//' k") : minimq_scope.
Notation "'do*' m 'in' k" := (abind m (fun _ => k))
  (at level 10, m at level 100, k at level 200,
   format "'do*'  m  'in' '//' k") : minimq_scope.

Create HintDb async.
#[export] Hint Resolve keeps_aret keeps_araise keeps_abind keeps_aget keeps_alift
  keeps_amodify keeps_arun : async.

(** * Transport

    [io_read io n]: a read into a buffer of [n] bytes; its result is the bytes
    received. [io_write io bs]: a write of [bs]; its result is how many were
    accepted. [None] is a future dropped while it is pending. *)
Class Transport (IO E : Type) : Type := {
  io_read : IO -> Z -> IO * option (result E bytes);
  io_write : IO -> bytes -> IO * option (result E Z);
  io_flush : IO -> IO * option (result E unit);
  (** the contract of [embedded_io_async::Read] and [Write] *)
  io_read_fits : forall io n io' bs,
    io_read io n = (io', Some (Ok bs)) -> 0 <= n -> zlen bs <= n /\ all_u8 bs;
  io_write_fits : forall io bs io' n,
    io_write io bs = (io', Some (Ok n)) -> 0 <= n <= zlen bs
}.

(** A transport that delivers a byte stream, in chunks of its own choice, as
    long as data is pending. *)
Class Streaming (IO E : Type) `{Transport IO E} : Type := {
  io_pending : IO -> bytes;
  io_open : IO -> Prop;
  read_pending : forall io n, io_open io -> 0 < n -> io_pending io <> [] ->
    exists chunk io', io_read io n = (io', Some (Ok chunk)) /\ 0 < zlen chunk /\
      io_pending io = chunk ++ io_pending io' /\ io_open io'
}.

(** A transport with a record of the bytes it accepted. A write that is dropped
    accepts nothing: this is the cancel safety the documentation asks for. *)
Class Recording (IO E : Type) `{Transport IO E} : Type := {
  io_sent : IO -> bytes;
  write_sent : forall io bs io' n,
    io_write io bs = (io', Some (Ok n)) -> io_sent io' = io_sent io ++ ztake n bs;
  write_dropped : forall io bs io', io_write io bs = (io', None) -> io_sent io' = io_sent io;
  read_sent : forall io n, io_sent (fst (io_read io n)) = io_sent io;
  flush_sent : forall io, io_sent (fst (io_flush io)) = io_sent io
}.

(** * Time: [embassy_time::Instant] and [Duration]. *)
Class Time : Type := {
  Instant : Type;
  Duration : Type;
  from_secs : Z -> Duration;
  from_millis : Z -> Duration;
  as_secs : Duration -> Z;
  as_millis : Duration -> Z;
  instant_add : Instant -> Duration -> Instant;
  instant_leb : Instant -> Instant -> bool;
  (** documented behaviour *)
  as_millis_nonneg : forall d, 0 <= as_millis d;
  as_secs_nonneg : forall d, 0 <= as_secs d
}.

Definition instant_min {T : Time} (a b : Instant) : Instant := if instant_leb a b then a else b.

(** [Instant::now()] and the timer of [with_deadline], read from the
    environment. *)
Class Clock (IO : Type) (T : Time) : Type := {
  now : IO -> IO * Instant;
  deadline_expired : IO -> Instant -> IO * bool
}.

(** Reading the clock does not transmit anything. *)
Class QuietClock (IO E : Type) (T : Time) `{Recording IO E} `{!Clock IO T} : Prop := {
  now_sent : forall io, io_sent (fst (now io)) = io_sent io;
  deadline_sent : forall io t, io_sent (fst (deadline_expired io t)) = io_sent io
}.

(** A transport with a record of the bytes its reads delivered; writing, flushing and
    reading the clock deliver none. *)
Class Delivering (IO E : Type) (T : Time) `{Transport IO E} `{!Clock IO T} : Type := {
  io_received : IO -> bytes;
  read_received : forall io n io' r, io_read io n = (io', r) ->
    io_received io' = io_received io ++ match r with Some (Ok bs) => bs | _ => [] end;
  write_received : forall io bs, io_received (fst (io_write io bs)) = io_received io;
  flush_received : forall io, io_received (fst (io_flush io)) = io_received io;
  now_received : forall io, io_received (fst (now io)) = io_received io
}.

(** Any transport with a log of what it delivered. *)
Module Logged.
Section Logged.
Context {IO E : Type} `{Transport IO E} {T : Time} `{!Clock IO T}.

Definition Log : Type := IO * bytes.

Definition read (io : Log) (n : Z) : Log * option (result E bytes) :=
  let '(i, r) := io_read (fst io) n in
  ((i, snd io ++ match r with Some (Ok bs) => bs | _ => [] end), r).

Definition write (io : Log) (bs : bytes) : Log * option (result E Z) :=
  let '(i, r) := io_write (fst io) bs in ((i, snd io), r).

Definition flush (io : Log) : Log * option (result E unit) :=
  let '(i, r) := io_flush (fst io) in ((i, snd io), r).

Lemma logged_read_fits io n io' bs :
  read io n = (io', Some (Ok bs)) -> 0 <= n -> zlen bs <= n /\ all_u8 bs.
Proof.
  unfold read. destruct (io_read (fst io) n) as [i r] eqn:Hr. intros [= _ ->].
  by apply (io_read_fits (fst io) n i bs).
Qed.

Lemma logged_write_fits io bs io' n : write io bs = (io', Some (Ok n)) -> 0 <= n <= zlen bs.
Proof.
  unfold write. destruct (io_write (fst io) bs) as [i r] eqn:Hr. intros [= _ ->].
  by apply (io_write_fits (fst io) bs i n).
Qed.

#[export] Instance transport : Transport Log E :=
  {| io_read := read; io_write := write; io_flush := flush;
     io_read_fits := logged_read_fits; io_write_fits := logged_write_fits |}.

#[export] Instance clocked : Clock Log T :=
  {| now io := let '(i, t) := now (fst io) in ((i, snd io), t);
     deadline_expired io t := let '(i, b) := deadline_expired (fst io) t in ((i, snd io), b) |}.

#[export, refine] Instance delivering : Delivering Log E T := {| io_received := snd |}.
Proof.
  - intros io n io' r. simpl. unfold read. destruct (io_read _ n). by intros [= <- <-].
  - intros io bs. simpl. unfold write. by destruct (io_write _ bs).
  - intros io. simpl. unfold flush. by destruct (io_flush _).
  - intros io. simpl. by destruct (now (fst io)).
Defined.
End Logged.
Arguments Log : clear implicits.
End Logged.

(** * A scripted environment

    Reads hand out the chunks of [incoming], cut to the buffer offered, and stay
    pending when there are none. Each write accepts at most the next entry of
    [accept] (everything, once the script ends); a negative entry is a failing
    write. Time is a number of milliseconds that advances by [tick] at each
    reading. *)
Module Scripted.
Record IO : Type := mkIO {
  incoming : list bytes;
  accept : list Z;
  outgoing : bytes;
  clock : Z;
  tick : Z
}.

Definition read (io : IO) (n : Z) : IO * option (result unit bytes) :=
  match incoming io with
  | [] => (io, None)
  | chunk :: chunks =>
      let rest := zdrop n chunk in
      (mkIO (match rest with [] => chunks | _ => rest :: chunks end)
            (accept io) (outgoing io) (clock io) (tick io),
       Some (Ok (map (fun b => b mod 256) (ztake n chunk))))
  end.

Definition write (io : IO) (bs : bytes) : IO * option (result unit Z) :=
  match accept io with
  | [] => (mkIO (incoming io) [] (outgoing io ++ bs) (clock io) (tick io), Some (Ok (zlen bs)))
  | limit :: limits =>
      if limit <? 0
      then (mkIO (incoming io) limits (outgoing io) (clock io) (tick io), Some (Err tt))
      else let n := Z.min limit (zlen bs) in
           (mkIO (incoming io) limits (outgoing io ++ ztake n bs) (clock io) (tick io),
            Some (Ok n))
  end.

Definition flush (io : IO) : IO * option (result unit unit) := (io, Some (Ok tt)).

Lemma read_fits io n io' bs :
  read io n = (io', Some (Ok bs)) -> 0 <= n -> zlen bs <= n /\ all_u8 bs.
Proof.
  unfold read. destruct (incoming io) as [|c cs]; [done|]. intros [= _ <-] Hn. split.
  - unfold zlen, ztake. rewrite length_map, length_take. lia.
  - apply List.Forall_map, Forall_true. intros b. unfold is_u8. apply Z.mod_pos_bound. lia.
Qed.

Lemma write_fits io bs io' n :
  write io bs = (io', Some (Ok n)) -> 0 <= n <= zlen bs.
Proof.
  unfold write. pose proof (zlen_nonneg bs).
  destruct (accept io) as [|l ls]; [intros [= _ <-]; lia|].
  destruct (Z.ltb_spec l 0); [done|]. intros [= _ <-]. lia.
Qed.

#[export] Instance transport : Transport IO unit :=
  {| io_read := read; io_write := write; io_flush := flush;
     io_read_fits := read_fits; io_write_fits := write_fits |}.

#[export] Instance time : Time :=
  {| Instant := Z; Duration := Z;
     from_secs s := 1000 * Z.max s 0; from_millis ms := Z.max ms 0;
     as_secs d := Z.max d 0 / 1000; as_millis d := Z.max d 0;
     instant_add t d := t + d; instant_leb := Z.leb;
     as_millis_nonneg d := Z.le_max_r d 0;
     as_secs_nonneg d := Z.div_pos _ 1000 (Z.le_max_r d 0) eq_refl |}.

#[export] Instance clocked : Clock IO time :=
  {| now io := (mkIO (incoming io) (accept io) (outgoing io) (clock io + tick io) (tick io), clock io);
     deadline_expired io deadline := (io, deadline <=? clock io) |}.

(** The bytes that are still to be read. *)
Definition pending (io : IO) : bytes := map (fun b => b mod 256) (concat (incoming io)).

Definition opened (io : IO) : Prop := Forall (fun chunk => chunk <> []) (incoming io).

Lemma read_pending_ok io n :
  opened io -> 0 < n -> pending io <> [] ->
  exists chunk io', read io n = (io', Some (Ok chunk)) /\ 0 < zlen chunk /\
    pending io = chunk ++ pending io' /\ opened io'.
Proof.
  unfold opened, pending, read. destruct (incoming io) as [|c cs]; [done|].
  intros Ho Hn _. inversion_clear Ho as [|? ? Hc Hcs]. eexists _, _. split; [done|].
  assert (0 < zlen (ztake n c)).
  { destruct c as [|x c]; [done|]. unfold zlen, ztake. rewrite length_take. simpl. lia. }
  split; [unfold zlen in *; by rewrite length_map|]. cbn [incoming].
  assert (concat (match zdrop n c with [] => cs | _ => zdrop n c :: cs end) =
          zdrop n c ++ concat cs) as Hrest by (by destruct (zdrop n c)).
  split.
  - rewrite Hrest, <- map_app, app_assoc, ztake_zdrop. done.
  - destruct (zdrop n c) eqn:Hz; [done|by constructor].
Qed.

#[export] Instance streaming : Streaming IO unit :=
  {| io_pending := pending; io_open := opened; read_pending := read_pending_ok |}.

Lemma write_sent_ok io bs io' n :
  write io bs = (io', Some (Ok n)) -> outgoing io' = outgoing io ++ ztake n bs.
Proof.
  unfold write. destruct (accept io) as [|l ls].
  - intros [= <- <-]. simpl. by rewrite ztake_full by lia.
  - destruct (l <? 0); [done|]. by intros [= <- <-].
Qed.

Lemma write_dropped_ok io bs io' : write io bs = (io', None) -> outgoing io' = outgoing io.
Proof. unfold write. destruct (accept io) as [|l ls]; [done|]. by destruct (l <? 0). Qed.

Lemma read_sent_ok io n : outgoing (fst (read io n)) = outgoing io.
Proof. unfold read. by destruct (incoming io). Qed.

#[export] Instance recording : Recording IO unit :=
  {| io_sent := outgoing; write_sent := write_sent_ok; write_dropped := write_dropped_ok;
     read_sent := read_sent_ok; flush_sent io := eq_refl |}.

#[export] Instance quiet : QuietClock IO unit time :=
  {| now_sent io := eq_refl; deadline_sent io t := eq_refl |}.
End Scripted.

#[export] Existing Instance Logged.transport.
#[export] Existing Instance Logged.clocked.
#[export] Existing Instance Logged.delivering.
#[export] Existing Instance Scripted.transport.
#[export] Existing Instance Scripted.time.
#[export] Existing Instance Scripted.clocked.
#[export] Existing Instance Scripted.streaming.
#[export] Existing Instance Scripted.recording.
#[export] Existing Instance Scripted.quiet.
