(* ===== verification/Text.v ===== *)
(** Strings as the helper crates use them: prefixes of topics, appending to a
    string of fixed capacity, and decimal numbers.

    A [&str] is the list of its UTF-8 bytes, as everywhere in the library.
    [str::strip_prefix], [u32::from_str], [u8::is_ascii_whitespace],
    [u8::is_ascii_alphanumeric] and [heapless::String::push_str] are modelled
    here from their documentation. *)

From Stdlib Require Import Ascii String.
From S2P Require Import Prelude.

Local Open Scope Z_scope.

(** A string literal. *)
Definition str (s : string) : bytes := map (fun a => Z.of_N (N_of_ascii a)) (list_ascii_of_string s).
Arguments str s%_string.

Fixpoint strip_prefix (prefix s : bytes) : option bytes :=
  match prefix, s with
  | [], _ => Some s
  | p :: prefix', x :: s' => if p =? x then strip_prefix prefix' s' else None
  | _ :: _, [] => None
  end.

(** [heapless::String::push_str]: the whole string or nothing. *)
Definition push_str (capacity : Z) (s t : bytes) : option bytes :=
  if capacity <? zlen s + zlen t then None else Some (s ++ t).

Definition is_ascii_whitespace (b : Z) : bool :=
  (b =? 32) || (b =? 9) || (b =? 10) || (b =? 12) || (b =? 13).

Definition is_ascii_digit (b : Z) : bool := (48 <=? b) && (b <=? 57).

Definition is_ascii_alphanumeric (b : Z) : bool :=
  is_ascii_digit b || (65 <=? b) && (b <=? 90) || (97 <=? b) && (b <=? 122).

(** [u32::from_str]: an optional plus sign, then at least one digit, without
    overflow. *)
Fixpoint parse_digits (acc : Z) (s : bytes) : option Z :=
  match s with
  | [] => Some acc
  | b :: s' =>
      if negb (is_ascii_digit b) then None else
      let acc' := acc * 10 + (b - 48) in
      if acc' <? 2 ^ 32 then parse_digits acc' s' else None
  end.

Definition parse_u32 (s : bytes) : option Z :=
  match s with
  | [] => None
  | b :: s' =>
      if b =? 43 then match s' with [] => None | _ => parse_digits 0 s' end
      else parse_digits 0 s
  end.

(** The shortest decimal representation; ten digits are enough for a [u32]. *)
Fixpoint decimal_loop (fuel : nat) (n : Z) (acc : bytes) : bytes :=
  match fuel with
  | O => acc
  | S fuel' =>
      let acc := (48 + n mod 10) :: acc in
      if n <? 10 then acc else decimal_loop fuel' (n / 10) acc
  end.

Definition decimal (n : Z) : bytes := decimal_loop 10 n [].

(** * Lemmas *)

Lemma strip_prefix_some prefix s rest : strip_prefix prefix s = Some rest <-> s = prefix ++ rest.
Proof.
  revert s. induction prefix as [|p prefix IH]; intros s; simpl.
  { split; [by intros [= ->]|by intros ->]. }
  destruct s as [|x s]; [done|]. destruct (Z.eqb_spec p x) as [->|Hne].
  - rewrite IH. split; [by intros ->|by intros [= ->]].
  - split; [done|]. intros [= -> _]. done.
Qed.

Lemma strip_prefix_app prefix rest : strip_prefix prefix (prefix ++ rest) = Some rest.
Proof. by apply strip_prefix_some. Qed.

Lemma push_str_some capacity s t r :
  push_str capacity s t = Some r <-> zlen s + zlen t <= capacity /\ r = s ++ t.
Proof.
  unfold push_str. destruct (Z.ltb_spec capacity (zlen s + zlen t)).
  - split; [done|lia].
  - split; [intros [= <-]; split; [lia|done]|by intros [_ ->]].
Qed.

Lemma parse_digits_app acc s1 s2 v :
  parse_digits acc s1 = Some v -> parse_digits acc (s1 ++ s2) = parse_digits v s2.
Proof.
  revert acc. induction s1 as [|b s1 IH]; intros acc; simpl; [by intros [= ->]|].
  destruct (negb _); [done|]. destruct (_ <? _); [apply IH|done].
Qed.

Lemma digit_ok d : 0 <= d < 10 -> is_ascii_digit (48 + d) = true.
Proof. intros Hd. unfold is_ascii_digit. apply andb_true_intro. lia. Qed.

(** Parsing the digits of [n] in front of [acc]. *)
Lemma decimal_loop_parse fuel n acc :
  0 <= n < 10 ^ Z.of_nat fuel -> n < 2 ^ 32 -> (0 < fuel)%nat ->
  exists b ds, decimal_loop fuel n acc = (b :: ds) ++ acc /\ is_ascii_digit b = true /\
    (S (length ds) <= fuel)%nat /\ parse_digits 0 (b :: ds) = Some n.
Proof.
  revert n acc. induction fuel as [|fuel IH]; intros n acc Hn H32 Hf; [lia|].
  cbn [decimal_loop]. destruct (Z.ltb_spec n 10).
  - exists (48 + n mod 10), []. rewrite Z.mod_small by lia.
    split_and!; [done|apply digit_ok; lia|simpl; lia|]. cbn [parse_digits].
    rewrite digit_ok by lia. cbn [negb]. replace (0 * 10 + (48 + n - 48)) with n by lia.
    destruct (Z.ltb_spec n (2 ^ 32)); [done|lia].
  - rewrite Nat2Z.inj_succ, Z.pow_succ_r in Hn by lia.
    pose proof (Z.div_mod n 10 ltac:(lia)) as Hdm. pose proof (Z.mod_pos_bound n 10 ltac:(lia)).
    assert (n / 10 < 10 ^ Z.of_nat fuel) by (apply Z.div_lt_upper_bound; lia).
    assert (0 < n / 10) by (apply Z.div_str_pos; lia).
    destruct fuel as [|fuel]; [simpl in *; lia|].
    destruct (IH (n / 10) ((48 + n mod 10) :: acc)) as (b & ds & -> & Hb & Hl & Hp); [lia|lia|lia|].
    exists b, (ds ++ [48 + n mod 10]). split_and!; [|done|rewrite length_app; simpl; lia|].
    + simpl. by rewrite <- app_assoc.
    + change (b :: ds ++ [48 + n mod 10]) with ((b :: ds) ++ [48 + n mod 10]).
      rewrite (parse_digits_app _ _ _ _ Hp). cbn [parse_digits]. rewrite digit_ok by lia. cbn [negb].
      replace (n / 10 * 10 + (48 + n mod 10 - 48)) with n by lia.
      destruct (Z.ltb_spec n (2 ^ 32)); [done|lia].
Qed.

Lemma decimal_spec n :
  is_u32 n -> parse_u32 (decimal n) = Some n /\ 1 <= zlen (decimal n) <= 10.
Proof.
  intros Hn. unfold is_u32 in Hn.
  destruct (decimal_loop_parse 10 n []) as (b & ds & Hd & Hb & Hl & Hp);
    [simpl; lia|lia|lia|]. unfold decimal. rewrite Hd, app_nil_r. split.
  - unfold parse_u32. destruct (Z.eqb_spec b 43) as [->|]; [done|exact Hp].
  - unfold zlen. simpl length. lia.
Qed.

Definition is_ascii (b : Z) : Prop := 0 <= b <= 127.

Lemma parse_digits_ascii acc s v : parse_digits acc s = Some v -> Forall is_ascii s.
Proof.
  revert acc. induction s as [|b s IH]; intros acc; simpl; [by constructor|].
  destruct (is_ascii_digit b) eqn:Hb; simpl; [|done]. destruct (_ <? _); [|done].
  intros Hs%IH. constructor; [|done]. unfold is_ascii_digit, is_ascii in *.
  apply andb_prop in Hb as [?%Z.leb_le ?%Z.leb_le]. lia.
Qed.

Lemma decimal_ascii n : is_u32 n -> Forall is_ascii (decimal n).
Proof.
  intros Hn. destruct (decimal_spec n Hn) as [Hp _]. unfold parse_u32 in Hp.
  destruct (decimal n) as [|b s]; [done|].
  destruct (Z.eqb_spec b 43) as [->|]; [|by apply parse_digits_ascii in Hp].
  destruct s as [|b' s]; [done|]. constructor; [by unfold is_ascii|by apply parse_digits_ascii in Hp].
Qed.

Lemma from_utf8_ascii s : Forall is_ascii s -> from_utf8 s = true.
Proof.
  unfold is_ascii. induction 1 as [|b s Hb _ IH]; [done|]. simpl.
  replace (in_range 0 127 b) with true; [done|]. symmetry. apply andb_true_intro. lia.
Qed.
