(* ===== verification/Wire.v ===== *)
(** MQTT fixed headers: [src/minimq/src/wire.rs]. The string and binary field
    encodings of that file are in [Ser] and [De]; the flag bytes of PUBLISH
    and CONNECT are next to their packets in [Packets]. *)

From S2P Require Import Prelude Types.

Definition FIXED_HEADER_TYPE_SHIFT : Z := 4.
Definition FIXED_HEADER_FLAGS_MASK : Z := Z.shiftl 1 FIXED_HEADER_TYPE_SHIFT - 1.
Definition PUBLISH_RETAIN_FLAG : Z := Z.shiftl 1 0.
Definition PUBLISH_QOS_SHIFT : Z := 1.
Definition PUBLISH_QOS_MASK : Z := Z.shiftl 3 PUBLISH_QOS_SHIFT.
Definition PUBLISH_DUP_FLAG : Z := Z.shiftl 1 3.
Definition REQUIRED_CONTROL_FLAGS : Z := 2.

Module MessageType.
Inductive MessageType : Type :=
| Connect | ConnAck | Publish | PubAck | PubRec | PubRel | PubComp | Subscribe
| SubAck | Unsubscribe | UnsubAck | PingReq | PingResp | Disconnect | Auth.
End MessageType.
Abbreviation MessageType := MessageType.MessageType.

#[export] Instance MessageType_eq_dec : EqDecision MessageType.
Proof. solve_decision. Defined.

Definition message_type_u8 (m : MessageType) : Z :=
  match m with
  | MessageType.Connect => 1 | MessageType.ConnAck => 2 | MessageType.Publish => 3
  | MessageType.PubAck => 4 | MessageType.PubRec => 5 | MessageType.PubRel => 6
  | MessageType.PubComp => 7 | MessageType.Subscribe => 8 | MessageType.SubAck => 9
  | MessageType.Unsubscribe => 10 | MessageType.UnsubAck => 11
  | MessageType.PingReq => 12 | MessageType.PingResp => 13
  | MessageType.Disconnect => 14 | MessageType.Auth => 15
  end.

(** [MessageType::try_from(u8)], derived by [TryFromPrimitive]. *)
Definition message_type_try_from (b : Z) : option MessageType :=
  find (fun m => message_type_u8 m =? b)
    [MessageType.Connect; MessageType.ConnAck; MessageType.Publish; MessageType.PubAck;
     MessageType.PubRec; MessageType.PubRel; MessageType.PubComp; MessageType.Subscribe;
     MessageType.SubAck; MessageType.Unsubscribe; MessageType.UnsubAck;
     MessageType.PingReq; MessageType.PingResp; MessageType.Disconnect; MessageType.Auth].

Definition required_flags (m : MessageType) : Z :=
  match m with
  | MessageType.PubRel | MessageType.Subscribe | MessageType.Unsubscribe =>
      REQUIRED_CONTROL_FLAGS
  | _ => 0
  end.

Definition message_flags_valid (m : MessageType) (flags : Z) : bool :=
  match m with MessageType.Publish => true | _ => flags =? required_flags m end.

Record FixedHeader : Type := mkFixedHeader { fh_byte : Z }.

Definition FixedHeader_new (message_type : MessageType) (flags : Z) : FixedHeader :=
  mkFixedHeader (Z.lor (Z.shiftl (message_type_u8 message_type) FIXED_HEADER_TYPE_SHIFT) flags).

Definition message_type (h : FixedHeader) : option MessageType :=
  message_type_try_from (Z.shiftr (fh_byte h) FIXED_HEADER_TYPE_SHIFT).

Definition flags (h : FixedHeader) : Z := Z.land (fh_byte h) FIXED_HEADER_FLAGS_MASK.

Definition flags_valid (h : FixedHeader) : bool :=
  match message_type h with
  | Some m => message_flags_valid m (flags h)
  | None => false
  end.

Definition publish_qos (h : FixedHeader) : option QoS :=
  qos_try_from (Z.shiftr (Z.land (flags h) PUBLISH_QOS_MASK) PUBLISH_QOS_SHIFT).

Definition publish_retain (h : FixedHeader) : Retain :=
  if Z.land (flags h) PUBLISH_RETAIN_FLAG =? 0 then Retain.NotRetained else Retain.Retained.

Definition publish_duplicate (h : FixedHeader) : bool :=
  negb (Z.land (flags h) PUBLISH_DUP_FLAG =? 0).

Definition with_publish_duplicate (h : FixedHeader) : FixedHeader :=
  mkFixedHeader (Z.lor (fh_byte h) PUBLISH_DUP_FLAG).

(** [mark_publish_duplicate], on the byte it updates in place. *)
Definition mark_publish_duplicate (fixed_header : Z) : Z :=
  fh_byte (with_publish_duplicate (mkFixedHeader fixed_header)).

(** The trait [ControlPacket]: a packet type has a message type, and its
    fixed header carries the flags required for that type. *)
Class ControlPacket (T : Type) : Type := MESSAGE_TYPE : MessageType.
Arguments MESSAGE_TYPE T {_}.

Definition fixed_header {T} `{ControlPacket T} (_ : T) : FixedHeader :=
  FixedHeader_new (MESSAGE_TYPE T) (required_flags (MESSAGE_TYPE T)).

(** The flags of [PublishHeader::fixed_header]. *)
Definition publish_fixed_header (qos : QoS) (retain : Retain) (dup : bool) : FixedHeader :=
  let flags := Z.shiftl (qos_u8 qos) PUBLISH_QOS_SHIFT in
  let flags := match retain with
               | Retain.Retained => Z.lor flags PUBLISH_RETAIN_FLAG
               | Retain.NotRetained => flags
               end in
  let flags := if dup then Z.lor flags PUBLISH_DUP_FLAG else flags in
  FixedHeader_new MessageType.Publish flags.

(** * Properties *)

(** The header of a control packet is recognised as a valid header of its
    type. *)
Lemma fixed_header_type m :
  message_type (FixedHeader_new m (required_flags m)) = Some m /\
  flags_valid (FixedHeader_new m (required_flags m)) = true.
Proof. by destruct m. Qed.

Lemma fixed_header_u8 m : is_u8 (fh_byte (FixedHeader_new m (required_flags m))).
Proof. destruct m; vm_compute; split; congruence. Qed.

Lemma publish_fixed_header_u8 q r d : is_u8 (fh_byte (publish_fixed_header q r d)).
Proof. destruct q, r, d; vm_compute; split; congruence. Qed.

Lemma publish_header_fields q r d :
  let h := publish_fixed_header q r d in
  message_type h = Some MessageType.Publish /\ flags_valid h = true /\
  publish_qos h = Some q /\ publish_retain h = r /\ publish_duplicate h = d.
Proof. by destruct q, r, d. Qed.

(** Marking a retransmission sets the DUP flag of the header byte and
    changes nothing else in it: the message type, the QoS and the retain flag
    are those of the original, and marking twice is marking once. *)
Theorem mark_duplicate_sets_only_dup b :
  is_u8 b ->
  let h := mkFixedHeader b in
  let h' := mkFixedHeader (mark_publish_duplicate b) in
  publish_duplicate h' = true /\ message_type h' = message_type h /\
  publish_qos h' = publish_qos h /\ publish_retain h' = publish_retain h /\
  mark_publish_duplicate (mark_publish_duplicate b) = mark_publish_duplicate b /\
  is_u8 (mark_publish_duplicate b).
Proof.
  intros Hb. cbv zeta.
  assert (forall b, is_u8 b ->
    (let h := mkFixedHeader b in
     let h' := mkFixedHeader (mark_publish_duplicate b) in
     publish_duplicate h' &&
     bool_decide (message_type h' = message_type h) &&
     bool_decide (publish_qos h' = publish_qos h) &&
     bool_decide (publish_retain h' = publish_retain h) &&
     (mark_publish_duplicate (mark_publish_duplicate b) =? mark_publish_duplicate b) &&
     (0 <=? mark_publish_duplicate b) && (mark_publish_duplicate b <? 256)) = true) as Hall
    by (apply is_u8_forall; vm_compute; reflexivity).
  specialize (Hall b Hb). cbv zeta in Hall.
  repeat (apply andb_prop in Hall as [Hall ?]).
  repeat match goal with H : bool_decide _ = true |- _ => apply bool_decide_eq_true in H end.
  unfold is_u8. split_and!; done || lia.
Qed.

Lemma mark_duplicate_sets_only_dup_witness :
  let h := mkFixedHeader 51 in
  let h' := mkFixedHeader (mark_publish_duplicate 51) in
  publish_duplicate h' = true /\ message_type h' = message_type h /\
  publish_qos h' = publish_qos h /\ publish_retain h' = publish_retain h /\
  mark_publish_duplicate (mark_publish_duplicate 51) = mark_publish_duplicate 51 /\
  is_u8 (mark_publish_duplicate 51).
Proof. apply (mark_duplicate_sets_only_dup 51). unfold is_u8. lia. Defined.

(** A retransmitted PUBLISH has the header its packet would get if it were
    built with the DUP flag set. *)
Lemma mark_duplicate_publish q r d :
  mark_publish_duplicate (fh_byte (publish_fixed_header q r d)) =
  fh_byte (publish_fixed_header q r true).
Proof. by destruct q, r, d. Qed.
