(* ===== verification/Ser.v ===== *)
(** The MQTT serializer: [src/minimq/src/ser/mod.rs] and the field encodings
    of [src/minimq/src/wire.rs].

    The serializer writes into one caller-owned buffer, behind a gap of five
    bytes for the fixed header, which [finalize] fills in backwards. serde's
    dispatch is resolved at each call: a [u16] field is [serialize_u16], a
    [&str] field [serialize_str], a [[u8]] field the element-wise sequence of
    serde's slice implementation, a struct the sequence of its fields in
    declaration order.

    [implements m enc] says that the in-place serializer [m] realises the
    pure encoding [enc]: it appends these bytes if they fit and otherwise
    fails without touching what was written before. *)

From S2P Require Import Prelude Varint Types Wire.

Definition MAX_FIXED_HEADER_SIZE : Z := 5.

Record MqttSerializer : Type := mkSer { ser_buf : bytes; ser_index : Z }.

Definition Ser (A : Type) : Type := ST MqttSerializer SerError A.

Definition MqttSerializer_new (buf : bytes) : MqttSerializer :=
  mkSer buf MAX_FIXED_HEADER_SIZE.

Definition push_bytes (data : bytes) : Ser unit :=
  fun s =>
    if usize_saturating_sub (zlen (ser_buf s)) (ser_index s) <? zlen data
    then (s, Err SerError.InsufficientMemory)
    else (mkSer (zwrite (ser_buf s) (ser_index s) data) (ser_index s + zlen data), Ok tt).

Definition push (byte : Z) : Ser unit :=
  fun s =>
    if usize_saturating_sub (zlen (ser_buf s)) (ser_index s) <? 1
    then (s, Err SerError.InsufficientMemory)
    else (mkSer (zwrite (ser_buf s) (ser_index s) [byte]) (ser_index s + 1), Ok tt).

(** The buffer behind the written part, which payload serializers fill. *)
Definition remainder (s : MqttSerializer) : bytes :=
  zdrop (Z.min (ser_index s) (zlen (ser_buf s))) (ser_buf s).

(** The write of a payload serializer into [remainder()], back in the buffer. *)
Definition set_remainder (s : MqttSerializer) (r : bytes) : MqttSerializer :=
  mkSer (ztake (Z.min (ser_index s) (zlen (ser_buf s))) (ser_buf s) ++ r) (ser_index s).

Definition commit (len : Z) : Ser unit :=
  fun s =>
    if usize_saturating_sub (zlen (ser_buf s)) (ser_index s) <? len
    then (s, Err SerError.InsufficientMemory)
    else (mkSer (ser_buf s) (ser_index s + len), Ok tt).

(** [finalize] returns the start of the packet in the buffer and the packet. *)
Definition finalize (h : FixedHeader) : Ser (Z * bytes) :=
  fun s =>
    match usize_checked_sub (ser_index s) MAX_FIXED_HEADER_SIZE with
    | None => (s, Err SerError.InsufficientMemory)
    | Some len =>
        match write_mqtt_u32_varint (len mod 2 ^ 32) VarintBuffer_new with
        | (_, Err _) => (s, Err SerError.InsufficientMemory)
        | (buffer, Ok _) =>
            let remaining_len := as_slice buffer in
            if zlen (ser_buf s) <? MAX_FIXED_HEADER_SIZE
            then (s, Err SerError.InsufficientMemory)
            else
              let start := MAX_FIXED_HEADER_SIZE - zlen remaining_len in
              let buf := zwrite (ser_buf s) start remaining_len in
              let buf := zwrite buf (start - 1) [fh_byte h] in
              let offset := start - 1 in
              (mkSer buf (ser_index s), Ok (offset, zslice offset (ser_index s) buf))
        end
    end.

(** * serde's data model, as far as the packets use it *)

Definition serialize_bool (v : bool) : Ser unit := push (if v then 1 else 0).
Definition serialize_u8 (v : Z) : Ser unit := push v.
Definition serialize_u16 (v : Z) : Ser unit := push_bytes (to_be_bytes 2 v).
Definition serialize_u32 (v : Z) : Ser unit := push_bytes (to_be_bytes 4 v).
Definition serialize_bytes (v : bytes) : Ser unit := push_bytes v.
Definition serialize_str (v : bytes) : Ser unit := serialize_bytes v.
Definition serialize_none : Ser unit := ret tt.
Definition serialize_unit_struct : Ser unit := ret tt.

(** [serialize_seq], one [serialize_element] per element, [end]. *)
Fixpoint serialize_seq {A} (f : A -> Ser unit) (l : list A) : Ser unit :=
  match l with
  | [] => ret tt
  | x :: l' => do! f x in serialize_seq f l'
  end.

Definition serialize_option {A} (f : A -> Ser unit) (o : option A) : Ser unit :=
  match o with Some a => f a | None => serialize_none end.

(** [u16::try_from(len)]. *)
Definition u16_try_from (z : Z) : option Z := if z <? 2 ^ 16 then Some z else None.

Definition serialize_binary_data (data : bytes) : Ser unit :=
  match u16_try_from (zlen data) with
  | None => raise SerError.Custom
  | Some len => do! serialize_u16 len in serialize_seq serialize_u8 data
  end.

Definition serialize_utf8_string (s : bytes) : Ser unit :=
  match u16_try_from (zlen s) with
  | None => raise SerError.Custom
  | Some len => do! serialize_u16 len in serialize_str s
  end.

Definition serialize_varint (v : Varint) : Ser unit :=
  match write_mqtt_u32_varint (varint_value v) VarintBuffer_new with
  | (_, Err _) => raise SerError.Custom
  | (buffer, Ok _) => serialize_seq serialize_u8 (as_slice buffer)
  end.

(** The trait [serde::Serialize] at the serializer of this crate. *)
Class Serialize (T : Type) : Type := serialize : T -> Ser unit.

(** Run on a buffer: the buffer afterwards and the packet found in it. *)
Definition encode_with_offset {T} `{Serialize T, ControlPacket T} (buf : bytes) (packet : T)
  : bytes * result SerError (Z * bytes) :=
  let '(s, r) := (do! serialize packet in finalize (fixed_header packet))
                   (MqttSerializer_new buf) in
  (ser_buf s, r).

Definition encode {T} `{Serialize T, ControlPacket T} (buf : bytes) (packet : T)
  : bytes * result SerError bytes :=
  match encode_with_offset buf packet with
  | (buf, Ok (_, packet)) => (buf, Ok packet)
  | (buf, Err e) => (buf, Err e)
  end.

(** [ToPayload::serialize] of a payload [P] with error [E]: fills a buffer and
    returns the length used. A Rust implementation cannot change the length of
    the slice it is given. *)
Record ToPayload (E : Type) : Type := mkPayload {
  to_payload : bytes -> bytes * result E Z;
  to_payload_len : forall buf, zlen (fst (to_payload buf)) = zlen buf;
  to_payload_usize : forall buf n, snd (to_payload buf) = Ok n -> 0 <= n
}.
Arguments mkPayload {E} to_payload to_payload_len to_payload_usize.
Arguments to_payload {E} t buf.
Arguments to_payload_len {E} t buf.
Arguments to_payload_usize {E} t buf n.

(** The payload [&[u8]]; [&str] is the same on its bytes. *)
Definition slice_payload (data buffer : bytes) : bytes * result unit Z :=
  if zlen buffer <? zlen data then (buffer, Err tt)
  else (zwrite buffer 0 data, Ok (zlen data)).

Lemma slice_payload_len data buf : zlen (fst (slice_payload data buf)) = zlen buf.
Proof.
  unfold slice_payload. destruct (Z.ltb_spec (zlen buf) (zlen data)); [done|].
  simpl. apply zlen_zwrite; zlia.
Qed.

Lemma slice_payload_usize data buf n : snd (slice_payload data buf) = Ok n -> 0 <= n.
Proof.
  unfold slice_payload. destruct (Z.ltb_spec (zlen buf) (zlen data)); [done|].
  simpl. intros H'. injection H' as <-. zlia.
Qed.

Definition bytes_payload (data : bytes) : ToPayload unit :=
  mkPayload (slice_payload data) (slice_payload_len data) (slice_payload_usize data).

(** [encode_publish_with_offset]: the header fields, then the payload written
    in place by its own serializer. *)
Definition encode_publish_with_offset {E} (buf : bytes) (header : Ser unit) (h : FixedHeader)
    (payload : ToPayload E) : bytes * result (SerPubError E) (Z * bytes) :=
  match header (MqttSerializer_new buf) with
  | (s, Err e) => (ser_buf s, Err (SerPubError.Encode e))
  | (s, Ok _) =>
      let '(r, res) := to_payload payload (remainder s) in
      let s := set_remainder s r in
      match res with
      | Err e => (ser_buf s, Err (SerPubError.Payload e))
      | Ok len =>
          match (do! commit len in finalize h) s with
          | (s, Err e) => (ser_buf s, Err (SerPubError.Encode e))
          | (s, Ok res) => (ser_buf s, Ok res)
          end
      end
  end.

Definition encode_publish {E} (buf : bytes) (header : Ser unit) (h : FixedHeader)
    (payload : ToPayload E) : bytes * result (SerPubError E) bytes :=
  match encode_publish_with_offset buf header h payload with
  | (buf, Ok (_, packet)) => (buf, Ok packet)
  | (buf, Err e) => (buf, Err e)
  end.

(** * Refinement of pure encodings *)

(** A pure encoding: the bytes, or the error of a field that has none. *)
Definition enc : Type := result SerError bytes.

Definition enc_app (a b : enc) : enc :=
  match a, b with
  | Ok x, Ok y => Ok (x ++ y)
  | Ok _, Err e => Err e
  | Err e, _ => Err e
  end.
Infix "+++" := enc_app (at level 60, right associativity) : minimq_scope.

Fixpoint enc_concat (l : list enc) : enc :=
  match l with [] => Ok [] | x :: l' => x +++ enc_concat l' end.

Definition ser_room (s : MqttSerializer) : Z :=
  usize_saturating_sub (zlen (ser_buf s)) (ser_index s).

Definition ser_put (s : MqttSerializer) (bs : bytes) : MqttSerializer :=
  mkSer (zwrite (ser_buf s) (ser_index s) bs) (ser_index s + zlen bs).

(** What was written before stays: the frame of a failing serializer. *)
Definition ser_frame (s s' : MqttSerializer) : Prop :=
  zlen (ser_buf s') = zlen (ser_buf s) /\
  ztake (ser_index s) (ser_buf s') = ztake (ser_index s) (ser_buf s).

Definition implements (m : Ser unit) (e : enc) : Prop :=
  forall s, 0 <= ser_index s ->
  match e with
  | Ok bs =>
      if zlen bs <=? ser_room s then m s = (ser_put s bs, Ok tt)
      else exists s', m s = (s', Err SerError.InsufficientMemory) /\ ser_frame s s'
  | Err e =>
      exists s' e', m s = (s', Err e') /\ ser_frame s s' /\
                    (e' = e \/ e' = SerError.InsufficientMemory)
  end.

Create HintDb ser.

Lemma ser_frame_refl s : ser_frame s s.
Proof. done. Qed.

Lemma ser_put_nil s : ser_put s [] = s.
Proof. destruct s. unfold ser_put. simpl. by rewrite zwrite_nil, Z.add_0_r. Qed.

Lemma ser_put_frame s bs s' :
  0 <= ser_index s -> zlen bs <= ser_room s -> ser_frame (ser_put s bs) s' -> ser_frame s s'.
Proof.
  unfold ser_frame, ser_put, ser_room, usize_saturating_sub. simpl. intros Hi Hr [Hl Ht].
  destruct (Z.eq_dec (zlen bs) 0) as [Hz|Hz].
  - apply zlen_zero in Hz as ->. by rewrite zwrite_nil, zlen_nil, Z.add_0_r in *.
  - rewrite zlen_zwrite in Hl by zlia. split; [done|].
    rewrite <- (ztake_ztake _ (ser_index s + zlen bs)) by zlia.
    rewrite Ht, ztake_ztake by zlia. apply ztake_zwrite. zlia.
Qed.

Lemma ser_room_put s bs :
  0 <= ser_index s -> zlen bs <= ser_room s -> ser_room (ser_put s bs) = ser_room s - zlen bs.
Proof.
  unfold ser_put, ser_room, usize_saturating_sub. simpl. intros.
  destruct (Z.eq_dec (zlen bs) 0) as [Hz|Hz].
  - apply zlen_zero in Hz as ->. rewrite zwrite_nil. zlia.
  - rewrite zlen_zwrite by zlia. zlia.
Qed.

Lemma ser_put_put s b1 b2 :
  0 <= ser_index s -> zlen b1 + zlen b2 <= ser_room s ->
  ser_put (ser_put s b1) b2 = ser_put s (b1 ++ b2).
Proof.
  unfold ser_put, ser_room, usize_saturating_sub. simpl. intros Hi Hr.
  rewrite zlen_app, Z.add_assoc. f_equal.
  destruct (Z.le_gt_cases (ser_index s) (zlen (ser_buf s))) as [H|H].
  - apply zwrite_zwrite; zlia.
  - assert (b1 = []) as -> by (apply zlen_zero; zlia).
    by rewrite zwrite_nil, zlen_nil, Z.add_0_r.
Qed.

Lemma implements_ret : implements (ret tt) (Ok []).
Proof.
  intros s Hs. cbn match. replace (zlen [] <=? ser_room s) with true
    by (unfold ser_room, usize_saturating_sub; zlia).
  by rewrite ser_put_nil.
Qed.

Lemma implements_raise e : implements (raise e) (Err e).
Proof. intros s Hs. exists s, e. split; [done|]. split; [done|by left]. Qed.

Lemma implements_push_bytes bs : implements (push_bytes bs) (Ok bs).
Proof.
  intros s Hs. unfold push_bytes. fold (ser_room s).
  destruct (Z.leb_spec (zlen bs) (ser_room s)), (Z.ltb_spec (ser_room s) (zlen bs)); try lia.
  - done.
  - by exists s.
Qed.

Lemma implements_push b : implements (push b) (Ok [b]).
Proof. exact (implements_push_bytes [b]). Qed.

Lemma implements_bind m1 m2 e1 e2 :
  implements m1 e1 -> implements m2 e2 -> implements (do! m1 in m2) (e1 +++ e2).
Proof.
  intros H1 H2 s Hs. specialize (H1 s Hs). destruct e1 as [b1|er1]; simpl.
  - destruct (Z.leb_spec (zlen b1) (ser_room s)) as [Hr|Hr].
    + specialize (H2 (ser_put s b1)). unfold ser_put in H2 at 1. simpl in H2.
      specialize (H2 ltac:(zlia)). rewrite (bind_ok _ _ _ _ _ H1).
      destruct e2 as [b2|er2]; simpl.
      * rewrite ser_room_put in H2 by done. rewrite zlen_app.
        destruct (Z.leb_spec (zlen b2) (ser_room s - zlen b1)),
          (Z.leb_spec (zlen b1 + zlen b2) (ser_room s)); try lia.
        -- rewrite H2. by rewrite ser_put_put.
        -- destruct H2 as (s' & -> & Hf). exists s'. split; [done|].
           by apply ser_put_frame with b1.
      * destruct H2 as (s' & e' & -> & Hf & He). exists s', e'. split; [done|].
        split; [by apply ser_put_frame with b1|done].
    + destruct H1 as (s' & H1 & Hf). rewrite (bind_err _ _ _ _ _ H1).
      destruct e2 as [b2|er2]; simpl.
      * rewrite (proj2 (Z.leb_gt _ _)) by zlia. by exists s'.
      * eexists _, _. split; [done|]. split; [done|by right].
  - destruct H1 as (s' & e' & H1 & Hf & He). rewrite (bind_err _ _ _ _ _ H1).
    exists s', e'. done.
Qed.

Lemma implements_seq {A} (f : A -> Ser unit) (g : A -> enc) l :
  (forall x, implements (f x) (g x)) ->
  implements (serialize_seq f l) (enc_concat (map g l)).
Proof.
  intros Hf. induction l as [|x l IH]; simpl; [apply implements_ret|].
  by apply implements_bind.
Qed.

Lemma enc_concat_ok l : enc_concat (map Ok l) = Ok (concat l).
Proof. induction l as [|x l IH]; simpl; [done|]. by rewrite IH. Qed.

Lemma implements_seq_u8 bs : implements (serialize_seq serialize_u8 bs) (Ok bs).
Proof.
  assert (enc_concat (map (fun b => Ok [b]) bs) = Ok bs) as <-.
  { induction bs as [|b bs IH]; simpl; [done|]. by rewrite IH. }
  apply implements_seq. apply implements_push.
Qed.

(** Length-prefixed fields. *)
Definition enc_field (data : bytes) : enc :=
  if zlen data <? 2 ^ 16 then Ok (to_be_bytes 2 (zlen data) ++ data) else Err SerError.Custom.

Lemma implements_utf8_string s : implements (serialize_utf8_string s) (enc_field s).
Proof.
  unfold serialize_utf8_string, enc_field, u16_try_from. destruct (zlen s <? 2 ^ 16).
  - apply (implements_bind _ _ (Ok _) (Ok _)); apply implements_push_bytes.
  - apply implements_raise.
Qed.

Lemma implements_binary_data s : implements (serialize_binary_data s) (enc_field s).
Proof.
  unfold serialize_binary_data, enc_field, u16_try_from. destruct (zlen s <? 2 ^ 16).
  - apply (implements_bind _ _ (Ok _) (Ok _));
      [apply implements_push_bytes|apply implements_seq_u8].
  - apply implements_raise.
Qed.

Definition enc_varint (v : Z) : enc :=
  if v <=? MQTT_VARINT_MAX then Ok (varint_bytes v) else Err SerError.Custom.

Lemma implements_varint v :
  0 <= v -> implements (serialize_varint (mkVarint v)) (enc_varint v).
Proof.
  intros Hv. unfold serialize_varint, enc_varint. simpl varint_value.
  destruct (Z.leb_spec v MQTT_VARINT_MAX).
  - destruct (write_varint_spec v) as (b & -> & ->); [lia|]. apply implements_seq_u8.
  - rewrite write_varint_too_large by done. apply implements_raise.
Qed.

Lemma implements_option {A} (f : A -> Ser unit) (g : A -> enc) o :
  (forall x, implements (f x) (g x)) ->
  implements (serialize_option f o) (match o with Some x => g x | None => Ok [] end).
Proof. intros Hf. destruct o; [apply Hf|apply implements_ret]. Qed.

#[export] Hint Resolve implements_ret implements_raise implements_push
  implements_push_bytes implements_seq_u8 implements_utf8_string
  implements_binary_data implements_varint implements_seq implements_option
  implements_bind : ser.

(** * Whole packets *)

(** The bytes of a packet with header byte [h] and body [body]. *)
Definition packet_bytes (h : FixedHeader) (body : bytes) : bytes :=
  fh_byte h :: varint_bytes (zlen body) ++ body.

(** [finalize] on a buffer whose body is in place. *)
Lemma finalize_spec h buf body :
  zlen body <= MQTT_VARINT_MAX -> MAX_FIXED_HEADER_SIZE + zlen body <= zlen buf ->
  exists buf' off,
    finalize h (mkSer (zwrite buf MAX_FIXED_HEADER_SIZE body) (MAX_FIXED_HEADER_SIZE + zlen body)) =
      (mkSer buf' (MAX_FIXED_HEADER_SIZE + zlen body), Ok (off, packet_bytes h body)) /\
    zlen buf' = zlen buf /\ off = 4 - zlen (varint_bytes (zlen body)) /\
    zslice off (off + zlen (packet_bytes h body)) buf' = packet_bytes h body.
Proof.
  intros Hm Hfit. unfold finalize, usize_checked_sub. simpl ser_index. simpl ser_buf.
  unfold MAX_FIXED_HEADER_SIZE in *. pose proof (zlen_nonneg body).
  rewrite (proj2 (Z.leb_le _ _)) by lia. rewrite Z.add_simpl_l.
  rewrite Z.mod_small by (rewrite MQTT_VARINT_MAX_eq in Hm; lia).
  destruct (write_varint_spec (zlen body)) as (b & -> & ->); [lia|].
  pose proof (varint_bytes_length (zlen body)) as Hvl. specialize (Hvl ltac:(lia)).
  set (vb := varint_bytes (zlen body)) in *.
  rewrite zlen_zwrite by lia. rewrite (proj2 (Z.ltb_ge _ _)) by lia.
  set (buf1 := zwrite buf 5 body). set (off := 5 - zlen vb - 1).
  set (buf2 := zwrite (zwrite buf1 (5 - zlen vb) vb) off [fh_byte h]).
  assert (zlen buf1 = zlen buf) as H1 by (apply zlen_zwrite; lia).
  assert (zlen (zwrite buf1 (5 - zlen vb) vb) = zlen buf) as H2
    by (rewrite zlen_zwrite; lia).
  assert (zlen buf2 = zlen buf) as H3
    by (unfold buf2; rewrite zlen_zwrite; unfold off; zlia).
  assert (zslice off (5 + zlen body) buf2 = packet_bytes h body) as Hslice.
  { rewrite (zslice_split off (off + 1)) by (unfold off; lia).
    unfold packet_bytes, buf2. rewrite zslice_zwrite_eq, zslice_zwrite_after
      by (unfold off; zlia).
    simpl. f_equal. replace (off + 1) with (5 - zlen vb) by (unfold off; lia).
    rewrite (zslice_split _ 5) by lia.
    rewrite zslice_zwrite_eq, zslice_zwrite_after by lia. f_equal.
    unfold buf1. apply zslice_zwrite_eq; lia. }
  exists buf2, off. rewrite Hslice. split_and!; [done|done|unfold off; lia|].
  rewrite <- Hslice at 2. f_equal. unfold packet_bytes. fold vb. unfold off. zlia.
Qed.

(** In-place encoding of a control packet realises its pure encoding. When
    the serialized fields fit behind the header gap and in the 28-bit
    remaining length, the result is the header byte, the remaining length and
    the fields, found at the returned offset of the buffer; when they do not
    fit, encoding fails with [InsufficientMemory]. *)
Lemma encode_with_offset_spec {T} `{Serialize T, ControlPacket T} (packet : T) buf body :
  implements (serialize packet) (Ok body) -> zlen body <= MQTT_VARINT_MAX ->
  let p := packet_bytes (fixed_header packet) body in
  if MAX_FIXED_HEADER_SIZE + zlen body <=? zlen buf then
    exists buf' off, encode_with_offset buf packet = (buf', Ok (off, p)) /\
      zlen buf' = zlen buf /\ zslice off (off + zlen p) buf' = p /\ 0 <= off /\
      off + zlen p = MAX_FIXED_HEADER_SIZE + zlen body
  else exists buf', encode_with_offset buf packet = (buf', Err SerError.InsufficientMemory) /\
      zlen buf' = zlen buf.
Proof.
  intros Himp Hm p. unfold encode_with_offset.
  specialize (Himp (MqttSerializer_new buf)). unfold MqttSerializer_new in *.
  simpl in Himp. specialize (Himp ltac:(done)). unfold ser_room, ser_put in Himp.
  simpl in Himp. pose proof (zlen_nonneg body).
  destruct (Z.leb_spec (MAX_FIXED_HEADER_SIZE + zlen body) (zlen buf)) as [Hfit|Hfit];
    unfold MAX_FIXED_HEADER_SIZE, usize_saturating_sub in *.
  - rewrite (proj2 (Z.leb_le _ _)) in Himp by lia. rewrite (bind_ok _ _ _ _ _ Himp).
    destruct (finalize_spec (fixed_header packet) buf body)
      as (buf' & off & Hf & Hl & Hoff & Hs); [done|unfold MAX_FIXED_HEADER_SIZE; lia|].
    unfold MAX_FIXED_HEADER_SIZE in *. rewrite Hf. exists buf', off.
    pose proof (varint_bytes_length (zlen body)). split_and!; try done; [lia|].
    unfold p, packet_bytes. rewrite zlen_cons, zlen_app. lia.
  - destruct (Z.leb_spec (zlen body) (Z.max (zlen buf - 5) 0)) as [Hle|Hle].
    + assert (body = []) as -> by (apply zlen_zero; lia).
      rewrite (bind_ok _ _ _ _ _ Himp). rewrite zwrite_nil. unfold finalize. simpl.
      rewrite (proj2 (Z.ltb_lt _ _)); [eauto|]. unfold MAX_FIXED_HEADER_SIZE. zlia.
    + destruct Himp as (s' & Hs' & Hframe). rewrite (bind_err _ _ _ _ _ Hs').
      eexists. split; [done|]. apply Hframe.
Qed.

Lemma finalize_len h s : zlen (ser_buf (fst (finalize h s))) = zlen (ser_buf s).
Proof.
  unfold finalize, usize_checked_sub. destruct (_ <=? _); [|done].
  set (v := _ mod _). assert (0 <= v) by (unfold v; apply Z.mod_pos_bound; lia).
  destruct (Z.le_gt_cases v MQTT_VARINT_MAX).
  - destruct (write_varint_spec v) as (b & -> & ->); [lia|].
    pose proof (varint_bytes_length v). destruct (Z.ltb_spec (zlen (ser_buf s)) MAX_FIXED_HEADER_SIZE);
      [done|]. unfold MAX_FIXED_HEADER_SIZE in *. simpl ser_buf.
    rewrite !zlen_zwrite by (rewrite ?zlen_zwrite; zlia). done.
  - by rewrite write_varint_too_large.
Qed.

Lemma implements_len m e s :
  implements m e -> 0 <= ser_index s -> zlen (ser_buf (fst (m s))) = zlen (ser_buf s).
Proof.
  intros Him Hs. specialize (Him s Hs). destruct e as [bs|er].
  - destruct (Z.leb_spec (zlen bs) (ser_room s)) as [Hr|Hr].
    + rewrite Him. unfold ser_put. simpl. unfold ser_room, usize_saturating_sub in Hr.
      destruct (Z.eq_dec (zlen bs) 0) as [Hz|Hz].
      * apply zlen_zero in Hz as ->. by rewrite zwrite_nil.
      * apply zlen_zwrite; zlia.
    + destruct Him as (s' & -> & Hf). apply Hf.
  - destruct Him as (s' & e' & -> & Hf & _). apply Hf.
Qed.

(** Encoding never changes the length of the buffer it is given. *)
Lemma encode_with_offset_len {T} `{Serialize T, ControlPacket T} (packet : T) buf e :
  implements (serialize packet) e -> zlen (fst (encode_with_offset buf packet)) = zlen buf.
Proof.
  intros Him. pose proof (implements_len _ _ (MqttSerializer_new buf) Him ltac:(done)) as Hl.
  unfold encode_with_offset, bind. destruct (serialize packet _) as [s [[]|er]]; simpl in *.
  - pose proof (finalize_len (fixed_header packet) s) as Hf.
    destruct (finalize _ s) as [s' r]. simpl in *. lia.
  - done.
Qed.

Lemma commit_ok s len :
  0 <= len <= ser_room s -> commit len s = (mkSer (ser_buf s) (ser_index s + len), Ok tt).
Proof.
  unfold commit, ser_room. intros. by rewrite (proj2 (Z.ltb_ge _ _)) by lia.
Qed.

Lemma commit_err s len :
  ser_room s < len -> commit len s = (s, Err SerError.InsufficientMemory).
Proof.
  unfold commit, ser_room. intros. by rewrite (proj2 (Z.ltb_lt _ _)) by lia.
Qed.

(** The header fields, and behind them the payload in the rest of the buffer: the body of
    the packet is already where [finalize] expects it. *)
Lemma body_in_place (buf hb r : bytes) len :
  5 + zlen hb <= zlen buf -> 0 <= len <= zlen r -> zlen r = zlen buf - (5 + zlen hb) ->
  let buf1 := ztake (5 + zlen hb) (zwrite buf 5 hb) ++ r in
  zlen buf1 = zlen buf /\ buf1 = zwrite buf1 5 (hb ++ ztake len r).
Proof.
  intros Hfit Hlen Hr buf1.
  assert (zlen (ztake (5 + zlen hb) (zwrite buf 5 hb)) = 5 + zlen hb) as Hpre
    by (rewrite zlen_ztake; rewrite ?zlen_zwrite; zlia).
  split; [unfold buf1; rewrite zlen_app; lia|].
  assert (zlen (hb ++ ztake len r) = zlen hb + len) as Hbody by (rewrite zlen_app, zlen_ztake; lia).
  unfold buf1. pose proof (zlen_nonneg hb).
  rewrite ztake_zwrite_through, <- app_assoc by lia.
  rewrite zwrite_app by (rewrite ?zlen_app, ?zlen_ztake; lia).
  rewrite Hbody, zdrop_app_ge, Z.add_simpl_l by lia. by rewrite <- app_assoc, ztake_zdrop.
Qed.

(** What [encode_publish_with_offset] does once the header fields [hb] fit:
    the payload serializer sees the rest of the buffer, and the packet
    carries the bytes it left there. *)
Lemma encode_publish_spec {E} buf header hb h (payload : ToPayload E) :
  implements header (Ok hb) ->
  0 < zlen hb -> MAX_FIXED_HEADER_SIZE + zlen hb <= zlen buf ->
  let rest := zdrop (MAX_FIXED_HEADER_SIZE + zlen hb) buf in
  let '(r, res) := to_payload payload rest in
  exists buf', zlen buf' = zlen buf /\
  match res with
  | Err e => encode_publish_with_offset buf header h payload =
               (buf', Err (SerPubError.Payload e))
  | Ok len =>
      zlen hb + len <= MQTT_VARINT_MAX ->
      if len <=? zlen rest then
        exists off, encode_publish_with_offset buf header h payload =
                      (buf', Ok (off, packet_bytes h (hb ++ ztake len r))) /\
          0 <= off /\ off + zlen (packet_bytes h (hb ++ ztake len r)) =
            MAX_FIXED_HEADER_SIZE + zlen hb + len /\
          zslice off (off + zlen (packet_bytes h (hb ++ ztake len r))) buf' =
            packet_bytes h (hb ++ ztake len r)
      else encode_publish_with_offset buf header h payload =
             (buf', Err (SerPubError.Encode SerError.InsufficientMemory))
  end.
Proof.
  intros Him Hpos Hfit rest. unfold encode_publish_with_offset.
  specialize (Him (MqttSerializer_new buf) ltac:(done)).
  unfold ser_room, ser_put, MqttSerializer_new, usize_saturating_sub in Him. simpl in Him.
  unfold MAX_FIXED_HEADER_SIZE in *. rewrite (proj2 (Z.leb_le _ _)) in Him by lia.
  change (MqttSerializer_new buf) with (mkSer buf 5). rewrite Him.
  unfold remainder, set_remainder. simpl.
  rewrite zlen_zwrite, Z.min_l, zdrop_zwrite by lia. fold rest.
  pose proof (to_payload_len payload rest) as Hlen.
  pose proof (to_payload_usize payload rest) as Husize.
  destruct (to_payload payload rest) as [r res]. simpl in Hlen, Husize.
  assert (Hrest : zlen rest = zlen buf - (5 + zlen hb)) by (apply zlen_zdrop; lia).
  set (buf1 := ztake (5 + zlen hb) (zwrite buf 5 hb) ++ r).
  assert (zlen buf1 = zlen buf) as Hb1.
  { pose proof (zlen_nonneg r). apply (body_in_place buf hb r 0); lia. }
  destruct res as [len|e]; [|by exists buf1].
  specialize (Husize len eq_refl).
  destruct (Z.leb_spec len (zlen rest)) as [Hle|Hgt].
  - destruct (Z.le_gt_cases (zlen hb + len) MQTT_VARINT_MAX) as [Hm|Hm];
      [|exists buf1; split; [done|lia]].
    destruct (body_in_place buf hb r len) as [_ Hw]; [lia..|]. fold buf1 in Hw.
    set (body := hb ++ ztake len r) in *.
    assert (zlen body = zlen hb + len) as Hbody
      by (unfold body; rewrite zlen_app, zlen_ztake; lia).
    destruct (finalize_spec h buf1 body) as (buf' & off & Hf & Hl & Hoff & Hs);
      [lia|unfold MAX_FIXED_HEADER_SIZE; lia|].
    unfold MAX_FIXED_HEADER_SIZE in Hf. rewrite <- Hw in Hf.
    assert (ser_room (mkSer buf1 (5 + zlen hb)) = zlen rest) as Hroom
      by (unfold ser_room, usize_saturating_sub; simpl; lia).
    rewrite (bind_ok _ _ _ _ _ (commit_ok (mkSer buf1 (5 + zlen hb)) len ltac:(lia))).
    simpl. rewrite Hbody in Hf. rewrite <- Z.add_assoc, Hf. simpl.
    exists buf'. split; [lia|]. intros _. exists off.
    pose proof (varint_bytes_length (zlen body)). split_and!; [done|lia| |done].
    unfold packet_bytes. rewrite zlen_cons, zlen_app. lia.
  - assert (ser_room (mkSer buf1 (5 + zlen hb)) = zlen rest) as Hroom
      by (unfold ser_room, usize_saturating_sub; simpl; lia).
    rewrite (bind_err _ _ _ _ _ (commit_err (mkSer buf1 (5 + zlen hb)) len ltac:(lia))).
    exists buf1. done.
Qed.

Lemma encode_publish_len {E} buf header e h (payload : ToPayload E) :
  implements header e ->
  zlen (fst (encode_publish_with_offset buf header h payload)) = zlen buf.
Proof.
  intros Him. pose proof (implements_len _ _ (MqttSerializer_new buf) Him ltac:(done)) as Hl.
  unfold encode_publish_with_offset. destruct (header _) as [s [[]|er]]; simpl in *; [|done].
  pose proof (to_payload_len payload (remainder s)) as Hp.
  destruct (to_payload payload (remainder s)) as [r res]. simpl in Hp.
  assert (zlen (ser_buf (set_remainder s r)) = zlen buf) as Hs1.
  { unfold set_remainder, remainder in *. simpl. rewrite zlen_app, Hp.
    rewrite <- zlen_app, ztake_zdrop. done. }
  destruct res as [len|er]; [|done].
  assert (zlen (ser_buf (fst ((do! commit len in finalize h) (set_remainder s r)))) =
          zlen (ser_buf (set_remainder s r))) as Hf.
  { unfold bind, commit. destruct (_ <? len); [done|].
    by rewrite finalize_len. }
  destruct ((do! commit len in finalize h) (set_remainder s r)) as [s' [res|er]];
    simpl in *; congruence.
Qed.

(** * Encoding into a bounded buffer

    The outcomes of an encoding when the buffer is no longer than the largest
    remaining length, which bounds the body too. *)

Definition encoded_at (buf' : bytes) (off : Z) (p : bytes) : Prop :=
  0 <= off /\ off + zlen p <= zlen buf' /\ zslice off (off + zlen p) buf' = p.

Lemma encode_no_room {T} `{Serialize T, ControlPacket T} (packet : T) buf body :
  implements (serialize packet) (Ok body) -> zlen buf < MAX_FIXED_HEADER_SIZE + zlen body ->
  exists buf' e, encode_with_offset buf packet = (buf', Err e).
Proof.
  intros Hi Hno. destruct (Z.le_gt_cases (zlen body) MQTT_VARINT_MAX) as [Hb|Hb].
  - pose proof (encode_with_offset_spec packet buf body Hi Hb) as Hs. cbv zeta in Hs.
    rewrite (proj2 (Z.leb_gt _ _)) in Hs by done. destruct Hs as (buf' & Hs & _). eauto.
  - specialize (Hi (MqttSerializer_new buf) ltac:(done)). cbn match in Hi.
    unfold ser_room, usize_saturating_sub, MqttSerializer_new in Hi. cbn [ser_buf ser_index] in Hi.
    rewrite (proj2 (Z.leb_gt _ _)) in Hi
      by (unfold MAX_FIXED_HEADER_SIZE in *; rewrite MQTT_VARINT_MAX_eq in Hb; lia).
    destruct Hi as (s' & Hs & _). unfold encode_with_offset, MqttSerializer_new.
    rewrite (bind_err _ _ _ _ _ Hs). eauto.
Qed.

Lemma encode_with_offset_cases {T} `{Serialize T, ControlPacket T} (packet : T) buf e :
  implements (serialize packet) e -> zlen buf <= MQTT_VARINT_MAX ->
  let '(buf', r) := encode_with_offset buf packet in
  zlen buf' = zlen buf /\
  match r with
  | Ok (off, p) =>
      exists body, e = Ok body /\ p = packet_bytes (fixed_header packet) body /\
        MAX_FIXED_HEADER_SIZE + zlen body <= zlen buf /\ encoded_at buf' off p /\
        off + zlen p = MAX_FIXED_HEADER_SIZE + zlen body
  | Err _ =>
      match e with Ok body => zlen buf < MAX_FIXED_HEADER_SIZE + zlen body | Err _ => True end
  end.
Proof.
  intros Hi Hmax. pose proof (encode_with_offset_len packet buf e Hi) as Hlen.
  destruct (encode_with_offset buf packet) as [buf' r] eqn:He. simpl in Hlen. split; [done|].
  destruct e as [body|er].
  - destruct (Z.le_gt_cases (MAX_FIXED_HEADER_SIZE + zlen body) (zlen buf)) as [Hfit|Hno].
    + assert (zlen body <= MQTT_VARINT_MAX) as Hb by (unfold MAX_FIXED_HEADER_SIZE in *; zlia).
      pose proof (encode_with_offset_spec packet buf body Hi Hb) as Hs. cbv zeta in Hs.
      rewrite (proj2 (Z.leb_le _ _)), He in Hs by done.
      destruct Hs as (buf2 & off & [= -> ->] & _ & Hsl & Hoff & Hend). exists body.
      unfold encoded_at. split_and!; try done. lia.
    + destruct (encode_no_room packet buf body Hi Hno) as (buf2 & e2 & Hs). rewrite He in Hs.
      by injection Hs as -> ->.
  - destruct r as [[off p]|e']; [|done]. exfalso.
    specialize (Hi (MqttSerializer_new buf) ltac:(done)). destruct Hi as (s' & e' & Hs & _).
    unfold encode_with_offset in He. rewrite (bind_err _ _ _ _ _ Hs) in He. by injection He.
Qed.

(** A payload serializer that claims more than it was given is refused. *)
Lemma encode_publish_overrun {E} buf header hb h (payload : ToPayload E) slice len buf' res :
  implements header (Ok hb) -> MAX_FIXED_HEADER_SIZE + zlen hb <= zlen buf ->
  to_payload payload (zdrop (MAX_FIXED_HEADER_SIZE + zlen hb) buf) = (slice, Ok len) ->
  zlen (zdrop (MAX_FIXED_HEADER_SIZE + zlen hb) buf) < len ->
  encode_publish_with_offset buf header h payload <> (buf', Ok res).
Proof.
  intros Hi Hfit Hp Hgt. unfold encode_publish_with_offset.
  specialize (Hi (MqttSerializer_new buf) ltac:(done)). cbn match in Hi.
  unfold ser_room, ser_put, MqttSerializer_new, usize_saturating_sub in *.
  cbn [ser_buf ser_index] in *. unfold MAX_FIXED_HEADER_SIZE in *.
  pose proof (zlen_nonneg hb). rewrite (proj2 (Z.leb_le _ _)) in Hi by lia. rewrite Hi.
  unfold remainder, set_remainder. cbn [ser_buf ser_index].
  rewrite zlen_zwrite, Z.min_l, zdrop_zwrite by lia. rewrite Hp.
  pose proof (to_payload_len payload (zdrop (5 + zlen hb) buf)) as Hl. rewrite Hp in Hl.
  simpl in Hl.
  set (s := mkSer _ _). assert (ser_room s < len) as Hc.
  { unfold s, ser_room, usize_saturating_sub. cbn [ser_buf ser_index].
    rewrite zlen_app, zlen_ztake by (rewrite ?zlen_zwrite; lia).
    pose proof (zlen_nonneg slice). lia. }
  by rewrite (bind_err _ _ _ _ _ (commit_err s len Hc)).
Qed.

Lemma encode_publish_no_room {E} buf header hb h (payload : ToPayload E) buf' res :
  implements header (Ok hb) -> 0 < zlen hb -> zlen buf < MAX_FIXED_HEADER_SIZE + zlen hb ->
  encode_publish_with_offset buf header h payload <> (buf', Ok res).
Proof.
  intros Hi Hpos Hno. unfold encode_publish_with_offset.
  specialize (Hi (MqttSerializer_new buf) ltac:(done)). cbn match in Hi.
  unfold ser_room, usize_saturating_sub, MqttSerializer_new in *. cbn [ser_buf ser_index] in *.
  unfold MAX_FIXED_HEADER_SIZE in *. rewrite (proj2 (Z.leb_gt _ _)) in Hi by lia.
  destruct Hi as (s' & -> & _). done.
Qed.

Lemma encode_publish_cases {E} buf header e h (payload : ToPayload E) :
  implements header e -> (forall hb, e = Ok hb -> 0 < zlen hb) -> zlen buf <= MQTT_VARINT_MAX ->
  let '(buf', r) := encode_publish_with_offset buf header h payload in
  zlen buf' = zlen buf /\
  match r with
  | Ok (off, p) =>
      exists hb slice len, e = Ok hb /\ MAX_FIXED_HEADER_SIZE + zlen hb <= zlen buf /\
        to_payload payload (zdrop (MAX_FIXED_HEADER_SIZE + zlen hb) buf) = (slice, Ok len) /\
        p = packet_bytes h (hb ++ ztake len slice) /\ encoded_at buf' off p
  | Err _ => True
  end.
Proof.
  intros Hi Hpos Hmax. pose proof (encode_publish_len buf header e h payload Hi) as Hlen.
  destruct (encode_publish_with_offset buf header h payload) as [buf' r] eqn:He.
  simpl in Hlen. split; [done|]. destruct r as [[off p]|er]; [|done].
  destruct e as [hb|er].
  - specialize (Hpos hb eq_refl).
    destruct (Z.le_gt_cases (MAX_FIXED_HEADER_SIZE + zlen hb) (zlen buf)) as [Hfit|Hno].
    + pose proof (encode_publish_spec buf header hb h payload Hi Hpos Hfit) as Hs.
      cbv zeta in Hs. set (rest := zdrop _ buf) in *.
      assert (zlen rest = zlen buf - (MAX_FIXED_HEADER_SIZE + zlen hb)) as Hrest
        by (apply zlen_zdrop; unfold MAX_FIXED_HEADER_SIZE in *; lia).
      destruct (to_payload payload rest) as [slice [len|pe]] eqn:Hp;
        destruct Hs as (buf2 & Hb2 & Hs); [|rewrite He in Hs; done].
      destruct (Z.le_gt_cases len (zlen rest)) as [Hle|Hgt].
      * unfold MAX_FIXED_HEADER_SIZE in *. specialize (Hs ltac:(lia)).
        rewrite (proj2 (Z.leb_le _ _)) in Hs by lia. destruct Hs as (off2 & Hs & H0 & Hend & Hsl).
        rewrite He in Hs. injection Hs as -> -> ->. exists hb, slice, len.
        unfold encoded_at. split_and!; try done. lia.
      * exfalso. by apply (encode_publish_overrun buf header hb h payload slice len) in He.
    + exfalso. by apply (encode_publish_no_room buf header hb h payload) in He.
  - exfalso. specialize (Hi (MqttSerializer_new buf) ltac:(done)).
    destruct Hi as (s' & e' & Hs & _). unfold encode_publish_with_offset in He.
    rewrite Hs in He. done.
Qed.
