(* ===== verification/De.v ===== *)
(** The MQTT deserializer: [src/minimq/src/de/deserializer.rs] and the field
    decodings of [src/minimq/src/wire.rs].

    A deserializer reads one buffer from [de_index] on. [next_bytes_len] is the
    length override that [deserialize_seq] leaves for a block read as bytes.
    serde's dispatch is resolved as in [Ser]: [ElementAccess] hands out at most
    a number of elements, [SeqAccess] at most a number of bytes.

    [de_safe] is the memory-safety invariant of every computation (the index
    stays inside the buffer, so no slice expression of the source panics), and
    [decodes] the functional specification the round trips use. *)

From S2P Require Import Prelude Varint Types Wire.

Record MqttDeserializer : Type := mkDe {
  de_buf : bytes;
  de_index : Z;
  next_bytes_len : option Z
}.

Definition De (A : Type) : Type := ST MqttDeserializer DeError A.

Definition MqttDeserializer_new (buf : bytes) : MqttDeserializer := mkDe buf 0 None.

Definition de_advance (d : MqttDeserializer) (n : Z) : MqttDeserializer :=
  mkDe (de_buf d) (de_index d + n) (next_bytes_len d).

Definition de_len (d : MqttDeserializer) : Z := zlen (de_buf d) - de_index d.

Definition set_next_bytes_len (len : Z) : De unit :=
  fun d => (mkDe (de_buf d) (de_index d) (Some len), Ok tt).

(** [next_bytes_len.take()]. *)
Definition take_next_bytes_len : De (option Z) :=
  fun d => (mkDe (de_buf d) (de_index d) None, Ok (next_bytes_len d)).

Definition try_take_n (n : Z) : De bytes :=
  fun d =>
    if de_len d <? n then (d, Err DeError.InsufficientData)
    else (de_advance d n, Ok (zslice (de_index d) (de_index d + n) (de_buf d))).

(** [buf.get(index..).and_then(first_chunk)]. *)
Definition try_take_array (n : Z) : De bytes :=
  fun d =>
    if (zlen (de_buf d) <? de_index d) || (zlen (zdrop (de_index d) (de_buf d)) <? n)
    then (d, Err DeError.InsufficientData)
    else (de_advance d n, Ok (ztake n (zdrop (de_index d) (de_buf d)))).

Definition pop : De Z :=
  fun d =>
    if de_len d =? 0 then (d, Err DeError.InsufficientData)
    else match zget (de_buf d) (de_index d) with
         | Some byte => (de_advance d 1, Ok byte)
         | None => (d, Err DeError.InsufficientData)
         end.

Definition read_u16 : De Z :=
  let! a := try_take_array 2 in ret (from_be_bytes a).

Definition read_varint : De Z := read_mqtt_u32_varint pop DeError.BadVarint.

Definition deserialized_bytes (d : MqttDeserializer) : Z := de_index d.

Definition de_remainder (d : MqttDeserializer) : bytes := zdrop (de_index d) (de_buf d).

(** * Deserializer methods *)

Definition deserialize_bool : De bool :=
  let! b := pop in
  if b =? 0 then ret false else if b =? 1 then ret true else raise DeError.BadBool.

Definition deserialize_u8 : De Z := pop.
Definition deserialize_u16 : De Z := read_u16.
Definition deserialize_u32 : De Z :=
  let! a := try_take_array 4 in ret (from_be_bytes a).

Definition deserialize_str : De bytes :=
  let! length := read_u16 in
  let! bs := try_take_n length in
  if from_utf8 bs then ret bs else raise DeError.BadString.

Definition deserialize_bytes : De bytes :=
  let! next := take_next_bytes_len in
  let! length := match next with Some length => ret length | None => read_u16 end in
  try_take_n length.

(** [Option<T>]: present exactly when data remains. *)
Definition deserialize_option {A} (p : De A) : De (option A) :=
  fun d => if de_len d =? 0 then (d, Ok None)
           else (let! a := p in ret (Some a)) d.

(** * Element access *)

Record ElementAccess : Type := mkEA { ea_deserializer : MqttDeserializer; ea_count : Z }.

Definition EA (A : Type) : Type := ST ElementAccess DeError A.

Definition next_element {A} (p : De A) : EA (option A) :=
  fun ea =>
    if 0 <? ea_count ea then
      match p (ea_deserializer ea) with
      | (d, Ok a) => (mkEA d (ea_count ea - 1), Ok (Some a))
      | (d, Err e) => (mkEA d (ea_count ea - 1), Err e)
      end
    else (ea, Ok None).

(** [next_required]: a missing element is a custom error. *)
Definition next_required {A} (p : De A) : EA A :=
  let! o := next_element p in
  match o with Some a => ret a | None => raise DeError.Custom end.

Definition deserialize_tuple {A} (len : Z) (visitor : EA A) : De A :=
  fun d => match visitor (mkEA d len) with
           | (ea, r) => (ea_deserializer ea, r)
           end.

Record SeqAccess : Type := mkSA { sa_deserializer : MqttDeserializer; sa_length : Z }.

Definition SA (A : Type) : Type := ST SeqAccess DeError A.

Definition next_seq_element {A} (p : De A) : SA (option A) :=
  fun sa =>
    if 0 <? sa_length sa then
      let original_remaining := de_len (sa_deserializer sa) in
      match p (sa_deserializer sa) with
      | (d, Err e) => (mkSA d (sa_length sa), Err e)
      | (d, Ok data) =>
          match usize_checked_sub (sa_length sa) (original_remaining - de_len d) with
          | None => (mkSA d (sa_length sa), Err DeError.InsufficientData)
          | Some length => (mkSA (mkDe (de_buf d) (de_index d) None) length, Ok (Some data))
          end
      end
    else (sa, Ok None).

(** A byte-counted sequence: its length as a varint, then its elements. *)
Definition deserialize_seq {A} (visitor : SA A) : De A :=
  let! length := read_varint in
  do! set_next_bytes_len length in
  fun d => match visitor (mkSA d length) with
           | (sa, r) => (sa_deserializer sa, r)
           end.

(** [Varint::deserialize]: up to four single-byte elements. *)
Definition deserialize_varint : De Varint :=
  deserialize_tuple (Z.of_nat MQTT_VARINT_MAX_BYTES)
    (let! v := read_mqtt_u32_varint (next_required deserialize_u8) DeError.Custom in
     ret (mkVarint v)).

Definition deserialize_reason_code : De ReasonCode :=
  let! b := deserialize_u8 in ret (reason_code_from b).

(** * Memory safety *)

Definition de_good (d : MqttDeserializer) : Prop :=
  0 <= de_index d <= zlen (de_buf d) /\ all_u8 (de_buf d) /\
  match next_bytes_len d with Some n => 0 <= n | None => True end.

(** A step of the deserializer keeps the buffer and only moves forward. *)
Definition de_step (d d' : MqttDeserializer) : Prop :=
  de_good d' /\ de_buf d' = de_buf d /\ de_index d <= de_index d'.

Definition de_safe {A} (m : De A) : Prop := forall d, de_good d -> de_step d (fst (m d)).

Create HintDb de.

Lemma de_step_refl d : de_good d -> de_step d d.
Proof. intros. split; [done|]. split; [done|lia]. Qed.

Lemma de_step_trans d1 d2 d3 : de_step d1 d2 -> de_step d2 d3 -> de_step d1 d3.
Proof. unfold de_step. intros (? & ? & ?) (? & ? & ?). split_and!; [done|congruence|lia]. Qed.

Lemma de_safe_ret {A} (a : A) : de_safe (ret a).
Proof. intros d Hd. by apply de_step_refl. Qed.

Lemma de_safe_raise {A} e : de_safe (@raise _ _ A e).
Proof. intros d Hd. by apply de_step_refl. Qed.

Lemma de_safe_bind {A B} (m : De A) (k : A -> De B) :
  de_safe m -> (forall a, de_safe (k a)) -> de_safe (bind m k).
Proof.
  intros Hm Hk d Hd. specialize (Hm d Hd). unfold bind.
  destruct (m d) as [d1 [a|e]]; simpl in *; [|done].
  apply de_step_trans with d1; [done|]. apply Hk, Hm.
Qed.

Lemma de_step_advance d n :
  de_good d -> 0 <= n <= de_len d -> de_step d (de_advance d n).
Proof.
  unfold de_step, de_good, de_len, de_advance. simpl. intros (? & ? & ?) ?.
  split_and!; try done; lia.
Qed.

Lemma de_safe_take_array n : 0 <= n -> de_safe (try_take_array n).
Proof.
  intros Hn d Hd. unfold try_take_array. destruct (_ || _) eqn:Hb; [by apply de_step_refl|].
  apply de_step_advance; [done|]. destruct Hd as (? & _). unfold de_len.
  rewrite zlen_zdrop in Hb by lia. lia.
Qed.

Lemma de_safe_take_n n : 0 <= n -> de_safe (try_take_n n).
Proof.
  intros Hn d Hd. unfold try_take_n. destruct (Z.ltb_spec (de_len d) n);
    [by apply de_step_refl|]. by apply de_step_advance.
Qed.

Lemma de_safe_pop : de_safe pop.
Proof.
  intros d Hd. unfold pop. destruct (Z.eqb_spec (de_len d) 0); [by apply de_step_refl|].
  destruct (zget _ _) eqn:Hz; [|by apply de_step_refl]. apply zget_some in Hz.
  apply de_step_advance; [done|]. unfold de_len. lia.
Qed.

Lemma de_safe_option {A} (p : De A) : de_safe p -> de_safe (deserialize_option p).
Proof.
  intros Hp d Hd. unfold deserialize_option. destruct (_ =? 0); [by apply de_step_refl|].
  revert d Hd. apply de_safe_bind; [done|]. intros. apply de_safe_ret.
Qed.

(** Slices of the buffer hold bytes, so the integers read are in range. *)
Lemma try_take_array_u8 n d d' bs :
  de_good d -> try_take_array n d = (d', Ok bs) -> all_u8 bs /\ zlen bs <= Z.max n 0.
Proof.
  intros (Hi & Hu & _). unfold try_take_array. destruct (_ || _); [done|].
  intros H. simplify_eq. split.
  - unfold ztake, zdrop. by apply Forall_take, Forall_drop.
  - unfold ztake, zlen. rewrite length_take. lia.
Qed.

Lemma de_safe_u16_bind {B} (k : Z -> De B) :
  (forall n, 0 <= n -> de_safe (k n)) -> de_safe (let! n := read_u16 in k n).
Proof.
  intros Hk d Hd. unfold read_u16, bind at 2. unfold bind at 1.
  pose proof (de_safe_take_array 2 ltac:(lia) d Hd) as Hs.
  destruct (try_take_array 2 d) as [d1 [a|e]] eqn:Ha; simpl in *; [|done].
  apply de_step_trans with d1; [done|]. apply Hk; [|apply Hs].
  apply try_take_array_u8 in Ha as [Hu _]; [|done]. by apply from_be_bytes_bound.
Qed.

Lemma de_safe_varint_loop n value : de_safe (read_varint_loop pop DeError.BadVarint n value).
Proof.
  revert value. induction n as [|n IH]; intros value; simpl; [apply de_safe_raise|].
  apply de_safe_bind; [apply de_safe_pop|]. intros b.
  repeat case_match; auto using de_safe_raise, de_safe_ret.
Qed.

#[export] Hint Resolve de_safe_ret de_safe_raise de_safe_bind de_safe_take_array
  de_safe_take_n de_safe_pop de_safe_option de_safe_varint_loop : de.

Lemma de_safe_u16 : de_safe deserialize_u16.
Proof. apply de_safe_bind; [apply de_safe_take_array; lia|]. auto with de. Qed.

Lemma de_safe_u32 : de_safe deserialize_u32.
Proof. apply de_safe_bind; [apply de_safe_take_array; lia|]. auto with de. Qed.

Lemma de_safe_bool : de_safe deserialize_bool.
Proof. apply de_safe_bind; [apply de_safe_pop|]. intros. repeat case_match; auto with de. Qed.

Lemma de_safe_str : de_safe deserialize_str.
Proof.
  apply de_safe_u16_bind. intros n Hn. apply de_safe_bind; [by apply de_safe_take_n|].
  intros. case_match; auto with de.
Qed.

Lemma de_safe_bytes : de_safe deserialize_bytes.
Proof.
  intros d Hd. unfold deserialize_bytes, take_next_bytes_len, bind at 1.
  assert (de_step d (mkDe (de_buf d) (de_index d) None)) as Hs.
  { destruct Hd as (? & ? & ?). unfold de_step, de_good. simpl. split_and!; try done; lia. }
  apply de_step_trans with (mkDe (de_buf d) (de_index d) None); [done|].
  destruct (next_bytes_len d) as [n|] eqn:Hn.
  - unfold bind, ret. apply de_safe_take_n; [|apply Hs].
    destruct Hd as (_ & _ & Hd). by rewrite Hn in Hd.
  - apply de_safe_u16_bind; [|apply Hs]. intros. by apply de_safe_take_n.
Qed.

(** Element access is safe when its deserializer steps are. *)
Definition ea_safe {A} (m : EA A) : Prop :=
  forall ea, de_good (ea_deserializer ea) ->
    de_step (ea_deserializer ea) (ea_deserializer (fst (m ea))).

Lemma ea_safe_ret {A} (a : A) : ea_safe (ret a).
Proof. intros ea Hd. by apply de_step_refl. Qed.

Lemma ea_safe_raise {A} e : ea_safe (@raise _ _ A e).
Proof. intros ea Hd. by apply de_step_refl. Qed.

Lemma ea_safe_bind {A B} (m : EA A) (k : A -> EA B) :
  ea_safe m -> (forall a, ea_safe (k a)) -> ea_safe (bind m k).
Proof.
  intros Hm Hk ea Hd. specialize (Hm ea Hd). unfold bind.
  destruct (m ea) as [ea1 [a|e]]; simpl in *; [|done].
  eapply de_step_trans; [done|]. apply Hk, Hm.
Qed.

Lemma ea_safe_next {A} (p : De A) : de_safe p -> ea_safe (next_element p).
Proof.
  intros Hp ea Hd. unfold next_element. destruct (_ <? _); [|by apply de_step_refl].
  specialize (Hp _ Hd). by destruct (p _) as [d [a|e]].
Qed.

Lemma ea_safe_required {A} (p : De A) : de_safe p -> ea_safe (next_required p).
Proof.
  intros. apply ea_safe_bind; [by apply ea_safe_next|]. intros [a|];
    [apply ea_safe_ret|apply ea_safe_raise].
Qed.

Lemma de_safe_tuple {A} n (v : EA A) : ea_safe v -> de_safe (deserialize_tuple n v).
Proof.
  intros Hv d Hd. specialize (Hv (mkEA d n) Hd). unfold deserialize_tuple.
  by destruct (v (mkEA d n)).
Qed.

#[export] Hint Resolve de_safe_u16 de_safe_u32 de_safe_bool de_safe_str de_safe_bytes
  ea_safe_ret ea_safe_raise ea_safe_bind ea_safe_next ea_safe_required de_safe_tuple : de.

Lemma ea_safe_varint_loop n value :
  ea_safe (read_varint_loop (next_required deserialize_u8) DeError.Custom n value).
Proof.
  revert value. induction n as [|n IH]; intros value; simpl; [apply ea_safe_raise|].
  apply ea_safe_bind; [apply ea_safe_required, de_safe_pop|]. intros b.
  repeat case_match; auto with de.
Qed.

Lemma de_safe_varint : de_safe deserialize_varint.
Proof.
  apply de_safe_tuple, ea_safe_bind; [apply ea_safe_varint_loop|]. auto with de.
Qed.

Lemma de_safe_reason_code : de_safe deserialize_reason_code.
Proof. apply de_safe_bind; [apply de_safe_pop|]. auto with de. Qed.

#[export] Hint Resolve ea_safe_varint_loop de_safe_varint de_safe_reason_code : de.

(** * Reading integers *)

Lemma pop_byte d b r :
  de_good d -> de_remainder d = b :: r ->
  pop d = (de_advance d 1, Ok b) /\ de_remainder (de_advance d 1) = r /\
  de_good (de_advance d 1).
Proof.
  intros Hd Hr. unfold de_remainder in *. pose proof Hd as (Hi & _).
  destruct (zdrop_cons_zget _ _ _ _ (proj1 Hi) Hr) as [Hg ->]. unfold pop.
  pose proof (zget_some _ _ _ Hg).
  destruct (Z.eqb_spec (de_len d) 0); [unfold de_len in *; lia|]. rewrite Hg.
  split_and!; [done|done|]. apply de_step_advance; [done|]. unfold de_len. lia.
Qed.

Lemma pop_eof d :
  de_good d -> de_remainder d = [] -> pop d = (d, Err DeError.InsufficientData).
Proof.
  intros (Hi & _) Hr. unfold pop, de_len. unfold de_remainder in Hr.
  apply (f_equal zlen) in Hr. rewrite zlen_zdrop in Hr by lia. rewrite zlen_nil in Hr.
  by rewrite (proj2 (Z.eqb_eq _ _)) by lia.
Qed.

Lemma de_remainder_u8 d : de_good d -> all_u8 (de_remainder d).
Proof. intros (_ & H & _). unfold de_remainder, zdrop. by apply Forall_drop. Qed.

Lemma de_adv_n n d :
  adv_n (fun d => de_advance d 1) n d =
  mkDe (de_buf d) (de_index d + Z.of_nat n) (next_bytes_len d).
Proof.
  revert d. induction n as [|n IH]; intros d; simpl.
  - rewrite Z.add_0_r. by destruct d.
  - rewrite IH. unfold de_advance. simpl. f_equal. lia.
Qed.

(** A varint read from the buffer is in the MQTT range and was canonical. *)
Lemma read_varint_inv d d' v :
  de_good d -> read_varint d = (d', Ok v) ->
  0 <= v <= MQTT_VARINT_MAX /\ de_remainder d = varint_bytes v ++ de_remainder d' /\
  d' = mkDe (de_buf d) (de_index d + zlen (varint_bytes v)) (next_bytes_len d).
Proof.
  intros Hd Hr.
  destruct (read_loop_canonical pop DeError.BadVarint de_good de_remainder
              (fun d => de_advance d 1) DeError.InsufficientData pop_byte pop_eof
              de_remainder_u8 4 0 d d' v) as (u & Hu & _ & -> & Hvw & ->);
    [lia|simpl; lia|done|done|].
  simpl Z.sub. rewrite Z.mul_0_r, Z.pow_0_r, Z.mul_1_r, Z.add_0_l.
  rewrite de_adv_n in *. rewrite MQTT_VARINT_MAX_eq.
  change (128 ^ Z.of_nat 4) with 268435456 in Hu. split_and!; [lia|lia|done|done].
Qed.

Lemma de_safe_read_varint : de_safe read_varint.
Proof. apply de_safe_varint_loop. Qed.

(** A property block: a safe visitor makes a safe sequence. *)
Definition sa_safe {A} (m : SA A) : Prop :=
  forall sa, de_good (sa_deserializer sa) ->
    de_step (sa_deserializer sa) (sa_deserializer (fst (m sa))).

Lemma sa_safe_ret {A} (a : A) : sa_safe (ret a).
Proof. intros sa Hd. by apply de_step_refl. Qed.

Lemma sa_safe_bind {A B} (m : SA A) (k : A -> SA B) :
  sa_safe m -> (forall a, sa_safe (k a)) -> sa_safe (bind m k).
Proof.
  intros Hm Hk sa Hd. specialize (Hm sa Hd). unfold bind.
  destruct (m sa) as [sa1 [a|e]]; simpl in *; [|done].
  eapply de_step_trans; [done|]. apply Hk, Hm.
Qed.

Lemma sa_safe_next {A} (p : De A) : de_safe p -> sa_safe (next_seq_element p).
Proof.
  intros Hp sa Hd. unfold next_seq_element. destruct (_ <? _); [|by apply de_step_refl].
  specialize (Hp _ Hd). destruct (p _) as [d [a|e]]; simpl in *; [|done].
  destruct (usize_checked_sub _ _); simpl; [|done].
  destruct Hp as ((? & ? & ?) & ? & ?). unfold de_step, de_good. simpl.
  split_and!; try done; lia.
Qed.

Lemma de_safe_seq {A} (v : SA A) : sa_safe v -> de_safe (deserialize_seq v).
Proof.
  intros Hv d Hd. unfold deserialize_seq, bind at 1.
  pose proof (de_safe_read_varint d Hd) as Hs.
  destruct (read_varint d) as [d1 [n|e]] eqn:Hr; simpl in *; [|done].
  apply read_varint_inv in Hr as (Hn & _ & _); [|done].
  unfold set_next_bytes_len, bind. simpl.
  assert (de_step d (mkDe (de_buf d1) (de_index d1) (Some n))) as Hs1.
  { destruct Hs as ((? & ? & ?) & ? & ?). unfold de_step, de_good. simpl.
    split_and!; try done; lia. }
  eapply de_step_trans; [done|].
  specialize (Hv (mkSA (mkDe (de_buf d1) (de_index d1) (Some n)) n) (proj1 Hs1)).
  by destruct (v _) as [sa r].
Qed.

#[export] Hint Resolve de_safe_read_varint sa_safe_ret sa_safe_bind sa_safe_next
  de_safe_seq : de.

(** * Functional specification

    [decodes m bs rest a nb]: with [bs ++ rest] ahead and no length override,
    [m] consumes exactly [bs], returns [a] and leaves the override [nb]. *)

Definition decodes {A} (m : De A) (bs rest : bytes) (a : A) (nb : option Z) : Prop :=
  forall d, de_good d -> de_remainder d = bs ++ rest -> next_bytes_len d = None ->
  m d = (mkDe (de_buf d) (de_index d + zlen bs) nb, Ok a).

Lemma de_good_advance d bs rest nb :
  de_good d -> de_remainder d = bs ++ rest ->
  match nb with Some n => 0 <= n | None => True end ->
  let d' := mkDe (de_buf d) (de_index d + zlen bs) nb in
  de_good d' /\ de_remainder d' = rest.
Proof.
  intros (Hi & Hu & _) Hr Hnb. unfold de_good, de_remainder in *. simpl.
  pose proof Hr as Hl. apply (f_equal zlen) in Hl.
  rewrite zlen_zdrop, zlen_app in Hl by lia. pose proof (zlen_nonneg rest).
  pose proof (zlen_nonneg bs). split_and!; try done; try lia.
  rewrite <- zdrop_zdrop, Hr by lia. by apply zdrop_app_exact.
Qed.

Lemma decodes_ret {A} (a : A) rest : decodes (ret a) [] rest a None.
Proof. intros [b i n] Hd Hr Hn. simpl in *. subst. by rewrite Z.add_0_r. Qed.

Lemma decodes_bind {A B} (m : De A) (k : A -> De B) b1 b2 rest a b nb :
  decodes m b1 (b2 ++ rest) a None -> decodes (k a) b2 rest b nb ->
  decodes (bind m k) (b1 ++ b2) rest b nb.
Proof.
  intros Hm Hk d Hd Hr Hn. rewrite <- app_assoc in Hr.
  rewrite (bind_ok _ _ _ _ _ (Hm d Hd Hr Hn)).
  destruct (de_good_advance d b1 (b2 ++ rest) None Hd Hr I) as [Hg Hr'].
  rewrite (Hk _ Hg Hr' eq_refl). simpl. by rewrite zlen_app, Z.add_assoc.
Qed.

Lemma decodes_map {A B} (m : De A) (f : A -> B) bs rest a nb :
  decodes m bs rest a nb -> decodes (let! x := m in ret (f x)) bs rest (f a) nb.
Proof. intros Hm d Hd Hr Hn. by rewrite (bind_ok _ _ _ _ _ (Hm d Hd Hr Hn)). Qed.

Lemma decodes_u8 b rest : decodes deserialize_u8 [b] rest b None.
Proof.
  intros d Hd Hr Hn. destruct (pop_byte d b rest Hd Hr) as [H _].
  unfold deserialize_u8. rewrite H. unfold de_advance. by rewrite Hn.
Qed.

Lemma decodes_array n bs rest :
  zlen bs = n -> decodes (try_take_array n) bs rest bs None.
Proof.
  intros <- d Hd Hr Hn. unfold try_take_array. unfold de_remainder in Hr. rewrite Hr.
  destruct Hd as (Hi & _). rewrite (proj2 (Z.ltb_ge _ (de_index d))) by lia.
  rewrite (proj2 (Z.ltb_ge _ (zlen bs))) by zlia. simpl.
  rewrite ztake_app_exact by done. unfold de_advance. by rewrite Hn.
Qed.

Lemma decodes_u16 v rest : is_u16 v -> decodes deserialize_u16 (to_be_bytes 2 v) rest v None.
Proof.
  intros Hv. unfold deserialize_u16, read_u16.
  rewrite <- (from_to_be_bytes 2 v) at 2 by (unfold is_u16 in Hv; simpl; lia).
  apply (decodes_map (try_take_array 2) from_be_bytes). apply decodes_array. done.
Qed.

Lemma decodes_u32 v rest : is_u32 v -> decodes deserialize_u32 (to_be_bytes 4 v) rest v None.
Proof.
  intros Hv. unfold deserialize_u32.
  rewrite <- (from_to_be_bytes 4 v) at 2 by (unfold is_u32 in Hv; simpl; lia).
  apply (decodes_map (try_take_array 4) from_be_bytes). apply decodes_array. done.
Qed.

Lemma decodes_bool (b : bool) rest :
  decodes deserialize_bool [if b then 1 else 0] rest b None.
Proof.
  change [if b then 1 else 0] with ([if b then 1 else 0] ++ []).
  apply decodes_bind with (if b then 1 else 0); [apply decodes_u8|].
  destruct b; apply decodes_ret.
Qed.

Lemma decodes_reason_code c rest :
  decodes deserialize_reason_code [reason_code_u8 c] rest c None.
Proof.
  rewrite <- (reason_code_from_u8 c) at 2.
  apply (decodes_map deserialize_u8 reason_code_from), decodes_u8.
Qed.

Lemma decodes_take_n n bs rest : zlen bs = n -> decodes (try_take_n n) bs rest bs None.
Proof.
  intros <- d Hd Hr Hn. unfold try_take_n. unfold de_remainder in Hr.
  destruct Hd as (Hi & _). pose proof Hr as Hl. apply (f_equal zlen) in Hl.
  rewrite zlen_zdrop, zlen_app in Hl by lia. unfold de_len.
  rewrite (proj2 (Z.ltb_ge _ _)) by zlia. unfold de_advance, zslice.
  rewrite Hr, Hn, Z.add_simpl_l, ztake_app_exact by done. done.
Qed.

Lemma is_u16_zlen (bs : bytes) : zlen bs < 2 ^ 16 -> is_u16 (zlen bs).
Proof. unfold is_u16. zlia. Qed.

Lemma decodes_str s rest :
  zlen s < 2 ^ 16 -> from_utf8 s = true ->
  decodes deserialize_str (to_be_bytes 2 (zlen s) ++ s) rest s None.
Proof.
  intros Hl Hu. apply decodes_bind with (zlen s); [by apply decodes_u16, is_u16_zlen|].
  rewrite <- (app_nil_r s) at 2. apply decodes_bind with s; [by apply decodes_take_n|].
  rewrite Hu. apply decodes_ret.
Qed.

Lemma decodes_bytes s rest :
  zlen s < 2 ^ 16 -> decodes deserialize_bytes (to_be_bytes 2 (zlen s) ++ s) rest s None.
Proof.
  intros Hl d Hd Hr Hn. unfold deserialize_bytes, take_next_bytes_len, bind at 1.
  rewrite Hn. assert (mkDe (de_buf d) (de_index d) None = d) as -> by (destruct d; simpl in *; congruence).
  revert d Hd Hr Hn. change (decodes (let! n := deserialize_u16 in try_take_n n)
    (to_be_bytes 2 (zlen s) ++ s) rest s None).
  apply decodes_bind with (zlen s); [by apply decodes_u16, is_u16_zlen|].
  by apply decodes_take_n.
Qed.

Lemma decodes_option_some {A} (p : De A) bs rest a nb :
  decodes p bs rest a nb -> 0 < zlen (bs ++ rest) ->
  decodes (deserialize_option p) bs rest (Some a) nb.
Proof.
  intros Hp Hne d Hd Hr Hn. unfold deserialize_option.
  destruct Hd as (Hi & Hu & Hb). pose proof Hr as Hl. apply (f_equal zlen) in Hl.
  unfold de_remainder in Hl. rewrite zlen_zdrop in Hl by lia. unfold de_len.
  rewrite (proj2 (Z.eqb_neq _ _)) by lia.
  rewrite (bind_ok _ _ _ _ _ (Hp d (conj Hi (conj Hu Hb)) Hr Hn)). done.
Qed.

Lemma decodes_option_none {A} (p : De A) : decodes (deserialize_option p) [] [] None None.
Proof.
  intros d (Hi & _) Hr Hn. unfold deserialize_option, de_len. unfold de_remainder in Hr.
  apply (f_equal zlen) in Hr. rewrite zlen_zdrop in Hr by lia. simpl app in Hr.
  rewrite zlen_nil in Hr. rewrite (proj2 (Z.eqb_eq _ _)) by lia.
  destruct d; simpl in *. subst. by rewrite Z.add_0_r.
Qed.

Lemma decodes_read_varint v rest :
  0 <= v <= MQTT_VARINT_MAX -> decodes read_varint (varint_bytes v) rest v None.
Proof.
  intros Hv d Hd Hr Hn. rewrite MQTT_VARINT_MAX_eq in Hv.
  destruct (read_loop_ok pop DeError.BadVarint de_good de_remainder
              (fun d => de_advance d 1) pop_byte 4 0 v d rest) as (s' & Hl & ->);
    [lia| |by left|simpl; lia|done|done|].
  - change (128 ^ Z.of_nat 4) with 268435456. lia.
  - unfold read_varint, read_mqtt_u32_varint.
    change MQTT_VARINT_MAX_BYTES with 4%nat. rewrite Hl. simpl Z.sub.
    rewrite Z.mul_0_r, Z.pow_0_r, Z.mul_1_r, Z.add_0_l. by rewrite de_adv_n, Hn.
Qed.

(** Element access under a count. *)
Definition ea_decodes {A} (m : EA A) (n : Z) (bs rest : bytes) (a : A) (n' : Z)
    (nb : option Z) : Prop :=
  forall d, de_good d -> de_remainder d = bs ++ rest -> next_bytes_len d = None ->
  m (mkEA d n) = (mkEA (mkDe (de_buf d) (de_index d + zlen bs) nb) n', Ok a).

Lemma ea_decodes_ret {A} (a : A) n rest : ea_decodes (ret a) n [] rest a n None.
Proof. intros [b i x] Hd Hr Hn. simpl in *. subst. by rewrite Z.add_0_r. Qed.

Lemma ea_decodes_bind {A B} (m : EA A) (k : A -> EA B) n n1 n2 b1 b2 rest a b nb :
  ea_decodes m n b1 (b2 ++ rest) a n1 None -> ea_decodes (k a) n1 b2 rest b n2 nb ->
  ea_decodes (bind m k) n (b1 ++ b2) rest b n2 nb.
Proof.
  intros Hm Hk d Hd Hr Hn. rewrite <- app_assoc in Hr.
  rewrite (bind_ok _ _ _ _ _ (Hm d Hd Hr Hn)).
  destruct (de_good_advance d b1 (b2 ++ rest) None Hd Hr I) as [Hg Hr'].
  rewrite (Hk _ Hg Hr' eq_refl). simpl. by rewrite zlen_app, Z.add_assoc.
Qed.

Lemma ea_decodes_last {A B} (m : EA A) (f : A -> B) n n1 bs rest a nb :
  ea_decodes m n bs rest a n1 nb ->
  ea_decodes (let! x := m in ret (f x)) n bs rest (f a) n1 nb.
Proof. intros Hm d Hd Hr Hn. by rewrite (bind_ok _ _ _ _ _ (Hm d Hd Hr Hn)). Qed.

Lemma ea_decodes_required {A} (p : De A) n bs rest a nb :
  0 < n -> decodes p bs rest a nb -> ea_decodes (next_required p) n bs rest a (n - 1) nb.
Proof.
  intros Hn Hp d Hd Hr Hnb. unfold next_required, next_element, bind. simpl.
  rewrite (proj2 (Z.ltb_lt _ _)) by lia. by rewrite (Hp d Hd Hr Hnb).
Qed.

Lemma decodes_tuple {A} (v : EA A) n n' bs rest a nb :
  ea_decodes v n bs rest a n' nb -> decodes (deserialize_tuple n v) bs rest a nb.
Proof.
  intros Hv d Hd Hr Hn. unfold deserialize_tuple. by rewrite (Hv d Hd Hr Hn).
Qed.

(** The bytes an element access can still hand out. *)
Definition ea_view (ea : ElementAccess) : bytes :=
  ztake (ea_count ea) (de_remainder (ea_deserializer ea)).
Definition ea_good (ea : ElementAccess) : Prop := de_good (ea_deserializer ea).
Definition ea_adv (ea : ElementAccess) : ElementAccess :=
  mkEA (de_advance (ea_deserializer ea) 1) (ea_count ea - 1).

Lemma ea_byte ea b r :
  ea_good ea -> ea_view ea = b :: r ->
  next_required deserialize_u8 ea = (ea_adv ea, Ok b) /\ ea_view (ea_adv ea) = r /\
  ea_good (ea_adv ea).
Proof.
  unfold ea_good, ea_view. intros Hd Hv.
  destruct (Z.le_gt_cases (ea_count ea) 0) as [Hc|Hc].
  { unfold ztake in Hv. by replace (Z.to_nat (ea_count ea)) with O in Hv by lia. }
  destruct (de_remainder (ea_deserializer ea)) as [|x rem] eqn:Hr.
  { by unfold ztake in Hv; rewrite take_nil in Hv. }
  assert (ztake (ea_count ea) (x :: rem) = x :: ztake (ea_count ea - 1) rem) as Ht.
  { unfold ztake. replace (Z.to_nat (ea_count ea)) with (S (Z.to_nat (ea_count ea - 1))) by lia.
    done. }
  rewrite Ht in Hv. injection Hv as -> <-.
  destruct (pop_byte _ _ _ Hd Hr) as (Hp & Hrem & Hg).
  unfold next_required, next_element, bind, deserialize_u8.
  rewrite (proj2 (Z.ltb_lt _ _)) by lia. rewrite Hp. simpl. by rewrite Hrem.
Qed.

Lemma ea_adv_n n ea :
  adv_n ea_adv n ea =
  mkEA (mkDe (de_buf (ea_deserializer ea)) (de_index (ea_deserializer ea) + Z.of_nat n)
             (next_bytes_len (ea_deserializer ea))) (ea_count ea - Z.of_nat n).
Proof.
  revert ea. induction n as [|n IH]; intros ea; simpl.
  - rewrite Z.add_0_r, Z.sub_0_r. by destruct ea as [[] ?].
  - rewrite IH. unfold ea_adv, de_advance. simpl. f_equal; [f_equal|]; lia.
Qed.

Lemma decodes_varint v rest :
  0 <= v <= MQTT_VARINT_MAX ->
  decodes deserialize_varint (varint_bytes v) rest (mkVarint v) None.
Proof.
  intros Hv. pose proof (varint_bytes_length v) as Hlen. rewrite MQTT_VARINT_MAX_eq in Hv.
  unfold deserialize_varint.
  apply decodes_tuple with (4 - zlen (varint_bytes v)).
  apply (ea_decodes_last _ mkVarint). intros d Hd Hr Hn.
  destruct (read_loop_ok (next_required deserialize_u8) DeError.Custom ea_good ea_view ea_adv
              ea_byte 4 0 v (mkEA d 4) (ztake (4 - zlen (varint_bytes v)) rest))
    as (s' & Hl & ->); [lia| |by left|simpl; lia|done| |].
  - change (128 ^ Z.of_nat 4) with 268435456. lia.
  - unfold ea_view. simpl. rewrite Hr. rewrite ztake_app_ge by lia. done.
  - unfold read_mqtt_u32_varint. change MQTT_VARINT_MAX_BYTES with 4%nat.
    change (Z.of_nat 4) with 4 in *. rewrite Hl. simpl Z.sub.
    rewrite Z.mul_0_r, Z.pow_0_r, Z.mul_1_r, Z.add_0_l. rewrite ea_adv_n. simpl.
    by rewrite Hn.
Qed.

#[export] Hint Resolve decodes_ret decodes_u8 decodes_u16 decodes_u32 decodes_bool
  decodes_reason_code decodes_str decodes_bytes decodes_varint decodes_read_varint : de.
