(* ===== verification/Properties.v ===== *)
(** MQTT 5 properties: [src/minimq/src/properties.rs].

    [Property] has the constructors of the source; its serializer, its
    deserializer, its size and its validity are one match each. [Properties]
    is the opaque collection with its three storage forms, and
    [PropertiesIter] its lazy iterator, whose loop is [iter_from]. *)

From S2P Require Import Prelude Varint Types Wire Ser De.

Module PropertyIdentifier.
Inductive PropertyIdentifier : Type :=
| Invalid
| PayloadFormatIndicator
| MessageExpiryInterval
| ContentType
| ResponseTopic
| CorrelationData
| SubscriptionIdentifier
| SessionExpiryInterval
| AssignedClientIdentifier
| ServerKeepAlive
| AuthenticationMethod
| AuthenticationData
| RequestProblemInformation
| WillDelayInterval
| RequestResponseInformation
| ResponseInformation
| ServerReference
| ReasonString
| ReceiveMaximum
| TopicAliasMaximum
| TopicAlias
| MaximumQoS
| RetainAvailable
| UserProperty
| MaximumPacketSize
| WildcardSubscriptionAvailable
| SubscriptionIdentifierAvailable
| SharedSubscriptionAvailable.
End PropertyIdentifier.
Abbreviation PropertyIdentifier := PropertyIdentifier.PropertyIdentifier.

Definition property_identifier_u32 (id : PropertyIdentifier) : Z :=
  match id with
  | PropertyIdentifier.Invalid => 2 ^ 32 - 1
  | PropertyIdentifier.PayloadFormatIndicator => 1
  | PropertyIdentifier.MessageExpiryInterval => 2
  | PropertyIdentifier.ContentType => 3
  | PropertyIdentifier.ResponseTopic => 8
  | PropertyIdentifier.CorrelationData => 9
  | PropertyIdentifier.SubscriptionIdentifier => 11
  | PropertyIdentifier.SessionExpiryInterval => 17
  | PropertyIdentifier.AssignedClientIdentifier => 18
  | PropertyIdentifier.ServerKeepAlive => 19
  | PropertyIdentifier.AuthenticationMethod => 21
  | PropertyIdentifier.AuthenticationData => 22
  | PropertyIdentifier.RequestProblemInformation => 23
  | PropertyIdentifier.WillDelayInterval => 24
  | PropertyIdentifier.RequestResponseInformation => 25
  | PropertyIdentifier.ResponseInformation => 26
  | PropertyIdentifier.ServerReference => 28
  | PropertyIdentifier.ReasonString => 31
  | PropertyIdentifier.ReceiveMaximum => 33
  | PropertyIdentifier.TopicAliasMaximum => 34
  | PropertyIdentifier.TopicAlias => 35
  | PropertyIdentifier.MaximumQoS => 36
  | PropertyIdentifier.RetainAvailable => 37
  | PropertyIdentifier.UserProperty => 38
  | PropertyIdentifier.MaximumPacketSize => 39
  | PropertyIdentifier.WildcardSubscriptionAvailable => 40
  | PropertyIdentifier.SubscriptionIdentifierAvailable => 41
  | PropertyIdentifier.SharedSubscriptionAvailable => 42
  end.

(** [PropertyIdentifier::try_from(u32)], derived by [TryFromPrimitive]. *)
Definition property_identifier_try_from (v : Z) : option PropertyIdentifier :=
  if v =? 2 ^ 32 - 1 then Some PropertyIdentifier.Invalid else
  if v =? 1 then Some PropertyIdentifier.PayloadFormatIndicator else
  if v =? 2 then Some PropertyIdentifier.MessageExpiryInterval else
  if v =? 3 then Some PropertyIdentifier.ContentType else
  if v =? 8 then Some PropertyIdentifier.ResponseTopic else
  if v =? 9 then Some PropertyIdentifier.CorrelationData else
  if v =? 11 then Some PropertyIdentifier.SubscriptionIdentifier else
  if v =? 17 then Some PropertyIdentifier.SessionExpiryInterval else
  if v =? 18 then Some PropertyIdentifier.AssignedClientIdentifier else
  if v =? 19 then Some PropertyIdentifier.ServerKeepAlive else
  if v =? 21 then Some PropertyIdentifier.AuthenticationMethod else
  if v =? 22 then Some PropertyIdentifier.AuthenticationData else
  if v =? 23 then Some PropertyIdentifier.RequestProblemInformation else
  if v =? 24 then Some PropertyIdentifier.WillDelayInterval else
  if v =? 25 then Some PropertyIdentifier.RequestResponseInformation else
  if v =? 26 then Some PropertyIdentifier.ResponseInformation else
  if v =? 28 then Some PropertyIdentifier.ServerReference else
  if v =? 31 then Some PropertyIdentifier.ReasonString else
  if v =? 33 then Some PropertyIdentifier.ReceiveMaximum else
  if v =? 34 then Some PropertyIdentifier.TopicAliasMaximum else
  if v =? 35 then Some PropertyIdentifier.TopicAlias else
  if v =? 36 then Some PropertyIdentifier.MaximumQoS else
  if v =? 37 then Some PropertyIdentifier.RetainAvailable else
  if v =? 38 then Some PropertyIdentifier.UserProperty else
  if v =? 39 then Some PropertyIdentifier.MaximumPacketSize else
  if v =? 40 then Some PropertyIdentifier.WildcardSubscriptionAvailable else
  if v =? 41 then Some PropertyIdentifier.SubscriptionIdentifierAvailable else
  if v =? 42 then Some PropertyIdentifier.SharedSubscriptionAvailable else
  None.

Module Property.
Inductive Property : Type :=
| PayloadFormatIndicator (value : Z)
| MessageExpiryInterval (value : Z)
| ContentType (data : bytes)
| ResponseTopic (data : bytes)
| CorrelationData (data : bytes)
| SubscriptionIdentifier (value : Z)
| SessionExpiryInterval (value : Z)
| AssignedClientIdentifier (data : bytes)
| ServerKeepAlive (value : Z)
| AuthenticationMethod (data : bytes)
| AuthenticationData (data : bytes)
| RequestProblemInformation (value : Z)
| WillDelayInterval (value : Z)
| RequestResponseInformation (value : Z)
| ResponseInformation (data : bytes)
| ServerReference (data : bytes)
| ReasonString (data : bytes)
| ReceiveMaximum (value : Z)
| TopicAliasMaximum (value : Z)
| TopicAlias (value : Z)
| MaximumQoS (value : Z)
| RetainAvailable (value : Z)
| UserProperty (key value : bytes)
| MaximumPacketSize (value : Z)
| WildcardSubscriptionAvailable (value : Z)
| SubscriptionIdentifierAvailable (value : Z)
| SharedSubscriptionAvailable (value : Z).
End Property.
Abbreviation Property := Property.Property.

Definition property_identifier (p : Property) : PropertyIdentifier :=
  match p with
  | Property.PayloadFormatIndicator _ => PropertyIdentifier.PayloadFormatIndicator
  | Property.MessageExpiryInterval _ => PropertyIdentifier.MessageExpiryInterval
  | Property.ContentType _ => PropertyIdentifier.ContentType
  | Property.ResponseTopic _ => PropertyIdentifier.ResponseTopic
  | Property.CorrelationData _ => PropertyIdentifier.CorrelationData
  | Property.SubscriptionIdentifier _ => PropertyIdentifier.SubscriptionIdentifier
  | Property.SessionExpiryInterval _ => PropertyIdentifier.SessionExpiryInterval
  | Property.AssignedClientIdentifier _ => PropertyIdentifier.AssignedClientIdentifier
  | Property.ServerKeepAlive _ => PropertyIdentifier.ServerKeepAlive
  | Property.AuthenticationMethod _ => PropertyIdentifier.AuthenticationMethod
  | Property.AuthenticationData _ => PropertyIdentifier.AuthenticationData
  | Property.RequestProblemInformation _ => PropertyIdentifier.RequestProblemInformation
  | Property.WillDelayInterval _ => PropertyIdentifier.WillDelayInterval
  | Property.RequestResponseInformation _ => PropertyIdentifier.RequestResponseInformation
  | Property.ResponseInformation _ => PropertyIdentifier.ResponseInformation
  | Property.ServerReference _ => PropertyIdentifier.ServerReference
  | Property.ReasonString _ => PropertyIdentifier.ReasonString
  | Property.ReceiveMaximum _ => PropertyIdentifier.ReceiveMaximum
  | Property.TopicAliasMaximum _ => PropertyIdentifier.TopicAliasMaximum
  | Property.TopicAlias _ => PropertyIdentifier.TopicAlias
  | Property.MaximumQoS _ => PropertyIdentifier.MaximumQoS
  | Property.RetainAvailable _ => PropertyIdentifier.RetainAvailable
  | Property.UserProperty _ _ => PropertyIdentifier.UserProperty
  | Property.MaximumPacketSize _ => PropertyIdentifier.MaximumPacketSize
  | Property.WildcardSubscriptionAvailable _ => PropertyIdentifier.WildcardSubscriptionAvailable
  | Property.SubscriptionIdentifierAvailable _ => PropertyIdentifier.SubscriptionIdentifierAvailable
  | Property.SharedSubscriptionAvailable _ => PropertyIdentifier.SharedSubscriptionAvailable
  end.

(** [Property::serialize]: the identifier as a varint, then the value. *)
Definition serialize_property (p : Property) : Ser unit :=
  do! serialize_varint (mkVarint (property_identifier_u32 (property_identifier p))) in
  match p with
  | Property.PayloadFormatIndicator value => serialize_u8 value
  | Property.MessageExpiryInterval value => serialize_u32 value
  | Property.ContentType data => serialize_utf8_string data
  | Property.ResponseTopic data => serialize_utf8_string data
  | Property.CorrelationData data => serialize_binary_data data
  | Property.SubscriptionIdentifier value => serialize_varint (mkVarint value)
  | Property.SessionExpiryInterval value => serialize_u32 value
  | Property.AssignedClientIdentifier data => serialize_utf8_string data
  | Property.ServerKeepAlive value => serialize_u16 value
  | Property.AuthenticationMethod data => serialize_utf8_string data
  | Property.AuthenticationData data => serialize_binary_data data
  | Property.RequestProblemInformation value => serialize_u8 value
  | Property.WillDelayInterval value => serialize_u32 value
  | Property.RequestResponseInformation value => serialize_u8 value
  | Property.ResponseInformation data => serialize_utf8_string data
  | Property.ServerReference data => serialize_utf8_string data
  | Property.ReasonString data => serialize_utf8_string data
  | Property.ReceiveMaximum value => serialize_u16 value
  | Property.TopicAliasMaximum value => serialize_u16 value
  | Property.TopicAlias value => serialize_u16 value
  | Property.MaximumQoS value => serialize_u8 value
  | Property.RetainAvailable value => serialize_u8 value
  | Property.UserProperty key value => (do! serialize_utf8_string key in serialize_utf8_string value)
  | Property.MaximumPacketSize value => serialize_u32 value
  | Property.WildcardSubscriptionAvailable value => serialize_u8 value
  | Property.SubscriptionIdentifierAvailable value => serialize_u8 value
  | Property.SharedSubscriptionAvailable value => serialize_u8 value
  end.

(** [variant_seed] followed by [PropertyIdVisitor::visit_u32]. *)
Definition deserialize_property_identifier : De PropertyIdentifier :=
  let! varint := read_varint in
  match property_identifier_try_from varint with
  | Some id => ret id
  | None => raise DeError.Custom
  end.

(** [UserPropertyVisitor]: a tuple of two strings. *)
Definition deserialize_user_property : De (bytes * bytes) :=
  deserialize_tuple 2
    (let! key := next_required deserialize_str in
     let! value := next_required deserialize_str in
     ret (key, value)).

(** [PropertyVisitor::visit_enum]. *)
Definition deserialize_property : De Property :=
  let! field := deserialize_property_identifier in
  match field with
  | PropertyIdentifier.PayloadFormatIndicator =>
      let! v := deserialize_u8 in ret (Property.PayloadFormatIndicator v)
  | PropertyIdentifier.MessageExpiryInterval =>
      let! v := deserialize_u32 in ret (Property.MessageExpiryInterval v)
  | PropertyIdentifier.ContentType =>
      let! v := deserialize_str in ret (Property.ContentType v)
  | PropertyIdentifier.ResponseTopic =>
      let! v := deserialize_str in ret (Property.ResponseTopic v)
  | PropertyIdentifier.CorrelationData =>
      let! v := deserialize_bytes in ret (Property.CorrelationData v)
  | PropertyIdentifier.SubscriptionIdentifier =>
      let! v := deserialize_varint in ret (Property.SubscriptionIdentifier (varint_value v))
  | PropertyIdentifier.SessionExpiryInterval =>
      let! v := deserialize_u32 in ret (Property.SessionExpiryInterval v)
  | PropertyIdentifier.AssignedClientIdentifier =>
      let! v := deserialize_str in ret (Property.AssignedClientIdentifier v)
  | PropertyIdentifier.ServerKeepAlive =>
      let! v := deserialize_u16 in ret (Property.ServerKeepAlive v)
  | PropertyIdentifier.AuthenticationMethod =>
      let! v := deserialize_str in ret (Property.AuthenticationMethod v)
  | PropertyIdentifier.AuthenticationData =>
      let! v := deserialize_bytes in ret (Property.AuthenticationData v)
  | PropertyIdentifier.RequestProblemInformation =>
      let! v := deserialize_u8 in ret (Property.RequestProblemInformation v)
  | PropertyIdentifier.WillDelayInterval =>
      let! v := deserialize_u32 in ret (Property.WillDelayInterval v)
  | PropertyIdentifier.RequestResponseInformation =>
      let! v := deserialize_u8 in ret (Property.RequestResponseInformation v)
  | PropertyIdentifier.ResponseInformation =>
      let! v := deserialize_str in ret (Property.ResponseInformation v)
  | PropertyIdentifier.ServerReference =>
      let! v := deserialize_str in ret (Property.ServerReference v)
  | PropertyIdentifier.ReasonString =>
      let! v := deserialize_str in ret (Property.ReasonString v)
  | PropertyIdentifier.ReceiveMaximum =>
      let! v := deserialize_u16 in ret (Property.ReceiveMaximum v)
  | PropertyIdentifier.TopicAliasMaximum =>
      let! v := deserialize_u16 in ret (Property.TopicAliasMaximum v)
  | PropertyIdentifier.TopicAlias =>
      let! v := deserialize_u16 in ret (Property.TopicAlias v)
  | PropertyIdentifier.MaximumQoS =>
      let! v := deserialize_u8 in ret (Property.MaximumQoS v)
  | PropertyIdentifier.RetainAvailable =>
      let! v := deserialize_u8 in ret (Property.RetainAvailable v)
  | PropertyIdentifier.UserProperty =>
      let! kv := deserialize_user_property in ret (Property.UserProperty (fst kv) (snd kv))
  | PropertyIdentifier.MaximumPacketSize =>
      let! v := deserialize_u32 in ret (Property.MaximumPacketSize v)
  | PropertyIdentifier.WildcardSubscriptionAvailable =>
      let! v := deserialize_u8 in ret (Property.WildcardSubscriptionAvailable v)
  | PropertyIdentifier.SubscriptionIdentifierAvailable =>
      let! v := deserialize_u8 in ret (Property.SubscriptionIdentifierAvailable v)
  | PropertyIdentifier.SharedSubscriptionAvailable =>
      let! v := deserialize_u8 in ret (Property.SharedSubscriptionAvailable v)
  | PropertyIdentifier.Invalid => raise DeError.Custom
  end.

(** [Property::size]. *)
Definition property_size (p : Property) : Z :=
  let identifier_length :=
    encoded_len (mkVarint (property_identifier_u32 (property_identifier p))) in
  match p with
  | Property.ContentType data
  | Property.ResponseTopic data
  | Property.AuthenticationMethod data
  | Property.ResponseInformation data
  | Property.ServerReference data
  | Property.ReasonString data
  | Property.AssignedClientIdentifier data => zlen data + 2 + identifier_length
  | Property.UserProperty key value => (zlen value + 2) + (zlen key + 2) + identifier_length
  | Property.CorrelationData data
  | Property.AuthenticationData data => zlen data + 2 + identifier_length
  | Property.SubscriptionIdentifier id => encoded_len (mkVarint id) + identifier_length
  | Property.MessageExpiryInterval _
  | Property.SessionExpiryInterval _
  | Property.WillDelayInterval _
  | Property.MaximumPacketSize _ => 4 + identifier_length
  | Property.ServerKeepAlive _
  | Property.ReceiveMaximum _
  | Property.TopicAliasMaximum _
  | Property.TopicAlias _ => 2 + identifier_length
  | Property.PayloadFormatIndicator _
  | Property.RequestProblemInformation _
  | Property.RequestResponseInformation _
  | Property.MaximumQoS _
  | Property.RetainAvailable _
  | Property.WildcardSubscriptionAvailable _
  | Property.SubscriptionIdentifierAvailable _
  | Property.SharedSubscriptionAvailable _ => 1 + identifier_length
  end.

Definition has_valid_value (p : Property) : bool :=
  match p with
  | Property.PayloadFormatIndicator value
  | Property.RequestProblemInformation value
  | Property.RequestResponseInformation value
  | Property.RetainAvailable value
  | Property.WildcardSubscriptionAvailable value
  | Property.SubscriptionIdentifierAvailable value
  | Property.SharedSubscriptionAvailable value => value <=? 1
  | Property.MaximumQoS value => value <=? 2
  | Property.SubscriptionIdentifier value => (1 <=? value) && (value <=? MQTT_VARINT_MAX)
  | _ => true
  end.

Module PropertyContext.
Inductive PropertyContext : Type := Publish | Subscribe | Unsubscribe | Disconnect | Will.
End PropertyContext.
Abbreviation PropertyContext := PropertyContext.PropertyContext.

Definition is_valid_for (p : Property) (context : PropertyContext) : bool :=
  if negb (has_valid_value p) then false else
  match context, property_identifier p with
  | PropertyContext.Publish, PropertyIdentifier.PayloadFormatIndicator
  | PropertyContext.Publish, PropertyIdentifier.MessageExpiryInterval
  | PropertyContext.Publish, PropertyIdentifier.ContentType
  | PropertyContext.Publish, PropertyIdentifier.ResponseTopic
  | PropertyContext.Publish, PropertyIdentifier.CorrelationData
  | PropertyContext.Publish, PropertyIdentifier.UserProperty
  | PropertyContext.Will, PropertyIdentifier.PayloadFormatIndicator
  | PropertyContext.Will, PropertyIdentifier.MessageExpiryInterval
  | PropertyContext.Will, PropertyIdentifier.ContentType
  | PropertyContext.Will, PropertyIdentifier.ResponseTopic
  | PropertyContext.Will, PropertyIdentifier.CorrelationData
  | PropertyContext.Will, PropertyIdentifier.UserProperty
  | PropertyContext.Publish, PropertyIdentifier.TopicAlias
  | PropertyContext.Subscribe, PropertyIdentifier.SubscriptionIdentifier
  | PropertyContext.Subscribe, PropertyIdentifier.UserProperty
  | PropertyContext.Unsubscribe, PropertyIdentifier.UserProperty
  | PropertyContext.Disconnect, PropertyIdentifier.SessionExpiryInterval
  | PropertyContext.Disconnect, PropertyIdentifier.ReasonString
  | PropertyContext.Disconnect, PropertyIdentifier.UserProperty
  | PropertyContext.Disconnect, PropertyIdentifier.ServerReference => true
  | _, _ => false
  end.

(** * Property collections *)

Inductive Properties : Type :=
| Slice (properties : list Property)
| Encoded (block : bytes)
| WithCorrelation (correlation : Property) (properties : list Property).

Definition Properties_empty : Properties := Slice [].

Definition properties_size (ps : Properties) : Z :=
  match ps with
  | Slice props => sum_by property_size props
  | WithCorrelation correlation properties =>
      sum_by property_size (properties ++ [correlation])
  | Encoded block => zlen block
  end.

(** [Properties::serialize]: the block length as a varint, then the block. *)
Definition serialize_properties (ps : Properties) : Ser unit :=
  do! serialize_varint (mkVarint (properties_size ps mod 2 ^ 32)) in
  match ps with
  | Slice props => serialize_seq serialize_property props
  | WithCorrelation correlation properties =>
      do! serialize_property correlation in serialize_seq serialize_property properties
  | Encoded block => serialize_seq serialize_u8 block
  end.

(** [Properties::deserialize]: the block is kept encoded. *)
Definition deserialize_properties : De Properties :=
  deserialize_seq
    (let! data := next_seq_element deserialize_bytes in
     ret (Encoded (default [] data))).

Definition with_properties (ps : Properties) (properties : list Property) : Properties :=
  match ps with
  | WithCorrelation correlation _ => WithCorrelation correlation properties
  | Slice _ | Encoded _ => Slice properties
  end.

Definition with_correlation (ps : Properties) (data : bytes) : Properties :=
  let correlation := Property.CorrelationData data in
  match ps with
  | Slice properties | WithCorrelation _ properties => WithCorrelation correlation properties
  | Encoded _ => WithCorrelation correlation []
  end.

(** * Iteration *)

Inductive PropertiesIter : Type :=
| IterEncoded (props : bytes) (index : Z)
| IterSlice (props : list Property) (index : nat)
| IterWithCorrelation (correlation : Property) (yielded_correlation : bool)
    (props : list Property) (index : nat).

Definition iter_inner (ps : Properties) : PropertiesIter :=
  match ps with
  | Encoded data => IterEncoded data 0
  | Slice props => IterSlice props 0
  | WithCorrelation correlation properties =>
      IterWithCorrelation correlation false properties 0
  end.

(** [Iterator::next]. A property that fails to decode is yielded as an error,
    and the index still moves past the bytes consumed. *)
Definition iter_next (it : PropertiesIter)
  : PropertiesIter * option (result PeerError Property) :=
  match it with
  | IterEncoded props index =>
      if zlen props <=? index then (it, None) else
      let '(d, property) := deserialize_property (MqttDeserializer_new (zdrop index props)) in
      (IterEncoded props (index + deserialized_bytes d),
       Some (map_err (fun _ => PeerError.InvalidPacket) property))
  | IterSlice props index =>
      match props !! index with
      | Some property => (IterSlice props (S index), Some (Ok property))
      | None => (it, None)
      end
  | IterWithCorrelation correlation yielded_correlation props index =>
      if negb yielded_correlation
      then (IterWithCorrelation correlation true props index, Some (Ok correlation))
      else match props !! index with
           | Some property =>
               (IterWithCorrelation correlation yielded_correlation props (S index),
                Some (Ok property))
           | None => (it, None)
           end
  end.

(** A loop over the iterator. The fuel of [iter_fuel] is the number of items
    that can still come: see [iter_next_decreases]. *)
Fixpoint iter_from (fuel : nat) (it : PropertiesIter) : list (result PeerError Property) :=
  match fuel with
  | O => []
  | S fuel' =>
      match iter_next it with
      | (it', Some item) => item :: iter_from fuel' it'
      | (_, None) => []
      end
  end.

Definition iter_fuel (it : PropertiesIter) : nat :=
  match it with
  | IterEncoded props index => Z.to_nat (zlen props - index)
  | IterSlice props index => length props - index
  | IterWithCorrelation _ yielded props index =>
      (length props - index) + (if yielded then 0 else 1)
  end.

Definition iter (ps : Properties) : list (result PeerError Property) :=
  iter_from (iter_fuel (iter_inner ps)) (iter_inner ps).

(** [iter().find_map(...)]. *)
Fixpoint find_map {A B} (f : A -> option B) (l : list A) : option B :=
  match l with
  | [] => None
  | x :: l' => match f x with Some b => Some b | None => find_map f l' end
  end.

Definition response_topic (ps : Properties) : option bytes :=
  find_map (fun prop => match prop with
                        | Ok (Property.ResponseTopic topic) => Some topic
                        | _ => None
                        end) (iter ps).

Definition correlation_data (ps : Properties) : option bytes :=
  find_map (fun prop => match prop with
                        | Ok (Property.CorrelationData data) => Some data
                        | _ => None
                        end) (iter ps).

Definition valid_for (ps : Properties) (context : PropertyContext) : bool :=
  forallb (fun property => match property with
                           | Ok property => is_valid_for property context
                           | Err _ => false
                           end) (iter ps).

(** * Well-formed properties

    What the Rust types guarantee of a [Property] value, plus the lengths and
    the range that its encoding can express. *)

Definition str_wf (s : bytes) : Prop := zlen s < 2 ^ 16 /\ from_utf8 s = true.

Definition property_wf (p : Property) : Prop :=
  match p with
  | Property.PayloadFormatIndicator value => is_u8 value
  | Property.MessageExpiryInterval value => is_u32 value
  | Property.ContentType data => str_wf data
  | Property.ResponseTopic data => str_wf data
  | Property.CorrelationData data => zlen data < 2 ^ 16 /\ all_u8 data
  | Property.SubscriptionIdentifier value => 0 <= value <= MQTT_VARINT_MAX
  | Property.SessionExpiryInterval value => is_u32 value
  | Property.AssignedClientIdentifier data => str_wf data
  | Property.ServerKeepAlive value => is_u16 value
  | Property.AuthenticationMethod data => str_wf data
  | Property.AuthenticationData data => zlen data < 2 ^ 16 /\ all_u8 data
  | Property.RequestProblemInformation value => is_u8 value
  | Property.WillDelayInterval value => is_u32 value
  | Property.RequestResponseInformation value => is_u8 value
  | Property.ResponseInformation data => str_wf data
  | Property.ServerReference data => str_wf data
  | Property.ReasonString data => str_wf data
  | Property.ReceiveMaximum value => is_u16 value
  | Property.TopicAliasMaximum value => is_u16 value
  | Property.TopicAlias value => is_u16 value
  | Property.MaximumQoS value => is_u8 value
  | Property.RetainAvailable value => is_u8 value
  | Property.UserProperty key value => str_wf key /\ str_wf value
  | Property.MaximumPacketSize value => is_u32 value
  | Property.WildcardSubscriptionAvailable value => is_u8 value
  | Property.SubscriptionIdentifierAvailable value => is_u8 value
  | Property.SharedSubscriptionAvailable value => is_u8 value
  end.

(** The pure encoding of a property. *)
Definition enc_property (p : Property) : enc :=
  Ok [property_identifier_u32 (property_identifier p)] +++
  match p with
  | Property.PayloadFormatIndicator value => Ok [value]
  | Property.MessageExpiryInterval value => Ok (to_be_bytes 4 value)
  | Property.ContentType data => enc_field data
  | Property.ResponseTopic data => enc_field data
  | Property.CorrelationData data => enc_field data
  | Property.SubscriptionIdentifier value => enc_varint value
  | Property.SessionExpiryInterval value => Ok (to_be_bytes 4 value)
  | Property.AssignedClientIdentifier data => enc_field data
  | Property.ServerKeepAlive value => Ok (to_be_bytes 2 value)
  | Property.AuthenticationMethod data => enc_field data
  | Property.AuthenticationData data => enc_field data
  | Property.RequestProblemInformation value => Ok [value]
  | Property.WillDelayInterval value => Ok (to_be_bytes 4 value)
  | Property.RequestResponseInformation value => Ok [value]
  | Property.ResponseInformation data => enc_field data
  | Property.ServerReference data => enc_field data
  | Property.ReasonString data => enc_field data
  | Property.ReceiveMaximum value => Ok (to_be_bytes 2 value)
  | Property.TopicAliasMaximum value => Ok (to_be_bytes 2 value)
  | Property.TopicAlias value => Ok (to_be_bytes 2 value)
  | Property.MaximumQoS value => Ok [value]
  | Property.RetainAvailable value => Ok [value]
  | Property.UserProperty key value => enc_field key +++ enc_field value
  | Property.MaximumPacketSize value => Ok (to_be_bytes 4 value)
  | Property.WildcardSubscriptionAvailable value => Ok [value]
  | Property.SubscriptionIdentifierAvailable value => Ok [value]
  | Property.SharedSubscriptionAvailable value => Ok [value]
  end.

(** * One property *)

(** Values of the [u32] field that is sent as a varint. *)
Definition property_ok (p : Property) : Prop :=
  match p with Property.SubscriptionIdentifier value => 0 <= value | _ => True end.

Lemma property_wf_ok p : property_wf p -> property_ok p.
Proof. destruct p; simpl; tauto || lia. Qed.

Lemma property_identifier_bytes p :
  varint_bytes (property_identifier_u32 (property_identifier p)) =
  [property_identifier_u32 (property_identifier p)] /\
  0 <= property_identifier_u32 (property_identifier p) <= MQTT_VARINT_MAX /\
  property_identifier_try_from (property_identifier_u32 (property_identifier p)) =
    Some (property_identifier p).
Proof. by destruct p. Qed.

Lemma implements_property p :
  property_ok p -> implements (serialize_property p) (enc_property p).
Proof.
  intros Hp. unfold serialize_property, enc_property.
  destruct (property_identifier_bytes p) as (Hid & Hr & _).
  apply implements_bind.
  - rewrite <- Hid. pose proof (implements_varint _ (proj1 Hr)) as Hv.
    unfold enc_varint in Hv. by rewrite (proj2 (Z.leb_le _ _)) in Hv by lia.
  - destruct p; simpl in Hp; auto with ser; apply implements_push_bytes.
Qed.

Lemma enc_field_ok data :
  zlen data < 2 ^ 16 -> enc_field data = Ok (to_be_bytes 2 (zlen data) ++ data).
Proof. intros. unfold enc_field. by rewrite (proj2 (Z.ltb_lt _ _)). Qed.

Lemma enc_varint_ok v : v <= MQTT_VARINT_MAX -> enc_varint v = Ok (varint_bytes v).
Proof. intros. unfold enc_varint. by rewrite (proj2 (Z.leb_le _ _)). Qed.

Lemma encoded_len_varint v :
  0 <= v <= MQTT_VARINT_MAX -> encoded_len (mkVarint v) = zlen (varint_bytes v).
Proof.
  intros Hv. unfold encoded_len. cbn [varint_value].
  rewrite (encoded_len_loop_spec 4);
    [unfold varint_bytes, MQTT_VARINT_MAX_BYTES; lia|lia|].
  rewrite MQTT_VARINT_MAX_eq in Hv. change (128 ^ Z.of_nat 4) with 268435456. lia.
Qed.

Lemma decodes_user_property k v rest :
  str_wf k -> str_wf v ->
  decodes deserialize_user_property
    ((to_be_bytes 2 (zlen k) ++ k) ++ (to_be_bytes 2 (zlen v) ++ v)) rest (k, v) None.
Proof.
  intros [Hk1 Hk2] [Hv1 Hv2]. apply decodes_tuple with 0.
  apply ea_decodes_bind with 1 k.
  - apply (ea_decodes_required _ 2); [lia|]. by apply decodes_str.
  - apply (ea_decodes_last (next_required deserialize_str) (fun v => (k, v))).
    apply (ea_decodes_required _ 1); [lia|]. by apply decodes_str.
Qed.

(** The value part of a property: what follows the identifier. *)
Lemma property_value_spec p :
  property_wf p ->
  exists value, enc_property p = Ok (property_identifier_u32 (property_identifier p) :: value) /\
    property_size p = 1 + zlen value /\
    forall rest, decodes deserialize_property
      ([property_identifier_u32 (property_identifier p)] ++ value) rest p None.
Proof.
  intros Hp. destruct (property_identifier_bytes p) as (Hid & Hr & Hf).
  assert (Hdec : forall rest, decodes deserialize_property_identifier
            [property_identifier_u32 (property_identifier p)] rest (property_identifier p) None).
  { intros rest. rewrite <- Hid. rewrite <- (app_nil_r (varint_bytes _)).
    apply decodes_bind with (property_identifier_u32 (property_identifier p));
      [by apply decodes_read_varint|]. rewrite Hf. apply decodes_ret. }
  assert (Hsz : encoded_len (mkVarint (property_identifier_u32 (property_identifier p))) = 1)
    by (by rewrite encoded_len_varint, Hid).
  unfold enc_property, property_size. rewrite Hsz.
  destruct p; simpl in Hp; cbn [property_identifier] in *;
    (eexists; split; [first
       [ reflexivity
       | rewrite !enc_field_ok by first [apply Hp | exact Hp]; reflexivity
       | rewrite (enc_field_ok key), (enc_field_ok value) by apply Hp; reflexivity
       | rewrite enc_varint_ok by lia; reflexivity ]|split]);
    try (intros rest; eapply decodes_bind; [apply Hdec|]; cbn match;
         first
         [ apply (decodes_map deserialize_user_property
                    (fun kv => Property.UserProperty (fst kv) (snd kv)) _ _ (_, _));
           apply decodes_user_property; apply Hp
         | apply (decodes_map deserialize_varint
                    (fun v => Property.SubscriptionIdentifier (varint_value v)) _ _ (mkVarint _));
           by apply decodes_varint
         | apply decodes_map; first
             [ apply decodes_u8 | by apply decodes_u16 | by apply decodes_u32
             | apply decodes_bytes; apply Hp | by apply decodes_str; apply Hp ] ]);
    rewrite ?encoded_len_varint by done;
    rewrite ?zlen_app, ?zlen_to_be_bytes; zlia.
Qed.

(** The bytes of a property, as a function. *)
Definition property_bytes (p : Property) : bytes :=
  match enc_property p with Ok bs => bs | Err _ => [] end.

Lemma property_bytes_spec p :
  property_wf p ->
  enc_property p = Ok (property_bytes p) /\ property_size p = zlen (property_bytes p) /\
  0 < zlen (property_bytes p) /\
  forall rest, decodes deserialize_property (property_bytes p) rest p None.
Proof.
  intros Hp. destruct (property_value_spec p Hp) as (value & He & Hs & Hd).
  unfold property_bytes. rewrite He. rewrite zlen_cons. split_and!; [done|lia|zlia|].
  apply Hd.
Qed.

Lemma field_u8 s : all_u8 s -> all_u8 (to_be_bytes 2 (zlen s) ++ s).
Proof. intros. apply Forall_app; split; [apply to_be_bytes_u8|done]. Qed.

Lemma str_wf_u8 s : str_wf s -> all_u8 s.
Proof. intros [_ ?]. by apply from_utf8_u8. Qed.

Lemma property_bytes_u8 p : property_wf p -> all_u8 (property_bytes p).
Proof.
  intros Hp. unfold property_bytes, enc_property.
  assert (is_u8 (property_identifier_u32 (property_identifier p))) as Hid
    by (destruct p; unfold is_u8; simpl; lia).
  destruct p; simpl in Hp; cbn [property_identifier property_identifier_u32] in *;
    rewrite ?enc_field_ok, ?enc_varint_ok by first [lia | apply Hp];
    cbn [enc_app]; apply Forall_app; (split; [by apply Forall_singleton|]);
    first [ by apply Forall_singleton | apply to_be_bytes_u8 | by apply varint_bytes_u8
          | apply field_u8; first [by apply str_wf_u8 | apply Hp]
          | apply Forall_app; split; apply field_u8, str_wf_u8; apply Hp ].
Qed.

(** * Safety and progress of the property decoder *)

Lemma de_safe_property_identifier : de_safe deserialize_property_identifier.
Proof. apply de_safe_bind; [auto with de|]. intros. case_match; auto with de. Qed.

Lemma de_safe_user_property : de_safe deserialize_user_property.
Proof. apply de_safe_tuple. auto 10 with de. Qed.

Lemma de_safe_property : de_safe deserialize_property.
Proof.
  apply de_safe_bind; [apply de_safe_property_identifier|].
  intros id. destruct id; auto using de_safe_user_property with de.
Qed.

Lemma de_safe_properties : de_safe deserialize_properties.
Proof. apply de_safe_seq. auto with de. Qed.

#[export] Hint Resolve de_safe_property de_safe_properties : de.

(** Reading a varint consumes at least one byte, whether it succeeds or not. *)
Lemma read_varint_progress d b r n value :
  de_good d -> de_remainder d = b :: r ->
  let d' := fst (read_varint_loop pop DeError.BadVarint (S n) value d) in
  de_index d < de_index d' /\ de_good d'.
Proof.
  intros Hd Hr. destruct (pop_byte d b r Hd Hr) as (Hp & _ & Hg).
  cbn [read_varint_loop]. rewrite (bind_ok _ _ _ _ _ Hp). cbv zeta.
  match goal with |- context [fst (?m (de_advance d 1))] =>
    assert (de_safe m) as Hs by (repeat case_match; auto with de) end.
  destruct (Hs _ Hg) as (Hg' & _ & Hle). split; [|done].
  unfold de_advance in Hle at 1. simpl in Hle. lia.
Qed.

(** Decoding a property consumes at least one byte, whether it succeeds or
    not: the identifier is read first. *)
Lemma deserialize_property_progress d :
  de_good d -> de_remainder d <> [] -> de_index d < de_index (fst (deserialize_property d)).
Proof.
  intros Hd Hne. destruct (de_remainder d) as [|b r] eqn:Hr; [done|].
  destruct (read_varint_progress d b r 3 0 Hd Hr) as [Hv Hgv].
  change (read_varint_loop pop DeError.BadVarint 4 0 d) with (read_varint d) in *.
  unfold deserialize_property, deserialize_property_identifier.
  unfold bind at 2. unfold bind at 1.
  destruct (read_varint d) as [d1 [v|e]]; simpl in *; [|done].
  destruct (property_identifier_try_from v) as [id|]; simpl; [|done].
  match goal with |- _ < de_index (fst (?m d1)) =>
    assert (de_safe m) as Hs by
      (destruct id; auto using de_safe_user_property with de) end.
  destruct (Hs d1 Hgv) as (_ & _ & Hle). lia.
Qed.

(** Iterators the library builds: over a block of bytes, inside it. *)
Definition iter_wf (it : PropertiesIter) : Prop :=
  match it with
  | IterEncoded props index => all_u8 props /\ 0 <= index <= zlen props
  | _ => True
  end.

Lemma iter_next_decreases it it' item :
  iter_wf it -> iter_next it = (it', Some item) ->
  iter_wf it' /\ (iter_fuel it' < iter_fuel it)%nat.
Proof.
  intros Hwf. destruct it as [props index|props index|c y props index]; simpl in *.
  - destruct Hwf as [Hu Hi]. destruct (Z.leb_spec (zlen props) index); [done|].
    set (d := MqttDeserializer_new (zdrop index props)).
    assert (de_good d) as Hd.
    { unfold de_good, d. simpl. split_and!; try done; [zlia|].
      unfold zdrop. by apply Forall_drop. }
    assert (de_remainder d <> []) as Hne.
    { unfold de_remainder, d. simpl. rewrite zdrop_0. intros E.
      apply (f_equal zlen) in E. rewrite zlen_zdrop, zlen_nil in E; lia. }
    pose proof (deserialize_property_progress d Hd Hne) as Hp.
    destruct (de_safe_property d Hd) as (((_ & Hle) & _) & Hb & _).
    rewrite Hb in Hle. unfold d in Hle at 2. simpl in Hle. rewrite zlen_zdrop in Hle by lia.
    destruct (deserialize_property d) as [d' r]. simpl in *. unfold deserialized_bytes.
    intros H'. injection H' as <- <-. simpl. split; [split; [done|lia]|lia].
  - destruct (props !! index) eqn:Hl; [|done]. intros H'. injection H' as <- <-.
    apply lookup_lt_Some in Hl. split; [done|simpl; lia].
  - destruct y; simpl.
    + destruct (props !! index) eqn:Hl; [|done]. intros H'. injection H' as <- <-.
      apply lookup_lt_Some in Hl. split; [done|simpl; lia].
    + intros H'. injection H' as <- <-. split; [done|simpl; lia].
Qed.

(** With the fuel of [iter_fuel] the loop runs to the end: more changes
    nothing. *)
Lemma iter_from_enough n it :
  iter_wf it -> (iter_fuel it <= n)%nat -> iter_from n it = iter_from (iter_fuel it) it.
Proof.
  remember (iter_fuel it) as m eqn:Hm. revert n it Hm.
  induction m as [m IH] using lt_wf_ind; intros n it -> Hwf Hn.
  destruct (iter_next it) as [it' [item|]] eqn:Hnext.
  - destruct (iter_next_decreases _ _ _ Hwf Hnext) as [Hwf' Hlt].
    destruct n as [|n]; [lia|]. destruct (iter_fuel it) as [|k] eqn:Hk; [lia|].
    simpl. rewrite Hnext. f_equal. rewrite (IH (iter_fuel it')) by (lia || done).
    symmetry. apply (IH (iter_fuel it')); done || lia.
  - destruct n, (iter_fuel it); simpl; rewrite ?Hnext; done.
Qed.

(** * Property blocks *)

(** The properties a collection stands for, when it is not encoded. *)
Definition block_bytes (l : list Property) : bytes := concat (map property_bytes l).

(** A collection that can be sent: well-formed properties, or a block of bytes as it was
    received, which need not decode. *)
Definition properties_wf (ps : Properties) : Prop :=
  match ps with
  | Slice properties => Forall property_wf properties
  | Encoded block => all_u8 block
  | WithCorrelation correlation properties =>
      property_wf correlation /\ Forall property_wf properties
  end.

Definition properties_block (ps : Properties) : bytes :=
  match ps with
  | Slice properties => block_bytes properties
  | Encoded block => block
  | WithCorrelation correlation properties => block_bytes (correlation :: properties)
  end.

Lemma block_bytes_u8 l : Forall property_wf l -> all_u8 (block_bytes l).
Proof.
  induction 1 as [|p l Hp _ IH]; unfold block_bytes in *; simpl; [constructor|].
  apply Forall_app. split; [by apply property_bytes_u8|done].
Qed.

Lemma block_bytes_size l : Forall property_wf l -> sum_by property_size l = zlen (block_bytes l).
Proof.
  induction 1 as [|p l Hp _ IH]; unfold block_bytes in *; simpl; [done|].
  rewrite zlen_app, <- IH. by destruct (property_bytes_spec p Hp) as (_ & -> & _).
Qed.

Lemma properties_block_u8 ps : properties_wf ps -> all_u8 (properties_block ps).
Proof.
  destruct ps as [l|b|c l]; simpl; [apply block_bytes_u8|done|].
  intros [Hc Hl]. apply block_bytes_u8. by constructor.
Qed.

Lemma properties_block_size ps :
  properties_wf ps -> properties_size ps = zlen (properties_block ps).
Proof.
  destruct ps as [l|b|c l]; simpl; [apply block_bytes_size|done|].
  intros [Hc Hl]. rewrite sum_by_app, block_bytes_size by done. simpl.
  unfold block_bytes. simpl. rewrite zlen_app.
  destruct (property_bytes_spec c Hc) as (_ & -> & _). lia.
Qed.

(** What the Rust types guarantee of a collection. *)
Definition properties_ok (ps : Properties) : Prop :=
  match ps with
  | Slice properties => Forall property_ok properties
  | Encoded block => True
  | WithCorrelation correlation properties =>
      property_ok correlation /\ Forall property_ok properties
  end.

Lemma properties_wf_ok ps : properties_wf ps -> properties_ok ps.
Proof.
  assert (forall l, Forall property_wf l -> Forall property_ok l) as Hl
    by (intros l Hf; eapply Forall_impl; [exact Hf|apply property_wf_ok]).
  destruct ps as [l|b|c l]; simpl; [apply Hl|done|].
  intros [Hc Hw]. split; [by apply property_wf_ok|by apply Hl].
Qed.

(** The pure encoding of a collection, with its length prefix. *)
Definition enc_property_list (l : list Property) : enc := enc_concat (map enc_property l).

Definition enc_properties (ps : Properties) : enc :=
  enc_varint (properties_size ps mod 2 ^ 32) +++
  match ps with
  | Slice properties => enc_property_list properties
  | Encoded block => Ok block
  | WithCorrelation correlation properties => enc_property_list (correlation :: properties)
  end.

Lemma implements_property_list l :
  Forall property_ok l ->
  implements (serialize_seq serialize_property l) (enc_property_list l).
Proof.
  induction 1 as [|p l Hp _ IH]; simpl; [apply implements_ret|].
  apply implements_bind; [by apply implements_property|done].
Qed.

Lemma implements_properties ps :
  properties_ok ps -> implements (serialize_properties ps) (enc_properties ps).
Proof.
  intros Hw. apply implements_bind; [apply implements_varint; by apply Z.mod_pos_bound|].
  destruct ps as [l|b|c l]; simpl in *.
  - by apply implements_property_list.
  - apply implements_seq_u8.
  - destruct Hw. apply (implements_property_list (c :: l)). by constructor.
Qed.

#[export] Hint Resolve implements_properties : ser.

Lemma enc_property_list_ok l :
  Forall property_wf l -> enc_property_list l = Ok (block_bytes l).
Proof.
  induction 1 as [|p l Hp _ IH]; [done|]. unfold enc_property_list in *. simpl. rewrite IH.
  by destruct (property_bytes_spec p Hp) as (-> & _).
Qed.

Lemma enc_properties_ok ps :
  properties_wf ps -> properties_size ps <= MQTT_VARINT_MAX ->
  enc_properties ps =
    Ok (varint_bytes (zlen (properties_block ps)) ++ properties_block ps).
Proof.
  intros Hw Hs. pose proof (properties_block_size ps Hw) as Hb.
  pose proof (zlen_nonneg (properties_block ps)). unfold enc_properties.
  rewrite Z.mod_small by (rewrite MQTT_VARINT_MAX_eq in Hs; lia).
  rewrite enc_varint_ok, Hb by done. clear Hb Hs H.
  destruct ps as [l|b|c l]; cbn [properties_block] in *; [|done|].
  - by rewrite enc_property_list_ok.
  - destruct Hw. by rewrite enc_property_list_ok by (by constructor).
Qed.

(** The override left behind: none after a block, the unused [Some 0] after an
    empty one. *)
Definition block_override (block : bytes) : option Z :=
  if 0 <? zlen block then None else Some 0.

Lemma decodes_properties block rest :
  zlen block <= MQTT_VARINT_MAX ->
  decodes deserialize_properties (varint_bytes (zlen block) ++ block) rest (Encoded block)
    (block_override block).
Proof.
  intros Hl d Hd Hr Hn. pose proof (zlen_nonneg block). rewrite <- app_assoc in Hr.
  unfold deserialize_properties, deserialize_seq.
  rewrite (bind_ok _ _ _ _ _ (decodes_read_varint _ _ (conj H Hl) d Hd Hr Hn)).
  destruct (de_good_advance d _ _ None Hd Hr I) as [Hg Hr'].
  set (d1 := mkDe _ _ _) in *. unfold bind at 1, set_next_bytes_len.
  set (d2 := mkDe (de_buf d1) (de_index d1) (Some (zlen block))).
  unfold bind, next_seq_element. cbn [sa_deserializer sa_length].
  unfold block_override. destruct (Z.ltb_spec 0 (zlen block)).
  - destruct (de_good_advance d1 block rest None Hg Hr' I) as [((_ & Hle) & _) _].
    cbn [de_buf de_index] in Hle.
    assert (deserialize_bytes d2 = (mkDe (de_buf d1) (de_index d1 + zlen block) None, Ok block))
      as ->.
    { unfold deserialize_bytes, take_next_bytes_len, bind. simpl.
      by apply (decodes_take_n _ block rest eq_refl (mkDe (de_buf d1) (de_index d1) None)). }
    unfold de_len, d2. cbn [de_buf de_index]. unfold usize_checked_sub.
    rewrite (proj2 (Z.leb_le _ _)) by lia. simpl. rewrite zlen_app. do 2 f_equal. lia.
  - assert (block = []) as -> by (apply zlen_zero; lia). done.
Qed.

(** * Iteration over a block *)

Lemma iter_wf_inner ps : properties_wf ps -> iter_wf (iter_inner ps).
Proof. destruct ps; simpl; try done. intros Hu. split; [done|zlia]. Qed.

Lemma iter_next_property props index p rest :
  all_u8 props -> 0 <= index -> property_wf p ->
  zdrop index props = property_bytes p ++ rest ->
  iter_next (IterEncoded props index) =
    (IterEncoded props (index + zlen (property_bytes p)), Some (Ok p)).
Proof.
  intros Hu Hi Hp Hd. destruct (property_bytes_spec p Hp) as (_ & _ & Hpos & Hdec).
  simpl. destruct (Z.leb_spec (zlen props) index) as [Hle|Hlt].
  { apply (f_equal zlen) in Hd. revert Hd. unfold zdrop. rewrite drop_ge by (unfold zlen in Hle; lia).
    rewrite zlen_nil, zlen_app. pose proof (zlen_nonneg rest). lia. }
  rewrite (Hdec rest).
  - unfold deserialized_bytes. simpl. done.
  - unfold de_good. simpl. split_and!; try done; [zlia|]. unfold zdrop. by apply Forall_drop.
  - unfold de_remainder. simpl. by rewrite zdrop_0.
  - done.
Qed.

Lemma iter_from_block l props index n :
  all_u8 props -> 0 <= index <= zlen props -> Forall property_wf l ->
  zdrop index props = block_bytes l -> (Z.to_nat (zlen props - index) <= n)%nat ->
  iter_from n (IterEncoded props index) = map Ok l.
Proof.
  intros Hu Hi Hl. revert index n Hi.
  induction Hl as [|p l Hp Hl IH]; intros index n Hi Hd Hn.
  - apply (f_equal zlen) in Hd. rewrite zlen_zdrop in Hd by lia. change (zlen (block_bytes [])) with 0 in Hd.
    destruct n; simpl; [done|]. by rewrite (proj2 (Z.leb_le _ _)) by lia.
  - unfold block_bytes in Hd. simpl in Hd. fold (block_bytes l) in Hd.
    destruct (property_bytes_spec p Hp) as (_ & _ & Hpos & _).
    pose proof Hd as Hlen. apply (f_equal zlen) in Hlen.
    rewrite zlen_zdrop, zlen_app in Hlen by lia. pose proof (zlen_nonneg (block_bytes l)).
    destruct n as [|n]; [lia|]. cbn [iter_from].
    rewrite (iter_next_property _ _ p (block_bytes l)) by (done || lia). simpl. f_equal.
    apply IH; [lia| |lia]. rewrite <- zdrop_zdrop, Hd by lia. by apply zdrop_app_exact.
Qed.

Lemma iter_encoded_block l :
  Forall property_wf l -> iter (Encoded (block_bytes l)) = map Ok l.
Proof.
  intros Hl. unfold iter. cbn [iter_inner iter_fuel]. apply iter_from_block; try done.
  - by apply block_bytes_u8.
  - zlia.
Qed.

Lemma iter_from_slice props index n :
  (length props - index <= n)%nat -> iter_from n (IterSlice props index) = map Ok (drop index props).
Proof.
  revert index. induction n as [|n IH]; intros index Hn; cbn [iter_from iter_next].
  - by rewrite drop_ge by lia.
  - destruct (props !! index) as [p|] eqn:Hp.
    + rewrite (drop_S _ _ _ Hp). simpl. f_equal. apply IH. lia.
    + apply lookup_ge_None in Hp. by rewrite drop_ge by lia.
Qed.

Lemma iter_from_tail c props index n :
  (length props - index <= n)%nat ->
  iter_from n (IterWithCorrelation c true props index) = map Ok (drop index props).
Proof.
  revert index. induction n as [|n IH]; intros index Hn; cbn [iter_from iter_next negb].
  - by rewrite drop_ge by lia.
  - destruct (props !! index) as [p|] eqn:Hp.
    + rewrite (drop_S _ _ _ Hp). simpl. f_equal. apply IH. lia.
    + apply lookup_ge_None in Hp. by rewrite drop_ge by lia.
Qed.

Lemma iter_slice l : iter (Slice l) = map Ok l.
Proof. unfold iter. simpl. by rewrite iter_from_slice by lia. Qed.

Lemma iter_with_correlation c l : iter (WithCorrelation c l) = Ok c :: map Ok l.
Proof.
  unfold iter. cbn [iter_inner iter_fuel]. rewrite Nat.add_1_r. cbn [iter_from iter_next negb].
  by rewrite iter_from_tail by lia.
Qed.

(** Iterating over the encoded block of a collection is iterating over it. *)
Lemma iter_properties_block ps :
  properties_wf ps -> iter (Encoded (properties_block ps)) = iter ps.
Proof.
  destruct ps as [l|b|c l]; simpl; intros Hw.
  - by rewrite iter_encoded_block, iter_slice.
  - done.
  - destruct Hw. rewrite iter_encoded_block by (by constructor). by rewrite iter_with_correlation.
Qed.

(** * Claims *)

(** The properties a collection consists of; for a block of bytes, those it encodes. *)
Definition consists_of (ps : Properties) (l : list Property) : Prop :=
  match ps with
  | Slice properties => l = properties
  | Encoded block => block = block_bytes l
  | WithCorrelation correlation properties => l = correlation :: properties
  end.

Lemma consists_of_wf ps l : consists_of ps l -> Forall property_wf l -> properties_wf ps.
Proof.
  destruct ps; simpl; intros ->; [done|apply block_bytes_u8|]. by inversion_clear 1.
Qed.

Lemma consists_of_iter ps l : consists_of ps l -> Forall property_wf l -> iter ps = map Ok l.
Proof.
  destruct ps; simpl; intros ->; [by rewrite iter_slice|apply iter_encoded_block|].
  by rewrite iter_with_correlation.
Qed.

(** C30: a property collection survives the wire. A collection of well-formed properties
    (a list, a list behind correlation data, or a block that encodes them) whose block
    fits the 28-bit length, serialized into a buffer with room for it, reads back in
    front of any following data as an encoded block of the same size; the reader stops
    exactly at the following data, and iterating over the block yields exactly these
    properties, in order and without an error, as does iterating over the collection. *)
Theorem properties_roundtrip ps l buf :
  consists_of ps l -> Forall property_wf l -> properties_size ps <= MQTT_VARINT_MAX ->
  encoded_len (mkVarint (properties_size ps)) + properties_size ps <= zlen buf ->
  exists s', serialize_properties ps (mkSer buf 0) = (s', Ok tt) /\
    iter ps = map Ok l /\
    forall rest, all_u8 rest -> exists block d',
      deserialize_properties
        (MqttDeserializer_new (ztake (ser_index s') (ser_buf s') ++ rest)) =
        (d', Ok (Encoded block)) /\
      de_remainder d' = rest /\ properties_size (Encoded block) = properties_size ps /\
      iter (Encoded block) = map Ok l.
Proof.
  intros Hof Hl Hs Hroom. pose proof (consists_of_wf ps l Hof Hl) as Hw.
  pose proof (consists_of_iter ps l Hof Hl) as Hit. pose proof (properties_block_size ps Hw) as Hb.
  pose proof (zlen_nonneg (properties_block ps)).
  rewrite Hb, encoded_len_varint in Hroom by lia. rewrite Hb in Hs.
  pose proof (implements_properties ps (properties_wf_ok ps Hw) (mkSer buf 0) ltac:(done)) as Hi.
  rewrite enc_properties_ok in Hi by (done || lia).
  set (bs := varint_bytes _ ++ _) in Hi. cbn match in Hi.
  assert (zlen bs <= zlen buf) as Hfit by (unfold bs; rewrite zlen_app; lia).
  rewrite (proj2 (Z.leb_le _ _)) in Hi
    by (unfold ser_room, usize_saturating_sub; cbn [ser_buf ser_index]; lia).
  eexists. split; [exact Hi|]. split; [done|]. intros rest Hrest.
  unfold ser_put. cbn [ser_index ser_buf].
  rewrite ztake_zwrite_through by zlia. rewrite ztake_0, app_nil_l.
  assert (all_u8 (bs ++ rest)) as Hu.
  { apply Forall_app. split; [|done]. apply Forall_app. split.
    - apply varint_bytes_u8. lia.
    - by apply properties_block_u8. }
  assert (de_good (MqttDeserializer_new (bs ++ rest))) as Hg
    by (unfold de_good; simpl; split_and!; try done; zlia).
  pose proof (decodes_properties (properties_block ps) rest ltac:(lia) _ Hg
                ltac:(unfold de_remainder; simpl; by rewrite zdrop_0) eq_refl) as Hd.
  eexists _, _. split; [exact Hd|]. split_and!.
  - unfold de_remainder. cbn [de_buf de_index MqttDeserializer_new]. fold bs.
    by apply zdrop_app_exact.
  - by rewrite Hb.
  - rewrite <- Hit. by apply iter_properties_block.
Qed.

Lemma properties_roundtrip_witness :
  let l := [Property.CorrelationData [1; 2]; Property.ResponseTopic [97];
            Property.UserProperty [98] [99; 100]; Property.MessageExpiryInterval 70000] in
  let ps := WithCorrelation (Property.CorrelationData [1; 2]) (tail l) in
  exists s', serialize_properties ps (mkSer (repeat 0 64) 0) = (s', Ok tt) /\
    exists block d',
      deserialize_properties
        (MqttDeserializer_new (ztake (ser_index s') (ser_buf s') ++ [9])) =
        (d', Ok (Encoded block)) /\
      iter (Encoded block) = map Ok l.
Proof.
  intros l ps.
  destruct (properties_roundtrip ps l (repeat 0 64)) as (s' & Hs & _ & Hd);
    [done|by repeat constructor|by vm_compute|by vm_compute|].
  exists s'. split; [done|]. destruct (Hd [9]) as (block & d' & H1 & _ & _ & H2);
    [by repeat constructor|].
  exists block, d'. exact (conj H1 H2).
Defined.

(** The size computed for a well-formed property, which is what the length
    prefix of the block is made of, is the number of bytes its serialization
    writes, and that serialization decodes to the property. *)
Theorem property_roundtrip p s rest :
  property_wf p -> 0 <= ser_index s -> ser_index s + property_size p <= zlen (ser_buf s) ->
  all_u8 rest ->
  exists s', serialize_property p s = (s', Ok tt) /\
    ser_index s' = ser_index s + property_size p /\
    let bs := zslice (ser_index s) (ser_index s') (ser_buf s') in
    deserialize_property (MqttDeserializer_new (bs ++ rest)) =
      (mkDe (bs ++ rest) (property_size p) None, Ok p).
Proof.
  intros Hp Hi Hroom Hrest. destruct (property_bytes_spec p Hp) as (He & Hs & Hpos & Hd).
  pose proof (implements_property p (property_wf_ok p Hp) s Hi) as Him.
  rewrite He in Him. cbn match in Him. rewrite Hs in *.
  rewrite (proj2 (Z.leb_le _ _)) in Him by (unfold ser_room, usize_saturating_sub; lia).
  eexists. split; [exact Him|]. unfold ser_put. cbn [ser_index ser_buf]. split; [done|].
  rewrite zslice_zwrite_eq by lia. cbv zeta.
  assert (all_u8 (property_bytes p ++ rest)) as Hu
    by (apply Forall_app; split; [by apply property_bytes_u8|done]).
  rewrite (Hd rest); [done| |unfold de_remainder; simpl; by rewrite zdrop_0|done].
  unfold de_good. simpl. split_and!; try done; zlia.
Qed.

Lemma property_roundtrip_witness :
  exists s', serialize_property (Property.SubscriptionIdentifier 300) (mkSer (repeat 0 8) 2) =
      (s', Ok tt) /\ ser_index s' = 5.
Proof.
  destruct (property_roundtrip (Property.SubscriptionIdentifier 300) (mkSer (repeat 0 8) 2) [7])
    as (s' & H1 & H2 & _); [by vm_compute|by vm_compute|by vm_compute|by repeat constructor|].
  exists s'. by split.
Defined.

(** Iterating over the properties of any received block ends. Whatever
    bytes the block holds, the iterator yields at most one item per byte, and
    running it longer changes nothing: after those items it yields nothing
    more, also when some of them are decoding errors. *)
Theorem property_iteration_ends block n :
  all_u8 block -> (length block <= n)%nat ->
  iter_from n (iter_inner (Encoded block)) = iter (Encoded block) /\
  (length (iter (Encoded block)) <= length block)%nat.
Proof.
  intros Hu Hn. assert (iter_fuel (iter_inner (Encoded block)) = length block) as Hf
    by (simpl; unfold zlen; lia).
  split.
  - unfold iter. apply iter_from_enough; [by apply iter_wf_inner|lia].
  - rewrite <- Hf. unfold iter. generalize (iter_fuel (iter_inner (Encoded block))).
    generalize (iter_inner (Encoded block)). intros it k. revert it.
    induction k as [|k IH]; intros it; simpl; [lia|].
    destruct (iter_next it) as [it' [item|]]; simpl; [|lia]. specialize (IH it'). lia.
Qed.

Lemma property_iteration_ends_witness :
  iter_from 9 (iter_inner (Encoded [35; 0; 4; 255; 38])) = iter (Encoded [35; 0; 4; 255; 38]) /\
  iter (Encoded [35; 0; 4; 255; 38]) =
    [Ok (Property.TopicAlias 4); Err PeerError.InvalidPacket].
Proof.
  split; [|by vm_compute].
  apply (property_iteration_ends [35; 0; 4; 255; 38] 9); [by repeat constructor|simpl; lia].
Defined.
