(* ===== verification/Packets.v ===== *)
(** MQTT control packets: [src/minimq/src/packets.rs], [src/minimq/src/will.rs],
    [src/minimq/src/publication.rs] and the packet part of
    [src/minimq/src/wire.rs].

    Each packet is a record; its field serializer is the [Serialize] instance
    and its message type the [ControlPacket] instance, as in the source. The
    interface [PacketSpec] states what a packet type promises to the encoder:
    a pure encoding that its serializer implements. *)

From S2P Require Import Prelude Varint Types Wire Ser De Properties.

(** * Last will *)

Definition TOPIC_CAPACITY : Z := 128.

Record Will : Type := mkWill {
  will_topic : bytes;
  will_data : bytes;
  will_qos : QoS;
  will_retained : Retain;
  will_properties : list Property
}.

Fixpoint validate_will_properties (properties : list Property) : result ConfigError unit :=
  match properties with
  | [] => Ok tt
  | property :: properties' =>
      if negb (is_valid_for property PropertyContext.Will) then Err ConfigError.InvalidConfig
      else validate_will_properties properties'
  end.

(** [heapless::String::try_from(&str)]. *)
Definition string_try_from (capacity : Z) (s : bytes) : option bytes :=
  if capacity <? zlen s then None else Some s.

Definition Will_new (topic data : bytes) (properties : list Property) : result ConfigError Will :=
  let? _ := validate_will_properties properties in
  let? topic := ok_or ConfigError.TopicTooLong (string_try_from TOPIC_CAPACITY topic) in
  Ok (mkWill topic data QoS.AtMostOnce Retain.NotRetained properties).

Definition Will_retained (w : Will) : Will :=
  mkWill (will_topic w) (will_data w) (will_qos w) Retain.Retained (will_properties w).

Definition Will_qos (w : Will) (qos : QoS) : Will :=
  mkWill (will_topic w) (will_data w) qos (will_retained w) (will_properties w).

#[export] Instance serialize_will : Serialize Will := fun w =>
  do! serialize_properties (Slice (will_properties w)) in
  do! serialize_utf8_string (will_topic w) in
  serialize_binary_data (will_data w).

(** * Packets *)

Record Connect : Type := mkConnect {
  connect_keepalive : Z;
  connect_properties : Properties;
  connect_client_id : bytes;
  connect_auth : option Auth;
  connect_will : option Will;
  connect_clean_start : bool
}.

Definition CONNECT_CLEAN_START_FLAG : Z := Z.shiftl 1 1.
Definition CONNECT_WILL_FLAG : Z := Z.shiftl 1 2.
Definition CONNECT_WILL_QOS_SHIFT : Z := 3.
Definition CONNECT_WILL_RETAIN_FLAG : Z := Z.shiftl 1 5.
Definition CONNECT_PASSWORD_FLAG : Z := Z.shiftl 1 6.
Definition CONNECT_USER_NAME_FLAG : Z := Z.shiftl 1 7.

(** [Connect::flags]. *)
Definition connect_flags (c : Connect) : Z :=
  let flags := 0 in
  let flags := if connect_clean_start c then Z.lor flags CONNECT_CLEAN_START_FLAG else flags in
  let flags :=
    match connect_will c with
    | Some will =>
        let flags := Z.lor flags
          (Z.lor CONNECT_WILL_FLAG (Z.shiftl (qos_u8 (will_qos will)) CONNECT_WILL_QOS_SHIFT)) in
        match will_retained will with
        | Retain.Retained => Z.lor flags CONNECT_WILL_RETAIN_FLAG
        | Retain.NotRetained => flags
        end
    | None => flags
    end in
  match connect_auth c with
  | Some _ => Z.lor flags (Z.lor CONNECT_USER_NAME_FLAG CONNECT_PASSWORD_FLAG)
  | None => flags
  end.

Definition MQTT_NAME : bytes := [77; 81; 84; 84].

#[export] Instance serialize_connect : Serialize Connect := fun c =>
  do! serialize_utf8_string MQTT_NAME in
  do! serialize_u8 5 in
  do! serialize_u8 (connect_flags c) in
  do! serialize_u16 (connect_keepalive c) in
  do! serialize_properties (connect_properties c) in
  do! serialize_utf8_string (connect_client_id c) in
  do! serialize_option serialize (connect_will c) in
  serialize_option (fun auth => do! serialize_utf8_string (user_name auth) in
                                serialize_binary_data (password auth)) (connect_auth c).

Record ConnAck : Type := mkConnAck {
  session_present : bool;
  connack_reason_code : ReasonCode;
  connack_properties : Properties
}.

Record PublishHeader : Type := mkPublishHeader {
  ph_topic : bytes;
  ph_packet_id : option Z;
  ph_properties : Properties;
  ph_retain : Retain;
  ph_qos : QoS;
  ph_dup : bool
}.

#[export] Instance serialize_publish_header : Serialize PublishHeader := fun h =>
  do! serialize_utf8_string (ph_topic h) in
  do! serialize_option serialize_u16 (ph_packet_id h) in
  serialize_properties (ph_properties h).

(** [PublishHeader::fixed_header]. *)
Definition publish_header_fixed_header (h : PublishHeader) : FixedHeader :=
  publish_fixed_header (ph_qos h) (ph_retain h) (ph_dup h).

(** [Publish<&[u8]>], as the decoder produces it. *)
Record Publish : Type := mkPublish {
  publish_topic : bytes;
  publish_packet_id : option Z;
  publish_properties : Properties;
  publish_payload : bytes;
  publish_retain_flag : Retain;
  publish_qos_level : QoS;
  publish_dup : bool
}.

(** [#[derive(Serialize)]] on [TopicFilter]. *)
#[export] Instance serialize_topic_filter : Serialize TopicFilter := fun t =>
  do! serialize_utf8_string (tf_topic t) in
  serialize_u8 (subscription_options_byte (tf_options t)).

Record Subscribe : Type := mkSubscribe {
  subscribe_packet_id : Z;
  subscribe_properties : Properties;
  subscribe_topics : list TopicFilter
}.

#[export] Instance serialize_subscribe : Serialize Subscribe := fun p =>
  do! serialize_u16 (subscribe_packet_id p) in
  do! serialize_properties (subscribe_properties p) in
  serialize_seq serialize (subscribe_topics p).

Record Unsubscribe : Type := mkUnsubscribe {
  unsubscribe_packet_id : Z;
  unsubscribe_properties : Properties;
  unsubscribe_topics : list bytes
}.

#[export] Instance serialize_unsubscribe : Serialize Unsubscribe := fun p =>
  do! serialize_u16 (unsubscribe_packet_id p) in
  do! serialize_properties (unsubscribe_properties p) in
  serialize_seq serialize_utf8_string (unsubscribe_topics p).

Inductive PingReq : Type := mkPingReq.

#[export] Instance serialize_ping_req : Serialize PingReq := fun _ => serialize_unit_struct.

Record ReasonData : Type := mkReasonData {
  reason_data_code : ReasonCode;
  reason_data_properties : option Properties
}.

Record Reason : Type := mkReason { reason : option ReasonData }.

(** [From<ReasonCode> for Reason]. *)
Definition reason_from (code : ReasonCode) : Reason :=
  mkReason (Some (mkReasonData code None)).

Definition reason_with_properties (code : ReasonCode) (properties : list Property) : Reason :=
  mkReason (Some (mkReasonData code (Some (Slice properties)))).

(** [Reason::code]. *)
Definition reason_get_code (r : Reason) : ReasonCode :=
  match reason r with Some data => reason_data_code data | None => ReasonCode.Success end.

Definition serialize_reason_code (c : ReasonCode) : Ser unit := serialize_u8 (reason_code_u8 c).

#[export] Instance serialize_reason_data : Serialize ReasonData := fun d =>
  do! serialize_reason_code (reason_data_code d) in
  serialize_option serialize_properties (reason_data_properties d).

#[export] Instance serialize_reason : Serialize Reason := fun r =>
  serialize_option serialize (reason r).

Record PubAck : Type := mkPubAck { puback_packet_id : Z; puback_reason : Reason }.
Record PubRec : Type := mkPubRec { pubrec_packet_id : Z; pubrec_reason : Reason }.
Record PubRel : Type := mkPubRel { pubrel_packet_id : Z; pubrel_reason : Reason }.
Record PubComp : Type := mkPubComp { pubcomp_packet_id : Z; pubcomp_reason : Reason }.

#[export] Instance serialize_puback : Serialize PubAck := fun p =>
  do! serialize_u16 (puback_packet_id p) in serialize (puback_reason p).
#[export] Instance serialize_pubrec : Serialize PubRec := fun p =>
  do! serialize_u16 (pubrec_packet_id p) in serialize (pubrec_reason p).
#[export] Instance serialize_pubrel : Serialize PubRel := fun p =>
  do! serialize_u16 (pubrel_packet_id p) in serialize (pubrel_reason p).
#[export] Instance serialize_pubcomp : Serialize PubComp := fun p =>
  do! serialize_u16 (pubcomp_packet_id p) in serialize (pubcomp_reason p).

Record SubAck : Type := mkSubAck {
  suback_packet_id : Z; suback_properties : Properties; suback_codes : bytes }.
Record UnsubAck : Type := mkUnsubAck {
  unsuback_packet_id : Z; unsuback_properties : Properties; unsuback_codes : bytes }.

Record Disconnect : Type := mkDisconnect {
  disconnect_reason_code : option ReasonCode;
  disconnect_properties : option Properties
}.

#[export] Instance serialize_disconnect : Serialize Disconnect := fun d =>
  do! serialize_option serialize_reason_code (disconnect_reason_code d) in
  serialize_option serialize_properties (disconnect_properties d).

Definition Disconnect_success : Disconnect := mkDisconnect None None.
Definition Disconnect_with_reason (c : ReasonCode) : Disconnect := mkDisconnect (Some c) None.
Definition Disconnect_with_will : Disconnect := Disconnect_with_reason ReasonCode.DisconnectWithWill.

Definition Disconnect_with_properties (d : Disconnect) (properties : list Property) : Disconnect :=
  let reason_code := match disconnect_reason_code d with
                     | None => Some ReasonCode.Success
                     | Some c => Some c
                     end in
  mkDisconnect reason_code (Some (Slice properties)).

(** [Disconnect::reason_code]. *)
Definition disconnect_code (d : Disconnect) : ReasonCode :=
  default ReasonCode.Success (disconnect_reason_code d).

#[export] Instance control_connect : ControlPacket Connect := MessageType.Connect.
#[export] Instance control_puback : ControlPacket PubAck := MessageType.PubAck.
#[export] Instance control_pubrec : ControlPacket PubRec := MessageType.PubRec.
#[export] Instance control_pubrel : ControlPacket PubRel := MessageType.PubRel.
#[export] Instance control_pubcomp : ControlPacket PubComp := MessageType.PubComp.
#[export] Instance control_subscribe : ControlPacket Subscribe := MessageType.Subscribe.
#[export] Instance control_unsubscribe : ControlPacket Unsubscribe := MessageType.Unsubscribe.
#[export] Instance control_ping_req : ControlPacket PingReq := MessageType.PingReq.
#[export] Instance control_disconnect : ControlPacket Disconnect := MessageType.Disconnect.

(** * Publications *)

Record Publication (P : Type) : Type := mkPublication {
  pub_topic : bytes;
  pub_properties : Properties;
  pub_qos : QoS;
  pub_payload : P;
  pub_retain : Retain
}.
Arguments mkPublication {P} pub_topic pub_properties pub_qos pub_payload pub_retain.
Arguments pub_topic {P} p.
Arguments pub_properties {P} p.
Arguments pub_qos {P} p.
Arguments pub_payload {P} p.
Arguments pub_retain {P} p.

Definition Publication_new {P} (topic : bytes) (payload : P) : Publication P :=
  mkPublication topic (Slice []) QoS.AtMostOnce payload Retain.NotRetained.

Definition Publication_qos {P} (p : Publication P) (qos : QoS) : Publication P :=
  mkPublication (pub_topic p) (pub_properties p) qos (pub_payload p) (pub_retain p).

Definition Publication_retain {P} (p : Publication P) : Publication P :=
  mkPublication (pub_topic p) (pub_properties p) (pub_qos p) (pub_payload p) Retain.Retained.

Definition Publication_properties {P} (p : Publication P) (properties : list Property)
  : Publication P :=
  mkPublication (pub_topic p) (with_properties (pub_properties p) properties) (pub_qos p)
    (pub_payload p) (pub_retain p).

Definition Publication_correlate {P} (p : Publication P) (data : bytes) : Publication P :=
  mkPublication (pub_topic p) (with_correlation (pub_properties p) data) (pub_qos p)
    (pub_payload p) (pub_retain p).

Record ResponseTarget : Type := mkResponseTarget {
  target_topic : bytes;
  target_correlation_data : option bytes
}.

(** [ResponseTarget::publication]; [OwnedResponseTarget::publication] is the
    same on the owned copies. *)
Definition target_publication {P} (t : ResponseTarget) (payload : P) : Publication P :=
  let publication := Publication_new (target_topic t) payload in
  match target_correlation_data t with
  | Some data => Publication_correlate publication data
  | None => publication
  end.

(** [ResponseTarget::to_owned], into a topic and correlation data of bounded
    capacity. *)
Definition target_to_owned (TOPIC CORRELATION : Z) (t : ResponseTarget)
  : result ResourceError ResponseTarget :=
  let? topic := ok_or ResourceError.BufferTooSmall (string_try_from TOPIC (target_topic t)) in
  let? correlation_data :=
    match target_correlation_data t with
    | None => Ok None
    | Some data =>
        if CORRELATION <? zlen data then Err ResourceError.BufferTooSmall else Ok (Some data)
    end in
  Ok (mkResponseTarget topic correlation_data).

(** * Pure encodings *)

Definition enc_option {A} (g : A -> enc) (o : option A) : enc :=
  match o with Some a => g a | None => Ok [] end.

Definition enc_u16 (v : Z) : enc := Ok (to_be_bytes 2 v).

Definition enc_will (w : Will) : enc :=
  enc_properties (Slice (will_properties w)) +++ enc_field (will_topic w) +++
  enc_field (will_data w).

Definition enc_auth (a : Auth) : enc := enc_field (user_name a) +++ enc_field (password a).

Definition enc_connect (c : Connect) : enc :=
  enc_field MQTT_NAME +++ Ok [5] +++ Ok [connect_flags c] +++ enc_u16 (connect_keepalive c) +++
  enc_properties (connect_properties c) +++ enc_field (connect_client_id c) +++
  enc_option enc_will (connect_will c) +++ enc_option enc_auth (connect_auth c).

Definition enc_publish_header (h : PublishHeader) : enc :=
  enc_field (ph_topic h) +++ enc_option enc_u16 (ph_packet_id h) +++
  enc_properties (ph_properties h).

Definition enc_topic_filter (t : TopicFilter) : enc :=
  enc_field (tf_topic t) +++ Ok [subscription_options_byte (tf_options t)].

Definition enc_subscribe (p : Subscribe) : enc :=
  enc_u16 (subscribe_packet_id p) +++ enc_properties (subscribe_properties p) +++
  enc_concat (map enc_topic_filter (subscribe_topics p)).

Definition enc_unsubscribe (p : Unsubscribe) : enc :=
  enc_u16 (unsubscribe_packet_id p) +++ enc_properties (unsubscribe_properties p) +++
  enc_concat (map enc_field (unsubscribe_topics p)).

Definition enc_reason_data (d : ReasonData) : enc :=
  Ok [reason_code_u8 (reason_data_code d)] +++
  enc_option enc_properties (reason_data_properties d).

(** The packet identifier and reason that all four acknowledgements carry. *)
Definition enc_ack (packet_id : Z) (r : Reason) : enc :=
  enc_u16 packet_id +++ enc_option enc_reason_data (reason r).

Definition enc_disconnect (d : Disconnect) : enc :=
  enc_option (fun c => Ok [reason_code_u8 c]) (disconnect_reason_code d) +++
  enc_option enc_properties (disconnect_properties d).

Definition reason_ok (r : Reason) : Prop :=
  match reason r with
  | Some d => match reason_data_properties d with Some ps => properties_ok ps | None => True end
  | None => True
  end.

Lemma implements_option_ok {A} (f : A -> Ser unit) (g : A -> enc) o :
  (forall x, o = Some x -> implements (f x) (g x)) ->
  implements (serialize_option f o) (enc_option g o).
Proof. intros Hf. destruct o; simpl; [by apply Hf|apply implements_ret]. Qed.

Lemma implements_will w :
  Forall property_ok (will_properties w) -> implements (serialize w) (enc_will w).
Proof. intros Hp. unfold serialize, serialize_will, enc_will. auto with ser. Qed.

Lemma implements_reason r : reason_ok r ->
  implements (serialize r) (enc_option enc_reason_data (reason r)).
Proof.
  intros Hr. apply implements_option_ok. intros d Hd. unfold reason_ok in Hr. rewrite Hd in Hr.
  apply implements_bind; [apply implements_push|]. apply implements_option_ok.
  intros ps Hps. rewrite Hps in Hr. by apply implements_properties.
Qed.

Lemma enc_publish_header_pos h hb : enc_publish_header h = Ok hb -> 0 < zlen hb.
Proof.
  unfold enc_publish_header, enc_field. destruct (zlen (ph_topic h) <? 2 ^ 16); [|done].
  destruct (enc_option _ _); [|done]. destruct (enc_properties _); [|done].
  cbn [enc_app]. intros [= <-]. rewrite zlen_cons. zlia.
Qed.

(** * The interface between a packet type and the encoder *)

Class PacketSpec (T : Type) `{Serialize T, ControlPacket T} : Type := {
  (** what the Rust types guarantee of a value *)
  packet_ok : T -> Prop;
  (** the bytes behind the remaining length, or the error of a field without
      an encoding *)
  packet_enc : T -> enc;
  packet_implements : forall p, packet_ok p -> implements (serialize p) (packet_enc p)
}.

Definition connect_ok (c : Connect) : Prop :=
  properties_ok (connect_properties c) /\
  match connect_will c with Some w => Forall property_ok (will_properties w) | None => True end.

#[export, refine] Instance connect_spec : PacketSpec Connect :=
  {| packet_ok := connect_ok; packet_enc := enc_connect |}.
Proof.
  intros c [Hp Hw]. unfold serialize, serialize_connect, enc_connect.
  do 4 (apply implements_bind;
    [first [apply implements_utf8_string | apply implements_push_bytes | apply implements_push]|]).
  apply implements_bind; [by apply implements_properties|].
  apply implements_bind; [apply implements_utf8_string|]. apply implements_bind.
  - apply implements_option_ok. intros w Hc. rewrite Hc in Hw. by apply implements_will.
  - apply implements_option_ok. intros a _. unfold enc_auth. auto with ser.
Defined.

#[export, refine] Instance subscribe_spec : PacketSpec Subscribe :=
  {| packet_ok p := properties_ok (subscribe_properties p); packet_enc := enc_subscribe |}.
Proof.
  intros p Hp. apply implements_bind; [apply implements_push_bytes|].
  apply implements_bind; [by apply implements_properties|]. apply implements_seq.
  intros t. apply implements_bind; [apply implements_utf8_string|apply implements_push].
Defined.

#[export, refine] Instance unsubscribe_spec : PacketSpec Unsubscribe :=
  {| packet_ok p := properties_ok (unsubscribe_properties p); packet_enc := enc_unsubscribe |}.
Proof.
  intros p Hp. apply implements_bind; [apply implements_push_bytes|].
  apply implements_bind; [by apply implements_properties|]. apply implements_seq.
  apply implements_utf8_string.
Defined.

#[export, refine] Instance ping_req_spec : PacketSpec PingReq :=
  {| packet_ok p := True; packet_enc _ := Ok [] |}.
Proof. intros. apply implements_ret. Defined.

#[export, refine] Instance puback_spec : PacketSpec PubAck :=
  {| packet_ok p := reason_ok (puback_reason p);
     packet_enc p := enc_ack (puback_packet_id p) (puback_reason p) |}.
Proof. intros. apply implements_bind; [apply implements_push_bytes|by apply implements_reason]. Defined.

#[export, refine] Instance pubrec_spec : PacketSpec PubRec :=
  {| packet_ok p := reason_ok (pubrec_reason p);
     packet_enc p := enc_ack (pubrec_packet_id p) (pubrec_reason p) |}.
Proof. intros. apply implements_bind; [apply implements_push_bytes|by apply implements_reason]. Defined.

#[export, refine] Instance pubrel_spec : PacketSpec PubRel :=
  {| packet_ok p := reason_ok (pubrel_reason p);
     packet_enc p := enc_ack (pubrel_packet_id p) (pubrel_reason p) |}.
Proof. intros. apply implements_bind; [apply implements_push_bytes|by apply implements_reason]. Defined.

#[export, refine] Instance pubcomp_spec : PacketSpec PubComp :=
  {| packet_ok p := reason_ok (pubcomp_reason p);
     packet_enc p := enc_ack (pubcomp_packet_id p) (pubcomp_reason p) |}.
Proof. intros. apply implements_bind; [apply implements_push_bytes|by apply implements_reason]. Defined.

#[export, refine] Instance disconnect_spec : PacketSpec Disconnect :=
  {| packet_ok d := match disconnect_properties d with Some ps => properties_ok ps | None => True end;
     packet_enc := enc_disconnect |}.
Proof.
  intros d Hd. apply implements_bind; apply implements_option_ok.
  - intros. apply implements_push.
  - intros ps Hps. rewrite Hps in Hd. by apply implements_properties.
Defined.

Lemma implements_publish_header h :
  properties_ok (ph_properties h) -> implements (serialize h) (enc_publish_header h).
Proof.
  intros Hp. apply implements_bind; [apply implements_utf8_string|].
  apply implements_bind; [|by apply implements_properties].
  apply implements_option_ok. intros. apply implements_push_bytes.
Qed.

(** Encoding a packet into a buffer with room, through the interface. *)
Lemma encode_spec {T} `{PacketSpec T} (packet : T) buf body :
  packet_ok packet -> packet_enc packet = Ok body -> zlen body <= MQTT_VARINT_MAX ->
  MAX_FIXED_HEADER_SIZE + zlen body <= zlen buf ->
  exists buf', encode buf packet = (buf', Ok (packet_bytes (fixed_header packet) body)).
Proof.
  intros Hok He Hm Hfit. pose proof (packet_implements packet Hok) as Hi. rewrite He in Hi.
  pose proof (encode_with_offset_spec packet buf body Hi Hm) as Hs. cbv zeta in Hs.
  rewrite (proj2 (Z.leb_le _ _)) in Hs by done. destruct Hs as (buf' & off & Hs & _).
  exists buf'. unfold encode. by rewrite Hs.
Qed.
