(* ===== verification/Serde.v ===== *)
(** * The serde interfaces: [src/minimq/src/ser/mod.rs] and [src/minimq/src/de/deserializer.rs]

    [Ser] and [De] resolve serde's dispatch by hand, packet type by packet type. Here the
    two interfaces are modelled whole: every method of [serde::Serializer] and of the
    compound serializers on the tree of calls a [Serialize] implementation makes
    ([Value]), and every method of [serde::Deserializer] on the shape a [Deserialize]
    implementation asks for ([Shape]). Shown: which values the serializer accepts and the
    bytes it gives them; that the serializers of all packet types are what their
    [Serialize] implementations ask of that interface; that the deserializer stays inside
    its buffer whatever it is asked for; and that what the one writes the other reads
    back. *)

From S2P Require Import Prelude Varint Types Text Wire Ser De Properties Packets.

(** * Serializing *)

(** The calls that a [Serialize] implementation makes on its serializer. [VCustom] is
    [S::Error::custom], raised by the implementation itself; floats and characters, which
    are refused, carry no value. *)
Inductive Value : Type :=
| VBool (v : bool)
| VI8 (v : Z) | VI16 (v : Z) | VI32 (v : Z) | VI64 (v : Z)
| VU8 (v : Z) | VU16 (v : Z) | VU32 (v : Z) | VU64 (v : Z)
| VF32 | VF64 | VChar
| VStr (v : bytes) | VBytes (v : bytes) | VCollectStr
| VNone | VSome (value : Value)
| VUnit | VUnitStruct | VUnitVariant (index : Z)
| VNewtypeStruct (value : Value) | VNewtypeVariant (index : Z) (value : Value)
| VSeq (elements : list Value) | VTuple (elements : list Value)
| VTupleStruct (fields : list Value) | VTupleVariant (index : Z) (fields : list Value)
| VMap (entries : list (Value * Value))
| VStruct (fields : list Value) | VStructVariant (index : Z) (fields : list Value)
| VCustom.

(** [as u8], [to_be_bytes] of a signed integer: its two's complement. *)
Definition serialize_i8 (v : Z) : Ser unit := push (v mod 2 ^ 8).
Definition serialize_i16 (v : Z) : Ser unit := push_bytes (to_be_bytes 2 (v mod 2 ^ 16)).
Definition serialize_i32 (v : Z) : Ser unit := push_bytes (to_be_bytes 4 (v mod 2 ^ 32)).
Definition serialize_i64 (v : Z) : Ser unit := push_bytes (to_be_bytes 8 (v mod 2 ^ 64)).
Definition serialize_u64 (v : Z) : Ser unit := push_bytes (to_be_bytes 8 v).

Definition serialize_newtype_struct (value : Ser unit) : Ser unit := value.
Definition serialize_some (value : Ser unit) : Ser unit := value.
Definition serialize_char : Ser unit := raise SerError.Custom.
Definition serialize_unit : Ser unit := raise SerError.Custom.
Definition serialize_unit_variant : Ser unit := raise SerError.Custom.
Definition serialize_newtype_variant (_value : Ser unit) : Ser unit := raise SerError.Custom.
Definition collect_str : Ser unit := raise SerError.Custom.
Definition serialize_f32 : Ser unit := raise SerError.Custom.
Definition serialize_f64 : Ser unit := raise SerError.Custom.

(** The methods that open a compound; the serializer itself is the compound. *)
Definition serialize_seq_open : Ser unit := ret tt.
Definition serialize_tuple : Ser unit := ret tt.
Definition serialize_struct : Ser unit := ret tt.
Definition serialize_tuple_struct : Ser unit := raise SerError.Custom.
Definition serialize_tuple_variant : Ser unit := raise SerError.Custom.
Definition serialize_map : Ser unit := raise SerError.Custom.
Definition serialize_struct_variant : Ser unit := raise SerError.Custom.

(** A compound serializer: what it does with a field or element, and its [end]. *)
Record Compound : Type := mkCompound { item : Ser unit -> Ser unit; end_ : Ser unit }.

Definition SerializeStruct : Compound := mkCompound (fun value => value) (ret tt).
Definition SerializeSeq : Compound := mkCompound (fun value => value) (ret tt).
Definition SerializeTuple : Compound := mkCompound (fun value => value) (ret tt).
Definition SerializeTupleStruct : Compound :=
  mkCompound (fun _ => raise SerError.Custom) (raise SerError.Custom).
Definition SerializeTupleVariant : Compound :=
  mkCompound (fun _ => raise SerError.Custom) (raise SerError.Custom).
Definition SerializeMap : Compound :=
  mkCompound (fun _ => raise SerError.Custom) (raise SerError.Custom).
Definition SerializeStructVariant : Compound :=
  mkCompound (fun _ => raise SerError.Custom) (raise SerError.Custom).

(** A compound with its items, as an implementation drives it. *)
Definition compound {A} (open : Ser unit) (c : Compound) (f : A -> Ser unit) (l : list A)
  : Ser unit :=
  do! open in do! serialize_seq (fun x => item c (f x)) l in end_ c.

(** [value.serialize(serializer)]. *)
Fixpoint serialize_value (v : Value) : Ser unit :=
  match v with
  | VBool v => serialize_bool v
  | VI8 v => serialize_i8 v
  | VI16 v => serialize_i16 v
  | VI32 v => serialize_i32 v
  | VI64 v => serialize_i64 v
  | VU8 v => serialize_u8 v
  | VU16 v => serialize_u16 v
  | VU32 v => serialize_u32 v
  | VU64 v => serialize_u64 v
  | VF32 => serialize_f32
  | VF64 => serialize_f64
  | VChar => serialize_char
  | VStr v => serialize_str v
  | VBytes v => serialize_bytes v
  | VCollectStr => collect_str
  | VNone => serialize_none
  | VSome value => serialize_some (serialize_value value)
  | VUnit => serialize_unit
  | VUnitStruct => serialize_unit_struct
  | VUnitVariant _ => serialize_unit_variant
  | VNewtypeStruct value => serialize_newtype_struct (serialize_value value)
  | VNewtypeVariant _ value => serialize_newtype_variant (serialize_value value)
  | VSeq l => compound serialize_seq_open SerializeSeq serialize_value l
  | VTuple l => compound serialize_tuple SerializeTuple serialize_value l
  | VTupleStruct l => compound serialize_tuple_struct SerializeTupleStruct serialize_value l
  | VTupleVariant _ l => compound serialize_tuple_variant SerializeTupleVariant serialize_value l
  | VMap l =>
      compound serialize_map SerializeMap
        (fun '(key, value) => do! item SerializeMap (serialize_value key) in serialize_value value) l
  | VStruct l => compound serialize_struct SerializeStruct serialize_value l
  | VStructVariant _ l =>
      compound serialize_struct_variant SerializeStructVariant serialize_value l
  | VCustom => raise SerError.Custom
  end.

(** ** What is accepted *)

(** The values of the data types that the serializer supports. *)
Fixpoint supported (v : Value) : bool :=
  match v with
  | VF32 | VF64 | VChar | VCollectStr | VUnit | VUnitVariant _ | VNewtypeVariant _ _
  | VTupleStruct _ | VTupleVariant _ _ | VMap _ | VStructVariant _ _ | VCustom => false
  | VSome value | VNewtypeStruct value => supported value
  | VSeq l | VTuple l | VStruct l => forallb supported l
  | _ => true
  end.

(** Their bytes: fields one after the other, with no framing of their own. *)
Fixpoint value_bytes (v : Value) : bytes :=
  match v with
  | VBool v => [if v then 1 else 0]
  | VI8 v => [v mod 2 ^ 8]
  | VI16 v => to_be_bytes 2 (v mod 2 ^ 16)
  | VI32 v => to_be_bytes 4 (v mod 2 ^ 32)
  | VI64 v => to_be_bytes 8 (v mod 2 ^ 64)
  | VU8 v => [v]
  | VU16 v => to_be_bytes 2 v
  | VU32 v => to_be_bytes 4 v
  | VU64 v => to_be_bytes 8 v
  | VStr v | VBytes v => v
  | VSome value | VNewtypeStruct value => value_bytes value
  | VSeq l | VTuple l | VStruct l => flat_map value_bytes l
  | _ => []
  end.

Definition enc_value (v : Value) : enc :=
  if supported v then Ok (value_bytes v) else Err SerError.Custom.

(** Induction that goes into the lists. *)
Lemma Value_nested_ind (P : Value -> Prop) :
  (forall v, P v -> P (VSome v)) -> (forall v, P v -> P (VNewtypeStruct v)) ->
  (forall l, Forall P l -> P (VSeq l) /\ P (VTuple l) /\ P (VStruct l)) ->
  (forall v, match v with
             | VSome _ | VNewtypeStruct _ | VSeq _ | VTuple _ | VStruct _ => True
             | _ => P v
             end) ->
  forall v, P v.
Proof.
  intros Hsome Hnew Hlist Hleaf. fix IH 1. intros v. pose proof (Hleaf v) as Hv.
  destruct v as [| | | | | | | | | | | | | | | |v| | | |v| |l|l| | | |l| |]; try exact Hv;
    [apply Hsome, IH|apply Hnew, IH|apply Hlist..];
    (induction l as [|x l IHl]; constructor; [apply IH|exact IHl]).
Qed.

Lemma enc_value_list l :
  enc_concat (map enc_value l) =
  if forallb supported l then Ok (flat_map value_bytes l) else Err SerError.Custom.
Proof.
  induction l as [|x l IH]; [done|]. simpl. rewrite IH. unfold enc_value.
  by destruct (supported x), (forallb supported l).
Qed.

Lemma implements_ext m m' e : (forall s, m s = m' s) -> implements m' e -> implements m e.
Proof. intros Hm Hi s Hs. specialize (Hi s Hs). by rewrite Hm. Qed.

(** A compound that is open to its fields is the sequence of them. *)
Lemma compound_seq {A} (f : A -> Ser unit) l s :
  compound (ret tt) (mkCompound (fun value => value) (ret tt)) f l s = serialize_seq f l s.
Proof.
  unfold compound, bind, ret. simpl.
  by destruct (serialize_seq (fun x => f x) l s) as [s' [[]|e]].
Qed.

Lemma implements_items (f : Value -> Ser unit) (g : Value -> enc) l :
  Forall (fun v => implements (f v) (g v)) l ->
  implements (serialize_seq f l) (enc_concat (map g l)).
Proof.
  induction 1 as [|x l Hx _ IH]; simpl; [apply implements_ret|]. by apply implements_bind.
Qed.

Lemma serialize_value_implements v : implements (serialize_value v) (enc_value v).
Proof.
  revert v. apply Value_nested_ind; [by intros v IH|by intros v IH|intros l IH|intros v].
  - assert (implements (serialize_seq serialize_value l)
              (if forallb supported l then Ok (flat_map value_bytes l) else Err SerError.Custom)) as Hl
      by (rewrite <- enc_value_list; by apply implements_items).
    split_and!; (eapply implements_ext; [apply compound_seq|exact Hl]).
  - destruct v; try done; unfold enc_value; simpl;
      first [apply implements_ret|apply implements_push|apply implements_push_bytes
            |apply implements_raise|idtac].
    all: intros s Hs; exists s, SerError.Custom; split_and!; try done; by left.
Qed.

(** C32: The serializer is typed. A value built from the data types it supports is appended
    to the packet as exactly its bytes, or refused for want of room and nothing else; a
    value that contains any other data type (floats, characters, maps, enum variants, unit,
    tuple structs) anywhere is refused; and a refusal leaves what was written before as it
    was. *)
Theorem serializer_accepts_supported v s :
  0 <= ser_index s ->
  if supported v then
    if zlen (value_bytes v) <=? ser_room s
    then serialize_value v s = (ser_put s (value_bytes v), Ok tt)
    else exists s', serialize_value v s = (s', Err SerError.InsufficientMemory) /\ ser_frame s s'
  else exists s' e, serialize_value v s = (s', Err e) /\ ser_frame s s'.
Proof.
  intros Hs. pose proof (serialize_value_implements v s Hs) as Hi. unfold enc_value in Hi.
  destruct (supported v); [exact Hi|]. destruct Hi as (s' & e & He & Hf & _). by exists s', e.
Qed.

Lemma serializer_accepts_supported_witness :
  exists s' e,
    serialize_value (VStruct [VU8 1; VSome (VMap [])]) (mkSer (repeat 0 8) 5) = (s', Err e) /\
    ser_frame (mkSer (repeat 0 8) 5) s'.
Proof.
  apply (serializer_accepts_supported (VStruct [VU8 1; VSome (VMap [])]) (mkSer (repeat 0 8) 5)).
  by vm_compute.
Defined.

(** ** The packet types *)

(** The trait [serde::Serialize]: the calls an implementation makes. *)
Class ToValue (T : Type) : Type := to_value : T -> Value.

Definition utf8_value (s : bytes) : Value :=
  match u16_try_from (zlen s) with
  | None => VCustom
  | Some len => VStruct [VU16 len; VStr s]
  end.

(** serde's implementation for [[u8]] is the sequence of its bytes. *)
Definition slice_value (data : bytes) : Value := VSeq (map VU8 data).

Definition binary_value (data : bytes) : Value :=
  match u16_try_from (zlen data) with
  | None => VCustom
  | Some len => VStruct [VU16 len; slice_value data]
  end.

Definition varint_calls (v : Varint) : Value :=
  match write_mqtt_u32_varint (varint_value v) VarintBuffer_new with
  | (_, Err _) => VCustom
  | (buffer, Ok _) => VSeq (map VU8 (as_slice buffer))
  end.

Definition option_value {A} (f : A -> Value) (o : option A) : Value :=
  match o with Some a => VSome (f a) | None => VNone end.

Definition property_value (p : Property) : Value :=
  VSeq (varint_calls (mkVarint (property_identifier_u32 (property_identifier p))) ::
    match p with
    | Property.PayloadFormatIndicator value => [VU8 value]
    | Property.MessageExpiryInterval value => [VU32 value]
    | Property.ContentType data => [utf8_value data]
    | Property.ResponseTopic data => [utf8_value data]
    | Property.CorrelationData data => [binary_value data]
    | Property.SubscriptionIdentifier value => [varint_calls (mkVarint value)]
    | Property.SessionExpiryInterval value => [VU32 value]
    | Property.AssignedClientIdentifier data => [utf8_value data]
    | Property.ServerKeepAlive value => [VU16 value]
    | Property.AuthenticationMethod data => [utf8_value data]
    | Property.AuthenticationData data => [binary_value data]
    | Property.RequestProblemInformation value => [VU8 value]
    | Property.WillDelayInterval value => [VU32 value]
    | Property.RequestResponseInformation value => [VU8 value]
    | Property.ResponseInformation data => [utf8_value data]
    | Property.ServerReference data => [utf8_value data]
    | Property.ReasonString data => [utf8_value data]
    | Property.ReceiveMaximum value => [VU16 value]
    | Property.TopicAliasMaximum value => [VU16 value]
    | Property.TopicAlias value => [VU16 value]
    | Property.MaximumQoS value => [VU8 value]
    | Property.RetainAvailable value => [VU8 value]
    | Property.UserProperty key value => [utf8_value key; utf8_value value]
    | Property.MaximumPacketSize value => [VU32 value]
    | Property.WildcardSubscriptionAvailable value => [VU8 value]
    | Property.SubscriptionIdentifierAvailable value => [VU8 value]
    | Property.SharedSubscriptionAvailable value => [VU8 value]
    end).

Definition properties_value (ps : Properties) : Value :=
  VStruct (varint_calls (mkVarint (properties_size ps mod 2 ^ 32)) ::
    match ps with
    | Slice props => [VSeq (map property_value props)]
    | WithCorrelation correlation properties =>
        [property_value correlation; VSeq (map property_value properties)]
    | Encoded block => [slice_value block]
    end).

Definition reason_code_value (c : ReasonCode) : Value := VU8 (reason_code_u8 c).

#[export] Instance will_value : ToValue Will := fun w =>
  VStruct [properties_value (Slice (will_properties w)); utf8_value (will_topic w);
           binary_value (will_data w)].

#[export] Instance connect_value : ToValue Connect := fun c =>
  VStruct ([utf8_value MQTT_NAME; VU8 5; VU8 (connect_flags c); VU16 (connect_keepalive c);
            properties_value (connect_properties c); utf8_value (connect_client_id c)] ++
           match connect_will c with Some will => [to_value will] | None => [] end ++
           match connect_auth c with
           | Some auth => [utf8_value (user_name auth); binary_value (password auth)]
           | None => []
           end).

#[export] Instance publish_header_value : ToValue PublishHeader := fun h =>
  VStruct [utf8_value (ph_topic h); option_value VU16 (ph_packet_id h);
           properties_value (ph_properties h)].

#[export] Instance topic_filter_value : ToValue TopicFilter := fun t =>
  VStruct [utf8_value (tf_topic t); VU8 (subscription_options_byte (tf_options t))].

#[export] Instance subscribe_value : ToValue Subscribe := fun p =>
  VStruct [VU16 (subscribe_packet_id p); properties_value (subscribe_properties p);
           VSeq (map to_value (subscribe_topics p))].

Definition topic_filters_value (topics : list bytes) : Value := VSeq (map utf8_value topics).

#[export] Instance unsubscribe_value : ToValue Unsubscribe := fun p =>
  VStruct [VU16 (unsubscribe_packet_id p); properties_value (unsubscribe_properties p);
           topic_filters_value (unsubscribe_topics p)].

#[export] Instance ping_req_value : ToValue PingReq := fun _ => VUnitStruct.

#[export] Instance reason_data_value : ToValue ReasonData := fun d =>
  VStruct [reason_code_value (reason_data_code d);
           option_value properties_value (reason_data_properties d)].

#[export] Instance reason_value : ToValue Reason := fun r =>
  VStruct [option_value to_value (reason r)].

#[export] Instance puback_value : ToValue PubAck := fun p =>
  VStruct [VU16 (puback_packet_id p); to_value (puback_reason p)].
#[export] Instance pubrec_value : ToValue PubRec := fun p =>
  VStruct [VU16 (pubrec_packet_id p); to_value (pubrec_reason p)].
#[export] Instance pubrel_value : ToValue PubRel := fun p =>
  VStruct [VU16 (pubrel_packet_id p); to_value (pubrel_reason p)].
#[export] Instance pubcomp_value : ToValue PubComp := fun p =>
  VStruct [VU16 (pubcomp_packet_id p); to_value (pubcomp_reason p)].

#[export] Instance disconnect_value : ToValue Disconnect := fun d =>
  VStruct [option_value reason_code_value (disconnect_reason_code d);
           option_value properties_value (disconnect_properties d)].

(** Two serializers that do the same on every state. *)
Definition ser_eq (m m' : Ser unit) : Prop := forall s, m s = m' s.

Create HintDb serde.

#[export] Instance ser_eq_equiv : Equivalence ser_eq.
Proof. split; unfold ser_eq; [done|by intros m m' H s|]. intros a b c H1 H2 s. by rewrite H1. Qed.

Lemma ser_eq_bind m m' k k' : ser_eq m m' -> ser_eq k k' -> ser_eq (do! m in k) (do! m' in k').
Proof. intros Hm Hk s. unfold bind. rewrite Hm. by destruct (m' s) as [s' [[]|e]]. Qed.

Lemma ser_eq_ret_r m m' : ser_eq m m' -> ser_eq m (do! m' in ret tt).
Proof. intros Hm s. rewrite Hm. unfold bind, ret. by destruct (m' s) as [s' [[]|e]]. Qed.

(** The items of a compound, and the compounds that take them. *)
Lemma ser_eq_last m v : ser_eq m (serialize_value v) -> ser_eq m (serialize_seq serialize_value [v]).
Proof. intros Hm. by apply ser_eq_ret_r. Qed.

Lemma ser_eq_cons m k v l :
  ser_eq m (serialize_value v) -> ser_eq k (serialize_seq serialize_value l) ->
  ser_eq (do! m in k) (serialize_seq serialize_value (v :: l)).
Proof. apply ser_eq_bind. Qed.

Lemma ser_eq_app m k l1 l2 :
  ser_eq m (serialize_seq serialize_value l1) -> ser_eq k (serialize_seq serialize_value l2) ->
  ser_eq (do! m in k) (serialize_seq serialize_value (l1 ++ l2)).
Proof.
  intros Hm Hk s. unfold bind at 1. rewrite Hm. clear Hm.
  revert s. induction l1 as [|v l1 IH]; intros s; simpl; [apply Hk|].
  unfold bind. destruct (serialize_value v s) as [s' [[]|e]]; [apply IH|done].
Qed.

Lemma ser_eq_seq m l : ser_eq m (serialize_seq serialize_value l) -> ser_eq m (serialize_value (VSeq l)).
Proof. intros Hm s. rewrite Hm. symmetry. apply compound_seq. Qed.

Lemma ser_eq_struct m l :
  ser_eq m (serialize_seq serialize_value l) -> ser_eq m (serialize_value (VStruct l)).
Proof. intros Hm s. rewrite Hm. symmetry. apply compound_seq. Qed.

Lemma ser_eq_map {A} (f : A -> Ser unit) (g : A -> Value) l :
  (forall x, ser_eq (f x) (serialize_value (g x))) ->
  ser_eq (serialize_seq f l) (serialize_seq serialize_value (map g l)).
Proof. intros Hf. induction l as [|x l IH]; simpl; [done|]. by apply ser_eq_bind. Qed.

Lemma ser_eq_option {A} (f : A -> Ser unit) (g : A -> Value) o :
  (forall x, ser_eq (f x) (serialize_value (g x))) ->
  ser_eq (serialize_option f o) (serialize_value (option_value g o)).
Proof. intros Hf. destruct o; [apply Hf|done]. Qed.

Lemma ser_eq_u8s l : ser_eq (serialize_seq serialize_u8 l) (serialize_value (VSeq (map VU8 l))).
Proof. by apply ser_eq_seq, ser_eq_map. Qed.

Lemma ser_eq_utf8 s : ser_eq (serialize_utf8_string s) (serialize_value (utf8_value s)).
Proof.
  unfold serialize_utf8_string, utf8_value. destruct (u16_try_from (zlen s)); [|done].
  by apply ser_eq_struct, ser_eq_cons, ser_eq_last.
Qed.

Lemma ser_eq_binary data : ser_eq (serialize_binary_data data) (serialize_value (binary_value data)).
Proof.
  unfold serialize_binary_data, binary_value. destruct (u16_try_from (zlen data)); [|done].
  apply ser_eq_struct, ser_eq_cons, ser_eq_last, ser_eq_u8s; done.
Qed.

Lemma ser_eq_varint v : ser_eq (serialize_varint v) (serialize_value (varint_calls v)).
Proof.
  unfold serialize_varint, varint_calls. destruct (write_mqtt_u32_varint _ _) as [b [|]]; [|done].
  apply ser_eq_u8s.
Qed.

#[export] Hint Resolve ser_eq_u8s ser_eq_utf8 ser_eq_binary ser_eq_varint : serde.

(** Goals of the form [ser_eq (do! field in ...) (serialize_value (VStruct [...]))]. *)
Ltac solve_fields :=
  repeat first [ solve [auto with serde] | apply ser_eq_struct | apply ser_eq_last
               | apply ser_eq_cons | apply ser_eq_seq | apply ser_eq_map; intros ?
               | apply ser_eq_option; intros ? | intros s; reflexivity ].

Lemma ser_eq_property p : ser_eq (serialize_property p) (serialize_value (property_value p)).
Proof. unfold serialize_property, property_value. destruct p; solve_fields. Qed.

#[export] Hint Resolve ser_eq_property : serde.

Lemma ser_eq_properties ps : ser_eq (serialize_properties ps) (serialize_value (properties_value ps)).
Proof. unfold serialize_properties, properties_value. destruct ps as [l|b|c l]; solve_fields. Qed.

#[export] Hint Resolve ser_eq_properties : serde.

(** The interface to a packet type: its serializer makes the calls of its implementation. *)
Class SerdeSpec (T : Type) `{Serialize T, ToValue T} : Prop :=
  serialize_calls : forall p : T, ser_eq (serialize p) (serialize_value (to_value p)).

#[export] Hint Extern 1 (ser_eq (serialize _) (serialize_value (to_value _))) =>
  apply serialize_calls : serde.

#[export] Instance will_calls : SerdeSpec Will.
Proof. intros w. unfold serialize, serialize_will, to_value, will_value. solve_fields. Qed.

#[export] Instance connect_calls : SerdeSpec Connect.
Proof.
  intros c. unfold serialize at 1, serialize_connect, to_value at 1, connect_value.
  apply ser_eq_struct. simpl app. do 6 (apply ser_eq_cons; [solve_fields|]). apply ser_eq_app.
  - destruct (connect_will c) as [w|]; simpl serialize_option; [solve_fields|done].
  - destruct (connect_auth c) as [a|]; simpl serialize_option; [solve_fields|done].
Qed.

#[export] Instance publish_header_calls : SerdeSpec PublishHeader.
Proof.
  intros h. unfold serialize, serialize_publish_header, to_value, publish_header_value. solve_fields.
Qed.

#[export] Instance topic_filter_calls : SerdeSpec TopicFilter.
Proof.
  intros t. unfold serialize, serialize_topic_filter, to_value, topic_filter_value. solve_fields.
Qed.

#[export] Instance subscribe_calls : SerdeSpec Subscribe.
Proof.
  intros p. unfold serialize at 1, serialize_subscribe, to_value at 1, subscribe_value. solve_fields.
Qed.

#[export] Instance unsubscribe_calls : SerdeSpec Unsubscribe.
Proof.
  intros p. unfold serialize, serialize_unsubscribe, to_value, unsubscribe_value. solve_fields.
Qed.

#[export] Instance ping_req_calls : SerdeSpec PingReq.
Proof. done. Qed.

#[export] Instance reason_data_calls : SerdeSpec ReasonData.
Proof.
  intros d. unfold serialize, serialize_reason_data, to_value, reason_data_value. solve_fields.
Qed.

#[export] Instance reason_calls : SerdeSpec Reason.
Proof. intros r. unfold serialize at 1, serialize_reason, to_value at 1, reason_value. solve_fields. Qed.

#[export] Instance puback_calls : SerdeSpec PubAck.
Proof. intros p. unfold serialize at 1, serialize_puback, to_value at 1, puback_value. solve_fields. Qed.
#[export] Instance pubrec_calls : SerdeSpec PubRec.
Proof. intros p. unfold serialize at 1, serialize_pubrec, to_value at 1, pubrec_value. solve_fields. Qed.
#[export] Instance pubrel_calls : SerdeSpec PubRel.
Proof. intros p. unfold serialize at 1, serialize_pubrel, to_value at 1, pubrel_value. solve_fields. Qed.
#[export] Instance pubcomp_calls : SerdeSpec PubComp.
Proof. intros p. unfold serialize at 1, serialize_pubcomp, to_value at 1, pubcomp_value. solve_fields. Qed.

#[export] Instance disconnect_calls : SerdeSpec Disconnect.
Proof.
  intros d. unfold serialize, serialize_disconnect, to_value, disconnect_value. solve_fields.
Qed.

(** The serializers of [Packets], which the rest of the development uses, are what the
    [Serialize] implementations of the packet types (derived or written out) ask of the
    serde interface: on every serializer state, resolving the calls field by field gives
    the same buffer, cursor and result as running them through [serde::Serializer]. *)
Theorem packets_call_serializer :
  (forall p : Connect, ser_eq (serialize p) (serialize_value (to_value p))) /\
  (forall p : PublishHeader, ser_eq (serialize p) (serialize_value (to_value p))) /\
  (forall p : Subscribe, ser_eq (serialize p) (serialize_value (to_value p))) /\
  (forall p : Unsubscribe, ser_eq (serialize p) (serialize_value (to_value p))) /\
  (forall p : PingReq, ser_eq (serialize p) (serialize_value (to_value p))) /\
  (forall p : PubAck, ser_eq (serialize p) (serialize_value (to_value p))) /\
  (forall p : PubRec, ser_eq (serialize p) (serialize_value (to_value p))) /\
  (forall p : PubRel, ser_eq (serialize p) (serialize_value (to_value p))) /\
  (forall p : PubComp, ser_eq (serialize p) (serialize_value (to_value p))) /\
  (forall p : Disconnect, ser_eq (serialize p) (serialize_value (to_value p))).
Proof. split_and!; intros p; apply serialize_calls. Qed.

(** * Deserializing *)

(** What a [Deserialize] implementation asks the deserializer for. The visitor of a tuple
    or struct asks for each of its elements and takes a missing one as an error, as derived
    implementations do; that of a sequence takes the elements that are there; that of an
    enum picks the shape of the variant by its number. [SVarint] is the crate's own
    [Varint], a tuple whose visitor stops at the last byte of the number. *)
Inductive Shape : Type :=
| SBool | SI8 | SI16 | SI32 | SI64 | SU8 | SU16 | SU32 | SU64 | SF32 | SF64 | SChar
| SStr | SString | SBytes | SByteBuf | SVarint
| SOption (shape : Shape)
| SUnit | SUnitStruct | SNewtypeStruct (shape : Shape)
| SSeq (elements : list Shape) | STuple (elements : list Shape)
| STupleStruct (fields : list Shape) | SMap | SStruct (fields : list Shape)
| SEnum (variants : list (Z * Variant))
| SIdentifier | SIgnoredAny | SAny
with Variant : Type :=
| UnitVariant | NewtypeVariant (shape : Shape)
| TupleVariant (fields : list Shape) | StructVariant (fields : list Shape).

(** [as i8], [from_be_bytes] of a signed integer. *)
Definition to_signed (w v : Z) : Z := if v <? 2 ^ (w - 1) then v else v - 2 ^ w.

Definition deserialize_i8 : De Z := let! b := pop in ret (to_signed 8 b).
Definition deserialize_i16 : De Z :=
  let! a := try_take_array 2 in ret (to_signed 16 (from_be_bytes a)).
Definition deserialize_i32 : De Z :=
  let! a := try_take_array 4 in ret (to_signed 32 (from_be_bytes a)).
Definition deserialize_string : De bytes := deserialize_str.
Definition deserialize_byte_buf : De bytes := deserialize_bytes.
Definition deserialize_tuple_struct {A} (len : Z) (visitor : EA A) : De A :=
  deserialize_tuple len visitor.
Definition deserialize_struct {A} (fields : Z) (visitor : EA A) : De A :=
  deserialize_tuple fields visitor.
Definition deserialize_unit_struct {A} : De A := raise DeError.Custom.
Definition deserialize_newtype_struct {A} : De A := raise DeError.Custom.
Definition deserialize_map {A} : De A := raise DeError.Custom.
Definition deserialize_identifier {A} : De A := raise DeError.Custom.
Definition deserialize_unit {A} : De A := raise DeError.Custom.
Definition deserialize_ignored_any {A} : De A := raise DeError.Custom.
Definition deserialize_f32 {A} : De A := raise DeError.Custom.
Definition deserialize_f64 {A} : De A := raise DeError.Custom.
Definition deserialize_char {A} : De A := raise DeError.Custom.
Definition deserialize_i64 {A} : De A := raise DeError.Custom.
Definition deserialize_u64 {A} : De A := raise DeError.Custom.
Definition deserialize_any {A} : De A := raise DeError.Custom.

(** [VariantAccess]. *)
Definition unit_variant {A} : De A := raise DeError.Custom.
Definition newtype_variant_seed {A} (seed : De A) : De A := seed.
Definition struct_variant {A} (fields : Z) (visitor : EA A) : De A := deserialize_tuple fields visitor.
Definition tuple_variant {A} (len : Z) (visitor : EA A) : De A := deserialize_tuple len visitor.

(** [EnumAccess::variant_seed], with the seed as a function of the number read. *)
Definition variant_seed {A} (seed : Z -> result DeError A) : De A :=
  let! varint := read_varint in lift (seed varint).

(** [Deserializer::deserialize_enum]: the visitor gets the deserializer. *)
Definition deserialize_enum {A} (visitor : De A) : De A := visitor.

(** Visitors: every element required, or as many as there are. *)
Fixpoint visit_fields (l : list (De Value)) : EA (list Value) :=
  match l with
  | [] => ret []
  | p :: l' => let! v := next_required p in let! vs := visit_fields l' in ret (v :: vs)
  end.

Fixpoint visit_elements (l : list (De Value)) : SA (list Value) :=
  match l with
  | [] => ret []
  | p :: l' =>
      let! o := next_seq_element p in
      match o with
      | None => ret []
      | Some v => let! vs := visit_elements l' in ret (v :: vs)
      end
  end.

(** The variant a number selects; others are an unknown-variant error. *)
Fixpoint find_variant {A} (index : Z) (l : list (Z * A)) : result DeError A :=
  match l with
  | [] => Err DeError.Custom
  | (i, a) :: l' => if i =? index then Ok a else find_variant index l'
  end.

Definition zlength {A} (l : list A) : Z := Z.of_nat (length l).

(** [T::deserialize(deserializer)]. *)
Fixpoint deserialize_shape (shape : Shape) : De Value :=
  match shape with
  | SBool => let! v := deserialize_bool in ret (VBool v)
  | SI8 => let! v := deserialize_i8 in ret (VI8 v)
  | SI16 => let! v := deserialize_i16 in ret (VI16 v)
  | SI32 => let! v := deserialize_i32 in ret (VI32 v)
  | SI64 => deserialize_i64
  | SU8 => let! v := deserialize_u8 in ret (VU8 v)
  | SU16 => let! v := deserialize_u16 in ret (VU16 v)
  | SU32 => let! v := deserialize_u32 in ret (VU32 v)
  | SU64 => deserialize_u64
  | SF32 => deserialize_f32
  | SF64 => deserialize_f64
  | SChar => deserialize_char
  | SStr => let! v := deserialize_str in ret (VStr v)
  | SString => let! v := deserialize_string in ret (VStr v)
  | SBytes => let! v := deserialize_bytes in ret (VBytes v)
  | SByteBuf => let! v := deserialize_byte_buf in ret (VBytes v)
  | SVarint => let! v := deserialize_varint in ret (VU32 (varint_value v))
  | SOption s =>
      let! o := deserialize_option (deserialize_shape s) in
      ret (match o with Some v => VSome v | None => VNone end)
  | SUnit => deserialize_unit
  | SUnitStruct => deserialize_unit_struct
  | SNewtypeStruct _ => deserialize_newtype_struct
  | SSeq l => let! vs := deserialize_seq (visit_elements (map deserialize_shape l)) in ret (VSeq vs)
  | STuple l =>
      let! vs := deserialize_tuple (zlength l) (visit_fields (map deserialize_shape l)) in
      ret (VTuple vs)
  | STupleStruct l =>
      let! vs := deserialize_tuple_struct (zlength l) (visit_fields (map deserialize_shape l)) in
      ret (VTupleStruct vs)
  | SMap => deserialize_map
  | SStruct l =>
      let! vs := deserialize_struct (zlength l) (visit_fields (map deserialize_shape l)) in
      ret (VStruct vs)
  | SEnum l =>
      deserialize_enum
        (let! variant := variant_seed (fun index =>
           find_variant index (map (fun '(i, v) => (i, deserialize_variant i v)) l)) in
         variant)
  | SIdentifier => deserialize_identifier
  | SIgnoredAny => deserialize_ignored_any
  | SAny => deserialize_any
  end
with deserialize_variant (index : Z) (v : Variant) : De Value :=
  match v with
  | UnitVariant => do! (unit_variant (A := unit)) in ret (VUnitVariant index)
  | NewtypeVariant s =>
      let! v := newtype_variant_seed (deserialize_shape s) in ret (VNewtypeVariant index v)
  | TupleVariant l =>
      let! vs := tuple_variant (zlength l) (visit_fields (map deserialize_shape l)) in
      ret (VTupleVariant index vs)
  | StructVariant l =>
      let! vs := struct_variant (zlength l) (visit_fields (map deserialize_shape l)) in
      ret (VStructVariant index vs)
  end.

(** ** Safety *)

Definition variant_all (P : Shape -> Prop) (v : Variant) : Prop :=
  match v with
  | UnitVariant => True
  | NewtypeVariant s => P s
  | TupleVariant l | StructVariant l => Forall P l
  end.

(** Induction that goes into the lists and variants. *)
Lemma Shape_nested_ind (P : Shape -> Prop) :
  (forall s, P s -> P (SOption s)) ->
  (forall l, Forall P l -> P (SSeq l) /\ P (STuple l) /\ P (STupleStruct l) /\ P (SStruct l)) ->
  (forall l, Forall (fun x => variant_all P (snd x)) l -> P (SEnum l)) ->
  (forall s, match s with
             | SOption _ | SSeq _ | STuple _ | STupleStruct _ | SStruct _ | SEnum _ => True
             | _ => P s
             end) ->
  forall s, P s.
Proof.
  intros Hopt Hlist Henum Hleaf. fix IH 1. intros s. pose proof (Hleaf s) as Hs.
  destruct s as [| | | | | | | | | | | | | | | | |s| | | |l|l|l| |l|l| | |]; try exact Hs;
    [apply Hopt, IH|apply Hlist|apply Hlist|apply Hlist|apply Hlist|apply Henum];
    (induction l as [|x l IHl]; constructor; [|exact IHl]); try exact (IH x).
  destruct x as [i [|s|l'|l']]; simpl; [done|apply IH| |];
    (induction l' as [|y l' IHl']; constructor; [apply IH|exact IHl']).
Qed.

Lemma de_safe_array_map n f : 0 <= n -> de_safe (let! a := try_take_array n in ret (f a : Z)).
Proof. intros Hn. apply de_safe_bind; [by apply de_safe_take_array|]. intros. apply de_safe_ret. Qed.

Lemma ea_safe_fields l : Forall de_safe l -> ea_safe (visit_fields l).
Proof.
  induction 1 as [|p l Hp _ IH]; simpl; [apply ea_safe_ret|].
  apply ea_safe_bind; [by apply ea_safe_required|]. intros v.
  apply ea_safe_bind; [done|]. intros vs. apply ea_safe_ret.
Qed.

Lemma sa_safe_elements l : Forall de_safe l -> sa_safe (visit_elements l).
Proof.
  induction 1 as [|p l Hp _ IH]; simpl; [apply sa_safe_ret|].
  apply sa_safe_bind; [by apply sa_safe_next|]. intros [v|]; [|apply sa_safe_ret].
  apply sa_safe_bind; [done|]. intros vs. apply sa_safe_ret.
Qed.

Lemma find_variant_in {A} index (l : list (Z * A)) a :
  find_variant index l = Ok a -> exists i, (i, a) ∈ l.
Proof.
  induction l as [|[i b] l IH]; simpl; [done|]. destruct (i =? index).
  - intros [= ->]. exists i. left.
  - intros H. destruct (IH H) as [j Hj]. exists j. by right.
Qed.

Lemma de_safe_variant i v : variant_all (fun s => de_safe (deserialize_shape s)) v ->
  de_safe (deserialize_variant i v).
Proof.
  destruct v as [|s|l|l]; simpl; intros Hv; (apply de_safe_bind; [|intros; apply de_safe_ret]).
  - apply de_safe_raise.
  - exact Hv.
  - apply de_safe_tuple, ea_safe_fields, Forall_map, Hv.
  - apply de_safe_tuple, ea_safe_fields, Forall_map, Hv.
Qed.

Lemma de_safe_enum l :
  Forall (fun x => variant_all (fun s => de_safe (deserialize_shape s)) (snd x)) l ->
  de_safe (deserialize_shape (SEnum l)).
Proof.
  intros Hl. simpl. unfold deserialize_enum, variant_seed. intros d Hd. unfold bind at 1 2.
  pose proof (de_safe_varint_loop MQTT_VARINT_MAX_BYTES 0 d Hd) as Hr.
  change (read_varint_loop _ _ _ _ d) with (read_varint d) in Hr.
  destruct (read_varint d) as [d1 [index|e]]; simpl in *; [|done]. unfold lift.
  destruct (find_variant _ _) as [m|e] eqn:Hf; [|done].
  apply find_variant_in in Hf as [i Hin].
  apply list_elem_of_fmap in Hin as ([j v] & [= -> ->] & Hin).
  apply de_step_trans with d1; [done|]. rewrite Forall_forall in Hl.
  apply de_safe_variant; [exact (Hl _ Hin)|apply Hr].
Qed.

(** C36: Whatever a [Deserialize] implementation asks for, in any nesting of the data types
    of serde and on any input, the deserializer reads only inside its buffer, never moves
    back and never changes it; so no slice expression of it can panic. *)
Theorem deserializer_stays_inside shape d :
  de_good d ->
  let d' := fst (deserialize_shape shape d) in
  de_buf d' = de_buf d /\ de_index d <= de_index d' <= zlen (de_buf d).
Proof.
  revert d. assert (de_safe (deserialize_shape shape)) as Hs.
  { revert shape. apply Shape_nested_ind.
    - intros s IH. apply de_safe_bind; [by apply de_safe_option|]. intros. apply de_safe_ret.
    - intros l IH. apply (Forall_map deserialize_shape) in IH. split_and!;
        (apply de_safe_bind; [|intros; apply de_safe_ret]);
        first [by apply de_safe_tuple, ea_safe_fields|by apply de_safe_seq, sa_safe_elements].
    - apply de_safe_enum.
    - intros []; try done; simpl; try apply de_safe_raise;
        (apply de_safe_bind; [|intros; apply de_safe_ret]); auto with de;
        first [by apply de_safe_array_map|idtac].
      apply de_safe_bind; [apply de_safe_pop|]. intros. apply de_safe_ret. }
  intros d Hd. destruct (Hs d Hd) as (Hg & Hb & Hi). cbv zeta. rewrite <- Hb at 2.
  split_and!; [done|done|apply Hg].
Qed.

Lemma deserializer_stays_inside_witness :
  let shape := SStruct [SU16; SOption (SEnum [(38, TupleVariant [SStr; SStr])])] in
  let d := MqttDeserializer_new [0; 7; 38; 0; 9; 97] in
  let d' := fst (deserialize_shape shape d) in
  de_buf d' = de_buf d /\ de_index d <= de_index d' <= zlen (de_buf d).
Proof.
  intros shape d. apply (deserializer_stays_inside shape d).
  split_and!; [by vm_compute|by vm_compute| |done]. repeat constructor; by vm_compute.
Defined.

(** ** Round trip *)

Definition is_signed (w v : Z) : Prop := - 2 ^ (w - 1) <= v < 2 ^ (w - 1).

Lemma to_signed_mod w v : 0 < w -> is_signed w v -> to_signed w (v mod 2 ^ w) = v.
Proof.
  intros Hw [Hl Hh]. unfold to_signed.
  assert (2 ^ w = 2 * 2 ^ (w - 1)) as Hp by (rewrite <- Z.pow_succ_r by lia; f_equal; lia).
  destruct (Z.le_gt_cases 0 v).
  - rewrite Z.mod_small by lia. by rewrite (proj2 (Z.ltb_lt _ _)).
  - rewrite <- (Z.mod_unique v (2 ^ w) (-1) (v + 2 ^ w)) by lia.
    rewrite (proj2 (Z.ltb_ge _ _)) by lia. lia.
Qed.

(** [reads shape v w]: a reader of [shape] reads what [v] writes as [w]. The two sides of
    the interface are not symmetric: a string or a byte field is written with its length
    by the wire helpers ([utf8_value], [binary_value]) and read by one method; a property
    is written as a sequence that starts with its identifier and read as an enum. Integers
    of 64 bits have no rule: they are written and never read ([wide_integers_not_read]). *)
Inductive reads : Shape -> Value -> Value -> Prop :=
| reads_bool b : reads SBool (VBool b) (VBool b)
| reads_i8 v : is_signed 8 v -> reads SI8 (VI8 v) (VI8 v)
| reads_i16 v : is_signed 16 v -> reads SI16 (VI16 v) (VI16 v)
| reads_i32 v : is_signed 32 v -> reads SI32 (VI32 v) (VI32 v)
| reads_u8 v : is_u8 v -> reads SU8 (VU8 v) (VU8 v)
| reads_u16 v : is_u16 v -> reads SU16 (VU16 v) (VU16 v)
| reads_u32 v : is_u32 v -> reads SU32 (VU32 v) (VU32 v)
| reads_str s : str_wf s -> reads SStr (utf8_value s) (VStr s)
| reads_string s : str_wf s -> reads SString (utf8_value s) (VStr s)
| reads_bytes s : zlen s < 2 ^ 16 -> all_u8 s -> reads SBytes (binary_value s) (VBytes s)
| reads_byte_buf s : zlen s < 2 ^ 16 -> all_u8 s -> reads SByteBuf (binary_value s) (VBytes s)
| reads_varint v : 0 <= v <= MQTT_VARINT_MAX -> reads SVarint (varint_calls (mkVarint v)) (VU32 v)
| reads_some s v w : reads s v w -> 0 < zlen (value_bytes v) -> reads (SOption s) (VSome v) (VSome w)
| reads_tuple l vs ws : reads_all l vs ws -> reads (STuple l) (VTuple vs) (VTuple ws)
| reads_struct l vs ws : reads_all l vs ws -> reads (SStruct l) (VStruct vs) (VStruct ws)
| reads_newtype l i s v w :
    0 <= i <= MQTT_VARINT_MAX -> find_variant i l = Ok (NewtypeVariant s) -> reads s v w ->
    reads (SEnum l) (VSeq [varint_calls (mkVarint i); v]) (VNewtypeVariant i w)
| reads_tuple_variant l i ss vs ws :
    0 <= i <= MQTT_VARINT_MAX -> find_variant i l = Ok (TupleVariant ss) -> reads_all ss vs ws ->
    reads (SEnum l) (VSeq (varint_calls (mkVarint i) :: vs)) (VTupleVariant i ws)
with reads_all : list Shape -> list Value -> list Value -> Prop :=
| reads_nil : reads_all [] [] []
| reads_cons s l v vs w ws :
    reads s v w -> reads_all l vs ws -> reads_all (s :: l) (v :: vs) (w :: ws).

Scheme reads_mut := Induction for reads Sort Prop
  with reads_all_mut := Induction for reads_all Sort Prop.

(** What the bytes of a value must be for a reader to return [w]. *)
Definition readable (shape : Shape) (v w : Value) : Prop :=
  supported v = true /\ all_u8 (value_bytes v) /\
  forall rest, decodes (deserialize_shape shape) (value_bytes v) rest w None.

Definition readable_all (l : list Shape) (vs ws : list Value) : Prop :=
  forallb supported vs = true /\ all_u8 (flat_map value_bytes vs) /\
  forall n rest, zlength l <= n ->
    ea_decodes (visit_fields (map deserialize_shape l)) n (flat_map value_bytes vs) rest ws
      (n - zlength l) None.

Lemma value_bytes_u8s l : value_bytes (VSeq (map VU8 l)) = l /\ supported (VSeq (map VU8 l)) = true.
Proof.
  simpl. induction l as [|b l [IHb IHs]]; [done|]. simpl. by rewrite IHb.
Qed.

Lemma utf8_value_bytes s :
  zlen s < 2 ^ 16 -> value_bytes (utf8_value s) = to_be_bytes 2 (zlen s) ++ s /\
  supported (utf8_value s) = true.
Proof.
  intros Hl. unfold utf8_value, u16_try_from. rewrite (proj2 (Z.ltb_lt _ _)) by done.
  cbn [value_bytes supported flat_map forallb]. by rewrite app_nil_r.
Qed.

Lemma binary_value_bytes s :
  zlen s < 2 ^ 16 -> value_bytes (binary_value s) = to_be_bytes 2 (zlen s) ++ s /\
  supported (binary_value s) = true.
Proof.
  intros Hl. unfold binary_value, u16_try_from. rewrite (proj2 (Z.ltb_lt _ _)) by done.
  destruct (value_bytes_u8s s) as [Hb Hs]. unfold slice_value.
  cbn [value_bytes supported flat_map forallb] in *. by rewrite Hb, Hs, app_nil_r.
Qed.

Lemma varint_calls_bytes v :
  0 <= v <= MQTT_VARINT_MAX -> value_bytes (varint_calls (mkVarint v)) = varint_bytes v /\
  supported (varint_calls (mkVarint v)) = true.
Proof.
  intros Hv. unfold varint_calls. cbn [varint_value]. destruct (write_varint_spec v Hv) as (b & -> & ->).
  apply value_bytes_u8s.
Qed.

(** A value read by one method of the deserializer. *)
Lemma readable_leaf {A} shape (p : De A) (f : A -> Value) a v :
  deserialize_shape shape = (let! x := p in ret (f x)) -> supported v = true ->
  all_u8 (value_bytes v) -> (forall rest, decodes p (value_bytes v) rest a None) ->
  readable shape v (f a).
Proof.
  intros Hs Hsup Hu Hd. unfold readable. rewrite Hs. split_and!; try done.
  intros rest. by apply (decodes_map p f).
Qed.

Lemma field_bytes_u8 s : all_u8 s -> all_u8 (to_be_bytes 2 (zlen s) ++ s).
Proof. intros Hu. apply Forall_app. split; [apply to_be_bytes_u8|done]. Qed.

Lemma readable_str shape s :
  deserialize_shape shape = (let! v := deserialize_str in ret (VStr v)) -> str_wf s ->
  readable shape (utf8_value s) (VStr s).
Proof.
  intros Hs [Hl Hu]. destruct (utf8_value_bytes s Hl) as [Hb Hsup].
  apply (readable_leaf shape deserialize_str VStr); [done|done|rewrite Hb..].
  - by apply field_bytes_u8, from_utf8_u8.
  - intros rest. by apply decodes_str.
Qed.

Lemma readable_bytes shape s :
  deserialize_shape shape = (let! v := deserialize_bytes in ret (VBytes v)) -> zlen s < 2 ^ 16 ->
  all_u8 s -> readable shape (binary_value s) (VBytes s).
Proof.
  intros Hs Hl Hu. destruct (binary_value_bytes s Hl) as [Hb Hsup].
  apply (readable_leaf shape deserialize_bytes VBytes); [done|done|rewrite Hb..].
  - by apply field_bytes_u8.
  - intros rest. by apply decodes_bytes.
Qed.

Lemma decodes_i8 v rest : is_signed 8 v -> decodes deserialize_i8 [v mod 2 ^ 8] rest v None.
Proof.
  intros Hv. rewrite <- (to_signed_mod 8 v) at 2 by (done || lia).
  apply (decodes_map pop (to_signed 8)), decodes_u8.
Qed.

Lemma decodes_signed_array n w v rest :
  0 < w -> is_signed w v -> 256 ^ Z.of_nat n = 2 ^ w ->
  decodes (let! a := try_take_array (Z.of_nat n) in ret (to_signed w (from_be_bytes a)))
    (to_be_bytes n (v mod 2 ^ w)) rest v None.
Proof.
  intros Hw Hv Hn. rewrite <- (to_signed_mod w v Hw Hv) at 2.
  rewrite <- (from_to_be_bytes n (v mod 2 ^ w)) at 2
    by (rewrite Hn; apply Z.mod_pos_bound; lia).
  apply (decodes_map (try_take_array (Z.of_nat n)) (fun a => to_signed w (from_be_bytes a))).
  apply decodes_array, zlen_to_be_bytes.
Qed.

Lemma readable_enum l i v vs w (m : De Value) :
  0 <= i <= MQTT_VARINT_MAX -> find_variant i l = Ok v -> deserialize_variant i v = m ->
  forallb supported vs = true -> all_u8 (flat_map value_bytes vs) ->
  (forall rest, decodes m (flat_map value_bytes vs) rest w None) ->
  readable (SEnum l) (VSeq (varint_calls (mkVarint i) :: vs)) w.
Proof.
  intros Hi Hf Hm Hs Hu Hd. destruct (varint_calls_bytes i Hi) as [Hb Hsup].
  unfold readable. cbn [value_bytes flat_map supported forallb]. rewrite Hsup, Hs, Hb. split_and!.
  - done.
  - apply Forall_app. split; [by apply varint_bytes_u8|done].
  - intros rest. simpl deserialize_shape. unfold deserialize_enum.
    apply decodes_bind with m; [|exact (Hd rest)]. unfold variant_seed.
    rewrite <- (app_nil_r (varint_bytes i)). apply decodes_bind with i; [by apply decodes_read_varint|].
    assert (find_variant i (map (fun '(j, v) => (j, deserialize_variant j v)) l) = Ok m) as ->.
    { clear Hd. induction l as [|[j u] l IH]; simpl in *; [done|].
      destruct (Z.eqb_spec j i) as [->|]; [|by apply IH]. injection Hf as ->. by rewrite Hm. }
    apply decodes_ret.
Qed.

Lemma readable_tuple_of l vs ws (f : list Value -> Value) rest :
  readable_all l vs ws ->
  decodes (let! x := deserialize_tuple (zlength l) (visit_fields (map deserialize_shape l)) in
           ret (f x)) (flat_map value_bytes vs) rest (f ws) None.
Proof.
  intros (_ & _ & Hd). apply (decodes_map _ f). by apply (decodes_tuple _ _ (zlength l - zlength l)), Hd.
Qed.

Lemma readable_cons s l v vs w ws :
  readable s v w -> readable_all l vs ws -> readable_all (s :: l) (v :: vs) (w :: ws).
Proof.
  intros (Hs & Hu & Hd) (Hss & Hus & Hds). split_and!.
  - cbn [forallb]. by rewrite Hs, Hss.
  - by apply Forall_app.
  - intros n rest Hn. unfold zlength in *. cbn [length map visit_fields flat_map] in *.
    eapply ea_decodes_bind; [apply ea_decodes_required; [lia|apply Hd]|].
    replace (n - Z.of_nat (S (length l))) with (n - 1 - Z.of_nat (length l)) by lia.
    apply (ea_decodes_last _ (fun vs => w :: vs)). apply Hds. lia.
Qed.

Lemma reads_readable shape v w : reads shape v w -> readable shape v w.
Proof.
  revert shape v w. apply (reads_mut (fun s v w _ => readable s v w)
                             (fun l vs ws _ => readable_all l vs ws)).
  - intros b. apply (readable_leaf _ deserialize_bool); [done|done| |intros; apply decodes_bool].
    by destruct b; apply Forall_singleton.
  - intros v Hv. apply (readable_leaf _ deserialize_i8); [done|done| |intros; by apply decodes_i8].
    apply Forall_singleton, Z.mod_pos_bound. lia.
  - intros v Hv. apply (readable_leaf _ deserialize_i16); [done|done|apply to_be_bytes_u8|].
    intros rest. by apply (decodes_signed_array 2 16).
  - intros v Hv. apply (readable_leaf _ deserialize_i32); [done|done|apply to_be_bytes_u8|].
    intros rest. by apply (decodes_signed_array 4 32).
  - intros v Hv. apply (readable_leaf _ deserialize_u8); [done|done|by apply Forall_singleton|].
    intros rest. apply decodes_u8.
  - intros v Hv. apply (readable_leaf _ deserialize_u16); [done|done|apply to_be_bytes_u8|].
    intros rest. by apply decodes_u16.
  - intros v Hv. apply (readable_leaf _ deserialize_u32); [done|done|apply to_be_bytes_u8|].
    intros rest. by apply decodes_u32.
  - intros s Hs. by apply readable_str.
  - intros s Hs. by apply readable_str.
  - intros s Hl Hu. by apply readable_bytes.
  - intros s Hl Hu. by apply readable_bytes.
  - intros v Hv. destruct (varint_calls_bytes v Hv) as [Hb Hsup].
    apply (readable_leaf _ deserialize_varint (fun x => VU32 (varint_value x)) (mkVarint v));
      [done|done|rewrite Hb; by apply varint_bytes_u8|]. intros rest. rewrite Hb. by apply decodes_varint.
  - intros s v w _ (Hs & Hu & Hd) Hpos. split_and!; [done|done|]. intros rest. simpl.
    apply (decodes_map _ (fun o => match o with Some v => VSome v | None => VNone end) _ _ (Some w)).
    apply decodes_option_some; [apply Hd|]. rewrite zlen_app. zlia.
  - intros l vs ws _ Hall. pose proof Hall as (Hs & Hu & _). split_and!; [done|done|].
    intros rest. by apply (readable_tuple_of l vs ws VTuple).
  - intros l vs ws _ Hall. pose proof Hall as (Hs & Hu & _). split_and!; [done|done|].
    intros rest. by apply (readable_tuple_of l vs ws VStruct).
  - intros l i s v w Hi Hf _ (Hs & Hu & Hd). eapply readable_enum; [done|done|reflexivity| | |];
      cbn [forallb flat_map]; rewrite ?Hs, ?app_nil_r; [done|done|].
    intros rest. by apply (decodes_map _ (VNewtypeVariant i)).
  - intros l i ss vs ws Hi Hf _ Hall. pose proof Hall as (Hs & Hu & _).
    eapply readable_enum; [done|done|reflexivity|done|done|].
    intros rest. by apply (readable_tuple_of ss vs ws (VTupleVariant i)).
  - split_and!; [done|constructor|]. intros n rest _. rewrite Z.sub_0_r. apply ea_decodes_ret.
  - intros s l v vs w ws _ Hs _ Hl. by apply readable_cons.
Qed.

(** C35: What the serializer writes the deserializer reads back. For every shape built from
    booleans, signed and unsigned integers of 8, 16 and 32 bits, variable-length integers
    within their range, strings and byte fields of less than 2^16 bytes, options that are
    present and not empty, tuples, structs and enums with newtype or tuple variants, a
    value that fits the buffer is written, and a reader of that shape takes from exactly
    those bytes the value it stands for, and stops at their end, whatever follows them.
    (64-bit integers are not among these shapes: they are written, and the deserializer
    refuses to read them.) *)
Theorem serde_roundtrip shape v w buf rest :
  reads shape v w -> all_u8 rest ->
  MAX_FIXED_HEADER_SIZE + zlen (value_bytes v) <= zlen buf ->
  exists s', serialize_value v (MqttSerializer_new buf) = (s', Ok tt) /\
    let written := zslice MAX_FIXED_HEADER_SIZE (ser_index s') (ser_buf s') in
    deserialize_shape shape (MqttDeserializer_new (written ++ rest)) =
      (mkDe (written ++ rest) (zlen written) None, Ok w).
Proof.
  intros Hr Hrest Hfit. destruct (reads_readable _ _ _ Hr) as (Hs & Hu & Hd).
  pose proof (serialize_value_implements v (MqttSerializer_new buf) ltac:(done)) as Hi.
  unfold enc_value in Hi. rewrite Hs in Hi. unfold ser_room, usize_saturating_sub in Hi.
  cbn [MqttSerializer_new ser_buf ser_index] in Hi. unfold MAX_FIXED_HEADER_SIZE in *.
  rewrite (proj2 (Z.leb_le _ _)) in Hi by lia. eexists. split; [exact Hi|]. cbv zeta.
  cbn [ser_put ser_buf ser_index MqttSerializer_new]. pose proof (zlen_nonneg (value_bytes v)).
  rewrite zslice_zwrite by (unfold MAX_FIXED_HEADER_SIZE; lia).
  apply (Hd rest (MqttDeserializer_new (value_bytes v ++ rest))); [|done|done].
  split_and!; [done|simpl; zlia| |done]. by apply Forall_app.
Qed.

(** Integers of 64 bits go one way: the serializer writes their eight bytes, and the
    deserializer refuses them whatever the input is, without consuming any of it. *)
Theorem wide_integers_not_read shape v buf :
  (shape = SI64 /\ exists z, v = VI64 z) \/ (shape = SU64 /\ exists z, v = VU64 z) ->
  MAX_FIXED_HEADER_SIZE + 8 <= zlen buf ->
  (exists s', serialize_value v (MqttSerializer_new buf) = (s', Ok tt) /\
     ser_index s' = MAX_FIXED_HEADER_SIZE + 8) /\
  forall d, deserialize_shape shape d = (d, Err DeError.Custom).
Proof.
  intros Hv Hfit.
  assert (supported v = true /\ zlen (value_bytes v) = 8) as [Hs Hl]
    by (by destruct Hv as [[_ [z ->]]|[_ [z ->]]]).
  split; [|by destruct Hv as [[-> _]|[-> _]]].
  pose proof (serialize_value_implements v (MqttSerializer_new buf) ltac:(done)) as Hi.
  unfold enc_value in Hi. rewrite Hs in Hi. unfold ser_room, usize_saturating_sub in Hi.
  cbn [MqttSerializer_new ser_buf ser_index] in Hi. unfold MAX_FIXED_HEADER_SIZE in *.
  rewrite (proj2 (Z.leb_le _ _)) in Hi by lia. eexists. split; [exact Hi|].
  cbn [ser_put ser_index]. by rewrite Hl.
Qed.

Lemma serde_roundtrip_witness :
  exists s', serialize_value (VStruct [VU16 513; VI8 (-2); utf8_value [97]])
      (MqttSerializer_new (repeat 0 16)) = (s', Ok tt) /\
    let written := zslice MAX_FIXED_HEADER_SIZE (ser_index s') (ser_buf s') in
    deserialize_shape (SStruct [SU16; SI8; SStr]) (MqttDeserializer_new (written ++ [9])) =
      (mkDe (written ++ [9]) (zlen written) None, Ok (VStruct [VU16 513; VI8 (-2); VStr [97]])).
Proof.
  apply (serde_roundtrip (SStruct [SU16; SI8; SStr]) _ (VStruct [VU16 513; VI8 (-2); VStr [97]])).
  - constructor. constructor; [constructor; by vm_compute|].
    constructor; [constructor; by vm_compute|]. constructor; [constructor; by vm_compute|constructor].
  - repeat constructor; by vm_compute.
  - by vm_compute.
Defined.
