(* ===== verification/Received.v ===== *)
(** Decoding of received packets: [src/minimq/src/de/received_packet.rs], and
    the decoders serde derives for the packets of [src/minimq/src/packets.rs].

    A derived [Deserialize] reads its fields in order from a tuple access with
    one element per field. [from_buffer] decodes one whole packet, and hands
    what is left to the packets that carry a payload. *)

From S2P Require Import Prelude Varint Types Wire Ser De Properties Packets.

(** * Derived decoders *)

Definition deserialize_connack : De ConnAck :=
  deserialize_tuple 3
    (let! session_present := next_required deserialize_bool in
     let! reason_code := next_required deserialize_reason_code in
     let! properties := next_required deserialize_properties in
     ret (mkConnAck session_present reason_code properties)).

Definition deserialize_reason_data : De ReasonData :=
  deserialize_tuple 2
    (let! code := next_required deserialize_reason_code in
     let! properties := next_required (deserialize_option deserialize_properties) in
     ret (mkReasonData code properties)).

Definition deserialize_reason : De Reason :=
  deserialize_tuple 1
    (let! reason := next_required (deserialize_option deserialize_reason_data) in
     ret (mkReason reason)).

(** The fields [packet_id] and [reason] of the four acknowledgements. *)
Definition deserialize_ack {A} (make : Z -> Reason -> A) : De A :=
  deserialize_tuple 2
    (let! packet_id := next_required deserialize_u16 in
     let! reason := next_required deserialize_reason in
     ret (make packet_id reason)).

(** [codes] is skipped by serde and starts empty. *)
Definition deserialize_list_ack {A} (make : Z -> Properties -> bytes -> A) : De A :=
  deserialize_tuple 2
    (let! packet_id := next_required deserialize_u16 in
     let! properties := next_required deserialize_properties in
     ret (make packet_id properties [])).

(** The fields of [Wire] are [#[serde(default)]]. *)
Definition deserialize_disconnect : De Disconnect :=
  deserialize_tuple 2
    (let! reason_code := next_element (deserialize_option deserialize_reason_code) in
     let! properties := next_element (deserialize_option deserialize_properties) in
     ret (mkDisconnect (default None reason_code) (default None properties))).

(** * Received packets *)

Module ReceivedPacket.
Inductive ReceivedPacket : Type :=
| ConnAck (p : Packets.ConnAck)
| Publish (p : Packets.Publish)
| PubAck (p : Packets.PubAck)
| SubAck (p : Packets.SubAck)
| UnsubAck (p : Packets.UnsubAck)
| PubRel (p : Packets.PubRel)
| PubRec (p : Packets.PubRec)
| PubComp (p : Packets.PubComp)
| Disconnect (p : Packets.Disconnect)
| PingResp.
End ReceivedPacket.
Abbreviation ReceivedPacket := ReceivedPacket.ReceivedPacket.

(** The [PUBLISH] branch of the visitor. *)
Definition visit_publish (fixed_header : FixedHeader) : EA ReceivedPacket :=
  match publish_qos fixed_header with
  | None => raise DeError.Custom
  | Some qos =>
      let! topic := next_required deserialize_str in
      let! packet_id :=
        if qos_gt qos QoS.AtMostOnce
        then let! id := next_required deserialize_u16 in ret (Some id)
        else ret None in
      let! properties := next_required deserialize_properties in
      ret (ReceivedPacket.Publish
             (mkPublish topic packet_id properties [] (publish_retain fixed_header) qos
                (publish_duplicate fixed_header)))
  end.

(** The match on the packet type of the visitor. *)
Definition visit_packet (fixed_header : FixedHeader) (packet_type : MessageType)
  : EA ReceivedPacket :=
  match packet_type with
  | MessageType.ConnAck =>
      let! p := next_required deserialize_connack in ret (ReceivedPacket.ConnAck p)
  | MessageType.Publish => visit_publish fixed_header
  | MessageType.PubAck =>
      let! p := next_required (deserialize_ack mkPubAck) in ret (ReceivedPacket.PubAck p)
  | MessageType.SubAck =>
      let! p := next_required (deserialize_list_ack mkSubAck) in ret (ReceivedPacket.SubAck p)
  | MessageType.UnsubAck =>
      let! p := next_required (deserialize_list_ack mkUnsubAck) in ret (ReceivedPacket.UnsubAck p)
  | MessageType.PingResp => ret ReceivedPacket.PingResp
  | MessageType.PubRec =>
      let! p := next_required (deserialize_ack mkPubRec) in ret (ReceivedPacket.PubRec p)
  | MessageType.PubRel =>
      let! p := next_required (deserialize_ack mkPubRel) in ret (ReceivedPacket.PubRel p)
  | MessageType.PubComp =>
      let! p := next_required (deserialize_ack mkPubComp) in ret (ReceivedPacket.PubComp p)
  | MessageType.Disconnect =>
      let! p := next_required deserialize_disconnect in ret (ReceivedPacket.Disconnect p)
  | _ => raise DeError.Custom
  end.

(** [ControlPacketVisitor::visit_seq]. *)
Definition visit_seq : EA ReceivedPacket :=
  let! byte := next_required deserialize_u8 in
  let fixed_header := mkFixedHeader byte in
  let! _length := next_required deserialize_varint in
  match message_type fixed_header with
  | None => raise DeError.Custom
  | Some packet_type =>
      if negb (flags_valid fixed_header) then raise DeError.Custom
      else visit_packet fixed_header packet_type
  end.

Definition deserialize_received_packet : De ReceivedPacket := deserialize_tuple 5 visit_seq.

Definition with_payload (p : Publish) (payload : bytes) : Publish :=
  mkPublish (publish_topic p) (publish_packet_id p) (publish_properties p) payload
    (publish_retain_flag p) (publish_qos_level p) (publish_dup p).

Definition from_buffer (buf : bytes) : result ProtocolError ReceivedPacket :=
  match deserialize_received_packet (MqttDeserializer_new buf) with
  | (_, Err e) => Err (ProtocolError.Deserialization e)
  | (deserializer, Ok packet) =>
      match de_remainder deserializer with
      | [] => Ok packet
      | remaining_payload =>
          match packet with
          | ReceivedPacket.Publish publish =>
              Ok (ReceivedPacket.Publish (with_payload publish remaining_payload))
          | ReceivedPacket.SubAck suback =>
              Ok (ReceivedPacket.SubAck
                    (mkSubAck (suback_packet_id suback) (suback_properties suback)
                       remaining_payload))
          | ReceivedPacket.UnsubAck unsuback =>
              Ok (ReceivedPacket.UnsubAck
                    (mkUnsubAck (unsuback_packet_id unsuback) (unsuback_properties unsuback)
                       remaining_payload))
          | _ => Err ProtocolError.MalformedPacket
          end
      end
  end.

(** * Memory safety *)

Lemma de_safe_reason_data : de_safe deserialize_reason_data.
Proof. apply de_safe_tuple. auto 10 with de. Qed.

#[local] Hint Resolve de_safe_reason_data : de.

Lemma de_safe_reason : de_safe deserialize_reason.
Proof. apply de_safe_tuple. auto 10 with de. Qed.

#[local] Hint Resolve de_safe_reason : de.

Lemma ea_safe_if {A} (b : bool) (m1 m2 : EA A) :
  ea_safe m1 -> ea_safe m2 -> ea_safe (if b then m1 else m2).
Proof. by destruct b. Qed.

#[local] Hint Resolve ea_safe_if : de.

Lemma ea_safe_visit_packet h t : ea_safe (visit_packet h t).
Proof.
  destruct t; simpl; auto 10 with de;
    try (apply ea_safe_bind; [apply ea_safe_required, de_safe_tuple; auto 10 with de|auto with de]).
  unfold visit_publish. destruct (publish_qos h); auto 10 with de.
Qed.

Lemma de_safe_received_packet : de_safe deserialize_received_packet.
Proof.
  apply de_safe_tuple. apply ea_safe_bind; [auto with de|]. intros b. cbv zeta.
  apply ea_safe_bind; [auto with de|]. intros _.
  destruct (message_type _); [|auto with de]. apply ea_safe_if; auto with de.
  apply ea_safe_visit_packet.
Qed.

(** * Functional behaviour *)

(** A collection that a packet can carry, and what is read back from it. *)
Definition sendable (ps : Properties) : Prop :=
  properties_wf ps /\ properties_size ps <= MQTT_VARINT_MAX.

Definition received_properties (ps : Properties) : Properties := Encoded (properties_block ps).

Definition sendable_bytes (ps : Properties) : bytes :=
  varint_bytes (zlen (properties_block ps)) ++ properties_block ps.

Lemma sendable_spec ps rest :
  sendable ps ->
  enc_properties ps = Ok (sendable_bytes ps) /\ all_u8 (sendable_bytes ps) /\
  0 < zlen (sendable_bytes ps) /\
  decodes deserialize_properties (sendable_bytes ps) rest (received_properties ps)
    (block_override (properties_block ps)).
Proof.
  intros [Hw Hs]. rewrite (properties_block_size _ Hw) in Hs.
  pose proof (zlen_nonneg (properties_block ps)).
  pose proof (varint_bytes_length (zlen (properties_block ps))) as Hl. split_and!.
  - apply enc_properties_ok; [done|]. by rewrite properties_block_size.
  - apply Forall_app. split; [by apply varint_bytes_u8|by apply properties_block_u8].
  - unfold sendable_bytes. rewrite zlen_app. lia.
  - by apply decodes_properties.
Qed.

Definition reason_wf (r : Reason) : Prop :=
  match reason r with
  | Some (mkReasonData _ (Some ps)) => sendable ps
  | _ => True
  end.

Definition received_reason (r : Reason) : Reason :=
  match reason r with
  | Some (mkReasonData code properties) =>
      mkReason (Some (mkReasonData code (option_map received_properties properties)))
  | None => mkReason None
  end.

Lemma reason_wf_ok r : reason_wf r -> reason_ok r.
Proof.
  unfold reason_wf, reason_ok. destruct (reason r) as [[c [ps|]]|]; simpl; try done.
  intros [Hw _]. by apply properties_wf_ok.
Qed.

(** A tuple of one or two elements, the last one possibly leaving an
    override. *)
Lemma ea_decodes_two {A B C} (p : De A) (q : De B) (f : A -> B -> C) n b1 b2 rest a b nb :
  1 < n -> decodes p b1 (b2 ++ rest) a None -> decodes q b2 rest b nb ->
  ea_decodes (let! x := next_required p in let! y := next_required q in ret (f x y))
    n (b1 ++ b2) rest (f a b) (n - 1 - 1) nb.
Proof.
  intros Hn Hp Hq. eapply ea_decodes_bind; [apply ea_decodes_required; [lia|done]|].
  apply ea_decodes_last, ea_decodes_required; [lia|done].
Qed.

Lemma decodes_reason_data c props :
  match props with Some ps => sendable ps | None => True end ->
  exists bs nb, enc_reason_data (mkReasonData c props) = Ok bs /\ all_u8 bs /\ 0 < zlen bs /\
    decodes deserialize_reason_data bs []
      (mkReasonData c (option_map received_properties props)) nb.
Proof.
  intros Hp. assert (exists bs nb, enc_option enc_properties props = Ok bs /\ all_u8 bs /\
    decodes (deserialize_option deserialize_properties) bs []
      (option_map received_properties props) nb) as (bs & nb & He & Hu & Hd).
  { destruct props as [ps|]; simpl.
    - destruct (sendable_spec ps [] Hp) as (He & Hu & Hl & Hd). eexists _, _.
      split_and!; [done|done|]. apply decodes_option_some; [done|]. by rewrite app_nil_r.
    - eexists _, _. split_and!; [done|constructor|]. apply decodes_option_none. }
  exists ([reason_code_u8 c] ++ bs), nb. unfold enc_reason_data. simpl in *. rewrite He.
  split_and!; [done| |zlia|].
  - constructor; [apply reason_code_is_u8|done].
  - apply (decodes_tuple _ _ (2 - 1 - 1) ([reason_code_u8 c] ++ bs)).
    apply ea_decodes_two; [lia|by apply decodes_reason_code|done].
Qed.

Lemma decodes_reason r :
  reason_wf r ->
  exists bs nb, enc_option enc_reason_data (reason r) = Ok bs /\ all_u8 bs /\
    decodes deserialize_reason bs [] (received_reason r) nb.
Proof.
  intros Hr. unfold reason_wf, received_reason in *. destruct r as [[[c props]|]]; simpl in *.
  - destruct (decodes_reason_data c props) as (bs & nb & He & Hu & Hl & Hd); [by destruct props|].
    exists bs, nb. split_and!; [done|done|]. apply decodes_tuple with (1 - 1).
    apply (ea_decodes_last _ mkReason). apply ea_decodes_required; [lia|].
    apply decodes_option_some; [done|]. by rewrite app_nil_r.
  - exists [], None. split_and!; [done|constructor|]. apply decodes_tuple with (1 - 1).
    apply (ea_decodes_last _ mkReason). apply ea_decodes_required; [lia|].
    apply decodes_option_none.
Qed.

Lemma decodes_ack {A} (make : Z -> Reason -> A) id r :
  is_u16 id -> reason_wf r ->
  exists bs nb, enc_ack id r = Ok bs /\ all_u8 bs /\
    decodes (deserialize_ack make) bs [] (make id (received_reason r)) nb.
Proof.
  intros Hid Hr. destruct (decodes_reason r Hr) as (bs & nb & He & Hu & Hd).
  exists (to_be_bytes 2 id ++ bs), nb. unfold enc_ack, enc_u16. rewrite He.
  split_and!; [done|apply Forall_app; split; [apply to_be_bytes_u8|done]|].
  apply decodes_tuple with (2 - 1 - 1). apply ea_decodes_two; [lia|by apply decodes_u16|done].
Qed.

(** A whole packet: header byte, remaining length, and a body the branch for
    its type decodes. *)
Lemma decodes_packet h t n body rest packet n' nb :
  message_type h = Some t -> flags_valid h = true -> 0 <= n <= MQTT_VARINT_MAX ->
  ea_decodes (visit_packet h t) 3 body rest packet n' nb ->
  decodes deserialize_received_packet ([fh_byte h] ++ varint_bytes n ++ body) rest packet nb.
Proof.
  intros Ht Hf Hn Hb. apply (decodes_tuple _ _ n').
  eapply ea_decodes_bind; [apply ea_decodes_required; [lia|apply decodes_u8]|].
  replace (mkFixedHeader (fh_byte h)) with h by (by destruct h). cbv zeta.
  eapply ea_decodes_bind; [apply ea_decodes_required; [lia|by apply decodes_varint]|].
  by rewrite Ht, Hf.
Qed.

Lemma de_good_new buf : all_u8 buf -> de_good (MqttDeserializer_new buf).
Proof. intros Hu. unfold de_good. simpl. split_and!; try done. zlia. Qed.

(** The packet with the rest of its buffer attached, as [from_buffer] does. *)
Definition attach (packet : ReceivedPacket) (rest : bytes) : result ProtocolError ReceivedPacket :=
  match rest with
  | [] => Ok packet
  | _ =>
      match packet with
      | ReceivedPacket.Publish p => Ok (ReceivedPacket.Publish (with_payload p rest))
      | ReceivedPacket.SubAck p =>
          Ok (ReceivedPacket.SubAck (mkSubAck (suback_packet_id p) (suback_properties p) rest))
      | ReceivedPacket.UnsubAck p =>
          Ok (ReceivedPacket.UnsubAck
                (mkUnsubAck (unsuback_packet_id p) (unsuback_properties p) rest))
      | _ => Err ProtocolError.MalformedPacket
      end
  end.

Lemma from_buffer_attach buf :
  from_buffer buf =
  match deserialize_received_packet (MqttDeserializer_new buf) with
  | (_, Err e) => Err (ProtocolError.Deserialization e)
  | (d, Ok packet) => attach packet (de_remainder d)
  end.
Proof. unfold from_buffer, attach. repeat case_match; congruence. Qed.

Lemma from_buffer_decodes h t n body rest packet n' nb :
  message_type h = Some t -> flags_valid h = true -> is_u8 (fh_byte h) ->
  0 <= n <= MQTT_VARINT_MAX -> all_u8 body -> all_u8 rest ->
  ea_decodes (visit_packet h t) 3 body rest packet n' nb ->
  from_buffer (fh_byte h :: varint_bytes n ++ body ++ rest) = attach packet rest.
Proof.
  intros Ht Hf Hh Hn Hb Hr Hd. rewrite from_buffer_attach.
  assert (all_u8 (fh_byte h :: varint_bytes n ++ body ++ rest)) as Hu.
  { constructor; [done|]. repeat (apply Forall_app; split); try done. by apply varint_bytes_u8. }
  pose proof (decodes_packet h t n body rest packet n' nb Ht Hf Hn Hd _ (de_good_new _ Hu)) as Hp.
  rewrite Hp; [|unfold de_remainder; simpl; rewrite zdrop_0; by rewrite <- app_assoc|done].
  f_equal. unfold de_remainder. cbn [de_buf de_index MqttDeserializer_new].
  replace (fh_byte h :: varint_bytes n ++ body ++ rest)
    with (([fh_byte h] ++ varint_bytes n ++ body) ++ rest) by (simpl; by rewrite <- app_assoc).
  by apply zdrop_app_exact.
Qed.

(** Acknowledgements: the shared part of their round trips. *)
Lemma ack_roundtrip_of {T} `{PacketSpec T} (make : Z -> Reason -> T) (wrap : T -> ReceivedPacket)
    id r buf body :
  let h := FixedHeader_new (MESSAGE_TYPE T) (required_flags (MESSAGE_TYPE T)) in
  (forall rest, attach (wrap (make id (received_reason r))) rest =
     match rest with [] => Ok (wrap (make id (received_reason r)))
     | _ => Err ProtocolError.MalformedPacket end) ->
  visit_packet h (MESSAGE_TYPE T) =
    (let! p := next_required (deserialize_ack make) in ret (wrap p)) ->
  packet_ok (make id r) -> packet_enc (make id r) = enc_ack id r ->
  is_u16 id -> reason_wf r -> enc_ack id r = Ok body -> zlen body <= MQTT_VARINT_MAX ->
  MAX_FIXED_HEADER_SIZE + zlen body <= zlen buf ->
  exists buf' wire, encode buf (make id r) = (buf', Ok wire) /\
    from_buffer wire = Ok (wrap (make id (received_reason r))).
Proof.
  intros h Ha Hv Hok Hpe Hid Hr He Hm Hfit.
  destruct (encode_spec (make id r) buf body Hok) as (buf' & Hb); [congruence|done|done|].
  exists buf'. eexists. split; [exact Hb|].
  destruct (decodes_ack make id r Hid Hr) as (bs & nb & He' & Hu & Hd).
  rewrite He in He'. injection He' as <-. destruct (fixed_header_type (MESSAGE_TYPE T)) as [Ht Hf].
  unfold packet_bytes, fixed_header. fold h. rewrite <- (app_nil_r body) at 2.
  rewrite (from_buffer_decodes h (MESSAGE_TYPE T) (zlen body) body [] (wrap (make id (received_reason r)))
             (3 - 1) nb); [by rewrite Ha|done|done|apply fixed_header_u8|zlia|done|constructor|].
  rewrite Hv. apply (ea_decodes_last _ wrap). apply ea_decodes_required; [lia|done].
Qed.

(** The identifier of a publish is there exactly for QoS 1 and 2. *)
Definition publish_id_wf (hdr : PublishHeader) : Prop :=
  match ph_packet_id hdr with
  | Some id => is_u16 id /\ ph_qos hdr <> QoS.AtMostOnce
  | None => ph_qos hdr = QoS.AtMostOnce
  end.

Lemma ea_decodes_publish_id hdr n rest :
  publish_id_wf hdr -> 1 < n ->
  exists idb n', enc_option enc_u16 (ph_packet_id hdr) = Ok idb /\ all_u8 idb /\ 0 < n' /\
    ea_decodes (if qos_gt (ph_qos hdr) QoS.AtMostOnce
                then let! id := next_required deserialize_u16 in ret (Some id)
                else ret None) n idb rest (ph_packet_id hdr) n' None.
Proof.
  unfold publish_id_wf. intros Hid Hn. destruct (ph_packet_id hdr) as [id|].
  - destruct Hid as [Hid Hq]. eexists _, (n - 1).
    split_and!; [done|apply to_be_bytes_u8|lia|].
    replace (qos_gt (ph_qos hdr) QoS.AtMostOnce) with true by (by destruct (ph_qos hdr)).
    apply (ea_decodes_last _ Some). apply ea_decodes_required; [lia|by apply decodes_u16].
  - rewrite Hid. exists [], n. split_and!; [done|constructor|lia|apply ea_decodes_ret].
Qed.

Lemma ea_decodes_publish hdr rest :
  let h := publish_header_fixed_header hdr in
  str_wf (ph_topic hdr) -> sendable (ph_properties hdr) -> publish_id_wf hdr ->
  exists hb n' nb, enc_publish_header hdr = Ok hb /\ all_u8 hb /\ 0 < zlen hb /\
    ea_decodes (visit_packet h MessageType.Publish) 3 hb rest
      (ReceivedPacket.Publish
         (mkPublish (ph_topic hdr) (ph_packet_id hdr) (received_properties (ph_properties hdr)) []
            (ph_retain hdr) (ph_qos hdr) (ph_dup hdr))) n' nb.
Proof.
  intros h [Ht1 Ht2] Hps Hid.
  destruct (publish_header_fields (ph_qos hdr) (ph_retain hdr) (ph_dup hdr))
    as (_ & _ & Hq & Hr & Hdup).
  change (publish_fixed_header _ _ _) with h in Hq, Hr, Hdup.
  destruct (sendable_spec _ rest Hps) as (Hep & Hup & Hlp & Hdp).
  destruct (ea_decodes_publish_id hdr (3 - 1) (sendable_bytes (ph_properties hdr) ++ rest) Hid)
    as (idb & n' & Hei & Hui & Hn' & Hdi); [lia|].
  unfold enc_publish_header. rewrite enc_field_ok, Hei, Hep by done.
  eexists _, (n' - 1), _. split_and!; [done| |rewrite !zlen_app; zlia|].
  - apply Forall_app. split; [by apply field_u8, from_utf8_u8|]. by apply Forall_app.
  - cbn [visit_packet]. unfold visit_publish. rewrite Hq.
    eapply ea_decodes_bind; [apply ea_decodes_required; [lia|by apply decodes_str]|].
    eapply ea_decodes_bind; [exact Hdi|]. cbv beta. rewrite Hr, Hdup.
    apply (ea_decodes_last (next_required deserialize_properties)
             (fun properties => ReceivedPacket.Publish
                (mkPublish (ph_topic hdr) (ph_packet_id hdr) properties [] (ph_retain hdr)
                   (ph_qos hdr) (ph_dup hdr)))).
    by apply ea_decodes_required.
Qed.

Lemma encode_publish_bytes buf header hb h data :
  implements header (Ok hb) -> 0 < zlen hb -> zlen hb + zlen data <= MQTT_VARINT_MAX ->
  MAX_FIXED_HEADER_SIZE + zlen hb + zlen data <= zlen buf ->
  exists buf', encode_publish buf header h (bytes_payload data) =
    (buf', Ok (packet_bytes h (hb ++ data))).
Proof.
  intros Hi Hpos Hm Hfit. pose proof (zlen_nonneg data).
  pose proof (encode_publish_spec buf header hb h (bytes_payload data) Hi Hpos ltac:(lia)) as Hs.
  cbv zeta in Hs. assert (zlen (zdrop (MAX_FIXED_HEADER_SIZE + zlen hb) buf) =
    zlen buf - (MAX_FIXED_HEADER_SIZE + zlen hb)) as Hl
    by (apply zlen_zdrop; unfold MAX_FIXED_HEADER_SIZE in *; lia).
  set (rest := zdrop _ buf) in *.
  change (to_payload (bytes_payload data) rest) with (slice_payload data rest) in Hs.
  unfold slice_payload in Hs at 1. rewrite (proj2 (Z.ltb_ge _ _)) in Hs by lia.
  destruct Hs as (buf' & _ & Hs). specialize (Hs Hm).
  rewrite (proj2 (Z.leb_le _ _)) in Hs by lia. destruct Hs as (off & Hs & _).
  exists buf'. unfold encode_publish. rewrite Hs.
  pose proof (ztake_zwrite_through rest 0 data) as Ht. rewrite Z.add_0_l in Ht.
  by rewrite Ht, ztake_0 by lia.
Qed.

(** * Claims *)

(** The acknowledgements of QoS 1 and 2 survive the wire. Encoding a
    PUBACK, PUBREC, PUBREL or PUBCOMP with a 16-bit identifier and a reason
    (absent, a code, or a code with properties) into a buffer with room, and
    decoding the result as a received packet, gives the same packet with the
    same identifier and code, its properties as the encoded block. *)
Theorem ack_roundtrip id r buf body :
  is_u16 id -> reason_wf r -> enc_ack id r = Ok body -> zlen body <= MQTT_VARINT_MAX ->
  MAX_FIXED_HEADER_SIZE + zlen body <= zlen buf ->
  (exists buf' wire, encode buf (mkPubAck id r) = (buf', Ok wire) /\
     from_buffer wire = Ok (ReceivedPacket.PubAck (mkPubAck id (received_reason r)))) /\
  (exists buf' wire, encode buf (mkPubRec id r) = (buf', Ok wire) /\
     from_buffer wire = Ok (ReceivedPacket.PubRec (mkPubRec id (received_reason r)))) /\
  (exists buf' wire, encode buf (mkPubRel id r) = (buf', Ok wire) /\
     from_buffer wire = Ok (ReceivedPacket.PubRel (mkPubRel id (received_reason r)))) /\
  (exists buf' wire, encode buf (mkPubComp id r) = (buf', Ok wire) /\
     from_buffer wire = Ok (ReceivedPacket.PubComp (mkPubComp id (received_reason r)))).
Proof.
  intros Hid Hr He Hm Hfit. pose proof (reason_wf_ok r Hr) as Hok.
  split_and!;
    [ apply (ack_roundtrip_of mkPubAck ReceivedPacket.PubAck id r buf body)
    | apply (ack_roundtrip_of mkPubRec ReceivedPacket.PubRec id r buf body)
    | apply (ack_roundtrip_of mkPubRel ReceivedPacket.PubRel id r buf body)
    | apply (ack_roundtrip_of mkPubComp ReceivedPacket.PubComp id r buf body) ]; done.
Qed.

Lemma ack_roundtrip_witness :
  exists buf' wire,
    encode (repeat 0 16) (mkPubRel 513 (reason_from ReasonCode.PacketIdNotFound)) =
      (buf', Ok wire) /\
    from_buffer wire =
      Ok (ReceivedPacket.PubRel (mkPubRel 513 (reason_from ReasonCode.PacketIdNotFound))).
Proof.
  apply (ack_roundtrip 513 (reason_from ReasonCode.PacketIdNotFound) (repeat 0 16) [2; 1; 146]);
    by vm_compute.
Defined.

(** The packet of a header and a payload decodes to them. *)
Lemma publish_decodes hdr data hb :
  str_wf (ph_topic hdr) -> sendable (ph_properties hdr) -> all_u8 data ->
  publish_id_wf hdr ->
  enc_publish_header hdr = Ok hb -> zlen hb + zlen data <= MQTT_VARINT_MAX ->
  0 < zlen hb /\
  from_buffer (packet_bytes (publish_header_fixed_header hdr) (hb ++ data)) =
    Ok (ReceivedPacket.Publish
      (mkPublish (ph_topic hdr) (ph_packet_id hdr) (received_properties (ph_properties hdr)) data
         (ph_retain hdr) (ph_qos hdr) (ph_dup hdr))) /\
  iter (received_properties (ph_properties hdr)) = iter (ph_properties hdr).
Proof.
  intros Ht Hps Hdata Hid He Hm. pose proof Hps as [Hw _].
  destruct (ea_decodes_publish hdr data Ht Hps Hid) as (hb' & n' & nb & He' & Hu & Hl & Hd).
  rewrite He in He'. injection He' as <-.
  destruct (publish_header_fields (ph_qos hdr) (ph_retain hdr) (ph_dup hdr)) as (Hmt & Hfv & _).
  split_and!; [done| |by apply iter_properties_block].
  unfold packet_bytes. rewrite zlen_app.
  etransitivity; [eapply from_buffer_decodes;
    [exact Hmt|exact Hfv|apply publish_fixed_header_u8|zlia|done|done|exact Hd]|].
  by destruct data.
Qed.

(** C20: a PUBLISH survives the wire. A header with a valid topic, properties
    and, exactly for QoS 1 and 2, a packet identifier, encoded in front of a
    byte payload into a buffer with room, decodes to a publish with the same
    topic, identifier, QoS, retain and duplicate flags and payload, whose
    properties iterate to those sent. *)
Theorem publish_roundtrip hdr data buf hb :
  str_wf (ph_topic hdr) -> sendable (ph_properties hdr) -> all_u8 data ->
  publish_id_wf hdr ->
  enc_publish_header hdr = Ok hb -> zlen hb + zlen data <= MQTT_VARINT_MAX ->
  MAX_FIXED_HEADER_SIZE + zlen hb + zlen data <= zlen buf ->
  exists buf' wire p,
    encode_publish buf (serialize hdr) (publish_header_fixed_header hdr) (bytes_payload data) =
      (buf', Ok wire) /\
    from_buffer wire = Ok (ReceivedPacket.Publish p) /\
    p = mkPublish (ph_topic hdr) (ph_packet_id hdr) (received_properties (ph_properties hdr)) data
          (ph_retain hdr) (ph_qos hdr) (ph_dup hdr) /\
    iter (publish_properties p) = iter (ph_properties hdr).
Proof.
  intros Ht Hps Hdata Hid He Hm Hfit. pose proof Hps as [Hw _].
  destruct (publish_decodes hdr data hb Ht Hps Hdata Hid He Hm) as (Hl & Hd & Hit).
  pose proof (implements_publish_header hdr (properties_wf_ok _ Hw)) as Hi. rewrite He in Hi.
  destruct (encode_publish_bytes buf _ hb (publish_header_fixed_header hdr) data Hi Hl Hm Hfit)
    as (buf' & Henc).
  eexists buf', _, _. by split_and!; [exact Henc|exact Hd| |].
Qed.

Lemma publish_roundtrip_witness :
  let hdr := mkPublishHeader [97; 47; 98] (Some 7) (Slice [Property.ResponseTopic [114]])
               Retain.Retained QoS.AtLeastOnce true in
  exists buf' wire p,
    encode_publish (repeat 0 32) (serialize hdr) (publish_header_fixed_header hdr)
      (bytes_payload [1; 2; 3]) = (buf', Ok wire) /\
    from_buffer wire = Ok (ReceivedPacket.Publish p) /\ publish_payload p = [1; 2; 3].
Proof.
  intros hdr.
  destruct (publish_roundtrip hdr [1; 2; 3] (repeat 0 32)
              [0; 3; 97; 47; 98; 0; 7; 4; 8; 0; 1; 114])
    as (buf' & wire & p & H1 & H2 & -> & _);
    [by vm_compute|split; [by repeat constructor|by vm_compute]|by repeat constructor
    |split; by vm_compute|by vm_compute|by vm_compute|by vm_compute|].
  eexists buf', wire, _. split_and!; [exact H1|exact H2|reflexivity].
Defined.

(** * What acceptance means *)

Definition received_type (p : ReceivedPacket) : MessageType :=
  match p with
  | ReceivedPacket.ConnAck _ => MessageType.ConnAck
  | ReceivedPacket.Publish _ => MessageType.Publish
  | ReceivedPacket.PubAck _ => MessageType.PubAck
  | ReceivedPacket.SubAck _ => MessageType.SubAck
  | ReceivedPacket.UnsubAck _ => MessageType.UnsubAck
  | ReceivedPacket.PubRel _ => MessageType.PubRel
  | ReceivedPacket.PubRec _ => MessageType.PubRec
  | ReceivedPacket.PubComp _ => MessageType.PubComp
  | ReceivedPacket.Disconnect _ => MessageType.Disconnect
  | ReceivedPacket.PingResp => MessageType.PingResp
  end.

(** The bytes a packet holds that are not decoded further. *)
Definition received_payload (p : ReceivedPacket) : bytes :=
  match p with
  | ReceivedPacket.Publish p => publish_payload p
  | ReceivedPacket.SubAck p => suback_codes p
  | ReceivedPacket.UnsubAck p => unsuback_codes p
  | _ => []
  end.

(** The fields of a publish agree with the header byte it came with. *)
Definition publish_matches (h : FixedHeader) (p : Publish) : Prop :=
  publish_qos h = Some (publish_qos_level p) /\ publish_retain h = publish_retain_flag p /\
  publish_duplicate h = publish_dup p /\
  (is_Some (publish_packet_id p) <-> publish_qos_level p <> QoS.AtMostOnce).

Definition header_matches (h : FixedHeader) (p : ReceivedPacket) : Prop :=
  message_type h = Some (received_type p) /\
  match p with ReceivedPacket.Publish p => publish_matches h p | _ => True end.

Lemma visit_publish_matches h ea ea' p :
  visit_publish h ea = (ea', Ok p) ->
  exists pub, p = ReceivedPacket.Publish pub /\ publish_matches h pub /\ publish_payload pub = [].
Proof.
  unfold visit_publish. destruct (publish_qos h) as [q|] eqn:Hq; [|done].
  intros (ea1 & topic & _ & H1)%bind_inv_ok.
  apply bind_inv_ok in H1 as (ea2 & id & Hid & H2).
  apply bind_inv_ok in H2 as (ea3 & props & _ & H3). injection H3 as _ <-.
  eexists. split; [done|]. split; [|done]. unfold publish_matches. simpl.
  split_and!; try done. destruct q; simpl in Hid.
  - injection Hid as _ <-. split; [intros [? ?]; done|done].
  - apply bind_inv_ok in Hid as (? & i & _ & Hr). injection Hr as _ <-. split; [done|by exists i].
  - apply bind_inv_ok in Hid as (? & i & _ & Hr). injection Hr as _ <-. split; [done|by exists i].
Qed.

Lemma deserialize_list_ack_codes {A} (make : Z -> Properties -> bytes -> A) d d' a :
  deserialize_list_ack make d = (d', Ok a) -> exists id ps, a = make id ps [].
Proof.
  unfold deserialize_list_ack, deserialize_tuple. destruct (bind _ _ _) as [ea r] eqn:Hb.
  intros H. injection H as _ ->.
  apply bind_inv_ok in Hb as (? & id & _ & Hb). apply bind_inv_ok in Hb as (? & ps & _ & Hb).
  injection Hb as _ <-. by exists id, ps.
Qed.

Lemma next_required_inv {A} (p : De A) ea ea' a :
  next_required p ea = (ea', Ok a) ->
  p (ea_deserializer ea) = (ea_deserializer ea', Ok a).
Proof.
  unfold next_required, next_element, bind. destruct (0 <? ea_count ea); [|done].
  destruct (p _) as [d [x|e]]; simpl; [|done]. intros H. by injection H as <- <-.
Qed.

Lemma visit_packet_matches h t ea ea' p :
  message_type h = Some t -> visit_packet h t ea = (ea', Ok p) ->
  header_matches h p /\ received_payload p = [].
Proof.
  unfold header_matches. intros Ht. destruct t; simpl; try done;
    try (intros (ea1 & x & Hx & Hr)%bind_inv_ok; injection Hr as _ <-; simpl; rewrite Ht;
         split; [done|try done];
         apply next_required_inv, deserialize_list_ack_codes in Hx as (? & ? & ->); done).
  - intros (pub & -> & Hm & Hp)%visit_publish_matches. by rewrite Ht.
  - intros H. by injection H as _ <-.
Qed.

Lemma deserialize_received_packet_inv buf d p :
  all_u8 buf -> deserialize_received_packet (MqttDeserializer_new buf) = (d, Ok p) ->
  exists b tail, buf = b :: tail /\ flags_valid (mkFixedHeader b) = true /\
    header_matches (mkFixedHeader b) p /\ received_payload p = [] /\
    suffix (de_remainder d) buf.
Proof.
  intros Hu Hd. assert (suffix (de_remainder d) buf) as Hsuf.
  { destruct (de_safe_received_packet _ (de_good_new buf Hu)) as (_ & Hb & _).
    rewrite Hd in Hb. simpl in Hb. unfold de_remainder. rewrite Hb.
    eexists. symmetry. apply ztake_zdrop. }
  unfold deserialize_received_packet, deserialize_tuple in Hd.
  destruct (visit_seq _) as [ea r] eqn:Hv. injection Hd as <- ->.
  apply bind_inv_ok in Hv as (ea1 & b & Hb & Hv). cbv zeta in Hv.
  apply bind_inv_ok in Hv as (ea2 & n & _ & Hv).
  destruct (message_type _) as [t|] eqn:Ht; [|done].
  destruct (flags_valid _) eqn:Hf; [|done]. simpl in Hv.
  apply visit_packet_matches in Hv as [Hm Hp]; [|done].
  apply next_required_inv in Hb. unfold deserialize_u8 in Hb. cbn [ea_deserializer] in Hb.
  destruct buf as [|b' tail].
  { by rewrite (pop_eof _ (de_good_new [] Hu) eq_refl) in Hb. }
  rewrite (proj1 (pop_byte _ b' tail (de_good_new _ Hu) (zdrop_0 _))) in Hb.
  injection Hb as _ ->. by exists b, tail.
Qed.

Lemma attach_matches h p rest p' :
  attach p rest = Ok p' -> header_matches h p -> received_payload p = [] ->
  header_matches h p' /\ received_payload p' = rest.
Proof.
  unfold attach, header_matches. destruct rest as [|x rest]; [intros [= <-]; done|].
  destruct p; try done; intros [= <-] Hm _; done.
Qed.




(** Decoding is memory safe on every input. Whatever bytes arrive, the
    decoder leaves the buffer alone and its position inside it, so that no
    slice it takes is out of range, whether it accepts the packet or not. *)
Theorem decoding_stays_inside buf :
  all_u8 buf ->
  let d := fst (deserialize_received_packet (MqttDeserializer_new buf)) in
  de_buf d = buf /\ 0 <= de_index d <= zlen buf.
Proof.
  intros Hu. destruct (de_safe_received_packet _ (de_good_new buf Hu)) as ((Hi & _) & Hb & _).
  simpl in *. rewrite Hb in Hi. by split.
Qed.

Lemma decoding_stays_inside_witness :
  de_index (fst (deserialize_received_packet
    (MqttDeserializer_new [0x32; 9; 0; 3; 97]))) <= 5.
Proof.
  apply (decoding_stays_inside [0x32; 9; 0; 3; 97]). by repeat constructor.
Defined.
