(* ===== verification/Layout.v ===== *)
(** The wire format of MQTT 5, written out from the standard and not from the code:
    integers (1.5), the property table (2.2.2), and the fixed header, variable header and
    payload of every packet (3.1 to 3.14); only the numbers of the reason codes and the
    variable byte integer are those of [Types] and [Varint]. Shown: the packets of [packets.rs] are encoded
    in this layout, and packets in this layout are decoded to the fields they carry. *)

From S2P Require Import Prelude Varint Types Wire Ser De Properties Packets Received.

(** * Data *)

Definition two_byte (v : Z) : bytes := [v / 256; v mod 256].
Definition four_byte (v : Z) : bytes :=
  [v / 2 ^ 24; (v / 2 ^ 16) mod 256; (v / 2 ^ 8) mod 256; v mod 256].

(** A UTF-8 string or binary data: its length and its bytes. *)
Definition field (s : bytes) : bytes := two_byte (zlen s) ++ s.

(** The property table: identifier and value. *)
Definition wire_property (p : Property) : bytes :=
  match p with
  | Property.PayloadFormatIndicator v => [1; v]
  | Property.MessageExpiryInterval v => 2 :: four_byte v
  | Property.ContentType s => 3 :: field s
  | Property.ResponseTopic s => 8 :: field s
  | Property.CorrelationData s => 9 :: field s
  | Property.SubscriptionIdentifier v => 11 :: varint_bytes v
  | Property.SessionExpiryInterval v => 17 :: four_byte v
  | Property.AssignedClientIdentifier s => 18 :: field s
  | Property.ServerKeepAlive v => 19 :: two_byte v
  | Property.AuthenticationMethod s => 21 :: field s
  | Property.AuthenticationData s => 22 :: field s
  | Property.RequestProblemInformation v => [23; v]
  | Property.WillDelayInterval v => 24 :: four_byte v
  | Property.RequestResponseInformation v => [25; v]
  | Property.ResponseInformation s => 26 :: field s
  | Property.ServerReference s => 28 :: field s
  | Property.ReasonString s => 31 :: field s
  | Property.ReceiveMaximum v => 33 :: two_byte v
  | Property.TopicAliasMaximum v => 34 :: two_byte v
  | Property.TopicAlias v => 35 :: two_byte v
  | Property.MaximumQoS v => [36; v]
  | Property.RetainAvailable v => [37; v]
  | Property.UserProperty k v => 38 :: field k ++ field v
  | Property.MaximumPacketSize v => 39 :: four_byte v
  | Property.WildcardSubscriptionAvailable v => [40; v]
  | Property.SubscriptionIdentifierAvailable v => [41; v]
  | Property.SharedSubscriptionAvailable v => [42; v]
  end.

Definition wire_block (l : list Property) : bytes := concat (map wire_property l).

Definition wire_properties (l : list Property) : bytes :=
  varint_bytes (zlen (wire_block l)) ++ wire_block l.

Definition flag (b : bool) (weight : Z) : Z := if b then weight else 0.
Definition is_retained (r : Retain) : bool :=
  match r with Retain.Retained => true | Retain.NotRetained => false end.
Definition qos_number (q : QoS) : Z :=
  match q with QoS.AtMostOnce => 0 | QoS.AtLeastOnce => 1 | QoS.ExactlyOnce => 2 end.

(** ** The code's encodings of the data *)

Lemma two_byte_be v : is_u16 v -> to_be_bytes 2 v = two_byte v.
Proof.
  intros Hv. unfold two_byte. change (to_be_bytes 2 v) with [(v / 256) mod 256; v mod 256].
  f_equal. apply Z.mod_small. unfold is_u16 in Hv. pose proof (Z.div_pos v 256). split; [lia|]. apply Z.div_lt_upper_bound; lia.
Qed.

Lemma four_byte_be v : is_u32 v -> to_be_bytes 4 v = four_byte v.
Proof.
  intros Hv. unfold four_byte.
  change (to_be_bytes 4 v) with
    [(v / 256 / 256 / 256) mod 256; (v / 256 / 256) mod 256; (v / 256) mod 256; v mod 256].
  rewrite !Z.div_div by lia.
  change (256 * 256 * 256) with (2 ^ 24). change (256 * 256) with (2 ^ 16). change (2 ^ 8) with 256.
  f_equal. apply Z.mod_small. unfold is_u32 in Hv.
  pose proof (Z.div_pos v (2 ^ 24)). split; [lia|]. apply Z.div_lt_upper_bound; lia.
Qed.

Lemma field_be s : zlen s < 2 ^ 16 -> enc_field s = Ok (field s).
Proof. intros Hs. rewrite enc_field_ok by done. by rewrite two_byte_be by by apply is_u16_zlen. Qed.

Lemma wire_property_bytes p : property_wf p -> property_bytes p = wire_property p.
Proof.
  intros Hp. unfold property_bytes, enc_property.
  destruct p; simpl in Hp |- *;
    repeat match goal with
           | H : _ /\ _ |- _ => destruct H
           | H : str_wf _ |- _ => destruct H
           end;
    rewrite ?field_be by done; rewrite ?enc_varint_ok by lia; cbn [enc_app app]; try done;
    f_equal; (by apply two_byte_be) || by apply four_byte_be.
Qed.

Lemma wire_block_bytes l : Forall property_wf l -> block_bytes l = wire_block l.
Proof.
  unfold block_bytes, wire_block. intros Hl. f_equal. apply map_ext_Forall.
  eapply Forall_impl; [exact Hl|apply wire_property_bytes].
Qed.

(** Properties that a packet can carry. *)
Definition carried (l : list Property) : Prop :=
  Forall property_wf l /\ zlen (wire_block l) <= MQTT_VARINT_MAX.

Lemma carried_sendable ps l :
  consists_of ps l -> carried l ->
  sendable ps /\ sendable_bytes ps = wire_properties l /\ received_properties ps = Encoded (wire_block l).
Proof.
  intros Hc [Hl Hz]. pose proof (consists_of_wf ps l Hc Hl) as Hw.
  assert (properties_block ps = wire_block l) as Hb
    by (rewrite <- wire_block_bytes by done; by destruct ps; simpl in *; subst).
  unfold sendable, sendable_bytes, received_properties, wire_properties.
  by rewrite properties_block_size, Hb by done.
Qed.

Lemma enc_properties_wire ps l :
  consists_of ps l -> carried l -> enc_properties ps = Ok (wire_properties l).
Proof.
  intros Hc Hl. destruct (carried_sendable ps l Hc Hl) as (Hs & <- & _).
  by destruct (sendable_spec ps [] Hs) as [He _].
Qed.

(** * Packets a client sends *)

(** CONNECT (3.1): the will behind the client identifier, then name and password. *)
Definition wire_will (w : Will) : bytes :=
  wire_properties (will_properties w) ++ field (will_topic w) ++ field (will_data w).

Definition wire_auth (a : Auth) : bytes := field (user_name a) ++ field (password a).

Definition wire_connect_flags (c : Connect) : Z :=
  flag (connect_clean_start c) 2 +
  match connect_will c with
  | Some w => 4 + 8 * qos_number (will_qos w) + flag (is_retained (will_retained w)) 32
  | None => 0
  end +
  flag (bool_decide (connect_auth c <> None)) (64 + 128).

Definition wire_connect (c : Connect) (l : list Property) : bytes :=
  field [77; 81; 84; 84] ++ [5; wire_connect_flags c] ++ two_byte (connect_keepalive c) ++
  wire_properties l ++ field (connect_client_id c) ++
  from_option wire_will [] (connect_will c) ++ from_option wire_auth [] (connect_auth c).

(** The options of a subscription (3.8.3.1). *)
Definition wire_options (o : SubscriptionOptions) : Z :=
  qos_number (so_maximum_qos o) + flag (so_no_local o) 4 + flag (so_retain_as_published o) 8 +
  16 * match so_retain_behavior o with
       | RetainHandling.Immediately => 0
       | RetainHandling.IfSubscriptionDoesNotExist => 1
       | RetainHandling.Never => 2
       end.

Definition wire_filter (t : TopicFilter) : bytes := field (tf_topic t) ++ [wire_options (tf_options t)].

(** Reason code and properties behind a packet identifier (3.4.2). *)
Definition wire_reason (r : Reason) (l : list Property) : bytes :=
  match reason r with
  | None => []
  | Some (mkReasonData code None) => [reason_code_u8 code]
  | Some (mkReasonData code (Some _)) => reason_code_u8 code :: wire_properties l
  end.

Definition reason_carries (r : Reason) (l : list Property) : Prop :=
  match reason r with
  | Some (mkReasonData _ (Some ps)) => consists_of ps l /\ carried l
  | _ => l = []
  end.

Definition short (s : bytes) : Prop := zlen s < 2 ^ 16.

(** A packet, its header byte and what follows the remaining length. *)
Inductive Request : Type :=
| Connecting (c : Connect)
| Subscribing (s : Subscribe)
| Unsubscribing (u : Unsubscribe)
| Pinging
| Acknowledging (p : PubAck)
| Recording (p : PubRec)
| Releasing (p : PubRel)
| Completing (p : PubComp)
| Disconnecting (d : Disconnect).

Inductive sent_as : Request -> Z -> bytes -> Prop :=
| sent_connect c l :
    is_u16 (connect_keepalive c) -> consists_of (connect_properties c) l -> carried l ->
    short (connect_client_id c) ->
    from_option (fun w => carried (will_properties w) /\ short (will_topic w) /\
      short (will_data w)) True (connect_will c) ->
    from_option (fun a => short (user_name a) /\ short (password a)) True (connect_auth c) ->
    sent_as (Connecting c) 0x10 (wire_connect c l)
| sent_subscribe s l :
    is_u16 (subscribe_packet_id s) -> consists_of (subscribe_properties s) l -> carried l ->
    Forall (fun t => short (tf_topic t)) (subscribe_topics s) ->
    sent_as (Subscribing s) 0x82
      (two_byte (subscribe_packet_id s) ++ wire_properties l ++
       concat (map wire_filter (subscribe_topics s)))
| sent_unsubscribe u l :
    is_u16 (unsubscribe_packet_id u) -> consists_of (unsubscribe_properties u) l -> carried l ->
    Forall short (unsubscribe_topics u) ->
    sent_as (Unsubscribing u) 0xa2
      (two_byte (unsubscribe_packet_id u) ++ wire_properties l ++
       concat (map field (unsubscribe_topics u)))
| sent_ping : sent_as Pinging 0xc0 []
| sent_puback id r l :
    is_u16 id -> reason_carries r l ->
    sent_as (Acknowledging (mkPubAck id r)) 0x40 (two_byte id ++ wire_reason r l)
| sent_pubrec id r l :
    is_u16 id -> reason_carries r l ->
    sent_as (Recording (mkPubRec id r)) 0x50 (two_byte id ++ wire_reason r l)
| sent_pubrel id r l :
    is_u16 id -> reason_carries r l ->
    sent_as (Releasing (mkPubRel id r)) 0x62 (two_byte id ++ wire_reason r l)
| sent_pubcomp id r l :
    is_u16 id -> reason_carries r l ->
    sent_as (Completing (mkPubComp id r)) 0x70 (two_byte id ++ wire_reason r l)
| sent_disconnect : sent_as (Disconnecting (mkDisconnect None None)) 0xe0 []
| sent_disconnect_code code :
    sent_as (Disconnecting (mkDisconnect (Some code) None)) 0xe0 [reason_code_u8 code]
| sent_disconnect_properties code ps l :
    consists_of ps l -> carried l ->
    sent_as (Disconnecting (mkDisconnect (Some code) (Some ps))) 0xe0
      (reason_code_u8 code :: wire_properties l).

Definition encode_request (buf : bytes) (r : Request) : bytes * result SerError bytes :=
  match r with
  | Connecting c => encode buf c
  | Subscribing s => encode buf s
  | Unsubscribing u => encode buf u
  | Pinging => encode buf mkPingReq
  | Acknowledging p => encode buf p
  | Recording p => encode buf p
  | Releasing p => encode buf p
  | Completing p => encode buf p
  | Disconnecting d => encode buf d
  end.

(** ** The code's encodings of the packets *)

Lemma consists_of_ok ps l : consists_of ps l -> carried l -> properties_ok ps.
Proof. intros Hc [Hl _]. by eapply properties_wf_ok, consists_of_wf. Qed.

Lemma carried_ok l : carried l -> Forall property_ok l.
Proof. intros [Hl _]. eapply Forall_impl; [exact Hl|apply property_wf_ok]. Qed.

Lemma connect_flags_wire c : connect_flags c = wire_connect_flags c.
Proof.
  unfold connect_flags, wire_connect_flags.
  destruct (connect_clean_start c), (connect_will c) as [[? ? [] [] ?]|], (connect_auth c); reflexivity.
Qed.

Lemma options_wire o : subscription_options_byte o = wire_options o.
Proof. by destruct o as [[] [] [] []]. Qed.

Lemma enc_will_wire w :
  carried (will_properties w) -> short (will_topic w) -> short (will_data w) ->
  enc_will w = Ok (wire_will w).
Proof.
  intros Hp Ht Hd. unfold enc_will, wire_will.
  by rewrite (enc_properties_wire (Slice _) (will_properties w)), !field_be.
Qed.

Lemma enc_connect_wire c l :
  is_u16 (connect_keepalive c) -> consists_of (connect_properties c) l -> carried l ->
  short (connect_client_id c) ->
  from_option (fun w => carried (will_properties w) /\ short (will_topic w) /\
    short (will_data w)) True (connect_will c) ->
  from_option (fun a => short (user_name a) /\ short (password a)) True (connect_auth c) ->
  enc_connect c = Ok (wire_connect c l).
Proof.
  intros Hk Hc Hl Hid Hw Ha. unfold enc_connect, wire_connect, enc_u16.
  rewrite (field_be MQTT_NAME), (field_be (connect_client_id c)), (enc_properties_wire _ l),
    connect_flags_wire, two_byte_be by done.
  assert (enc_option enc_will (connect_will c) = Ok (from_option wire_will [] (connect_will c))) as ->.
  { destruct (connect_will c) as [w|]; [|done]. destruct Hw as (? & ? & ?). by apply enc_will_wire. }
  assert (enc_option enc_auth (connect_auth c) = Ok (from_option wire_auth [] (connect_auth c))) as ->.
  { destruct (connect_auth c) as [a|]; [|done]. destruct Ha. simpl. unfold enc_auth, wire_auth.
    by rewrite !field_be. }
  done.
Qed.

Lemma enc_concat_wire {A} (f : A -> enc) (g : A -> bytes) l :
  Forall (fun x => f x = Ok (g x)) l -> enc_concat (map f l) = Ok (concat (map g l)).
Proof. induction 1 as [|x l Hx _ IH]; [done|]. simpl. by rewrite Hx, IH. Qed.

Lemma enc_ack_wire id r l :
  is_u16 id -> reason_carries r l -> enc_ack id r = Ok (two_byte id ++ wire_reason r l) /\ reason_ok r.
Proof.
  intros Hid Hr. unfold enc_ack, enc_u16. rewrite two_byte_be by done.
  unfold reason_carries, wire_reason, reason_ok in *.
  destruct (reason r) as [[code [ps|]]|]; [|done|done]. destruct Hr as [Hc Hl].
  unfold enc_reason_data. cbn [enc_option reason_data_code reason_data_properties].
  rewrite (enc_properties_wire ps l) by done. split; [done|by eapply consists_of_ok].
Qed.

Lemma encode_wire {T} `{PacketSpec T} (p : T) h body buf :
  packet_ok p -> packet_enc p = Ok body -> fh_byte (fixed_header p) = h ->
  zlen body <= MQTT_VARINT_MAX -> MAX_FIXED_HEADER_SIZE + zlen body <= zlen buf ->
  exists buf', encode buf p = (buf', Ok (h :: varint_bytes (zlen body) ++ body)).
Proof. intros Hok He <- Hm Hfit. by apply (encode_spec p buf body). Qed.

(** The four acknowledgements share their layout. *)
Lemma encode_ack_wire {T} `{PacketSpec T} (p : T) h id r l buf :
  packet_enc p = enc_ack id r -> fh_byte (fixed_header p) = h -> (reason_ok r -> packet_ok p) ->
  is_u16 id -> reason_carries r l ->
  let body := two_byte id ++ wire_reason r l in
  zlen body <= MQTT_VARINT_MAX -> MAX_FIXED_HEADER_SIZE + zlen body <= zlen buf ->
  exists buf', encode buf p = (buf', Ok (h :: varint_bytes (zlen body) ++ body)).
Proof.
  intros He Hh Hok Hid Hr body Hm Hfit. destruct (enc_ack_wire id r l Hid Hr) as [Hb Hro].
  apply encode_wire; [by apply Hok|by rewrite He|done..].
Qed.

(** C33: the packets a client sends have the layout of MQTT 5. For every CONNECT,
    SUBSCRIBE, UNSUBSCRIBE, PINGREQ, acknowledgement and DISCONNECT whose texts and data
    are shorter than 2^16 bytes, whose properties are well formed and whose remaining
    length is at most 2^28 - 1, encoding it into a buffer with room for it behind a fixed
    header of full size gives exactly the bytes the standard lays down: the header byte of
    its type, the remaining length, and the fields in their order and width, with the
    protocol name and version, the flags of a CONNECT, its will in front of the
    credentials, the options of each subscription, and every property under its number. *)
Theorem requests_layout r h body buf :
  sent_as r h body -> zlen body <= MQTT_VARINT_MAX ->
  MAX_FIXED_HEADER_SIZE + zlen body <= zlen buf ->
  exists buf', encode_request buf r = (buf', Ok (h :: varint_bytes (zlen body) ++ body)).
Proof.
  intros Hs Hm Hfit. destruct Hs as [c l Hk Hc Hl Hid Hw Ha|s l Hid Hc Hl Ht|u l Hid Hc Hl Ht|
    |id r l Hid Hr|id r l Hid Hr|id r l Hid Hr|id r l Hid Hr| |code|code ps l Hc Hl];
    cbn [encode_request].
  - apply (encode_wire c); [|by apply enc_connect_wire|done..].
    split; [by eapply consists_of_ok|]. destruct (connect_will c); [|done]. by apply carried_ok, Hw.
  - apply (encode_wire s); [by eapply consists_of_ok| |done..].
    simpl. unfold enc_subscribe, enc_u16. rewrite two_byte_be, (enc_properties_wire _ l) by done.
    rewrite (enc_concat_wire _ wire_filter); [done|]. eapply Forall_impl; [exact Ht|].
    intros t Hshort. unfold enc_topic_filter, wire_filter. by rewrite field_be, options_wire.
  - apply (encode_wire u); [by eapply consists_of_ok| |done..].
    simpl. unfold enc_unsubscribe, enc_u16. rewrite two_byte_be, (enc_properties_wire _ l) by done.
    rewrite (enc_concat_wire _ field); [done|]. eapply Forall_impl; [exact Ht|]. by apply field_be.
  - by apply (encode_wire mkPingReq).
  - by apply (encode_ack_wire (mkPubAck id r) _ id r l).
  - by apply (encode_ack_wire (mkPubRec id r) _ id r l).
  - by apply (encode_ack_wire (mkPubRel id r) _ id r l).
  - by apply (encode_ack_wire (mkPubComp id r) _ id r l).
  - by apply (encode_wire (mkDisconnect None None)).
  - by apply (encode_wire (mkDisconnect (Some code) None)).
  - apply (encode_wire (mkDisconnect (Some code) (Some ps))); [by eapply consists_of_ok| |done..].
    cbn [packet_enc disconnect_spec]. unfold enc_disconnect.
    cbn [enc_option disconnect_reason_code disconnect_properties].
    by rewrite (enc_properties_wire ps l).
Qed.

(** A CONNECT with a will and credentials. *)
Definition demo_connect : Connect :=
  mkConnect 60 (Slice [Property.ReceiveMaximum 10]) [99]
    (Some (mkAuth [117] [1; 2])) (Some (mkWill [116] [9] QoS.AtLeastOnce Retain.Retained [])) true.

Lemma requests_layout_witness :
  exists buf', encode_request (repeat 0 64) (Connecting demo_connect) =
    (buf', Ok ([0x10; 31; 0; 4; 77; 81; 84; 84; 5; 0xee; 0; 60; 3; 33; 0; 10; 0; 1; 99] ++
               [0; 0; 1; 116; 0; 1; 9] ++ [0; 1; 117; 0; 2; 1; 2])).
Proof.
  apply (requests_layout (Connecting demo_connect) 0x10
    (wire_connect demo_connect [Property.ReceiveMaximum 10])).
  - apply (sent_connect demo_connect [Property.ReceiveMaximum 10]).
    + split; [discriminate|reflexivity].
    + reflexivity.
    + split; [repeat constructor; discriminate|discriminate].
    + reflexivity.
    + split; [split; [constructor|discriminate]|split; reflexivity].
    + split; reflexivity.
  - discriminate.
  - discriminate.
Defined.

(** * Packets a client receives *)

(** [arrives p h body l]: the packet [p] with properties [l], its header byte and what
    follows the remaining length. *)
Inductive arrives : ReceivedPacket -> Z -> bytes -> list Property -> Prop :=
| arrives_connack (present : bool) code l :
    carried l ->
    arrives (ReceivedPacket.ConnAck (mkConnAck present code (Encoded (wire_block l)))) 0x20
      ([flag present 1; reason_code_u8 code] ++ wire_properties l) l
| arrives_publish topic (id : option Z) l payload retain qos dup :
    str_wf topic -> carried l -> all_u8 payload ->
    match id with
    | Some id => is_u16 id /\ qos <> QoS.AtMostOnce
    | None => qos = QoS.AtMostOnce
    end ->
    arrives
      (ReceivedPacket.Publish (mkPublish topic id (Encoded (wire_block l)) payload retain qos dup))
      (0x30 + flag dup 8 + 2 * qos_number qos + flag (is_retained retain) 1)
      (field topic ++ from_option two_byte [] id ++ wire_properties l ++ payload) l
| arrives_ack make h id r l :
    is_u16 id -> reason_carries r l ->
    (make, h) ∈ [(fun id r => ReceivedPacket.PubAck (mkPubAck id r), 0x40);
                 (fun id r => ReceivedPacket.PubRec (mkPubRec id r), 0x50);
                 (fun id r => ReceivedPacket.PubRel (mkPubRel id r), 0x62);
                 (fun id r => ReceivedPacket.PubComp (mkPubComp id r), 0x70)] ->
    arrives (make id (received_reason r)) h (two_byte id ++ wire_reason r l) l
| arrives_suback id l codes :
    is_u16 id -> carried l -> all_u8 codes ->
    arrives (ReceivedPacket.SubAck (mkSubAck id (Encoded (wire_block l)) codes)) 0x90
      (two_byte id ++ wire_properties l ++ codes) l
| arrives_unsuback id l codes :
    is_u16 id -> carried l -> all_u8 codes ->
    arrives (ReceivedPacket.UnsubAck (mkUnsubAck id (Encoded (wire_block l)) codes)) 0xb0
      (two_byte id ++ wire_properties l ++ codes) l
| arrives_pingresp : arrives ReceivedPacket.PingResp 0xd0 [] []
| arrives_disconnect :
    arrives (ReceivedPacket.Disconnect (mkDisconnect None None)) 0xe0 [] []
| arrives_disconnect_code code :
    arrives (ReceivedPacket.Disconnect (mkDisconnect (Some code) None)) 0xe0
      [reason_code_u8 code] []
| arrives_disconnect_properties code l :
    carried l ->
    arrives
      (ReceivedPacket.Disconnect (mkDisconnect (Some code) (Some (Encoded (wire_block l))))) 0xe0
      (reason_code_u8 code :: wire_properties l) l.

(** What iterating over the properties of a packet yields. *)
Definition packet_properties (p : ReceivedPacket) : list (result PeerError Property) :=
  let of_reason r := match reason r with Some (mkReasonData _ (Some ps)) => iter ps | _ => [] end in
  match p with
  | ReceivedPacket.ConnAck a => iter (connack_properties a)
  | ReceivedPacket.Publish p => iter (publish_properties p)
  | ReceivedPacket.PubAck a => of_reason (puback_reason a)
  | ReceivedPacket.PubRec a => of_reason (pubrec_reason a)
  | ReceivedPacket.PubRel a => of_reason (pubrel_reason a)
  | ReceivedPacket.PubComp a => of_reason (pubcomp_reason a)
  | ReceivedPacket.SubAck a => iter (suback_properties a)
  | ReceivedPacket.UnsubAck a => iter (unsuback_properties a)
  | ReceivedPacket.Disconnect d => from_option iter [] (disconnect_properties d)
  | ReceivedPacket.PingResp => []
  end.

(** ** The decoders *)

Lemma carried_decodes l rest :
  carried l ->
  all_u8 (wire_properties l) /\ 0 < zlen (wire_properties l) /\
  iter (Encoded (wire_block l)) = map Ok l /\
  exists nb, decodes deserialize_properties (wire_properties l) rest (Encoded (wire_block l)) nb.
Proof.
  intros Hl. destruct (carried_sendable (Slice l) l eq_refl Hl) as (Hs & Hb & Hr).
  destruct (sendable_spec (Slice l) rest Hs) as (_ & Hu & Hp & Hd). rewrite Hb, Hr in *.
  split_and!; [done|done| |by eexists]. destruct Hl as [Hl _].
  by rewrite <- wire_block_bytes, iter_encoded_block.
Qed.

Lemma two_byte_u8 v : is_u16 v -> all_u8 (two_byte v).
Proof. intros Hv. rewrite <- two_byte_be by done. apply to_be_bytes_u8. Qed.

Lemma decodes_two_byte v rest : is_u16 v -> decodes deserialize_u16 (two_byte v) rest v None.
Proof. intros Hv. rewrite <- two_byte_be by done. by apply decodes_u16. Qed.

(** A packet with header byte [h], whose branch of the visitor reads [b1] and leaves [b2]
    to be attached. *)
Lemma from_buffer_wire h t b1 b2 p n nb :
  message_type (mkFixedHeader h) = Some t -> flags_valid (mkFixedHeader h) = true -> is_u8 h ->
  zlen (b1 ++ b2) <= MQTT_VARINT_MAX -> all_u8 b1 -> all_u8 b2 ->
  ea_decodes (visit_packet (mkFixedHeader h) t) 3 b1 b2 p n nb ->
  from_buffer (h :: varint_bytes (zlen (b1 ++ b2)) ++ b1 ++ b2) = attach p b2.
Proof.
  intros Ht Hf Hh Hm H1 H2 Hd.
  apply (from_buffer_decodes (mkFixedHeader h) t (zlen (b1 ++ b2)) b1 b2 p n nb); try done. zlia.
Qed.

Lemma decodes_list_ack {A} (make : Z -> Properties -> bytes -> A) id l rest :
  is_u16 id -> carried l ->
  exists nb, decodes (deserialize_list_ack make) (two_byte id ++ wire_properties l) rest
    (make id (Encoded (wire_block l)) []) nb.
Proof.
  intros Hid Hl. destruct (carried_decodes l rest Hl) as (_ & _ & _ & nb & Hd). exists nb.
  apply decodes_tuple with (2 - 1 - 1).
  apply (ea_decodes_two _ _ (fun id ps => make id ps [])); [lia|by apply decodes_two_byte|done].
Qed.

Lemma decodes_connack present code l :
  carried l ->
  exists nb, decodes deserialize_connack ([flag present 1; reason_code_u8 code] ++ wire_properties l)
    [] (mkConnAck present code (Encoded (wire_block l))) nb.
Proof.
  intros Hl. destruct (carried_decodes l [] Hl) as (_ & _ & _ & nb & Hd). exists nb.
  apply decodes_tuple with (3 - 1 - 1 - 1).
  change ([flag present 1; reason_code_u8 code] ++ wire_properties l)
    with ([if present then 1 else 0] ++ [reason_code_u8 code] ++ wire_properties l).
  eapply ea_decodes_bind; [apply ea_decodes_required; [lia|apply decodes_bool]|].
  apply (ea_decodes_two _ _ (fun code ps => mkConnAck present code ps)); [lia| |done].
  apply decodes_reason_code.
Qed.

Lemma ea_decodes_element {A} (p : De A) n bs rest a nb :
  0 < n -> decodes p bs rest a nb -> ea_decodes (next_element p) n bs rest (Some a) (n - 1) nb.
Proof.
  intros Hn Hp d Hd Hr Hnb. unfold next_element. simpl.
  rewrite (proj2 (Z.ltb_lt _ _)) by lia. by rewrite (Hp d Hd Hr Hnb).
Qed.

Lemma decodes_disconnect b1 b2 code ps nb :
  decodes (deserialize_option deserialize_reason_code) b1 (b2 ++ []) code None ->
  decodes (deserialize_option deserialize_properties) b2 [] ps nb ->
  decodes deserialize_disconnect (b1 ++ b2) [] (mkDisconnect code ps) nb.
Proof.
  intros H1 H2. apply decodes_tuple with (2 - 1 - 1).
  eapply ea_decodes_bind; [by apply ea_decodes_element|].
  apply (ea_decodes_last (next_element (deserialize_option deserialize_properties))
    (fun o => mkDisconnect code (default None o)) (2 - 1) _ b2 [] (Some ps)).
  by apply ea_decodes_element.
Qed.

Lemma reason_carries_wf r l :
  reason_carries r l ->
  reason_wf r /\
  match reason (received_reason r) with Some (mkReasonData _ (Some ps)) => iter ps | _ => [] end =
    map Ok l.
Proof.
  unfold reason_carries, reason_wf, received_reason.
  destruct (reason r) as [[code [ps|]]|]; simpl; [|by intros ->|by intros ->].
  intros [Hc Hl]. destruct (carried_sendable ps l Hc Hl) as (Hs & _ & ->).
  split; [done|]. by destruct (carried_decodes l [] Hl) as (_ & _ & Hi & _).
Qed.

(** The branch of the visitor for each acknowledgement. *)
Lemma from_buffer_ack {A} (make : Z -> Reason -> A) (wrap : A -> ReceivedPacket) h t id r l :
  message_type (mkFixedHeader h) = Some t -> flags_valid (mkFixedHeader h) = true -> is_u8 h ->
  visit_packet (mkFixedHeader h) t = (let! p := next_required (deserialize_ack make) in ret (wrap p)) ->
  (forall a, attach (wrap a) [] = Ok (wrap a)) -> is_u16 id -> reason_carries r l ->
  let body := two_byte id ++ wire_reason r l in
  zlen body <= MQTT_VARINT_MAX ->
  from_buffer (h :: varint_bytes (zlen body) ++ body) = Ok (wrap (make id (received_reason r))).
Proof.
  intros Ht Hf Hh Hv Ha Hid Hr body Hm. destruct (reason_carries_wf r l Hr) as [Hw _].
  destruct (decodes_ack make id r Hid Hw) as (bs & nb & He & Hu & Hd).
  destruct (enc_ack_wire id r l Hid Hr) as [He' _]. rewrite He in He'. injection He' as ->.
  rewrite <- (app_nil_r body), <- Ha in *. eapply from_buffer_wire; try done.
  rewrite Hv. apply (ea_decodes_last _ wrap). by apply ea_decodes_required.
Qed.

Lemma from_buffer_list_ack {A} (make : Z -> Properties -> bytes -> A) (wrap : A -> ReceivedPacket)
    h t id l codes :
  message_type (mkFixedHeader h) = Some t -> flags_valid (mkFixedHeader h) = true -> is_u8 h ->
  visit_packet (mkFixedHeader h) t =
    (let! p := next_required (deserialize_list_ack make) in ret (wrap p)) ->
  (forall id ps, attach (wrap (make id ps [])) codes = Ok (wrap (make id ps codes))) ->
  (forall id ps codes, packet_properties (wrap (make id ps codes)) = iter ps) ->
  is_u16 id -> carried l -> all_u8 codes ->
  let body := two_byte id ++ wire_properties l ++ codes in
  zlen body <= MQTT_VARINT_MAX ->
  from_buffer (h :: varint_bytes (zlen body) ++ body) =
    Ok (wrap (make id (Encoded (wire_block l)) codes)) /\
  packet_properties (wrap (make id (Encoded (wire_block l)) codes)) = map Ok l.
Proof.
  intros Ht Hf Hh Hv Ha Hps Hid Hl Hc body Hm. unfold body in *. rewrite Hps.
  destruct (carried_decodes l codes Hl) as (Hu & _ & Hi & _). split; [|done].
  destruct (decodes_list_ack make id l codes Hid Hl) as (nb & Hd).
  rewrite !(app_assoc (two_byte id)) in Hm |- *. rewrite <- Ha. eapply from_buffer_wire; try done.
  - apply Forall_app. split; [by apply two_byte_u8|done].
  - rewrite Hv. apply (ea_decodes_last _ wrap). by apply ea_decodes_required.
Qed.

Lemma publish_layout topic (id : option Z) l payload retain qos dup :
  str_wf topic -> carried l -> all_u8 payload ->
  match id with
  | Some id => is_u16 id /\ qos <> QoS.AtMostOnce
  | None => qos = QoS.AtMostOnce
  end ->
  let body := field topic ++ from_option two_byte [] id ++ wire_properties l ++ payload in
  let h := 0x30 + flag dup 8 + 2 * qos_number qos + flag (is_retained retain) 1 in
  zlen body <= MQTT_VARINT_MAX ->
  from_buffer (h :: varint_bytes (zlen body) ++ body) =
  Ok (ReceivedPacket.Publish (mkPublish topic id (Encoded (wire_block l)) payload retain qos dup)).
Proof.
  intros Ht Hl Hp Hid body h Hm. destruct (carried_sendable (Slice l) l eq_refl Hl) as (Hs & Hb & Hr).
  set (hdr := mkPublishHeader topic id (Slice l) retain qos dup).
  set (hb := field topic ++ from_option two_byte [] id ++ wire_properties l).
  assert (enc_publish_header hdr = Ok hb) as He.
  { unfold enc_publish_header, hdr. cbn [ph_topic ph_packet_id ph_properties].
    rewrite field_be, (enc_properties_wire (Slice l) l) by (done || by destruct Ht).
    destruct id as [id|]; [|done]. unfold enc_option, enc_u16. by rewrite two_byte_be by apply Hid. }
  assert (hb ++ payload = body) as Hbody by (unfold hb, body; by rewrite <- !app_assoc).
  destruct (publish_decodes hdr payload hb Ht Hs Hp Hid He) as (_ & Hd & _).
  { by rewrite <- zlen_app, Hbody. }
  rewrite Hbody in Hd. cbn [hdr ph_topic ph_packet_id ph_properties ph_retain ph_qos ph_dup] in Hd.
  rewrite Hr in Hd. rewrite <- Hd. unfold packet_bytes. f_equal.
  unfold h. by destruct dup, qos, retain.
Qed.

(** C34: packets in the layout of MQTT 5 are decoded to what they carry. For every CONNACK,
    PUBLISH, acknowledgement (without a reason, with a reason code, and with properties
    behind it), SUBACK, UNSUBACK, PINGRESP and DISCONNECT with well-formed properties and
    a remaining length of at most 2^28 - 1, the bytes the standard lays down
    for it are decoded to that packet: its flags, identifier, reason code, codes and
    payload, and iterating over its properties yields them in order, each read under its
    number and with its width. *)
Theorem inbound_layout p h body l :
  arrives p h body l -> zlen body <= MQTT_VARINT_MAX ->
  from_buffer (h :: varint_bytes (zlen body) ++ body) = Ok p /\ packet_properties p = map Ok l.
Proof.
  intros Ha Hm. destruct Ha as [present code l Hl|topic id l payload retain qos dup Ht Hl Hp Hid
    |make h id r l Hid Hr Hk|id l codes Hid Hl Hc|id l codes Hid Hl Hc| | |code|code l Hl].
  - destruct (carried_decodes l [] Hl) as (Hu & _ & Hi & _). split; [|exact Hi].
    destruct (decodes_connack present code l Hl) as (nb & Hd).
    rewrite <- (app_nil_r (_ ++ wire_properties l)) in Hm |- *.
    etransitivity; [eapply (from_buffer_wire _ MessageType.ConnAck); try done|done].
    + apply Forall_app. split; [|done]. constructor; [by destruct present|].
      constructor; [apply reason_code_is_u8|done].
    + apply (ea_decodes_last _ ReceivedPacket.ConnAck). by apply ea_decodes_required.
  - split; [by apply publish_layout|]. by destruct (carried_decodes l [] Hl) as (_ & _ & Hi & _).
  - destruct (reason_carries_wf r l Hr) as [_ Hi].
    apply list_elem_of_In in Hk as [[= <- <-]|[[= <- <-]|[[= <- <-]|[[= <- <-]|[]]]]];
      (split; [|exact Hi]).
    + by apply (from_buffer_ack mkPubAck ReceivedPacket.PubAck _ MessageType.PubAck).
    + by apply (from_buffer_ack mkPubRec ReceivedPacket.PubRec _ MessageType.PubRec).
    + by apply (from_buffer_ack mkPubRel ReceivedPacket.PubRel _ MessageType.PubRel).
    + by apply (from_buffer_ack mkPubComp ReceivedPacket.PubComp _ MessageType.PubComp).
  - apply (from_buffer_list_ack mkSubAck ReceivedPacket.SubAck _ MessageType.SubAck); try done. by destruct codes.
  - apply (from_buffer_list_ack mkUnsubAck ReceivedPacket.UnsubAck _ MessageType.UnsubAck); try done. by destruct codes.
  - by split.
  - by split.
  - split; [|done]. by destruct code.
  - destruct (carried_decodes l [] Hl) as (Hu & Hpos & Hi & nb & Hd). split; [|exact Hi].
    rewrite <- (app_nil_r (_ :: wire_properties l)) in Hm |- *.
    etransitivity; [eapply (from_buffer_wire _ MessageType.Disconnect); try done|done].
    + constructor; [apply reason_code_is_u8|done].
    + apply (ea_decodes_last _ ReceivedPacket.Disconnect). apply ea_decodes_required; [done|].
      apply (decodes_disconnect [_] (wire_properties l)).
      * apply decodes_option_some; [apply decodes_reason_code|zlia].
      * apply decodes_option_some; [done|by rewrite app_nil_r].
Qed.

Lemma inbound_layout_witness :
  from_buffer ([0x20; 6; 1; 0; 3] ++ [33; 0; 10]) =
    Ok (ReceivedPacket.ConnAck (mkConnAck true ReasonCode.Success (Encoded [33; 0; 10]))) /\
  packet_properties (ReceivedPacket.ConnAck (mkConnAck true ReasonCode.Success (Encoded [33; 0; 10]))) =
    [Ok (Property.ReceiveMaximum 10)].
Proof.
  apply (inbound_layout _ 0x20 [1; 0; 3; 33; 0; 10] [Property.ReceiveMaximum 10]); [|discriminate].
  apply (arrives_connack true ReasonCode.Success [Property.ReceiveMaximum 10]).
  split; [repeat constructor; discriminate|discriminate].
Defined.
