(* ===== verification/SerdePackets.v ===== *)
(** * The decoders of the packet types against the serde interface

    The decoders of [Properties] and [Received] read the fields of each packet type in
    turn. Here each is shown to be what the [Deserialize] implementation of its type (derived
    for most of [src/minimq/src/packets.rs]) asks of the deserializer of [Serde]: the shape
    it requests, and the value it builds from what it is given. *)

From S2P Require Import Prelude Varint Types Text Wire Ser De Properties Packets Serde Received.

(** [m] asks for [shape] and turns what it gets into its result by [build]. *)
Definition de_calls {A} (m : De A) (shape : Shape) (build : Value -> option A) : Prop :=
  forall d, match deserialize_shape shape d with
            | (d', Ok v) => exists a, build v = Some a /\ m d = (d', Ok a)
            | (d', Err e) => m d = (d', Err e)
            end.

(** The same of the visitor of a tuple. *)
Definition ea_calls {A} (m : EA A) (l : list Shape) (build : list Value -> option A) : Prop :=
  forall ea, match visit_fields (map deserialize_shape l) ea with
             | (ea', Ok vs) => exists a, build vs = Some a /\ m ea = (ea', Ok a)
             | (ea', Err e) => m ea = (ea', Err e)
             end.

Create HintDb calls.

Lemma de_calls_leaf {A} (m : De A) shape (f : A -> Value) build :
  (forall d, deserialize_shape shape d = (let! x := m in ret (f x)) d) ->
  (forall a, build (f a) = Some a) -> de_calls m shape build.
Proof.
  intros Hs Hb d. rewrite Hs. unfold bind, ret.
  destruct (m d) as [d' [a|e]]; [|done]. exists a. by rewrite Hb.
Qed.

Lemma de_calls_map {A B} (m : De A) shape build (f : A -> B) :
  de_calls m shape build -> de_calls (let! x := m in ret (f x)) shape (fun v => f <$> build v).
Proof.
  intros Hm d. specialize (Hm d). destruct (deserialize_shape shape d) as [d' [v|e]];
    unfold bind, ret.
  - destruct Hm as (a & -> & ->). by exists (f a).
  - by rewrite Hm.
Qed.

Definition build_nil {A} (a : A) (vs : list Value) : option A :=
  match vs with [] => Some a | _ => None end.

Lemma ea_calls_ret {A} (a : A) : ea_calls (ret a) [] (build_nil a).
Proof. intros ea. simpl. by exists a. Qed.

Definition build_cons {A B} (f : Value -> option A) (g : A -> list Value -> option B)
    (vs : list Value) : option B :=
  match vs with v :: vs' => match f v with Some x => g x vs' | None => None end | [] => None end.

Lemma ea_calls_cons {A B} (p : De A) (k : A -> EA B) shape l f g :
  de_calls p shape f -> (forall x, ea_calls (k x) l (g x)) ->
  ea_calls (let! x := next_required p in k x) (shape :: l) (build_cons f g).
Proof.
  intros Hp Hk [d n]. cbn [map visit_fields].
  unfold next_required, next_element, bind. cbn [ea_deserializer ea_count].
  destruct (0 <? n); [|done]. specialize (Hp d).
  destruct (deserialize_shape shape d) as [d' [v|e]]; [|by rewrite Hp].
  destruct Hp as (x & Hf & ->). unfold ret. cbn [raise]. specialize (Hk x (mkEA d' (n - 1))).
  destruct (visit_fields _ _) as [ea' [vs|e]]; [|done]. destruct Hk as (b & Hg & ->).
  exists b. split; [|done]. cbn [build_cons]. by rewrite Hf.
Qed.

Definition build_struct {A} (build : list Value -> option A) (v : Value) : option A :=
  match v with VStruct vs => build vs | _ => None end.

Definition build_option {A} (build : Value -> option A) (v : Value) : option (option A) :=
  match v with VSome v => Some <$> build v | VNone => Some None | _ => None end.

Lemma de_calls_struct {A} (m : EA A) l build :
  ea_calls m l build ->
  de_calls (deserialize_tuple (zlength l) m) (SStruct l) (build_struct build).
Proof.
  intros Hm d. specialize (Hm (mkEA d (zlength l))). simpl.
  unfold deserialize_struct, deserialize_tuple, bind, ret.
  destruct (visit_fields _ _) as [ea' [vs|e]]; [|by rewrite Hm].
  destruct Hm as (a & Hb & ->). by exists a.
Qed.

Lemma de_calls_option {A} (m : De A) shape build :
  de_calls m shape build ->
  de_calls (deserialize_option m) (SOption shape) (build_option build).
Proof.
  intros Hm d. simpl. unfold deserialize_option, bind, ret. destruct (de_len d =? 0).
  - by exists None.
  - specialize (Hm d). destruct (deserialize_shape shape d) as [d' [v|e]]; [|by rewrite Hm].
    destruct Hm as (a & Hb & ->). exists (Some a). simpl. by rewrite Hb.
Qed.

(** ** The packets *)

Definition PropertiesShape : Shape := SSeq [SBytes].
Definition ReasonDataShape : Shape := SStruct [SU8; SOption PropertiesShape].
Definition ReasonShape : Shape := SStruct [SOption ReasonDataShape].
Definition AckShape : Shape := SStruct [SU16; ReasonShape].
Definition ListAckShape : Shape := SStruct [SU16; PropertiesShape].
Definition ConnAckShape : Shape := SStruct [SBool; SU8; PropertiesShape].
Definition DisconnectShape : Shape := SStruct [SOption SU8; SOption PropertiesShape].

Definition build_bool (v : Value) : option bool := match v with VBool b => Some b | _ => None end.
Definition build_u8 (v : Value) : option Z := match v with VU8 b => Some b | _ => None end.
Definition build_u16 (v : Value) : option Z := match v with VU16 b => Some b | _ => None end.
Definition build_str (v : Value) : option bytes := match v with VStr b => Some b | _ => None end.
Definition build_reason_code (v : Value) : option ReasonCode := reason_code_from <$> build_u8 v.
Definition build_properties (v : Value) : option Properties :=
  match v with
  | VSeq [] => Some (Encoded [])
  | VSeq [VBytes data] => Some (Encoded data)
  | _ => None
  end.

Lemma calls_bool : de_calls deserialize_bool SBool build_bool.
Proof. by apply de_calls_leaf with VBool. Qed.

Lemma calls_str : de_calls deserialize_str SStr build_str.
Proof. by apply de_calls_leaf with VStr. Qed.

Lemma calls_u16 : de_calls deserialize_u16 SU16 build_u16.
Proof. by apply de_calls_leaf with VU16. Qed.

Lemma calls_reason_code : de_calls deserialize_reason_code SU8 build_reason_code.
Proof. apply (de_calls_map deserialize_u8 SU8 build_u8). by apply de_calls_leaf with VU8. Qed.

Lemma calls_properties : de_calls deserialize_properties PropertiesShape build_properties.
Proof.
  intros d. simpl. unfold deserialize_properties, deserialize_seq, bind, ret.
  destruct (read_varint d) as [d1 [len|e]]; [|done]. unfold set_next_bytes_len.
  cbn [de_buf de_index]. unfold next_seq_element. cbn [sa_length sa_deserializer].
  destruct (0 <? len); [|by eexists].
  destruct (deserialize_bytes _) as [d2 [data|e]]; [|done].
  destruct (usize_checked_sub _ _); [|done]. by eexists.
Qed.
#[export] Hint Resolve calls_bool calls_str calls_u16 calls_reason_code calls_properties
  de_calls_struct de_calls_option ea_calls_cons ea_calls_ret : calls.

Definition build_reason_data : Value -> option ReasonData :=
  build_struct (build_cons build_reason_code (fun code =>
    build_cons (build_option build_properties) (fun properties =>
      build_nil (mkReasonData code properties)))).

Definition build_reason : Value -> option Reason :=
  build_struct (build_cons (build_option build_reason_data) (fun reason =>
      build_nil (mkReason reason))).

Definition build_ack {A} (make : Z -> Reason -> A) : Value -> option A :=
  build_struct (build_cons build_u16 (fun packet_id =>
    build_cons build_reason (fun reason =>
      build_nil (make packet_id reason)))).

Definition build_list_ack {A} (make : Z -> Properties -> bytes -> A) : Value -> option A :=
  build_struct (build_cons build_u16 (fun packet_id =>
    build_cons build_properties (fun properties =>
      build_nil (make packet_id properties [])))).

Definition build_connack : Value -> option ConnAck :=
  build_struct (build_cons build_bool (fun session_present =>
    build_cons build_reason_code (fun reason_code =>
      build_cons build_properties (fun properties =>
      build_nil (mkConnAck session_present reason_code properties))))).

Definition build_disconnect : Value -> option Disconnect :=
  build_struct (build_cons (build_option build_reason_code) (fun reason_code =>
    build_cons (build_option build_properties) (fun properties =>
      build_nil (mkDisconnect reason_code properties)))).

Ltac solve_calls :=
  repeat first [ solve [auto with calls] | apply de_calls_struct | apply ea_calls_cons; [|intros ?]
               | apply ea_calls_ret | apply de_calls_option ].

Lemma calls_reason_data : de_calls deserialize_reason_data ReasonDataShape build_reason_data.
Proof. unfold deserialize_reason_data, build_reason_data. solve_calls. Qed.
#[export] Hint Resolve calls_reason_data : calls.

Lemma calls_reason : de_calls deserialize_reason ReasonShape build_reason.
Proof. unfold deserialize_reason, build_reason. solve_calls. Qed.
#[export] Hint Resolve calls_reason : calls.

Lemma calls_ack {A} (make : Z -> Reason -> A) : de_calls (deserialize_ack make) AckShape (build_ack make).
Proof. unfold deserialize_ack, build_ack. solve_calls. Qed.

Lemma calls_list_ack {A} (make : Z -> Properties -> bytes -> A) :
  de_calls (deserialize_list_ack make) ListAckShape (build_list_ack make).
Proof. unfold deserialize_list_ack, build_list_ack. solve_calls. Qed.

Lemma calls_connack : de_calls deserialize_connack ConnAckShape build_connack.
Proof. unfold deserialize_connack, build_connack. solve_calls. Qed.

(** The defaults of [Wire] are never used: the tuple has room for both fields. *)
Lemma disconnect_required d :
  deserialize_disconnect d =
  deserialize_tuple 2
    (let! reason_code := next_required (deserialize_option deserialize_reason_code) in
     let! properties := next_required (deserialize_option deserialize_properties) in
     ret (mkDisconnect reason_code properties)) d.
Proof.
  unfold deserialize_disconnect, deserialize_tuple, next_required, next_element, bind, ret, raise.
  cbn [ea_deserializer ea_count Z.ltb Z.compare].
  destruct (deserialize_option deserialize_reason_code d) as [d1 [c|e]]; [|done]. simpl.
  by destruct (deserialize_option deserialize_properties d1) as [d2 [p|e]].
Qed.

Lemma calls_disconnect : de_calls deserialize_disconnect DisconnectShape build_disconnect.
Proof.
  intros d. rewrite disconnect_required. revert d. unfold build_disconnect.
  apply (de_calls_struct _ [SOption SU8; SOption PropertiesShape]). solve_calls.
Qed.

(** ** Properties: an enum whose variants are numbered by the property identifier *)

Definition PropertyShape : Shape := SEnum
  [(1, NewtypeVariant SU8); (2, NewtypeVariant SU32); (3, NewtypeVariant SStr);
   (8, NewtypeVariant SStr); (9, NewtypeVariant SBytes); (11, NewtypeVariant SVarint);
   (17, NewtypeVariant SU32); (18, NewtypeVariant SStr); (19, NewtypeVariant SU16);
   (21, NewtypeVariant SStr); (22, NewtypeVariant SBytes); (23, NewtypeVariant SU8);
   (24, NewtypeVariant SU32); (25, NewtypeVariant SU8); (26, NewtypeVariant SStr);
   (28, NewtypeVariant SStr); (31, NewtypeVariant SStr); (33, NewtypeVariant SU16);
   (34, NewtypeVariant SU16); (35, NewtypeVariant SU16); (36, NewtypeVariant SU8);
   (37, NewtypeVariant SU8); (38, TupleVariant [SStr; SStr]); (39, NewtypeVariant SU32);
   (40, NewtypeVariant SU8); (41, NewtypeVariant SU8); (42, NewtypeVariant SU8)].

Definition build_property (v : Value) : option Property :=
  match v with
  | VNewtypeVariant index value =>
      match property_identifier_try_from index, value with
      | Some PropertyIdentifier.PayloadFormatIndicator, VU8 v => Some (Property.PayloadFormatIndicator v)
      | Some PropertyIdentifier.MessageExpiryInterval, VU32 v => Some (Property.MessageExpiryInterval v)
      | Some PropertyIdentifier.ContentType, VStr v => Some (Property.ContentType v)
      | Some PropertyIdentifier.ResponseTopic, VStr v => Some (Property.ResponseTopic v)
      | Some PropertyIdentifier.CorrelationData, VBytes v => Some (Property.CorrelationData v)
      | Some PropertyIdentifier.SubscriptionIdentifier, VU32 v => Some (Property.SubscriptionIdentifier v)
      | Some PropertyIdentifier.SessionExpiryInterval, VU32 v => Some (Property.SessionExpiryInterval v)
      | Some PropertyIdentifier.AssignedClientIdentifier, VStr v => Some (Property.AssignedClientIdentifier v)
      | Some PropertyIdentifier.ServerKeepAlive, VU16 v => Some (Property.ServerKeepAlive v)
      | Some PropertyIdentifier.AuthenticationMethod, VStr v => Some (Property.AuthenticationMethod v)
      | Some PropertyIdentifier.AuthenticationData, VBytes v => Some (Property.AuthenticationData v)
      | Some PropertyIdentifier.RequestProblemInformation, VU8 v => Some (Property.RequestProblemInformation v)
      | Some PropertyIdentifier.WillDelayInterval, VU32 v => Some (Property.WillDelayInterval v)
      | Some PropertyIdentifier.RequestResponseInformation, VU8 v => Some (Property.RequestResponseInformation v)
      | Some PropertyIdentifier.ResponseInformation, VStr v => Some (Property.ResponseInformation v)
      | Some PropertyIdentifier.ServerReference, VStr v => Some (Property.ServerReference v)
      | Some PropertyIdentifier.ReasonString, VStr v => Some (Property.ReasonString v)
      | Some PropertyIdentifier.ReceiveMaximum, VU16 v => Some (Property.ReceiveMaximum v)
      | Some PropertyIdentifier.TopicAliasMaximum, VU16 v => Some (Property.TopicAliasMaximum v)
      | Some PropertyIdentifier.TopicAlias, VU16 v => Some (Property.TopicAlias v)
      | Some PropertyIdentifier.MaximumQoS, VU8 v => Some (Property.MaximumQoS v)
      | Some PropertyIdentifier.RetainAvailable, VU8 v => Some (Property.RetainAvailable v)
      | Some PropertyIdentifier.MaximumPacketSize, VU32 v => Some (Property.MaximumPacketSize v)
      | Some PropertyIdentifier.WildcardSubscriptionAvailable, VU8 v => Some (Property.WildcardSubscriptionAvailable v)
      | Some PropertyIdentifier.SubscriptionIdentifierAvailable, VU8 v => Some (Property.SubscriptionIdentifierAvailable v)
      | Some PropertyIdentifier.SharedSubscriptionAvailable, VU8 v => Some (Property.SharedSubscriptionAvailable v)
      | _, _ => None
      end
  | VTupleVariant _ [VStr key; VStr value] => Some (Property.UserProperty key value)
  | _ => None
  end.

(** After the identifier: the variant asked for is the field read. *)
Lemma property_newtype {A} (m : De A) (f : A -> Value) (g : A -> Property) index shape d :
  deserialize_shape shape d = (let! x := m in ret (f x)) d ->
  (forall a, build_property (VNewtypeVariant index (f a)) = Some (g a)) ->
  match deserialize_variant index (NewtypeVariant shape) d with
  | (d', Ok v) => exists p, build_property v = Some p /\ (let! x := m in ret (g x)) d = (d', Ok p)
  | (d', Err e) => (let! x := m in ret (g x)) d = (d', Err e)
  end.
Proof.
  intros Hs Hb. cbn [deserialize_variant]. unfold newtype_variant_seed, bind at 1. rewrite Hs.
  unfold bind, ret. destruct (m d) as [d' [a|e]]; [|done]. exists (g a). by rewrite Hb.
Qed.

Lemma property_user d :
  match deserialize_variant 38 (TupleVariant [SStr; SStr]) d with
  | (d', Ok v) => exists p, build_property v = Some p /\
      (let! kv := deserialize_user_property in ret (Property.UserProperty (fst kv) (snd kv))) d = (d', Ok p)
  | (d', Err e) =>
      (let! kv := deserialize_user_property in ret (Property.UserProperty (fst kv) (snd kv))) d = (d', Err e)
  end.
Proof.
  assert (ea_calls (let! key := next_required deserialize_str in
                    let! value := next_required deserialize_str in ret (key, value))
            [SStr; SStr] (build_cons build_str (fun key => build_cons build_str (fun value =>
      build_nil (key, value))))) as Hc by solve_calls.
  specialize (Hc (mkEA d 2)). cbn [deserialize_variant]. unfold deserialize_user_property.
  set (visitor := let! key := _ in _) in *. clearbody visitor.
  unfold tuple_variant, deserialize_tuple, zlength, bind, ret.
  simpl Z.of_nat. destruct (visit_fields _ _) as [ea [vs|e]]; [|by rewrite Hc].
  destruct Hc as ([key value] & Hb & ->). exists (Property.UserProperty key value). split; [|done].
  destruct vs as [|[] [|[] [|]]]; try done; cbn in Hb; by injection Hb as <- <-.
Qed.

Ltac property_case :=
  first [ by apply property_user
        | by apply (property_newtype _ VU8) | by apply (property_newtype _ VU16)
        | by apply (property_newtype _ VU32) | by apply (property_newtype _ VStr)
        | by apply (property_newtype _ VBytes)
        | by apply (property_newtype _ (fun v => VU32 (varint_value v))) ].

Lemma deserialize_enum_eq l d :
  deserialize_shape (SEnum l) d =
  match read_varint d with
  | (d1, Ok index) =>
      match find_variant index l with
      | Ok v => deserialize_variant index v d1
      | Err e => (d1, Err e)
      end
  | (d1, Err e) => (d1, Err e)
  end.
Proof.
  cbn [deserialize_shape]. unfold deserialize_enum, variant_seed, bind, lift.
  destruct (read_varint d) as [d1 [index|e]]; [|done].
  induction l as [|[i v] l IH]; simpl; [done|]. by destruct (Z.eqb_spec i index) as [->|].
Qed.

Lemma property_identifier_read d d1 index id :
  read_varint d = (d1, Ok index) -> property_identifier_try_from index = Some id ->
  deserialize_property_identifier d = (d1, Ok id).
Proof. intros Hr Hi. unfold deserialize_property_identifier, bind. by rewrite Hr, Hi. Qed.

(** Identifiers that no variant has are refused on both sides. *)
Lemma calls_property : de_calls deserialize_property PropertyShape build_property.
Proof.
  intros d. unfold PropertyShape. rewrite deserialize_enum_eq. unfold deserialize_property.
  destruct (read_varint d) as [d1 [index|e]] eqn:Hr.
  2: { apply bind_err. unfold deserialize_property_identifier, bind. by rewrite Hr. }
  repeat match goal with
  | |- context [find_variant index ((?k, ?v) :: ?l)] =>
      change (find_variant index ((k, v) :: l)) with (if k =? index then Ok v else find_variant index l);
      destruct (Z.eqb_spec k index) as [<-|];
      [rewrite (bind_ok _ _ _ _ _ (property_identifier_read d d1 k _ Hr eq_refl)); property_case|]
  end.
  destruct (property_identifier_try_from index) as [id|] eqn:Hid.
  - assert (id = PropertyIdentifier.Invalid) as ->.
    { unfold property_identifier_try_from in Hid.
      repeat match type of Hid with
             | context [index =? ?k] => destruct (Z.eqb_spec index k); [congruence|]
             end. done. }
    by rewrite (bind_ok _ _ _ _ _ (property_identifier_read d d1 index _ Hr Hid)).
  - simpl. apply bind_err. unfold deserialize_property_identifier, bind. by rewrite Hr, Hid.
Qed.

(** The decoders of received packets and properties are what the [Deserialize]
    implementations of their types ask of the serde interface: on every deserializer state
    and input, each requests the shape of its type, and reports that result (the value
    built from what it was given, or the same error) with the cursor where the interface
    leaves it. *)
Theorem packets_call_deserializer :
  de_calls deserialize_connack ConnAckShape build_connack /\
  de_calls (deserialize_ack mkPubAck) AckShape (build_ack mkPubAck) /\
  de_calls (deserialize_ack mkPubRec) AckShape (build_ack mkPubRec) /\
  de_calls (deserialize_ack mkPubRel) AckShape (build_ack mkPubRel) /\
  de_calls (deserialize_ack mkPubComp) AckShape (build_ack mkPubComp) /\
  de_calls (deserialize_list_ack mkSubAck) ListAckShape (build_list_ack mkSubAck) /\
  de_calls (deserialize_list_ack mkUnsubAck) ListAckShape (build_list_ack mkUnsubAck) /\
  de_calls deserialize_disconnect DisconnectShape build_disconnect /\
  de_calls deserialize_properties PropertiesShape build_properties /\
  de_calls deserialize_property PropertyShape build_property.
Proof.
  auto 12 using calls_connack, calls_ack, calls_list_ack, calls_disconnect, calls_properties,
    calls_property.
Qed.
