(* ===== verification/PacketReader.v ===== *)
(** The packet reader: [src/minimq/src/de/packet_reader.rs] and the read loop
    [fill_packet_reader] of [src/minimq/src/mqtt_client/session/drive.rs].

    The reader collects one packet from the transport in its buffer. It reads
    byte by byte until the remaining length is known, then exactly the rest of
    the packet. The results: no read goes past the packet or the buffer, and
    the packet found does not depend on how the transport splits the stream,
    nor on reads that were dropped in between. *)

From S2P Require Import Prelude Varint Types Io Wire Ser De Properties Packets Received.

Record PacketReader : Type := mkPacketReader {
  buffer : bytes;
  read_bytes : Z;
  packet_length : option Z
}.

Definition PacketReader_new (buf : bytes) : PacketReader := mkPacketReader buf 0 None.

Definition reader_capacity (r : PacketReader) : Z := zlen (buffer r).

Definition probe_fixed_header : ST PacketReader ProtocolError unit :=
  fun r =>
    if read_bytes r <=? 1 then (r, Ok tt) else
    let r := mkPacketReader (buffer r) (read_bytes r) None in
    match probe_mqtt_u32_varint (zslice 1 (read_bytes r) (buffer r)) with
    | Err _ => (r, Err ProtocolError.MalformedPacket)
    | Ok None => (r, Ok tt)
    | Ok (Some (packet_length, length_size_bytes)) =>
        let header_size_bytes := 1 + length_size_bytes in
        (mkPacketReader (buffer r) (read_bytes r) (Some (header_size_bytes + packet_length)), Ok tt)
    end.

(** The window [buffer[start..end]] handed to the transport. *)
Definition receive_buffer : ST PacketReader ProtocolError (Z * Z) :=
  do! (fun r => match packet_length r with
                | None => probe_fixed_header r
                | Some _ => (r, Ok tt)
                end) in
  fun r =>
    let end_ := match packet_length r with
                | Some packet_length => packet_length
                | None => read_bytes r + 1
                end in
    if end_ <=? zlen (buffer r) then (r, Ok (read_bytes r, end_))
    else (r, Err ProtocolError.MalformedPacket).

Definition reader_commit (r : PacketReader) (count : Z) : PacketReader :=
  mkPacketReader (buffer r) (read_bytes r + count) (packet_length r).

Definition packet_available (r : PacketReader) : bool :=
  match packet_length r with
  | Some length => length <=? read_bytes r
  | None => false
  end.

Definition reader_reset (r : PacketReader) : PacketReader := mkPacketReader (buffer r) 0 None.

Definition take_packet : ST PacketReader ProtocolError (Z * ReceivedPacket) :=
  fun r =>
    match packet_length r with
    | None => (r, Err ProtocolError.MalformedPacket)
    | Some packet_length =>
        let r := reader_reset r in
        match from_buffer (ztake packet_length (buffer r)) with
        | Ok packet => (r, Ok (packet_length, packet))
        | Err e => (r, Err e)
        end
    end.

Definition received_packet : ST PacketReader ProtocolError ReceivedPacket :=
  let! p := take_packet in ret (snd p).

(** The transport's read writes into the window it is given. *)
Definition reader_store (r : PacketReader) (start : Z) (bs : bytes) : PacketReader :=
  mkPacketReader (zwrite (buffer r) start bs) (read_bytes r) (packet_length r).

Section Fill.
Context {IO E : Type} `{Transport IO E}.

(** [fill_packet_reader]. One turn of the loop reads at least one byte of the
    packet, so the buffer's length bounds the number of turns. *)
Fixpoint fill_loop (fuel : nat) : Async (PacketReader * IO) (Error E) unit :=
  match fuel with
  | O => fun s => (s, None)
  | S fuel' => fun '(r, io) =>
      if packet_available r then ((r, io), Some (Ok tt)) else
      match receive_buffer r with
      | (r, Err e) => ((r, io), Some (Err (error_of_protocol e)))
      | (r, Ok (start, end_)) =>
          if end_ =? start then ((r, io), Some (Ok tt)) else
          match io_read io (end_ - start) with
          | (io, None) => ((r, io), None)
          | (io, Some (Err err)) => ((r, io), Some (Err (Error.Transport err)))
          | (io, Some (Ok bs)) =>
              if zlen bs =? 0 then ((r, io), Some (Err Error.Disconnected)) else
              fill_loop fuel' (reader_commit (reader_store r start bs) (zlen bs), io)
          end
      end
  end.

Definition fill_fuel (r : PacketReader) : nat := S (S (length (buffer r))).

Definition fill_packet_reader (r : PacketReader) (io : IO)
  : (PacketReader * IO) * option (result (Error E) unit) :=
  fill_loop (fill_fuel r) (r, io).
End Fill.

(** * Invariant *)

(** The bytes received so far. *)
Definition received (r : PacketReader) : bytes := ztake (read_bytes r) (buffer r).

(** What a stream prefix says about its first packet: nothing yet, that its
    length is malformed, or the packet's total length. *)
Definition packet_extent (bs : bytes) : result unit (option Z) :=
  if zlen bs <=? 1 then Ok None
  else match probe_mqtt_u32_varint (zdrop 1 bs) with
       | Err e => Err e
       | Ok None => Ok None
       | Ok (Some (n, k)) => Ok (Some (1 + k + n))
       end.

(** While the length is unknown, it was still unknown one byte ago; once it is
    known, it is that of the bytes received, and not exceeded by them. *)
Definition reader_wf (r : PacketReader) : Prop :=
  0 <= read_bytes r <= zlen (buffer r) /\ all_u8 (buffer r) /\
  match packet_length r with
  | None => 1 < read_bytes r -> packet_extent (ztake (read_bytes r - 1) (buffer r)) = Ok None
  | Some l => read_bytes r <= l /\ packet_extent (received r) = Ok (Some l)
  end.

Lemma reader_wf_new buf : all_u8 buf -> reader_wf (PacketReader_new buf).
Proof. intros Hu. unfold reader_wf. simpl. split_and!; try done; zlia. Qed.

Lemma reader_wf_reset r : reader_wf r -> reader_wf (reader_reset r).
Proof. intros (_ & Hu & _). by apply reader_wf_new. Qed.

Lemma zlen_received r : reader_wf r -> zlen (received r) = read_bytes r.
Proof. intros (Hi & _). by apply zlen_ztake. Qed.

Lemma received_u8 r : reader_wf r -> all_u8 (received r).
Proof. intros (_ & Hu & _). unfold received, ztake. by apply Forall_take. Qed.

(** The extent of a prefix stays once it is known. *)
Lemma packet_extent_app bs l more :
  all_u8 bs -> packet_extent bs = Ok (Some l) -> all_u8 more ->
  packet_extent (bs ++ more) = Ok (Some l).
Proof.
  unfold packet_extent. intros Hu He Hm. rewrite zlen_app. pose proof (zlen_nonneg more).
  destruct (Z.leb_spec (zlen bs) 1); [done|].
  rewrite (proj2 (Z.leb_gt _ _)) by lia. destruct bs as [|b bs]; [by rewrite zlen_nil in *|].
  inversion_clear Hu as [|? ? _ Hu']. change (zdrop 1 (b :: bs)) with bs in He.
  change (zdrop 1 ((b :: bs) ++ more)) with (bs ++ more).
  destruct (probe_mqtt_u32_varint bs) as [[[n k]|]|] eqn:Hp; [|done|done].
  destruct (probe_inv bs Hu' n k Hp) as (Hn & -> & Hbs).
  rewrite (probe_varint_bytes (bs ++ more) n (zdrop (zlen (varint_bytes n)) bs ++ more)); try done.
  rewrite app_assoc. by rewrite <- Hbs.
Qed.

(** The byte that completes the length is the last one read. *)
Lemma packet_extent_last bs x l :
  all_u8 bs -> is_u8 x -> (1 < zlen (bs ++ [x]) -> packet_extent bs = Ok None) ->
  packet_extent (bs ++ [x]) = Ok (Some l) ->
  exists b n, bs ++ [x] = b :: varint_bytes n /\ 0 <= n /\ l = zlen (bs ++ [x]) + n.
Proof.
  intros Hu Hx Hnone He. unfold packet_extent in He.
  destruct (Z.leb_spec (zlen (bs ++ [x])) 1) as [|Hlong]; [done|]. specialize (Hnone Hlong).
  destruct bs as [|b bs]; [done|]. inversion_clear Hu as [|? ? Hb Hu'].
  change (zdrop 1 ((b :: bs) ++ [x])) with (bs ++ [x]) in He.
  assert (all_u8 (bs ++ [x])) as Hux by (apply Forall_app; split; [done|by constructor]).
  destruct (probe_mqtt_u32_varint (bs ++ [x])) as [[[n k]|]|] eqn:Hp; [|done|done].
  injection He as <-. destruct (probe_inv (bs ++ [x]) Hux n k Hp) as (Hn & -> & Hbs).
  pose proof (varint_bytes_length n (proj1 Hn)) as Hvl.
  change ((b :: bs) ++ [x]) with (b :: (bs ++ [x])). rewrite zlen_cons.
  destruct (Z.le_gt_cases (zlen (bs ++ [x])) (zlen (varint_bytes n))) as [Hle|Hlt].
  { assert (bs ++ [x] = varint_bytes n) as Heq; [|exists b, n; rewrite Heq; split_and!; [done|lia|lia]].
    rewrite Hbs at 1. rewrite (zdrop_full (zlen (varint_bytes n))) by lia. apply app_nil_r. }
  exfalso. assert (bs = varint_bytes n ++ zdrop (zlen (varint_bytes n)) bs) as Hpre.
  { rewrite zlen_app, zlen_cons, zlen_nil in Hlt.
    apply (f_equal (ztake (zlen (varint_bytes n)))) in Hbs.
    rewrite (ztake_app_le _ bs), ztake_app_exact in Hbs by zlia.
    rewrite <- Hbs at 1. symmetry. apply ztake_zdrop. }
  unfold packet_extent in Hnone. change (zdrop 1 (b :: bs)) with bs in Hnone.
  destruct (Z.leb_spec (zlen (b :: bs)) 1) as [Hs|_].
  { rewrite zlen_cons in Hs. assert (bs = []) as -> by (apply zlen_zero; zlia).
    apply (f_equal zlen) in Hpre. rewrite zlen_app, zlen_nil in Hpre. zlia. }
  by rewrite (probe_varint_bytes bs n _ Hn Hpre) in Hnone.
Qed.

Lemma received_tail r :
  reader_wf r -> 1 <= read_bytes r -> zslice 1 (read_bytes r) (buffer r) = zdrop 1 (received r).
Proof.
  intros (Hi & _) H1. unfold received. rewrite (ztake_zslice 1 (read_bytes r)) by lia.
  rewrite zdrop_app_exact; [done|]. by rewrite zlen_ztake by lia.
Qed.

(** [receive_buffer] in terms of the bytes received. *)
Lemma receive_buffer_spec r :
  reader_wf r ->
  receive_buffer r =
  match packet_extent (received r) with
  | Err _ => (mkPacketReader (buffer r) (read_bytes r) None, Err ProtocolError.MalformedPacket)
  | Ok o =>
      let r' := mkPacketReader (buffer r) (read_bytes r) o in
      let end_ := default (read_bytes r + 1) o in
      if end_ <=? zlen (buffer r) then (r', Ok (read_bytes r, end_))
      else (r', Err ProtocolError.MalformedPacket)
  end.
Proof.
  intros Hr. pose proof Hr as (Hi & _ & Hl). unfold receive_buffer, bind.
  destruct r as [b n [l|]]; cbn [packet_length read_bytes buffer] in *.
  - destruct Hl as [_ ->]. simpl. done.
  - unfold probe_fixed_header, packet_extent. rewrite zlen_received by done.
    cbn [packet_length read_bytes buffer]. destruct (Z.leb_spec n 1); [done|].
    rewrite <- (received_tail (mkPacketReader b n None)) by (done || simpl; lia).
    cbn [packet_length read_bytes buffer].
    destruct (probe_mqtt_u32_varint _) as [[[v k]|]|]; simpl; done.
Qed.

Lemma received_last r l :
  reader_wf r -> packet_length r = None -> packet_extent (received r) = Ok (Some l) ->
  exists b n, received r = b :: varint_bytes n /\ 0 <= n /\ l = read_bytes r + n.
Proof.
  intros Hr Hnone He. pose proof Hr as (Hi & Hu & Hl). rewrite Hnone in Hl.
  destruct (Z.le_gt_cases (read_bytes r) 1) as [H1|H1].
  { unfold packet_extent in He. rewrite zlen_received in He by done.
    by rewrite (proj2 (Z.leb_le _ _)) in He by lia. }
  assert (received r = ztake (read_bytes r - 1) (buffer r) ++
                       zslice (read_bytes r - 1) (read_bytes r) (buffer r)) as Hsplit
    by (apply ztake_zslice; lia).
  pose proof (zlen_zslice (read_bytes r - 1) (read_bytes r) (buffer r) ltac:(lia)) as Hz.
  assert (all_u8 (zslice (read_bytes r - 1) (read_bytes r) (buffer r))) as Hzu
    by (unfold zslice, ztake, zdrop; by apply Forall_take, Forall_drop).
  destruct (zslice (read_bytes r - 1) (read_bytes r) (buffer r)) as [|x [|y tl]];
    rewrite ?zlen_nil, ?zlen_cons in Hz; try zlia.
  rewrite <- (zlen_received r Hr), Hsplit. inversion_clear Hzu.
  apply packet_extent_last; [|done| |congruence].
  - unfold ztake. by apply Forall_take.
  - intros _. apply Hl. lia.
Qed.

Lemma received_bound r l :
  reader_wf r -> packet_extent (received r) = Ok (Some l) -> read_bytes r <= l.
Proof.
  intros Hr He. pose proof Hr as (_ & _ & Hl). destruct (packet_length r) as [l'|] eqn:Hp.
  - destruct Hl. congruence.
  - destruct (received_last r l Hr Hp He) as (_ & n & _ & Hn & ->). lia.
Qed.

(** Recording what the received bytes say about the packet. *)
Lemma reader_extent_wf r o :
  reader_wf r ->
  match packet_extent (received r) with Ok o' => o = o' | Err _ => o = None end ->
  reader_wf (mkPacketReader (buffer r) (read_bytes r) o).
Proof.
  intros Hr Ho. pose proof Hr as (Hi & Hu & Hl). split_and!; [apply Hi|apply Hi|done|].
  destruct (packet_extent (received r)) as [[l|]|] eqn:He; subst o; simpl.
  - split; [by apply received_bound|done].
  - destruct (packet_length r); [destruct Hl; congruence|done].
  - destruct (packet_length r); [destruct Hl; congruence|done].
Qed.

(** The window lies in the buffer, right after what was received, and does not
    go past the packet. *)
Lemma receive_buffer_ok r r' start end_ :
  reader_wf r -> receive_buffer r = (r', Ok (start, end_)) ->
  reader_wf r' /\ buffer r' = buffer r /\ read_bytes r' = read_bytes r /\
  start = read_bytes r /\ start <= end_ <= zlen (buffer r) /\
  match packet_length r' with
  | Some l => end_ = l
  | None => end_ = start + 1 /\ packet_extent (received r) = Ok None
  end.
Proof.
  intros Hr Hb. rewrite receive_buffer_spec in Hb by done.
  pose proof (reader_extent_wf r) as Hw.
  destruct (packet_extent (received r)) as [o|] eqn:He; [|done]. cbv zeta in Hb.
  destruct (Z.leb_spec (default (read_bytes r + 1) o) (zlen (buffer r))); [|done].
  injection Hb as <- <- <-. split_and!; try done; [by apply Hw| |by destruct o].
  destruct o as [l|]; simpl; [|lia]. by apply received_bound.
Qed.

Lemma receive_buffer_err r r' e :
  reader_wf r -> receive_buffer r = (r', Err e) ->
  e = ProtocolError.MalformedPacket /\ reader_wf r' /\ received r' = received r /\
  buffer r' = buffer r.
Proof.
  intros Hr Hb. rewrite receive_buffer_spec in Hb by done.
  pose proof (reader_extent_wf r) as Hw.
  destruct (packet_extent (received r)) as [o|] eqn:He; cbv zeta in Hb.
  - destruct (_ <=? _); [done|]. injection Hb as <- <-. split_and!; try done. by apply Hw.
  - injection Hb as <- <-. split_and!; try done. by apply Hw.
Qed.

(** Storing what the transport delivered into the window keeps the invariant. *)
Lemma reader_store_wf r end_ bs :
  reader_wf r -> packet_available r = false -> all_u8 bs -> 0 < zlen bs ->
  read_bytes r + zlen bs <= end_ <= zlen (buffer r) ->
  match packet_length r with
  | Some l => end_ = l
  | None => end_ = read_bytes r + 1 /\ packet_extent (received r) = Ok None
  end ->
  let r' := reader_commit (reader_store r (read_bytes r) bs) (zlen bs) in
  reader_wf r' /\ received r' = received r ++ bs /\ zlen (buffer r') = zlen (buffer r) /\
  read_bytes r' = read_bytes r + zlen bs.
Proof.
  intros Hr Ha Hu Hpos Hfit Hl. pose proof Hr as (Hi & Hub & Hpl).
  set (r' := reader_commit (reader_store r (read_bytes r) bs) (zlen bs)). cbv zeta.
  assert (zlen (buffer r') = zlen (buffer r)) as Hlen by (apply zlen_zwrite; lia).
  assert (received r' = received r ++ bs) as Hrec
    by (unfold received, r'; simpl; apply ztake_zwrite_through; lia).
  split_and!; try done. unfold reader_wf. split_and!.
  - simpl. lia.
  - simpl in *. rewrite Hlen. lia.
  - unfold r'. simpl. unfold zwrite. repeat (apply Forall_app; split); try done;
      unfold ztake, zdrop; [by apply Forall_take|by apply Forall_drop].
  - change (packet_length r') with (packet_length r). destruct (packet_length r) as [l|].
    + split; [simpl; lia|]. rewrite Hrec.
      apply packet_extent_app; [by apply received_u8|apply Hpl|done].
    + intros _. destruct Hl as [-> He].
      assert (ztake (read_bytes r' - 1) (buffer r') = received r) as ->; [|done].
      unfold r', received. simpl. replace (read_bytes r + zlen bs - 1) with (read_bytes r) by lia.
      apply ztake_zwrite; lia.
Qed.

(** Taking a packet that is there parses what was received. *)
Lemma take_packet_received r :
  reader_wf r -> packet_available r = true ->
  take_packet r = (reader_reset r, match from_buffer (received r) with
                                   | Ok packet => Ok (read_bytes r, packet)
                                   | Err e => Err e
                                   end) /\
  packet_extent (received r) = Ok (Some (zlen (received r))).
Proof.
  intros Hr Ha. pose proof (zlen_received r Hr) as Hz. pose proof Hr as (Hi & _ & Hl).
  unfold packet_available in Ha. unfold take_packet.
  destruct (packet_length r) as [l|]; [|done]. destruct Hl as [Hle He].
  apply Z.leb_le in Ha. assert (l = read_bytes r) as -> by lia. rewrite Hz. split; [|done].
  unfold received. simpl. by destruct (from_buffer _).
Qed.

(** * The read loop *)

Section FillProofs.
Context {IO E : Type} `{Transport IO E}.

(** One turn of the loop, for any transport. *)
Lemma fill_loop_step n r io :
  reader_wf r ->
  fill_loop (S n) (r, io) = ((r, io), Some (Ok tt)) /\ packet_available r = true \/
  (exists r' res, fill_loop (S n) (r, io) = ((r', io), Some res) /\ reader_wf r' /\
     received r' = received r /\ buffer r' = buffer r /\
     match res with
     | Ok _ => packet_available r' = true
     | Err e => e = error_of_protocol ProtocolError.MalformedPacket
     end) \/
  (exists r1 end_, reader_wf r1 /\ packet_available r1 = false /\ received r1 = received r /\
     buffer r1 = buffer r /\ read_bytes r1 = read_bytes r /\
     receive_buffer r = (r1, Ok (read_bytes r, end_)) /\
     read_bytes r < end_ <= zlen (buffer r) /\
     fill_loop (S n) (r, io) =
       match io_read io (end_ - read_bytes r) with
       | (io, None) => ((r1, io), None)
       | (io, Some (Err err)) => ((r1, io), Some (Err (Error.Transport err)))
       | (io, Some (Ok bs)) =>
           if zlen bs =? 0 then ((r1, io), Some (Err Error.Disconnected)) else
           fill_loop n (reader_commit (reader_store r1 (read_bytes r1) bs) (zlen bs), io)
       end).
Proof.
  intros Hr. cbn [fill_loop]. destruct (packet_available r) eqn:Ha; [by left|].
  destruct (receive_buffer r) as [r1 [[start end_]|e]] eqn:Hb.
  - destruct (receive_buffer_ok r r1 start end_ Hr Hb)
      as (Hr1 & Hbuf & Hrb & -> & Hend & Hl).
    assert (received r1 = received r) as Hrec by (unfold received; congruence).
    destruct (Z.eqb_spec end_ (read_bytes r)) as [->|Hne].
    + right. left. exists r1, (Ok tt). split_and!; try done.
      unfold packet_available. destruct (packet_length r1); [|lia]. subst. lia.
    + right. right. exists r1, end_. split_and!; try done; try lia.
      * unfold packet_available. destruct (packet_length r1); [|done]. subst. lia.
      * by rewrite Hrb.
  - destruct (receive_buffer_err r r1 e Hr Hb) as (-> & Hr1 & Hrec & Hbuf).
    right. left. by exists r1, (Err (error_of_protocol ProtocolError.MalformedPacket)).
Qed.

(** The state after a successful read of one turn. *)
Lemma fill_store r r1 end_ io io' bs :
  reader_wf r -> receive_buffer r = (r1, Ok (read_bytes r, end_)) ->
  packet_available r1 = false -> read_bytes r < end_ ->
  io_read io (end_ - read_bytes r) = (io', Some (Ok bs)) -> zlen bs <> 0 ->
  let r2 := reader_commit (reader_store r1 (read_bytes r1) bs) (zlen bs) in
  reader_wf r2 /\ received r2 = received r ++ bs /\ zlen (buffer r2) = zlen (buffer r) /\
  read_bytes r2 = read_bytes r + zlen bs /\ 0 < zlen bs <= end_ - read_bytes r.
Proof.
  intros Hr Hb Ha Hlt Hio Hne.
  destruct (receive_buffer_ok r r1 _ end_ Hr Hb) as (Hr1 & Hbuf & Hrb & _ & Hend & Hl).
  destruct (io_read_fits _ _ _ _ Hio) as [Hfit Hu]; [lia|]. pose proof (zlen_nonneg bs).
  assert (received r1 = received r) as Hrec by (unfold received; congruence).
  destruct (reader_store_wf r1 end_ bs Hr1 Ha Hu) as (Hw & Hrc & Hlen & Hrd);
    [lia|rewrite Hrb, Hbuf; lia|by rewrite Hrb, Hrec|].
  cbv zeta. split_and!; [done|congruence|congruence|congruence|lia|lia].
Qed.

(** Enough fuel is enough: the loop ends by itself. *)
Lemma fill_loop_enough n m r io :
  reader_wf r -> zlen (buffer r) - read_bytes r < Z.of_nat n -> (n <= m)%nat ->
  fill_loop m (r, io) = fill_loop n (r, io).
Proof.
  revert m r io. induction n as [|n IH]; intros m r io Hr Hn Hm.
  { destruct Hr. lia. }
  destruct m as [|m]; [lia|]. cbn [fill_loop].
  destruct (packet_available r) eqn:Ha; [done|].
  destruct (receive_buffer r) as [r1 [[start end_]|e]] eqn:Hb; [|done].
  destruct (receive_buffer_ok r r1 start end_ Hr Hb) as (Hr1 & Hbuf & Hrb & -> & Hend & Hl).
  destruct (Z.eqb_spec end_ (read_bytes r)); [done|].
  destruct (io_read io (end_ - read_bytes r)) as [io' [[bs|err]|]] eqn:Hio; [|done|done].
  destruct (Z.eqb_spec (zlen bs) 0); [done|].
  assert (packet_available r1 = false) as Ha1
    by (unfold packet_available; destruct (packet_length r1); [subst; lia|done]).
  destruct (fill_store r r1 end_ io io' bs Hr Hb Ha1) as (Hw & _ & Hlen & Hrd & Hpos);
    [lia|done|done|]. rewrite Hrb in *.
  apply IH; [done|rewrite Hlen, Hrd; lia|lia].
Qed.

(** For every transport: the invariant holds afterwards, what was received
    stays, and success means that a whole packet is there. *)
Lemma fill_loop_inv n r io r' io' res :
  reader_wf r -> fill_loop n (r, io) = ((r', io'), res) ->
  reader_wf r' /\ zlen (buffer r') = zlen (buffer r) /\
  (exists more, received r' = received r ++ more) /\
  (res = Some (Ok tt) -> packet_available r' = true).
Proof.
  revert r io. induction n as [|n IH]; intros r io Hr Hf.
  { injection Hf as <- <- <-. split_and!; try done. exists []. by rewrite app_nil_r. }
  assert (exists more, received r = received r ++ more) as Hrefl
    by (exists []; by rewrite app_nil_r).
  destruct (fill_loop_step n r io Hr)
    as [[Hs Ha]|[(r1 & res1 & Hs & Hr1 & Hrec & Hbuf & Hres)
       |(r1 & end_ & Hr1 & Ha & Hrec & Hbuf & Hrb & Hb & Hend & Hs)]]; rewrite Hs in Hf.
  - injection Hf as <- <- <-. by split_and!.
  - injection Hf as <- <- <-. rewrite Hrec, Hbuf. split_and!; try done. by intros [= ->].
  - destruct (io_read io (end_ - read_bytes r)) as [io2 [[bs|err]|]] eqn:Hio.
    + destruct (Z.eqb_spec (zlen bs) 0).
      { injection Hf as <- <- <-. rewrite Hrec, Hbuf. by split_and!. }
      destruct (fill_store r r1 end_ io io2 bs Hr Hb Ha) as (Hw & Hrec2 & Hlen & _ & _);
        [lia|done|done|].
      destruct (IH _ _ Hw Hf) as (Hw' & Hlen' & (more & Hmore) & Hok).
      split_and!; [done|congruence| |done]. exists (bs ++ more).
      rewrite Hmore, Hrec2. by rewrite app_assoc.
    + injection Hf as <- <- <-. rewrite Hrec, Hbuf. by split_and!.
    + injection Hf as <- <- <-. rewrite Hrec, Hbuf. by split_and!.
Qed.
End FillProofs.

(** What the reader holds after the loop is what the transport delivered to it. *)
Lemma fill_loop_received {IO E} `{Transport IO E} {T : Time} `{!Clock IO T} `{!Delivering IO E T}
    n r (io : IO) r' io' res :
  reader_wf r -> fill_loop n (r, io) = ((r', io'), res) ->
  exists more, received r' = received r ++ more /\ io_received io' = io_received io ++ more.
Proof.
  revert r io. induction n as [|n IH]; intros r io Hr Hf.
  { injection Hf as <- <- <-. exists []. by rewrite !app_nil_r. }
  destruct (fill_loop_step n r io Hr)
    as [[Hs Ha]|[(r1 & res1 & Hs & Hr1 & Hrec & Hbuf & Hres)
       |(r1 & end_ & Hr1 & Ha & Hrec & Hbuf & Hrb & Hb & Hend & Hs)]]; rewrite Hs in Hf.
  - injection Hf as <- <- <-. exists []. by rewrite !app_nil_r.
  - injection Hf as <- <- <-. exists []. by rewrite !app_nil_r.
  - destruct (io_read io (end_ - read_bytes r)) as [io2 r2] eqn:Hio.
    pose proof (read_received _ _ _ _ Hio) as Hlog. destruct r2 as [[bs|err]|].
    2,3: injection Hf as <- <- <-; exists []; by rewrite Hrec, Hlog, !app_nil_r.
    destruct (Z.eqb_spec (zlen bs) 0) as [Hz|Hz].
    { injection Hf as <- <- <-. exists []. apply zlen_zero in Hz. subst bs.
      by rewrite Hrec, Hlog, !app_nil_r. }
    destruct (fill_store r r1 end_ io io2 bs Hr Hb Ha) as (Hw & Hrec2 & _); [lia|done|done|].
    destruct (IH _ _ Hw Hf) as (more & H1 & H2). exists (bs ++ more).
    by rewrite H1, H2, Hrec2, Hlog, !app_assoc.
Qed.

(** * Streams *)

(** What a prefix of a stream says about the stream's first packet. *)
Lemma packet_extent_stream h n body rest pre suf :
  0 <= n <= MQTT_VARINT_MAX -> zlen body = n -> all_u8 (h :: varint_bytes n ++ body ++ rest) ->
  pre ++ suf = h :: varint_bytes n ++ body ++ rest ->
  packet_extent pre = Ok None /\ zlen pre < 1 + zlen (varint_bytes n) \/
  packet_extent pre = Ok (Some (zlen (h :: varint_bytes n ++ body))).
Proof.
  intros Hn Hbody Hu Hpre. destruct pre as [|x pre]; [left; split; [done|zlia]|].
  injection Hpre as -> Hpre. inversion_clear Hu as [|? ? _ Hu'].
  assert (all_u8 pre) as Hup by (rewrite <- Hpre in Hu'; by apply Forall_app in Hu' as [? _]).
  pose proof (varint_bytes_length n (proj1 Hn)) as Hvl.
  assert (forall o, probe_mqtt_u32_varint pre = Ok o ->
    packet_extent (h :: pre) = Ok (if decide (pre = []) then None else
      match o with Some (n, k) => Some (1 + k + n) | None => None end)) as Hext.
  { intros o Ho. unfold packet_extent. rewrite zlen_cons. change (zdrop 1 (h :: pre)) with pre.
    destruct (decide (pre = [])) as [->|Hne]; [done|].
    destruct (Z.leb_spec (1 + zlen pre) 1) as [Hz|_].
    - by assert (pre = []) by (apply zlen_zero; zlia).
    - rewrite Ho. by destruct o as [[? ?]|]. }
  destruct (Z.lt_ge_cases (zlen pre) (zlen (varint_bytes n))) as [Hlt|Hge].
  - left. rewrite zlen_cons. split; [|lia].
    assert (exists b tl, varint_bytes n = pre ++ b :: tl) as (b & tl & Hvb).
    { exists (default 0 (head (zdrop (zlen pre) (varint_bytes n)))),
        (tail (zdrop (zlen pre) (varint_bytes n))).
      assert (ztake (zlen pre) (varint_bytes n) = pre) as Hp.
      { rewrite <- (ztake_app_le (zlen pre) (varint_bytes n) (body ++ rest)) by lia.
        rewrite <- Hpre. by apply ztake_app_exact. }
      rewrite <- Hp at 1. rewrite <- (ztake_zdrop (zlen pre) (varint_bytes n)) at 1. f_equal.
      destruct (zdrop (zlen pre) (varint_bytes n)) eqn:Hz; [|done].
      apply (f_equal zlen) in Hz. rewrite zlen_zdrop in Hz by zlia.
      rewrite zlen_nil in Hz. lia. }
    rewrite (Hext None); [by destruct (decide _)|].
    apply (probe_none pre Hup). by exists n, b, tl.
  - right. assert (pre = varint_bytes n ++ zdrop (zlen (varint_bytes n)) pre) as Hp.
    { rewrite <- (ztake_zdrop (zlen (varint_bytes n)) pre) at 1. f_equal.
      rewrite <- (ztake_app_le _ pre suf) by lia. rewrite Hpre. by apply ztake_app_exact. }
    rewrite (Hext (Some (n, zlen (varint_bytes n)))).
    + rewrite decide_False by (intros ->; rewrite zlen_nil in Hge; lia).
      rewrite zlen_cons, zlen_app, Hbody. do 2 f_equal. lia.
    + by apply probe_varint_bytes with (zdrop (zlen (varint_bytes n)) pre).
Qed.

(** One whole packet: a header byte, the remaining length, that many bytes. *)
Definition is_packet (packet : bytes) : Prop :=
  exists h n body, packet = h :: varint_bytes n ++ body /\ zlen body = n /\
    0 <= n <= MQTT_VARINT_MAX.

Lemma packet_extent_of packet rest pre suf :
  is_packet packet -> all_u8 (packet ++ rest) -> pre ++ suf = packet ++ rest ->
  packet_extent pre = Ok None /\ zlen pre < zlen packet \/
  packet_extent pre = Ok (Some (zlen packet)).
Proof.
  intros (h & n & body & -> & Hb & Hn) Hu Hp. simpl in Hu, Hp. rewrite <- app_assoc in Hu, Hp.
  destruct (packet_extent_stream h n body rest pre suf Hn Hb Hu Hp) as [[? ?]|?]; [left|by right].
  split; [done|]. rewrite zlen_cons, zlen_app. lia.
Qed.

Lemma receive_buffer_stream r pend packet rest :
  reader_wf r -> is_packet packet -> all_u8 (packet ++ rest) ->
  received r ++ pend = packet ++ rest -> read_bytes r <= zlen packet <= zlen (buffer r) ->
  exists r1 end_, receive_buffer r = (r1, Ok (read_bytes r, end_)) /\
    read_bytes r <= end_ <= zlen packet /\
    (end_ = read_bytes r -> read_bytes r = zlen packet /\ packet_length r1 = Some (zlen packet)).
Proof.
  intros Hr Hp Hu Hs Hle. rewrite receive_buffer_spec by done.
  destruct (packet_extent_of packet rest _ _ Hp Hu Hs) as [[He Hlt]|He]; rewrite He; simpl.
  - rewrite zlen_received in Hlt by done. rewrite (proj2 (Z.leb_le _ _)) by lia.
    eexists _, _. split; [done|]. split; [lia|lia].
  - rewrite (proj2 (Z.leb_le _ _)) by lia. eexists _, _. split; [done|].
    split; [lia|]. intros ->. done.
Qed.

Section Streams.
Context {IO E : Type} `{Streaming IO E}.

(** A whole packet ahead, part of it possibly in the reader already. *)
Lemma fill_loop_stream fuel r io packet rest :
  reader_wf r -> io_open io -> is_packet packet -> all_u8 (packet ++ rest) ->
  received r ++ io_pending io = packet ++ rest -> read_bytes r <= zlen packet <= zlen (buffer r) ->
  zlen (buffer r) - read_bytes r < Z.of_nat fuel ->
  exists r' io', fill_loop fuel (r, io) = ((r', io'), Some (Ok tt)) /\ reader_wf r' /\
    received r' = packet /\ packet_length r' = Some (zlen packet) /\ io_pending io' = rest /\
    io_open io'.
Proof.
  intros Hr Ho Hp Hu. revert r io Hr Ho. induction fuel as [|fuel IH];
    intros r io Hr Ho Hs Hle Hfuel; [destruct Hr; lia|].
  assert (Hdone : read_bytes r = zlen packet -> received r = packet /\ io_pending io = rest).
  { rewrite <- (zlen_received r Hr). unfold zlen. intros Hz%Nat2Z.inj.
    by apply app_inj_1 in Hs. }
  cbn [fill_loop]. destruct (packet_available r) eqn:Ha.
  { unfold packet_available in Ha. pose proof Hr as (_ & _ & Hx).
    destruct (packet_length r) as [l|] eqn:Hl; [|done]. destruct Hx as [_ He].
    destruct (packet_extent_of packet rest _ _ Hp Hu Hs) as [[He2 _]|He2];
      rewrite He in He2; [done|]. injection He2 as ->.
    destruct Hdone as [? ?]; [lia|]. by exists r, io. }
  destruct (receive_buffer_stream r _ packet rest Hr Hp Hu Hs Hle)
    as (r1 & end_ & Hb & Hend & Heq). rewrite Hb.
  destruct (receive_buffer_ok r r1 _ end_ Hr Hb) as (Hr1 & Hbuf & Hrb & _ & _ & Hl).
  destruct (Z.eqb_spec end_ (read_bytes r)) as [->|Hne].
  { destruct Heq as [Hz Hl1]; [done|]. destruct (Hdone Hz). exists r1, io.
    split_and!; try done. unfold received in *. congruence. }
  assert (io_pending io <> []) as Hpend.
  { intros Hnil. rewrite Hnil, app_nil_r in Hs. pose proof (zlen_received r Hr) as Hz.
    rewrite Hs, zlen_app in Hz. zlia. }
  destruct (read_pending io (end_ - read_bytes r) Ho ltac:(lia) Hpend)
    as (chunk & io' & Hio & Hpos & Hpre & Ho').
  rewrite Hio. rewrite (proj2 (Z.eqb_neq _ _)) by lia.
  assert (packet_available r1 = false) as Ha1
    by (unfold packet_available; destruct (packet_length r1); [subst; lia|done]).
  destruct (fill_store r r1 end_ io io' chunk Hr Hb Ha1) as (Hw & Hrec & Hlen & Hrd & Hfit);
    [lia|done|lia|]. rewrite Hrb in *.
  apply IH; try done; [by rewrite Hrec, <- app_assoc, <- Hpre|rewrite Hrd, Hlen; lia
                      |rewrite Hrd, Hlen; lia].
Qed.
End Streams.

(** Handing off a complete packet. *)
Lemma take_packet_spec r packet :
  reader_wf r -> received r = packet -> packet_length r = Some (zlen packet) ->
  take_packet r = (reader_reset r, match from_buffer packet with
                                   | Ok p => Ok (zlen packet, p)
                                   | Err e => Err e
                                   end).
Proof.
  intros Hr Hrec Hl. unfold take_packet. rewrite Hl.
  assert (ztake (zlen packet) (buffer (reader_reset r)) = packet) as ->.
  { rewrite <- Hrec at 1. rewrite zlen_received by done. exact Hrec. }
  by destruct (from_buffer packet).
Qed.

(** * Claims *)

(** C8: the packet delivered does not depend on fragmentation. For any
    transport that delivers a byte stream, however it splits it into reads, a
    reader that already holds a part of a packet (after earlier reads that
    were dropped, or none) completes exactly that packet: the loop ends, the
    bytes it hands to the decoder are the packet's, and the bytes that follow
    are left on the transport. *)
Theorem fill_any_fragmentation {IO E} `{Streaming IO E} r (io : IO) packet rest :
  reader_wf r -> io_open io -> is_packet packet -> all_u8 (packet ++ rest) ->
  received r ++ io_pending io = packet ++ rest -> read_bytes r <= zlen packet <= zlen (buffer r) ->
  exists r' io', fill_packet_reader r io = ((r', io'), Some (Ok tt)) /\
    packet_available r' = true /\ io_pending io' = rest /\
    take_packet r' = (reader_reset r', match from_buffer packet with
                                       | Ok p => Ok (zlen packet, p)
                                       | Err e => Err e
                                       end).
Proof.
  intros Hr Ho Hp Hu Hs Hle.
  destruct (fill_loop_stream (fill_fuel r) r io packet rest Hr Ho Hp Hu Hs Hle)
    as (r' & io' & Hf & Hr' & Hrec & Hl & Hpend & _);
    [destruct Hr; unfold fill_fuel; unfold zlen; lia|].
  exists r', io'. split_and!; [done| |done|by apply take_packet_spec].
  unfold packet_available. rewrite Hl, <- Hrec, zlen_received by done. by apply Z.leb_refl.
Qed.

Lemma fill_any_fragmentation_witness :
  let io := Scripted.mkIO [[0x40; 4; 0]; [5]; [0x10; 0; 0xd0; 0]] [] [] 0 0 in
  exists r' io', fill_packet_reader (PacketReader_new (repeat 0 8)) io = ((r', io'), Some (Ok tt)) /\
    io_pending io' = [0xd0; 0] /\
    snd (take_packet r') =
      Ok (6, ReceivedPacket.PubAck (mkPubAck 5
        (mkReason (Some (mkReasonData ReasonCode.NoMatchingSubscribers (Some (Encoded []))))))).
Proof.
  intros io.
  destruct (fill_any_fragmentation (PacketReader_new (repeat 0 8)) io
              [0x40; 4; 0; 5; 0x10; 0] [0xd0; 0]) as (r' & io' & H1 & _ & H2 & H3).
  - apply reader_wf_new. by repeat constructor.
  - by repeat constructor.
  - exists 0x40, 4, [0; 5; 0x10; 0]. by vm_compute.
  - by repeat constructor.
  - by vm_compute.
  - by vm_compute.
  - exists r', io'. split_and!; [exact H1|exact H2|]. rewrite H3. by vm_compute.
Defined.

(** The read loop is safe and ends for every transport, also one that
    misbehaves or sends garbage. The reader's invariant holds whenever the loop
    is left, in particular the received bytes lie in the buffer; nothing
    received is lost, also when a read fails or is dropped; the buffer bounds
    the number of turns; and success means that a whole packet is available. *)
Theorem fill_safe {IO E} `{Transport IO E} r (io : IO) :
  reader_wf r ->
  let '((r', _), res) := fill_packet_reader r io in
  reader_wf r' /\ zlen (buffer r') = zlen (buffer r) /\
  (exists more, received r' = received r ++ more) /\
  (res = Some (Ok tt) -> packet_available r' = true) /\
  forall fuel, (length (buffer r) < fuel)%nat -> fill_loop fuel (r, io) = fill_packet_reader r io.
Proof.
  intros Hr. destruct (fill_packet_reader r io) as [[r' io'] res] eqn:Hf.
  destruct (fill_loop_inv _ _ _ _ _ _ Hr Hf) as (? & ? & ? & ?). split_and!; try done.
  intros fuel Hfuel. rewrite <- Hf. unfold fill_packet_reader. destruct Hr as (Hi & Hr).
  destruct (Nat.le_gt_cases fuel (fill_fuel r)) as [Hc|Hc].
  - symmetry. apply fill_loop_enough; [by split|unfold zlen in *; lia|done].
  - apply fill_loop_enough; [by split|unfold fill_fuel, zlen in *; lia|lia].
Qed.

Lemma fill_safe_witness :
  let io := Scripted.mkIO [[0x40; 0x84; 0]] [] [] 0 0 in
  reader_wf (fst (fst (fill_packet_reader (PacketReader_new (repeat 0 8)) io))) /\
  snd (fill_packet_reader (PacketReader_new (repeat 0 8)) io) =
    Some (Err (Error.Peer PeerError.InvalidPacket)).
Proof.
  intros io. split; [|by vm_compute].
  pose proof (fill_safe (PacketReader_new (repeat 0 8)) io) as Hf.
  destruct (fill_packet_reader (PacketReader_new (repeat 0 8)) io) as [[r' io'] res].
  apply Hf, reader_wf_new. by repeat constructor.
Defined.
