(* ===== verification/Fuzz.v ===== *)
(** * The fuzz entry points: [src/minimq/src/fuzzing.rs]

    Three harnesses that the fuzz targets call with arbitrary data: decode one buffer,
    feed a packet reader in fragments, encode one packet of ten shapes. The source drops
    their results; the model returns them, so that theorems can speak of them. Shown: the
    reader harness ends and the packets it parses are consecutive pieces of the input;
    the encoder harness produces single packets of the shape asked for, which the decoder
    accepts where it has a counterpart. *)

From S2P Require Import Prelude Varint Types Io Wire Ser De Properties Packets Received PacketReader.

(** [parse_received_packet]. *)
Definition parse_received_packet (buf : bytes) : result ProtocolError ReceivedPacket :=
  from_buffer buf.

(** * The packet reader *)

(** The loop of [drive_packet_reader]: the reader, the bytes consumed and the results of
    [received_packet]. Each turn consumes input, which bounds the number of turns. *)
Fixpoint drive_reader_loop (fuel : nat) (reader : PacketReader) (offset : Z)
    (fragment_index : nat) (input fragments : bytes)
    (parsed : list (result ProtocolError ReceivedPacket))
  : option (PacketReader * Z * list (result ProtocolError ReceivedPacket)) :=
  match fuel with
  | O => None
  | S fuel' =>
      match receive_buffer reader with
      | (reader, Err _) => Some (reader, offset, parsed)
      | (reader, Ok (start, end_)) =>
          if (end_ - start =? 0) || (zlen input <=? offset) then Some (reader, offset, parsed) else
          let requested := default 1 (fragments !! fragment_index) in
          let count := Z.min (Z.min (Z.max requested 1) (end_ - start)) (zlen input - offset) in
          let reader := reader_store reader start (zslice offset (offset + count) input) in
          let reader := reader_commit reader count in
          let '(reader, parsed) :=
            if packet_available reader then
              let '(reader, r) := received_packet reader in (reader, parsed ++ [r])
            else (reader, parsed) in
          drive_reader_loop fuel' reader (offset + count) (S fragment_index) input fragments parsed
      end
  end.

Definition drive_packet_reader (storage input fragments : bytes)
  : option (PacketReader * Z * list (result ProtocolError ReceivedPacket)) :=
  drive_reader_loop (S (length input)) (PacketReader_new storage) 0 0 input fragments [].

(** * The encoder *)

Definition fuzz_qos (qos : Z) : QoS :=
  let bits := Z.land qos 3 in
  if bits =? 0 then QoS.AtMostOnce else if bits =? 1 then QoS.AtLeastOnce else QoS.ExactlyOnce.

Definition EMPTY_PROPERTIES : list Property := [].
Definition PUBLISH_RESPONSE_TOPIC : list Property := [Property.ResponseTopic [114]].
Definition PUBLISH_USER_PROPERTY : list Property := [Property.UserProperty [107] [118]].
Definition PUBLISH_CONTENT_TYPE : list Property := [Property.ContentType [116]].
Definition SUBSCRIBE_ID : list Property := [Property.SubscriptionIdentifier 1].
Definition SHARED_USER_PROPERTY : list Property := [Property.UserProperty [97] [98]].
Definition CONNECT_SESSION : list Property := [Property.SessionExpiryInterval 1].
Definition CONNECT_LIMITS : list Property :=
  [Property.ReceiveMaximum 2; Property.MaximumPacketSize 32; Property.RequestProblemInformation 1].
Definition REASON_STRING : list Property := [Property.ReasonString [114]].
Definition REASON_USER_PROPERTY : list Property := [Property.UserProperty [120] [121]].

Definition fuzz_publish_properties (sel : Z) : list Property :=
  let bits := Z.land sel 3 in
  if bits =? 0 then EMPTY_PROPERTIES else if bits =? 1 then PUBLISH_RESPONSE_TOPIC
  else if bits =? 2 then PUBLISH_USER_PROPERTY else PUBLISH_CONTENT_TYPE.

Definition fuzz_subscribe_properties (sel : Z) : list Property :=
  if Z.land sel 1 =? 0 then EMPTY_PROPERTIES else SUBSCRIBE_ID.

Definition fuzz_generic_properties (sel : Z) : list Property :=
  if Z.land sel 1 =? 0 then EMPTY_PROPERTIES else SHARED_USER_PROPERTY.

Definition fuzz_connect_properties (sel : Z) : list Property :=
  let bits := Z.land sel 3 in
  if bits =? 0 then EMPTY_PROPERTIES else if bits =? 1 then CONNECT_SESSION else CONNECT_LIMITS.

Definition fuzz_reason (sel : Z) : Reason :=
  let code := reason_code_from sel in
  let bits := Z.land (Z.shiftr sel 4) 3 in
  if bits =? 0 then reason_from code
  else if bits =? 1 then reason_with_properties code REASON_STRING
  else reason_with_properties code REASON_USER_PROPERTY.

(** The publication and header of shape 1. *)
Definition fuzz_publication (topic payload : bytes) (qos : Z) (retain : bool) (aux : Z)
  : Publication bytes :=
  let publication := Publication_qos (Publication_new topic payload) (fuzz_qos qos) in
  let publication := if retain then Publication_retain publication else publication in
  let publication := Publication_properties publication (fuzz_publish_properties aux) in
  if Z.land aux 4 =? 0 then publication else Publication_correlate publication [105; 100].

Definition fuzz_publish_header (publication : Publication bytes) : PublishHeader :=
  mkPublishHeader (pub_topic publication)
    (if qos_gt (pub_qos publication) QoS.AtMostOnce then Some 1 else None)
    (pub_properties publication) (pub_retain publication) (pub_qos publication) false.

(** The packet of a result, which the source drops. *)
Definition packet_of {E} (r : bytes * result E bytes) : bytes * option bytes :=
  (fst r, match snd r with Ok packet => Some packet | Err _ => None end).

(** [encode_packet]: the buffer and the packet. *)
Definition fuzz_encode_packet (buf : bytes) (tag : Z) (topic payload : bytes) (qos : Z)
    (retain : bool) (aux : Z) : bytes * option bytes :=
  let tag := tag mod 10 in
  if tag =? 0 then packet_of (encode buf mkPingReq)
  else if tag =? 1 then
    let publication := fuzz_publication topic payload qos retain aux in
    let header := fuzz_publish_header publication in
    packet_of (encode_publish buf (serialize header) (publish_header_fixed_header header)
                 (bytes_payload (pub_payload publication)))
  else if tag =? 2 then
    packet_of (encode buf (mkSubscribe 1 (Slice (fuzz_subscribe_properties aux))
                             [TopicFilter_new topic]))
  else if tag =? 3 then
    packet_of (encode buf (mkUnsubscribe 1 (Slice (fuzz_generic_properties aux)) [topic]))
  else if tag =? 4 then
    packet_of (encode buf (mkConnect aux (Slice (fuzz_connect_properties (Z.shiftr aux 4))) topic
                             None None retain))
  else if tag =? 5 then packet_of (encode buf (mkPubRel 1 (fuzz_reason aux)))
  else if tag =? 6 then packet_of (encode buf (mkPubAck 1 (fuzz_reason aux)))
  else if tag =? 7 then packet_of (encode buf (mkPubRec 1 (fuzz_reason aux)))
  else if tag =? 8 then packet_of (encode buf (mkPubComp 1 (fuzz_reason aux)))
  else packet_of (encode buf Disconnect_success).

(** * What the reader harness does *)

(** A whole packet: its own length field says where it ends. *)
Definition whole_packet (p : bytes) : Prop := packet_extent p = Ok (Some (zlen p)).

(** Why the reader takes no more input: a malformed length, a packet or a length field
    that exceeds the storage, or a packet that consists of its header byte and the length
    zero. *)
Definition reader_stuck (r : PacketReader) : Prop :=
  match packet_extent (received r) with
  | Err _ => True
  | Ok (Some l) => zlen (buffer r) < l \/ exists b, received r = [b; 0]
  | Ok None => zlen (buffer r) <= read_bytes r
  end.

Lemma received_packet_spec r :
  reader_wf r -> packet_available r = true ->
  received_packet r = (reader_reset r, from_buffer (received r)) /\ whole_packet (received r).
Proof.
  intros Hr Ha. destruct (take_packet_received r Hr Ha) as [Ht He]. split; [|exact He].
  unfold received_packet, bind, ret. rewrite Ht. by destruct (from_buffer _).
Qed.

Lemma received_reset r : received (reader_reset r) = [].
Proof. done. Qed.

(** A reader that reports an error, or hands out an empty window, is stuck. *)
Lemma receive_buffer_stuck r r' e :
  reader_wf r -> receive_buffer r = (r', Err e) -> reader_stuck r'.
Proof.
  intros Hr Hb. rewrite receive_buffer_spec in Hb by done. unfold reader_stuck.
  destruct (packet_extent (received r)) as [o|] eqn:He; cbv zeta in Hb.
  - destruct (Z.leb_spec (default (read_bytes r + 1) o) (zlen (buffer r))); [done|].
    injection Hb as <- <-. unfold received in *. cbn [buffer read_bytes]. rewrite He.
    destruct o; simpl in *; lia.
  - injection Hb as <- <-. unfold received in *. cbn [buffer read_bytes]. by rewrite He.
Qed.

Lemma receive_buffer_empty r r' start :
  reader_wf r -> packet_available r = false -> receive_buffer r = (r', Ok (start, start)) ->
  reader_stuck r'.
Proof.
  intros Hr Ha Hb. destruct (receive_buffer_ok r r' _ _ Hr Hb) as (Hr' & Hbuf & Hrd & -> & _ & Hl).
  pose proof Hr' as (_ & _ & Hp). unfold reader_stuck.
  destruct (packet_length r') as [l|]; [|lia]. destruct Hp as [_ He]. rewrite He. right. subst l.
  assert (received r' = received r) as Hrec by (unfold received; congruence). rewrite Hrec in *.
  assert (packet_length r = None) as Hnone.
  { unfold packet_available in Ha. pose proof Hr as (_ & _ & Hx).
    destruct (packet_length r) as [l|]; [|done]. destruct Hx as [_ Hx]. rewrite He in Hx.
    injection Hx as <-. by rewrite Z.leb_refl in Ha. }
  destruct (received_last r _ Hr Hnone He) as (b & n & -> & Hn & Hl). exists b.
  by assert (n = 0) as -> by lia.
Qed.

(** One turn that consumes input: the reader after storing a fragment in the window. *)
Lemma reader_fragment r r1 start end_ bs :
  reader_wf r -> receive_buffer r = (r1, Ok (start, end_)) -> all_u8 bs ->
  0 < zlen bs <= end_ - start ->
  let r2 := reader_commit (reader_store r1 start bs) (zlen bs) in
  reader_wf r2 /\ received r2 = received r ++ bs /\ zlen (buffer r2) = zlen (buffer r).
Proof.
  intros Hr Hb Hu Hn. destruct (receive_buffer_ok r r1 _ _ Hr Hb) as (Hr1 & Hbuf & Hrd & -> & He & Hl).
  assert (received r1 = received r) as Hrec by (unfold received; congruence).
  rewrite <- Hrd. destruct (reader_store_wf r1 end_ bs) as (Hw & Hrc & Hlen & _); try done; try lia.
  - unfold packet_available. destruct (packet_length r1); [|done]. subst. lia.
  - rewrite Hrd, Hbuf. lia.
  - by rewrite Hrd, Hrec.
  - cbv zeta. split_and!; congruence.
Qed.

(** What the loop leaves behind when it starts with reader [r] at offset [off]: the packets
    it parsed are whole and, followed by what the reader still holds, are exactly the input
    consumed; it stopped at the end of the input or with a stuck reader. *)
Definition drives (r : PacketReader) (off : Z) (input : bytes)
    (parsed : list (result ProtocolError ReceivedPacket))
    (out : option (PacketReader * Z * list (result ProtocolError ReceivedPacket))) : Prop :=
  exists r' off' ps,
    out = Some (r', off', parsed ++ map from_buffer ps) /\
    reader_wf r' /\ zlen (buffer r') = zlen (buffer r) /\ off <= off' <= zlen input /\
    received r ++ zslice off off' input = concat ps ++ received r' /\
    Forall whole_packet ps /\ (off' = zlen input \/ reader_stuck r').

Lemma drives_stop r r1 off input parsed :
  reader_wf r1 -> buffer r1 = buffer r -> read_bytes r1 = read_bytes r -> off <= zlen input ->
  off = zlen input \/ reader_stuck r1 -> drives r off input parsed (Some (r1, off, parsed)).
Proof.
  intros Hr1 Hbuf Hrd Ho Hwhy. exists r1, off, []. unfold zslice. rewrite Z.sub_diag, ztake_0, !app_nil_r.
  unfold received. split_and!; try done; try lia; simpl; congruence.
Qed.

Lemma drives_step r r2 off mid input bs parsed parsed' out :
  0 <= off <= mid -> bs = zslice off mid input -> received r2 = received r ++ bs ->
  zlen (buffer r2) = zlen (buffer r) ->
  (drives r2 mid input parsed' out /\ parsed' = parsed) \/
  (drives (reader_reset r2) mid input parsed' out /\
   parsed' = parsed ++ [from_buffer (received r2)] /\ whole_packet (received r2)) ->
  drives r off input parsed out.
Proof.
  intros Ho -> Hrec Hlen [[Hd ->]|(Hd & -> & Hw)];
    destruct Hd as (r' & off' & ps & -> & Hr' & Hlen' & Ho' & Hcat & Hall & Hwhy).
  - exists r', off', ps. split_and!; try done; try lia.
    by rewrite (zslice_split off mid), app_assoc, <- Hrec by lia.
  - exists r', off', (received r2 :: ps). rewrite received_reset in Hcat. simpl in *.
    split_and!; try done; try lia; [by rewrite <- app_assoc| |by constructor].
    by rewrite (zslice_split off mid), app_assoc, <- Hrec, Hcat, app_assoc by lia.
Qed.

Lemma drive_reader_loop_spec fuel r off idx input fragments parsed :
  reader_wf r -> packet_available r = false -> all_u8 input -> 0 <= off <= zlen input ->
  zlen input - off < Z.of_nat fuel ->
  drives r off input parsed (drive_reader_loop fuel r off idx input fragments parsed).
Proof.
  revert r off idx parsed. induction fuel as [|fuel IH]; intros r off idx parsed Hr Hav Hu Hoff Hf; [lia|].
  cbn [drive_reader_loop]. destruct (receive_buffer r) as [r1 [[start end_]|e]] eqn:Hb.
  2: { destruct (receive_buffer_err r r1 e Hr Hb) as (_ & Hr1 & Hrec & Hbuf).
       pose proof (zlen_received r Hr). pose proof (zlen_received r1 Hr1).
       apply drives_stop; try done; [congruence|lia|right; exact (receive_buffer_stuck r r1 e Hr Hb)]. }
  destruct (receive_buffer_ok r r1 _ _ Hr Hb) as (Hr1 & Hbuf & Hrd & Hst & He & _).
  destruct (Z.eqb_spec (end_ - start) 0) as [Hz|Hz]; simpl.
  { apply drives_stop; try done; [lia|right]. assert (end_ = start) as -> by lia.
    exact (receive_buffer_empty r r1 start Hr Hav Hb). }
  destruct (Z.leb_spec (zlen input) off); [apply drives_stop; try done; lia|].
  set (count := Z.min _ _). assert (0 < count <= end_ - start /\ off + count <= zlen input) as [Hc Hfit] by lia.
  clearbody count. set (bs := zslice off (off + count) input).
  assert (zlen bs = count) as Hbs by (unfold bs; rewrite zlen_zslice; lia).
  assert (all_u8 bs) as Hub by (unfold bs, zslice, ztake, zdrop; by apply Forall_take, Forall_drop).
  destruct (reader_fragment r r1 start end_ bs Hr Hb Hub ltac:(lia)) as (Hr2 & Hrec2 & Hlen2).
  rewrite Hbs in Hr2, Hrec2, Hlen2. set (r2 := reader_commit _ _) in *.
  destruct (packet_available r2) eqn:Ha.
  - destruct (received_packet_spec r2 Hr2 Ha) as [-> Hw].
    eapply (drives_step _ r2); [|done|exact Hrec2|exact Hlen2|right]; [lia|].
    split; [|done]. apply IH; [by apply reader_wf_reset|done|done|lia|lia].
  - eapply (drives_step _ r2); [|done|exact Hrec2|exact Hlen2|left]; [lia|].
    split; [|done]. apply IH; [done|done|done|lia|lia].
Qed.

(** C37: The reader harness ends on every storage, input and fragmentation. It leaves the
    storage's length and the reader's invariant intact; the results it saw are those of
    decoding consecutive pieces of the input, each a whole packet by its own length field,
    and nothing of the input consumed is lost: what follows the last piece is still in the
    reader. It stops only at the end of the input, at a malformed length field, at a packet
    or a length field that exceeds the storage, or at a packet with no body (a header byte
    and the length zero). *)
Theorem drive_packet_reader_splits storage input fragments :
  all_u8 storage -> all_u8 input ->
  exists r offset ps,
    drive_packet_reader storage input fragments = Some (r, offset, map from_buffer ps) /\
    reader_wf r /\ zlen (buffer r) = zlen storage /\
    ztake offset input = concat ps ++ received r /\ Forall whole_packet ps /\
    (offset = zlen input \/ reader_stuck r).
Proof.
  intros Hs Hi. pose proof (zlen_nonneg input).
  destruct (drive_reader_loop_spec (S (length input)) (PacketReader_new storage) 0 0 input fragments [])
    as (r & offset & ps & Hrun & Hr & Hlen & Ho & Hcat & Hall & Hwhy);
    [by apply reader_wf_new|done|done|lia|unfold zlen; lia|].
  exists r, offset, ps. rewrite zslice_0 in Hcat. split_and!; try done.
Qed.

Lemma drive_packet_reader_splits_witness :
  exists r offset ps,
    drive_packet_reader (repeat 0 8) [64; 2; 0; 1; 80; 2; 0] [3; 1; 9] =
      Some (r, offset, map from_buffer ps) /\
    ztake offset [64; 2; 0; 1; 80; 2; 0] = concat ps ++ received r /\
    Forall whole_packet ps.
Proof.
  destruct (drive_packet_reader_splits (repeat 0 8) [64; 2; 0; 1; 80; 2; 0] [3; 1; 9])
    as (r & offset & ps & H1 & _ & _ & H2 & H3 & _);
    [repeat constructor; by vm_compute|repeat constructor; by vm_compute|].
  exists r, offset, ps. exact (conj H1 (conj H2 H3)).
Defined.

(** A PUBACK, split as above, is parsed; the PUBREC behind it is still incomplete. *)
Example drive_packet_reader_puback :
  option_map (fun '(r, offset, parsed) => (received r, offset, parsed))
    (drive_packet_reader (repeat 0 8) [64; 2; 0; 1; 80; 2; 0] [3; 1; 9]) =
  Some ([80; 2; 0], 7, [Ok (ReceivedPacket.PubAck (mkPubAck 1 (mkReason None)))]).
Proof. by vm_compute. Qed.

(** While the length is unknown the window is one byte, whatever fragment is asked for. *)
Lemma drive_reader_one fuel r off idx input fragments parsed r1 start :
  receive_buffer r = (r1, Ok (start, start + 1)) -> off < zlen input ->
  drive_reader_loop (S fuel) r off idx input fragments parsed =
  let r2 := reader_commit (reader_store r1 start (zslice off (off + 1) input)) 1 in
  let '(r3, parsed') :=
    if packet_available r2 then
      let '(r3, res) := received_packet r2 in (r3, parsed ++ [res])
    else (r2, parsed) in
  drive_reader_loop fuel r3 (off + 1) (S idx) input fragments parsed'.
Proof.
  intros Hb Ho. cbn [drive_reader_loop]. rewrite Hb.
  replace (start + 1 - start) with 1 by lia. rewrite (proj2 (Z.leb_gt _ _)) by done. simpl (1 =? 0).
  cbn [orb]. by replace (Z.min (Z.min (Z.max (default 1 (fragments !! idx)) 1) 1) (zlen input - off))
    with 1 by lia.
Qed.

(** The harness tells a complete packet from a full reader by its empty window: behind a
    packet without a body (here PINGRESP) it stops, and neither parses that packet nor
    reaches the rest of the input. [fill_packet_reader], the loop of the client, takes such
    a packet. *)
Theorem harness_stops_at_empty_packet fragments rest :
  exists r, drive_packet_reader (repeat 0 8) (208 :: 0 :: rest) fragments = Some (r, 2, []) /\
    received r = [208; 0] /\ from_buffer [208; 0] = Ok ReceivedPacket.PingResp.
Proof.
  pose proof (zlen_nonneg rest) as Hn. exists (mkPacketReader (208 :: 0 :: repeat 0 6) 2 (Some 2)).
  split; [|by vm_compute]. unfold drive_packet_reader. cbn [length].
  rewrite (drive_reader_one _ _ 0 0 _ _ _ (PacketReader_new (repeat 0 8)) 0);
    [|done|rewrite !zlen_cons; lia]. cbv beta iota zeta delta [packet_available packet_length reader_commit reader_store PacketReader_new].
  rewrite (drive_reader_one _ _ _ 1 _ _ _ (mkPacketReader (208 :: repeat 0 7) 1 None) 1);
    [|done|rewrite !zlen_cons; lia]. done.
Qed.

(** * What the encoder harness produces *)

(** The packet type of each shape. *)
Definition fuzz_message_type (tag : Z) : MessageType :=
  nth (Z.to_nat (tag mod 10))
    [MessageType.PingReq; MessageType.Publish; MessageType.Subscribe; MessageType.Unsubscribe;
     MessageType.Connect; MessageType.PubRel; MessageType.PubAck; MessageType.PubRec;
     MessageType.PubComp] MessageType.Disconnect.

(** The outcome of encoding a packet of type [m] into [buf]: the buffer keeps its length,
    and a packet that comes out is whole, has a valid header of its type and lies in the
    buffer. *)
Definition produces (m : MessageType) (buf : bytes) (out : bytes * option bytes) : Prop :=
  zlen (fst out) = zlen buf /\
  forall packet, snd out = Some packet ->
    exists off h body, packet = packet_bytes h body /\ zlen body <= MQTT_VARINT_MAX /\
      message_type h = Some m /\ flags_valid h = true /\ encoded_at (fst out) off packet.

Lemma encode_produces {T} `{PacketSpec T} (packet : T) buf :
  packet_ok packet -> zlen buf <= MQTT_VARINT_MAX ->
  produces (MESSAGE_TYPE T) buf (packet_of (encode buf packet)).
Proof.
  intros Hok Hm.
  pose proof (encode_with_offset_cases packet buf _ (packet_implements packet Hok) Hm) as Hc.
  unfold encode. destruct (encode_with_offset buf packet) as [buf' [[off p]|e]]; simpl in *;
    (split; [apply Hc|]); simpl; [|done].
  intros q [= <-]. destruct Hc as [_ (body & _ & -> & Hfit & Hat & _)].
  exists off, (fixed_header packet), body. destruct (fixed_header_type (MESSAGE_TYPE T)).
  unfold MAX_FIXED_HEADER_SIZE in *. split_and!; try done. lia.
Qed.

Lemma sendable_slice ps : Forall property_wf ps -> properties_size (Slice ps) <= MQTT_VARINT_MAX ->
  sendable (Slice ps).
Proof. by split. Qed.

Ltac selector := repeat match goal with |- context [if ?b then _ else _] => destruct b end.

Lemma fuzz_publish_properties_wf sel : Forall property_wf (fuzz_publish_properties sel).
Proof. unfold fuzz_publish_properties. selector; repeat constructor; by vm_compute. Qed.

Lemma fuzz_publication_sendable topic payload qos retain aux :
  sendable (pub_properties (fuzz_publication topic payload qos retain aux)).
Proof.
  unfold fuzz_publication, fuzz_publish_properties.
  selector; (split; [|by vm_compute]); simpl; repeat (done || constructor); by vm_compute.
Qed.

Lemma fuzz_reason_wf sel : reason_wf (fuzz_reason sel).
Proof.
  unfold fuzz_reason. generalize (reason_code_from sel). intros code.
  selector; [done| |]; (split; [|by vm_compute]); repeat constructor; by vm_compute.
Qed.

Lemma fuzz_header_id topic payload qos retain aux :
  publish_id_wf (fuzz_publish_header (fuzz_publication topic payload qos retain aux)).
Proof.
  unfold publish_id_wf, fuzz_publish_header. cbn [ph_packet_id ph_qos].
  by destruct (pub_qos _).
Qed.

(** The packet that a byte payload gives. *)
Lemma encode_publish_success header data buf :
  properties_ok (ph_properties header) -> zlen buf <= MQTT_VARINT_MAX ->
  let h := publish_header_fixed_header header in
  let '(buf', r) := encode_publish buf (serialize header) h (bytes_payload data) in
  zlen buf' = zlen buf /\
  forall packet, r = Ok packet ->
    exists off hb, enc_publish_header header = Ok hb /\ packet = packet_bytes h (hb ++ data) /\
      zlen hb + zlen data <= zlen buf /\ encoded_at buf' off packet.
Proof.
  intros Hp Hm h.
  pose proof (encode_publish_cases buf _ _ h (bytes_payload data)
    (implements_publish_header header Hp) (enc_publish_header_pos header) Hm) as Hc.
  unfold encode_publish. destruct (encode_publish_with_offset _ _ _ _) as [buf' [[off p]|e]];
    (split; [apply Hc|]); [|done].
  intros packet [= <-]. destruct Hc as [Hl (hb & slice & len & He & Hfit & Hpay & -> & Hat)].
  simpl in Hpay. unfold slice_payload in Hpay. pose proof (zlen_nonneg hb).
  set (rest := zdrop _ buf) in *. assert (zlen rest = zlen buf - (MAX_FIXED_HEADER_SIZE + zlen hb))
    as Hr by (apply zlen_zdrop; unfold MAX_FIXED_HEADER_SIZE in *; lia).
  destruct (Z.ltb_spec (zlen rest) (zlen data)); [done|]. injection Hpay as <- <-.
  pose proof (ztake_zwrite_through rest 0 data) as Ht. rewrite Z.add_0_l, ztake_0 in Ht.
  rewrite Ht in * by (zlia). exists off, hb. unfold MAX_FIXED_HEADER_SIZE in *.
  split_and!; try done. lia.
Qed.

Lemma encode_publish_produces header data buf :
  properties_ok (ph_properties header) -> zlen buf <= MQTT_VARINT_MAX ->
  produces MessageType.Publish buf
    (packet_of (encode_publish buf (serialize header) (publish_header_fixed_header header)
                  (bytes_payload data))).
Proof.
  intros Hp Hm. pose proof (encode_publish_success header data buf Hp Hm) as Hc. cbv zeta in Hc.
  destruct (encode_publish _ _ _ _) as [buf' [p|e]]; destruct Hc as [Hl Hc]; (split; [done|]);
    simpl; [|done].
  intros packet [= <-]. destruct (Hc p eq_refl) as (off & hb & _ & -> & Hfit & Hat).
  destruct (publish_header_fields (ph_qos header) (ph_retain header) (ph_dup header)) as (? & ? & _).
  eexists off, _, _. split_and!; try done. rewrite zlen_app. lia.
Qed.

(** Whatever the selectors, the topic and the payload, the encoder harness leaves the
    length of its buffer as it was, and a packet that it produces is one whole packet, with
    a valid fixed header of the type its tag selects, and lies inside the buffer. *)
Theorem fuzz_encode_packet_produces buf tag topic payload qos retain aux :
  zlen buf <= MQTT_VARINT_MAX ->
  produces (fuzz_message_type tag) buf
    (fuzz_encode_packet buf tag topic payload qos retain aux).
Proof.
  intros Hm. unfold fuzz_encode_packet, fuzz_message_type.
  assert (0 <= tag mod 10 < 10) as Ht by (apply Z.mod_pos_bound; lia). revert Ht.
  generalize (tag mod 10). intros t Ht. pose proof (reason_wf_ok _ (fuzz_reason_wf aux)) as Hr.
  destruct (Z.eqb_spec t 0) as [->|]; [by apply (encode_produces mkPingReq)|].
  destruct (Z.eqb_spec t 1) as [->|].
  { apply encode_publish_produces; [|done].
    apply properties_wf_ok, (fuzz_publication_sendable topic payload qos retain aux). }
  destruct (Z.eqb_spec t 2) as [->|]; [apply encode_produces; [|done]; unfold fuzz_subscribe_properties|].
  { simpl. selector; repeat constructor. by vm_compute. }
  destruct (Z.eqb_spec t 3) as [->|]; [apply encode_produces; [|done]; unfold fuzz_generic_properties|].
  { simpl. selector; repeat constructor. }
  destruct (Z.eqb_spec t 4) as [->|]; [apply encode_produces; [|done]; unfold fuzz_connect_properties|].
  { split; [|done]. simpl. selector; repeat constructor. }
  destruct (Z.eqb_spec t 5) as [->|]; [by apply encode_produces|].
  destruct (Z.eqb_spec t 6) as [->|]; [by apply encode_produces|].
  destruct (Z.eqb_spec t 7) as [->|]; [by apply encode_produces|].
  destruct (Z.eqb_spec t 8) as [->|]; [by apply encode_produces|].
  assert (t = 9) as -> by lia. by apply (encode_produces Disconnect_success).
Qed.

Lemma fuzz_encode_packet_produces_witness :
  produces (fuzz_message_type 27) (repeat 0 16)
    (fuzz_encode_packet (repeat 0 16) 27 [97] [1; 2] 1 true 20).
Proof. apply fuzz_encode_packet_produces. by vm_compute. Defined.

(** What the selectors ask of a publish: the QoS and the packet identifier, the
    properties (with the texts id, r, k, v, t, x and y in ASCII). *)
Definition asked_qos (qos : Z) : QoS * option Z :=
  match qos mod 4 with
  | 0 => (QoS.AtMostOnce, None)
  | 1 => (QoS.AtLeastOnce, Some 1)
  | _ => (QoS.ExactlyOnce, Some 1)
  end.

Definition asked_properties (aux : Z) : list Property :=
  (if Z.testbit aux 2 then [Property.CorrelationData [105; 100]] else []) ++
  match aux mod 4 with
  | 0 => []
  | 1 => [Property.ResponseTopic [114]]
  | 2 => [Property.UserProperty [107] [118]]
  | _ => [Property.ContentType [116]]
  end.

(** What they ask of an acknowledgement: the code and the properties of its reason. *)
Definition asked_reason (aux : Z) (r : Reason) : Prop :=
  reason_get_code r = reason_code_from aux /\
  match reason r with
  | Some (mkReasonData _ (Some properties)) => iter properties
  | _ => []
  end =
  map Ok match (aux / 16) mod 4 with
         | 0 => []
         | 1 => [Property.ReasonString [114]]
         | _ => [Property.UserProperty [120] [121]]
         end.

(** The packet asked for, for the shapes that a decoder has a counterpart of. *)
Definition asked_packet (tag : Z) (topic payload : bytes) (qos : Z) (retain : bool) (aux : Z)
    (p : ReceivedPacket) : Prop :=
  match tag mod 10 with
  | 1 => exists properties,
      iter properties = map Ok (asked_properties aux) /\
      p = ReceivedPacket.Publish
            (mkPublish topic (snd (asked_qos qos)) properties payload
               (if retain then Retain.Retained else Retain.NotRetained) (fst (asked_qos qos)) false)
  | 5 => exists r, asked_reason aux r /\ p = ReceivedPacket.PubRel (mkPubRel 1 r)
  | 6 => exists r, asked_reason aux r /\ p = ReceivedPacket.PubAck (mkPubAck 1 r)
  | 7 => exists r, asked_reason aux r /\ p = ReceivedPacket.PubRec (mkPubRec 1 r)
  | 8 => exists r, asked_reason aux r /\ p = ReceivedPacket.PubComp (mkPubComp 1 r)
  | 9 => p = ReceivedPacket.Disconnect (mkDisconnect None None)
  | _ => False
  end.

Lemma land_3 x : Z.land x 3 = x mod 4.
Proof. exact (Z.land_ones x 2 ltac:(lia)). Qed.

Lemma mod_4_cases x : x mod 4 = 0 \/ x mod 4 = 1 \/ x mod 4 = 2 \/ x mod 4 = 3.
Proof. pose proof (Z.mod_pos_bound x 4 eq_refl). lia. Qed.

(** The harness asks for what its selectors say. *)
Lemma fuzz_publication_asked topic payload qos retain aux :
  let header := fuzz_publish_header (fuzz_publication topic payload qos retain aux) in
  ph_qos header = fst (asked_qos qos) /\ ph_packet_id header = snd (asked_qos qos) /\
  ph_retain header = (if retain then Retain.Retained else Retain.NotRetained) /\
  iter (ph_properties header) = map Ok (asked_properties aux).
Proof.
  assert (Z.land aux 4 =? 0 = negb (Z.testbit aux 2)) as Hb.
  { destruct (Z.testbit aux 2) eqn:Ht; [apply Z.eqb_neq|apply Z.eqb_eq].
    - intros Hz. apply (f_equal (fun x => Z.testbit x 2)) in Hz. by rewrite Z.land_spec, Ht in Hz.
    - apply Z.bits_inj_iff'. intros n Hn. rewrite Z.land_spec, Z.bits_0.
      change 4 with (2 ^ 2). rewrite Z.pow2_bits_eqb by lia.
      destruct (Z.eqb_spec 2 n) as [<-|]; [by rewrite Ht|by rewrite andb_false_r]. }
  unfold fuzz_publication, fuzz_qos, fuzz_publish_properties, asked_qos, asked_properties.
  rewrite Hb, !land_3.
  destruct (mod_4_cases qos) as [-> |[-> |[-> | ->]]], (mod_4_cases aux) as [-> |[-> |[-> | ->]]],
    retain, (Z.testbit aux 2); by split_and!.
Qed.

Lemma fuzz_reason_asked aux : asked_reason aux (received_reason (fuzz_reason aux)).
Proof.
  unfold asked_reason, fuzz_reason. rewrite land_3, Z.shiftr_div_pow2 by lia.
  change (2 ^ 4) with 16. generalize (reason_code_from aux). intros code.
  destruct (mod_4_cases (aux / 16)) as [-> |[-> |[-> | ->]]]; by split.
Qed.

Lemma packet_of_decodes {E} (out : bytes * result E bytes) (P : ReceivedPacket -> Prop) :
  (exists buf' packet p, out = (buf', Ok packet) /\ from_buffer packet = Ok p /\ P p) ->
  exists buf' packet p, packet_of out = (buf', Some packet) /\ from_buffer packet = Ok p /\ P p.
Proof. intros (buf' & packet & p & -> & Hd & Hp). by exists buf', packet, p. Qed.

Lemma fuzz_reason_size sel :
  exists body, enc_ack 1 (fuzz_reason sel) = Ok body /\ zlen body <= 11.
Proof.
  unfold fuzz_reason. generalize (reason_code_from sel). intros code.
  selector; eexists; (split; [reflexivity|by destruct code]).
Qed.

Lemma fuzz_publication_fields topic payload qos retain aux :
  let publication := fuzz_publication topic payload qos retain aux in
  pub_topic publication = topic /\ pub_payload publication = payload.
Proof. unfold fuzz_publication. by selector. Qed.

Lemma fuzz_header_size topic payload qos retain aux :
  zlen topic < 2 ^ 16 ->
  exists hb, enc_publish_header
      (fuzz_publish_header (fuzz_publication topic payload qos retain aux)) = Ok hb /\
    0 < zlen hb <= 17 + zlen topic.
Proof.
  intros Ht. destruct (fuzz_publication_fields topic payload qos retain aux) as [Htopic _].
  pose proof (fuzz_publication_sendable topic payload qos retain aux) as Hs.
  destruct (sendable_spec _ [] Hs) as (He & _).
  unfold enc_publish_header, fuzz_publish_header.
  cbn [ph_topic ph_packet_id ph_properties]. rewrite Htopic, enc_field_ok, He by done.
  assert (zlen (sendable_bytes (pub_properties (fuzz_publication topic payload qos retain aux))) <= 13)
    as Hz by (unfold fuzz_publication, fuzz_publish_properties; selector; by vm_compute).
  destruct (qos_gt _ _); simpl; eexists; (split; [reflexivity|]);
    repeat (rewrite zlen_cons || rewrite zlen_app || rewrite zlen_nil); zlia.
Qed.

Lemma fuzz_publish_roundtrip buf topic payload qos retain aux :
  str_wf topic -> all_u8 payload -> 32 + zlen topic + zlen payload <= zlen buf ->
  zlen buf <= MQTT_VARINT_MAX ->
  let header := fuzz_publish_header (fuzz_publication topic payload qos retain aux) in
  exists buf' packet,
    encode_publish buf (serialize header) (publish_header_fixed_header header)
      (bytes_payload payload) = (buf', Ok packet) /\
    from_buffer packet = Ok (ReceivedPacket.Publish
      (mkPublish topic (ph_packet_id header) (received_properties (ph_properties header)) payload
         (ph_retain header) (ph_qos header) false)).
Proof.
  intros Ht Hp Hroom Hm header.
  destruct (fuzz_header_size topic payload qos retain aux (proj1 Ht)) as (hb & He & Hpos & Hsize).
  destruct (fuzz_publication_fields topic payload qos retain aux) as [Htopic _].
  pose proof (fuzz_publication_sendable topic payload qos retain aux) as Hs. fold header in He.
  assert (ph_topic header = topic) as Htop by done.
  pose proof (implements_publish_header header (properties_wf_ok _ (proj1 Hs))) as Hi. rewrite He in Hi.
  destruct (encode_publish_bytes buf _ hb (publish_header_fixed_header header) payload Hi)
    as (buf' & Henc); [done|lia|unfold MAX_FIXED_HEADER_SIZE; lia|].
  destruct (publish_decodes header payload hb) as (_ & Hd & _);
    [by rewrite Htop|done|done|apply fuzz_header_id|done|lia|].
  eexists buf', _. split; [exact Henc|]. by rewrite Hd, Htop.
Qed.

(** The shape of an acknowledgement. *)
Ltac fuzz_ack make wrap aux buf body :=
  let Henc := fresh in let Hdec := fresh in
  apply packet_of_decodes;
  destruct (ack_roundtrip_of make wrap 1 (fuzz_reason aux) buf body)
    as (? & ? & Henc & Hdec); try done;
  eexists _, _, _; split; [exact Henc|split; [exact Hdec|by eexists]].

(** C38: Round trip between the two harnesses. For every shape that a server may send as
    well (PUBLISH, the four acknowledgements, DISCONNECT), whatever the selectors, with a
    topic in UTF-8 of less than 2^16 bytes and a buffer that has 32 bytes more than topic
    and payload and is within the 28-bit packet length, the encoder harness produces a
    packet that the decoder harness accepts with exactly what was asked for: the topic and
    payload, the QoS of the two low bits of its selector with identifier 1 above QoS 0, the
    retain flag, and the properties its selector numbers; for an acknowledgement identifier
    1, the reason code of the selector byte and the properties that bits 4 and 5 number. *)
Theorem fuzz_roundtrip buf tag topic payload qos retain aux :
  str_wf topic -> all_u8 payload -> 32 + zlen topic + zlen payload <= zlen buf ->
  zlen buf <= MQTT_VARINT_MAX -> tag mod 10 = 1 \/ 5 <= tag mod 10 ->
  exists buf' packet p,
    fuzz_encode_packet buf tag topic payload qos retain aux = (buf', Some packet) /\
    parse_received_packet packet = Ok p /\
    asked_packet tag topic payload qos retain aux p.
Proof.
  intros Ht Hp Hroom Hm Hshape. pose proof (zlen_nonneg topic). pose proof (zlen_nonneg payload).
  destruct (fuzz_reason_size aux) as (body & He & Hbody). pose proof (fuzz_reason_wf aux) as Hr.
  unfold asked_packet, fuzz_encode_packet, parse_received_packet in *.
  assert (0 <= tag mod 10 < 10) as Htag by (apply Z.mod_pos_bound; lia). revert Htag Hshape.
  generalize (tag mod 10). intros t Htag Hshape.
  assert (MAX_FIXED_HEADER_SIZE + zlen body <= zlen buf) as Hfit by (unfold MAX_FIXED_HEADER_SIZE; lia).
  assert (zlen body <= MQTT_VARINT_MAX) as Hb by (rewrite MQTT_VARINT_MAX_eq; lia).
  assert (is_u16 1) as Hid by done. pose proof (reason_wf_ok _ Hr) as Hok.
  pose proof (fuzz_reason_asked aux) as Hasked.
  destruct Hshape as [->|Hge].
  { destruct (fuzz_publish_roundtrip buf topic payload qos retain aux Ht Hp Hroom Hm)
      as (buf' & packet & Henc & Hdec).
    destruct (fuzz_publication_fields topic payload qos retain aux) as [_ Hpay].
    destruct (fuzz_publication_asked topic payload qos retain aux) as (Hq & Hi & Hrt & Hps).
    exists buf', packet. eexists. simpl. rewrite Hpay, Henc. split; [done|]. split; [exact Hdec|].
    eexists. rewrite Hq, Hi, Hrt. split; [|done]. rewrite <- Hps. apply iter_properties_block.
    apply (fuzz_publication_sendable topic payload qos retain aux). }
  assert (t = 5 \/ t = 6 \/ t = 7 \/ t = 8 \/ t = 9) as [-> |[-> |[-> |[-> | ->]]]] by lia; simpl.
  - fuzz_ack mkPubRel ReceivedPacket.PubRel aux buf body.
  - fuzz_ack mkPubAck ReceivedPacket.PubAck aux buf body.
  - fuzz_ack mkPubRec ReceivedPacket.PubRec aux buf body.
  - fuzz_ack mkPubComp ReceivedPacket.PubComp aux buf body.
  - apply packet_of_decodes.
    destruct (encode_spec Disconnect_success buf []) as (buf' & Hbuf); try done;
      [unfold MAX_FIXED_HEADER_SIZE; zlia|].
    eexists buf', _, _. split; [exact Hbuf|]. split; [by vm_compute|done].
Qed.

Lemma fuzz_roundtrip_witness :
  exists buf' packet p,
    fuzz_encode_packet (repeat 0 64) 1 [97; 47; 98] [7; 8] 2 true 7 = (buf', Some packet) /\
    parse_received_packet packet = Ok p /\
    asked_packet 1 [97; 47; 98] [7; 8] 2 true 7 p.
Proof.
  apply (fuzz_roundtrip (repeat 0 64) 1 [97; 47; 98] [7; 8] 2 true 7).
  - by vm_compute.
  - repeat constructor; by vm_compute.
  - by vm_compute.
  - by vm_compute.
  - left. reflexivity.
Defined.
