(* ===== verification/Outbound.v ===== *)
(** Outbound state: [src/minimq/src/mqtt_client/outbound.rs], with the operation
    handles of [src/minimq/src/mqtt_client/mod.rs].

    One byte arena holds the encoded packets that wait for an acknowledgement,
    packed from its start in the order of [retained]; the rest is scratch
    space. Two more tables hold the short packets to send: acknowledgements and
    pings ([pending_control]) and PUBRELs ([pending_release]).

    The abstract state of the arena is the list of packets [view]: each entry
    with its bytes. The theorems show every operation as a plain list operation
    on it. *)

From S2P Require Import Prelude Varint Types Wire Ser De Properties Packets.

Module OpKind.
Inductive OpKind : Type := PublishAtLeastOnce | PublishExactlyOnce | Subscribe | Unsubscribe.
End OpKind.
Abbreviation OpKind := OpKind.OpKind.

#[export] Instance OpKind_eq_dec : EqDecision OpKind.
Proof. solve_decision. Defined.

Record Op : Type := mkOp { op_kind : OpKind; op_packet_id : Z; op_generation : Z }.

Definition CONTROL_PACKET_WORKSPACE : Z := MAX_FIXED_HEADER_SIZE + 4.
Definition MAX_RETAINED : nat := 8.
Definition MAX_PENDING_CONTROL : nat := 8.
Definition MAX_PENDING_RELEASE : nat := 8.

Module ControlAction.
Inductive ControlAction : Type :=
| PubAck (packet_id : Z) (reason : ReasonCode)
| PubRec (packet_id : Z) (reason : ReasonCode)
| PubComp (packet_id : Z) (reason : ReasonCode)
| PingReq.
End ControlAction.
Abbreviation ControlAction := ControlAction.ControlAction.

#[export] Instance ControlAction_eq_dec : EqDecision ControlAction.
Proof. solve_decision. Defined.

Inductive SendState : Type := Write (written : Z) | Flush | Sent.

#[export] Instance SendState_eq_dec : EqDecision SendState.
Proof. solve_decision. Defined.

Definition set_written (written len : Z) : SendState :=
  if len <=? written then Flush else Write written.

Definition write_offset (s : SendState) (in_progress : bool) : option Z :=
  match s with
  | Write written =>
      if Bool.eqb (negb (written =? 0)) in_progress then Some written else None
  | _ => None
  end.

Record PendingControl : Type := mkPendingControl { pc_action : ControlAction; pc_state : SendState }.
Record PendingRelease : Type := mkPendingRelease {
  pr_packet_id : Z; pr_reason : ReasonCode; pr_state : SendState }.
Record RetainedPacket : Type := mkRetainedPacket {
  rp_kind : OpKind; rp_packet_id : Z; rp_len : Z; rp_state : SendState }.

Record RetainedStep : Type := mkRetainedStep {
  rs_packet_id : Z; rs_offset : Z; rs_len : Z; rs_written : Z }.
Record ReleaseStep : Type := mkReleaseStep {
  ls_packet_id : Z; ls_reason : ReasonCode; ls_written : Z }.
Record ControlStep : Type := mkControlStep {
  cs_index : nat; cs_action : ControlAction; cs_written : Z }.

Inductive OutboundStep : Type :=
| ControlOut (step : ControlStep)
| ReleaseOut (step : ReleaseStep)
| RetainedOut (step : RetainedStep).

Record Outbound : Type := mkOutbound {
  out_buf : bytes;
  connect_workspace : Z;
  pending_control : list PendingControl;
  retained : list RetainedPacket;
  pending_release : list PendingRelease
}.

(** Field updates. *)
Definition set_out_buf (o : Outbound) (b : bytes) : Outbound :=
  mkOutbound b (connect_workspace o) (pending_control o) (retained o) (pending_release o).
Definition set_pending_control (o : Outbound) (l : list PendingControl) : Outbound :=
  mkOutbound (out_buf o) (connect_workspace o) l (retained o) (pending_release o).
Definition set_retained (o : Outbound) (l : list RetainedPacket) : Outbound :=
  mkOutbound (out_buf o) (connect_workspace o) (pending_control o) l (pending_release o).
Definition set_pending_release (o : Outbound) (l : list PendingRelease) : Outbound :=
  mkOutbound (out_buf o) (connect_workspace o) (pending_control o) (retained o) l.

Definition Outbound_new (buf : bytes) : Outbound := mkOutbound buf 0 [] [] [].

Definition clear_inflight (o : Outbound) : Outbound :=
  mkOutbound (out_buf o) (connect_workspace o) [] [] [].

Definition is_empty {A} (l : list A) : bool := match l with [] => true | _ => false end.

Definition has_pending_state (o : Outbound) : bool :=
  negb (is_empty (pending_control o)) || negb (is_empty (retained o)) ||
  negb (is_empty (pending_release o)).

Definition is_quiescent (o : Outbound) : bool := negb (has_pending_state o).

Definition retained_full (o : Outbound) : bool := (MAX_RETAINED <=? length (retained o))%nat.

Definition retained_bytes (o : Outbound) : Z := sum_by rp_len (retained o).

Definition capacity (o : Outbound) : Z := zlen (out_buf o).

Definition pending_control_len (o : Outbound) : nat := length (pending_control o).

Definition max_inflight : Z := Z.of_nat (Nat.min MAX_RETAINED MAX_PENDING_RELEASE).

Definition scratch_len (o : Outbound) : Z :=
  usize_saturating_sub (zlen (out_buf o)) (retained_bytes o).

Definition retained_capacity (o : Outbound) : Z := zlen (out_buf o) - connect_workspace o.

Definition can_retain (o : Outbound) : bool :=
  (length (retained o) <? MAX_RETAINED)%nat &&
  (MAX_FIXED_HEADER_SIZE <=? usize_saturating_sub (retained_capacity o) (retained_bytes o)).

(** [&mut buf[used..]]: the slice, and the buffer with a new slice. *)
Definition scratch_space (o : Outbound) : bytes := zdrop (retained_bytes o) (out_buf o).
Definition set_scratch_space (o : Outbound) (s : bytes) : Outbound :=
  set_out_buf o (ztake (retained_bytes o) (out_buf o) ++ s).

Definition set_connect_workspace (o : Outbound) (len : Z) : Outbound * result ResourceError unit :=
  match usize_checked_sub (zlen (out_buf o)) len with
  | None => (o, Err ResourceError.BufferTooSmall)
  | Some capacity =>
      if capacity <? retained_bytes o then (o, Err ResourceError.BufferTooSmall)
      else (mkOutbound (out_buf o) len (pending_control o) (retained o) (pending_release o), Ok tt)
  end.

Definition queue_control (o : Outbound) (action : ControlAction)
  : Outbound * result ProtocolError unit :=
  match vec_push MAX_PENDING_CONTROL (pending_control o) (mkPendingControl action (Write 0)) with
  | Some l => (set_pending_control o l, Ok tt)
  | None => (o, Err ProtocolError.InflightMetadataExhausted)
  end.

Definition has_pending_pingreq (o : Outbound) : bool :=
  existsb (fun entry => bool_decide (pc_action entry = ControlAction.PingReq) &&
                        negb (bool_decide (pc_state entry = Sent))) (pending_control o).

Definition is_retained_op (kind : OpKind) (packet_id : Z) (entry : RetainedPacket) : bool :=
  bool_decide (rp_kind entry = kind) && (rp_packet_id entry =? packet_id).

Definition ack_packet (o : Outbound) (kind : OpKind) (packet_id : Z) : Outbound * bool :=
  match position (is_retained_op kind packet_id) (retained o) with
  | None => (o, false)
  | Some position =>
      let offset := sum_by rp_len (take position (retained o)) in
      let len := match retained o !! position with Some entry => rp_len entry | None => 0 end in
      let used := retained_bytes o in
      let buf := copy_within (out_buf o) (offset + len) used offset in
      (mkOutbound buf (connect_workspace o) (pending_control o) (delete position (retained o))
         (pending_release o), true)
  end.

Definition has_retained (o : Outbound) (packet_id : Z) : bool :=
  existsb (fun entry => rp_packet_id entry =? packet_id) (retained o).

Definition queue_release (o : Outbound) (packet_id : Z) (reason : ReasonCode)
  : Outbound * result ProtocolError unit :=
  match vec_push MAX_PENDING_RELEASE (pending_release o)
          (mkPendingRelease packet_id reason (Write 0)) with
  | Some l => (set_pending_release o l, Ok tt)
  | None => (o, Err ProtocolError.InflightMetadataExhausted)
  end.

Definition ack_release (o : Outbound) (packet_id : Z) : Outbound * bool :=
  match position (fun pending => pr_packet_id pending =? packet_id) (pending_release o) with
  | None => (o, false)
  | Some position => (set_pending_release o (swap_remove (pending_release o) position), true)
  end.

Definition has_pending_release (o : Outbound) (packet_id : Z) : bool :=
  existsb (fun pending => pr_packet_id pending =? packet_id) (pending_release o).

Definition is_publish (kind : OpKind) : bool :=
  match kind with
  | OpKind.PublishAtLeastOnce | OpKind.PublishExactlyOnce => true
  | OpKind.Subscribe | OpKind.Unsubscribe => false
  end.

(** The loop of [mark_publish_dup]. [buf[offset]] is in range for the entries
    of a well-formed state, see [mark_publish_dup_view]. *)
Fixpoint mark_publish_dup_loop (entries : list RetainedPacket) (offset : Z) (buf : bytes) : bytes :=
  match entries with
  | [] => buf
  | entry :: entries' =>
      let buf :=
        if is_publish (rp_kind entry) then
          match zget buf offset with
          | Some b => zwrite buf offset [mark_publish_duplicate b]
          | None => buf
          end
        else buf in
      mark_publish_dup_loop entries' (offset + rp_len entry) buf
  end.

Definition mark_publish_dup (o : Outbound) : Outbound :=
  set_out_buf o (mark_publish_dup_loop (retained o) 0 (out_buf o)).

Definition pack_encoded (o : Outbound) (offset len : Z) : Outbound * result ResourceError unit :=
  let start := retained_bytes o in
  if usize_saturating_sub (retained_capacity o) start <? len
  then (o, Err ResourceError.BufferTooSmall)
  else (set_out_buf o (copy_within (out_buf o) (start + offset) (start + offset + len) start),
        Ok tt).

(** [&mut buf[start..end]] replaced by the slice an encoder leaves. *)
Definition set_slice (o : Outbound) (i j : Z) (s : bytes) : Outbound :=
  set_out_buf o (ztake i (out_buf o) ++ s ++ zdrop j (out_buf o)).

Definition encode_publish_out {P E} (o : Outbound) (header : PublishHeader) (payload : ToPayload P)
  : Outbound * result (PubError P E) Z :=
  let start := retained_bytes o in
  let end_ := retained_capacity o in
  let '(slice, r) := encode_publish_with_offset (zslice start end_ (out_buf o))
                       (serialize header) (publish_header_fixed_header header) payload in
  let o := set_slice o start end_ slice in
  match r with
  | Err e => (o, Err (pub_error_of_ser e))
  | Ok (offset, packet) =>
      let len := zlen packet in
      match pack_encoded o offset len with
      | (o, Err err) => (o, Err (PubError.Session (Error.Resource err)))
      | (o, Ok _) => (o, Ok len)
      end
  end.

Definition encode_packet {T} `{Serialize T, ControlPacket T} (o : Outbound) (packet : T)
  : Outbound * result ProtocolError Z :=
  let start := retained_bytes o in
  let '(slice, r) := encode_with_offset (zdrop start (out_buf o)) packet in
  let o := set_slice o start (zlen (out_buf o)) slice in
  match r with
  | Err e => (o, Err (ProtocolError.Encode e))
  | Ok (offset, packet) =>
      let len := zlen packet in
      match pack_encoded o offset len with
      | (o, Err _) => (o, Err (ProtocolError.Encode SerError.InsufficientMemory))
      | (o, Ok _) => (o, Ok len)
      end
  end.

Definition retained_packet (o : Outbound) (offset len : Z) : bytes :=
  zslice offset (offset + len) (out_buf o).

Definition retain_packet (o : Outbound) (kind : OpKind) (packet_id len : Z)
  : Outbound * result ProtocolError unit :=
  match vec_push MAX_RETAINED (retained o) (mkRetainedPacket kind packet_id len (Write 0)) with
  | Some l => (set_retained o l, Ok tt)
  | None => (o, Err ProtocolError.InflightMetadataExhausted)
  end.

(** [if state == Flush { state = Sent }]. *)
Definition flushed (s : SendState) : SendState := match s with Flush => Sent | s => s end.

Definition set_pr_state (p : PendingRelease) (s : SendState) : PendingRelease :=
  mkPendingRelease (pr_packet_id p) (pr_reason p) s.
Definition set_rp_state (p : RetainedPacket) (s : SendState) : RetainedPacket :=
  mkRetainedPacket (rp_kind p) (rp_packet_id p) (rp_len p) s.
Definition set_pc_state (p : PendingControl) (s : SendState) : PendingControl :=
  mkPendingControl (pc_action p) s.

Definition complete_flush (o : Outbound) : Outbound :=
  mkOutbound (out_buf o) (connect_workspace o)
    (base.filter (fun p => pc_state p <> Flush) (pending_control o))
    (map (fun p => set_rp_state p (flushed (rp_state p))) (retained o))
    (map (fun p => set_pr_state p (flushed (pr_state p))) (pending_release o)).

(** The three scans of [next_step]. *)
Fixpoint next_control (in_progress : bool) (index : nat) (l : list PendingControl)
  : option ControlStep :=
  match l with
  | [] => None
  | entry :: l' =>
      match write_offset (pc_state entry) in_progress with
      | Some written => Some (mkControlStep index (pc_action entry) written)
      | None => next_control in_progress (S index) l'
      end
  end.

Fixpoint next_release (in_progress : bool) (l : list PendingRelease) : option ReleaseStep :=
  match l with
  | [] => None
  | entry :: l' =>
      match write_offset (pr_state entry) in_progress with
      | Some written => Some (mkReleaseStep (pr_packet_id entry) (pr_reason entry) written)
      | None => next_release in_progress l'
      end
  end.

Fixpoint next_retained (in_progress : bool) (offset : Z) (l : list RetainedPacket)
  : option RetainedStep :=
  match l with
  | [] => None
  | entry :: l' =>
      match write_offset (rp_state entry) in_progress with
      | Some written => Some (mkRetainedStep (rp_packet_id entry) offset (rp_len entry) written)
      | None => next_retained in_progress (offset + rp_len entry) l'
      end
  end.

Definition next_step_pass (o : Outbound) (in_progress : bool) : option OutboundStep :=
  match next_control in_progress 0 (pending_control o) with
  | Some step => Some (ControlOut step)
  | None =>
      match next_release in_progress (pending_release o) with
      | Some step => Some (ReleaseOut step)
      | None =>
          match next_retained in_progress 0 (retained o) with
          | Some step => Some (RetainedOut step)
          | None => None
          end
      end
  end.

(** [for in_progress in [true, false]]. *)
Definition next_step (o : Outbound) : option OutboundStep :=
  match next_step_pass o true with
  | Some step => Some step
  | None => next_step_pass o false
  end.

Definition set_control_written (o : Outbound) (index : nat) (written len : Z) : Outbound * bool :=
  match pending_control o !! index with
  | Some entry =>
      (set_pending_control o
         (<[index := set_pc_state entry (set_written written len)]> (pending_control o)), true)
  | None => (o, false)
  end.

Definition set_retained_written (o : Outbound) (packet_id written len : Z) : Outbound * bool :=
  match update_first (fun entry => rp_packet_id entry =? packet_id)
          (fun entry => set_rp_state entry (set_written written len)) (retained o) with
  | Some l => (set_retained o l, true)
  | None => (o, false)
  end.

Definition set_release_written (o : Outbound) (packet_id written len : Z) : Outbound * bool :=
  match update_first (fun entry => pr_packet_id entry =? packet_id)
          (fun entry => set_pr_state entry (set_written written len)) (pending_release o) with
  | Some l => (set_pending_release o l, true)
  | None => (o, false)
  end.

Definition arm_replay (o : Outbound) : Outbound :=
  if negb (has_pending_state o) then o else
  let o := mark_publish_dup o in
  mkOutbound (out_buf o) (connect_workspace o)
    (map (fun entry => set_pc_state entry (Write 0)) (pending_control o))
    (map (fun entry => set_rp_state entry (Write 0)) (retained o))
    (map (fun entry => set_pr_state entry (Write 0)) (pending_release o)).

(** * Control packets *)

Definition encode_control_packet (buffer : bytes) (packet : ControlAction)
  : bytes * result ProtocolError bytes :=
  let '(buffer, r) :=
    match packet with
    | ControlAction.PubAck packet_id reason =>
        encode buffer (mkPubAck packet_id (reason_from reason))
    | ControlAction.PubRec packet_id reason =>
        encode buffer (mkPubRec packet_id (reason_from reason))
    | ControlAction.PubComp packet_id reason =>
        encode buffer (mkPubComp packet_id (reason_from reason))
    | ControlAction.PingReq => encode buffer mkPingReq
    end in
  (buffer, map_err ProtocolError.Encode r).

Definition encode_pubrel (buffer : bytes) (packet_id : Z) (reason : ReasonCode)
  : bytes * result ProtocolError bytes :=
  let '(buffer, r) := encode buffer (mkPubRel packet_id (reason_from reason)) in
  (buffer, map_err ProtocolError.Encode r).

(** [maximum_packet_size.is_some_and(|max| len > max as usize)]. *)
Definition exceeds (maximum_packet_size : option Z) (len : Z) : bool :=
  match maximum_packet_size with Some max => max <? len | None => false end.

Definition require_packet_size_of (maximum_packet_size : option Z) (len : Z)
  : result ProtocolError unit :=
  if exceeds maximum_packet_size len then Err ProtocolError.PacketTooLarge else Ok tt.

Definition serialize_control_packet {E} (buffer : bytes) (packet : ControlAction)
    (maximum_packet_size : option Z) : result (Error E) bytes :=
  match snd (encode_control_packet buffer packet) with
  | Err e => Err (error_of_protocol e)
  | Ok bs =>
      if exceeds maximum_packet_size (zlen bs)
      then Err (Error.Resource ResourceError.PacketTooLarge) else Ok bs
  end.

Definition serialize_pubrel {E} (buffer : bytes) (packet_id : Z) (reason : ReasonCode)
    (maximum_packet_size : option Z) : result (Error E) bytes :=
  match snd (encode_pubrel buffer packet_id reason) with
  | Err e => Err (error_of_protocol e)
  | Ok bs =>
      if exceeds maximum_packet_size (zlen bs)
      then Err (Error.Resource ResourceError.PacketTooLarge) else Ok bs
  end.

(** [[0u8; CONTROL_PACKET_WORKSPACE]]. *)
Definition control_workspace : bytes := repeat 0 (Z.to_nat CONTROL_PACKET_WORKSPACE).

Definition check_control_packet_size (maximum_packet_size : option Z) (action : ControlAction)
  : result ProtocolError unit :=
  let? bs := snd (encode_control_packet control_workspace action) in
  require_packet_size_of maximum_packet_size (zlen bs).

Definition check_pubrel_size (maximum_packet_size : option Z) (packet_id : Z) (reason : ReasonCode)
  : result ProtocolError unit :=
  let? bs := snd (encode_pubrel control_workspace packet_id reason) in
  require_packet_size_of maximum_packet_size (zlen bs).

(** * The abstract state *)

Record Entry : Type := mkEntry {
  entry_kind : OpKind; entry_id : Z; entry_bytes : bytes; entry_state : SendState }.

(** The entries with their bytes, from [offset] on. *)
Fixpoint view_from (buf : bytes) (offset : Z) (l : list RetainedPacket) : list Entry :=
  match l with
  | [] => []
  | e :: l' =>
      mkEntry (rp_kind e) (rp_packet_id e) (zslice offset (offset + rp_len e) buf) (rp_state e)
      :: view_from buf (offset + rp_len e) l'
  end.

Definition view (o : Outbound) : list Entry := view_from (out_buf o) 0 (retained o).

(** The invariant: every packet is non-empty, the packets and the workspace
    reserved for CONNECT fit the arena together, and the tables their
    capacity. The arena is at most as long as the largest remaining length
    (256 MiB), so that a packet that fits it can be encoded. *)
Definition out_wf (o : Outbound) : Prop :=
  Forall (fun e => 0 < rp_len e) (retained o) /\
  0 <= connect_workspace o /\ retained_bytes o + connect_workspace o <= zlen (out_buf o) /\
  (length (retained o) <= MAX_RETAINED)%nat /\
  (length (pending_control o) <= MAX_PENDING_CONTROL)%nat /\
  (length (pending_release o) <= MAX_PENDING_RELEASE)%nat /\
  zlen (out_buf o) <= MQTT_VARINT_MAX.

Lemma retained_nonneg l : Forall (fun e => 0 < rp_len e) l -> 0 <= sum_by rp_len l.
Proof. intros Hl. apply sum_by_nonneg. eapply Forall_impl; [exact Hl|]. simpl. lia. Qed.

(** The retained packets end before the scratch space, which always has room
    for the workspace of the next CONNECT. *)
Lemma out_wf_bounds o :
  out_wf o -> 0 <= retained_bytes o /\ retained_bytes o <= zlen (out_buf o) /\
  retained_bytes o <= retained_capacity o <= zlen (out_buf o).
Proof.
  intros (Hl & Hw & Hb & _). pose proof (retained_nonneg _ Hl).
  unfold retained_capacity. fold (retained_bytes o) in *. lia.
Qed.

Lemma view_from_app buf off l1 l2 :
  view_from buf off (l1 ++ l2) =
  view_from buf off l1 ++ view_from buf (off + sum_by rp_len l1) l2.
Proof.
  revert off. induction l1 as [|e l1 IH]; intros off; simpl; [by rewrite Z.add_0_r|].
  rewrite IH. unfold sum_by. simpl. by rewrite Z.add_assoc.
Qed.

Lemma length_view_from buf off l : length (view_from buf off l) = length l.
Proof. revert off. induction l as [|e l IH]; intros off; simpl; [done|]. by rewrite IH. Qed.

(** The view depends only on the packets' bytes, wherever they lie. *)
Lemma view_from_ext b1 b2 off1 off2 l :
  Forall (fun e => 0 < rp_len e) l -> 0 <= off1 -> 0 <= off2 ->
  off1 + sum_by rp_len l <= zlen b1 -> off2 + sum_by rp_len l <= zlen b2 ->
  zslice off1 (off1 + sum_by rp_len l) b1 = zslice off2 (off2 + sum_by rp_len l) b2 ->
  view_from b1 off1 l = view_from b2 off2 l.
Proof.
  intros Hl. revert off1 off2. induction Hl as [|e l He Hl IH]; intros off1 off2 H1 H2 Hf1 Hf2 Hs;
    [done|]. pose proof (retained_nonneg _ Hl) as Hn.
  change (sum_by rp_len (e :: l)) with (rp_len e + sum_by rp_len l) in *.
  rewrite (zslice_split off1 (off1 + rp_len e)), (zslice_split off2 (off2 + rp_len e)) in Hs by lia.
  assert (length (zslice off1 (off1 + rp_len e) b1) = length (zslice off2 (off2 + rp_len e) b2))
    as Hlen.
  { apply Nat2Z.inj. change (zlen (zslice off1 (off1 + rp_len e) b1) =
      zlen (zslice off2 (off2 + rp_len e) b2)). rewrite !zlen_zslice; lia. }
  apply app_inj_1 in Hs as [Hs1 Hs2]; [|done]. simpl. rewrite Hs1. f_equal.
  apply IH; try lia. by rewrite <- !Z.add_assoc.
Qed.

(** Changing only bytes behind the packets keeps them. *)
Lemma view_prefix o buf :
  out_wf o -> ztake (retained_bytes o) buf = ztake (retained_bytes o) (out_buf o) ->
  zlen buf = zlen (out_buf o) -> view (set_out_buf o buf) = view o.
Proof.
  intros Hw Ht Hlen. destruct (out_wf_bounds o Hw) as (H0 & H1 & _). destruct Hw as (Hl & _).
  apply view_from_ext; try done; unfold retained_bytes in *; simpl in *; try lia.
  by rewrite !Z.add_0_l, !zslice_0.
Qed.

Lemma out_wf_buf o buf :
  out_wf o -> zlen buf = zlen (out_buf o) -> out_wf (set_out_buf o buf).
Proof. intros (? & ? & ? & ?) Hlen. unfold out_wf, retained_bytes in *. simpl. by rewrite Hlen. Qed.

(** * Acknowledgement *)

Definition is_entry (kind : OpKind) (packet_id : Z) (e : Entry) : bool :=
  bool_decide (entry_kind e = kind) && (entry_id e =? packet_id).

Lemma position_view f g buf off l :
  (forall e off, f e = g (mkEntry (rp_kind e) (rp_packet_id e) (zslice off (off + rp_len e) buf)
                             (rp_state e))) ->
  position g (view_from buf off l) = position f l.
Proof.
  intros Hf. revert off. induction l as [|e l IH]; intros off; simpl; [done|].
  rewrite <- Hf. destruct (f e); [done|]. by rewrite IH.
Qed.

Lemma ack_packet_view o kind packet_id :
  out_wf o ->
  match position (is_entry kind packet_id) (view o) with
  | None => ack_packet o kind packet_id = (o, false)
  | Some i => exists o', ack_packet o kind packet_id = (o', true) /\ out_wf o' /\
      view o' = delete i (view o) /\ zlen (out_buf o') = zlen (out_buf o) /\
      connect_workspace o' = connect_workspace o /\
      pending_control o' = pending_control o /\ pending_release o' = pending_release o /\
      retained o' = delete i (retained o)
  end.
Proof.
  intros Hw. unfold view. rewrite (position_view (is_retained_op kind packet_id)) by done.
  unfold ack_packet. destruct (position _ (retained o)) as [i|] eqn:Hp; [|done].
  apply position_some in Hp as (l1 & e & l2 & Hret & <- & _ & _).
  destruct (out_wf_bounds o Hw) as (Hb0 & Hb1 & _).
  pose proof Hw as (Hl & Hcw & Hfit & Hcaps). unfold retained_bytes in *.
  rewrite Hret in *. rewrite take_app_length, list_lookup_middle by done.
  rewrite sum_by_app in *. change (sum_by rp_len (e :: l2)) with (rp_len e + sum_by rp_len l2) in *.
  apply Forall_app in Hl as [Hl1 Hl2]. inversion_clear Hl2 as [|? ? He Hl2'].
  pose proof (retained_nonneg _ Hl1). pose proof (retained_nonneg _ Hl2').
  set (off := sum_by rp_len l1) in *. set (moved := zslice (off + rp_len e) (off + (rp_len e + sum_by rp_len l2)) (out_buf o)).
  assert (zlen moved = sum_by rp_len l2) as Hm by (unfold moved; rewrite zlen_zslice; lia).
  unfold copy_within. fold moved.
  assert (zlen (zwrite (out_buf o) off moved) = zlen (out_buf o)) as Hlen
    by (apply zlen_zwrite; lia).
  rewrite delete_middle. eexists. split; [done|]. split_and!; simpl; try done.
  - unfold out_wf, retained_bytes. simpl. rewrite sum_by_app, Hlen, length_app in *. simpl in Hcaps.
    split_and!; try (apply Hcaps || lia). by apply Forall_app.
  - rewrite !view_from_app. simpl. rewrite Z.add_0_l. fold off.
    rewrite <- (length_view_from (out_buf o) 0 l1), delete_middle. f_equal.
    + apply view_from_ext; try done; unfold off in *; try lia. rewrite !Z.add_0_l, !zslice_0.
      apply ztake_zwrite. lia.
    + apply view_from_ext; try done; try lia. rewrite <- Hm at 1.
      rewrite zslice_zwrite by lia. unfold moved. f_equal. lia.
Qed.

(** * Encoding and retaining *)

(** Only bytes of the arena differ. *)
Definition same_tables (o o' : Outbound) : Prop :=
  retained o' = retained o /\ pending_control o' = pending_control o /\
  pending_release o' = pending_release o /\ connect_workspace o' = connect_workspace o /\
  zlen (out_buf o') = zlen (out_buf o).

Lemma same_tables_refl o : same_tables o o.
Proof. done. Qed.

Lemma same_tables_trans o1 o2 o3 : same_tables o1 o2 -> same_tables o2 o3 -> same_tables o1 o3.
Proof. intros (? & ? & ? & ? & ?) (? & ? & ? & ? & ?). split_and!; congruence. Qed.

Lemma same_tables_wf o o' : same_tables o o' -> out_wf o -> out_wf o'.
Proof.
  intros (Hr & Hc & Hp & Hw & Hl) Hwf. unfold out_wf, retained_bytes in *.
  by rewrite Hr, Hc, Hp, Hw, Hl.
Qed.

Lemma same_tables_view o o' :
  out_wf o -> same_tables o o' ->
  ztake (retained_bytes o) (out_buf o') = ztake (retained_bytes o) (out_buf o) ->
  view o' = view o.
Proof.
  intros Hw (Hr & Hc & Hp & Hcw & Hl) Ht.
  rewrite <- (view_prefix o (out_buf o') Hw Ht Hl). unfold view. simpl. by rewrite Hr.
Qed.

(** Replacing the slice behind the retained packets. *)
Lemma set_slice_spec o i j s :
  out_wf o -> retained_bytes o <= i <= j -> j <= zlen (out_buf o) -> zlen s = j - i ->
  same_tables o (set_slice o i j s) /\ view (set_slice o i j s) = view o /\
  zslice i j (out_buf (set_slice o i j s)) = s.
Proof.
  intros Hw Hi Hj Hs. destruct (out_wf_bounds o Hw) as (H0 & _).
  assert (zlen (ztake i (out_buf o)) = i) as Ht by (apply zlen_ztake; lia).
  assert (zlen (zdrop j (out_buf o)) = zlen (out_buf o) - j) as Hd by (apply zlen_zdrop; lia).
  assert (same_tables o (set_slice o i j s)) as Hst
    by (unfold same_tables, set_slice; simpl; rewrite !zlen_app; split_and!; try done; lia).
  split; [done|]. split.
  - apply same_tables_view; [done|done|]. unfold set_slice. simpl.
    rewrite ztake_app_le by lia. apply ztake_ztake. lia.
  - unfold set_slice. simpl. apply zslice_app_mid; lia.
Qed.

Lemma pack_encoded_spec o off p :
  out_wf o -> encoded_at (zdrop (retained_bytes o) (out_buf o)) off p ->
  if retained_bytes o + zlen p <=? retained_capacity o then
    exists o', pack_encoded o off (zlen p) = (o', Ok tt) /\ same_tables o o' /\ view o' = view o /\
      zslice (retained_bytes o) (retained_bytes o + zlen p) (out_buf o') = p
  else pack_encoded o off (zlen p) = (o, Err ResourceError.BufferTooSmall).
Proof.
  intros Hw (Hoff & Hin & Hsl). destruct (out_wf_bounds o Hw) as (H0 & H1 & H2).
  pose proof (zlen_nonneg p). rewrite zlen_zdrop in Hin by lia.
  rewrite zslice_zdrop, Z.add_assoc in Hsl by lia.
  unfold pack_encoded, usize_saturating_sub.
  destruct (Z.leb_spec (retained_bytes o + zlen p) (retained_capacity o)) as [Hfit|Hno].
  - rewrite (proj2 (Z.ltb_ge _ _)) by lia. unfold copy_within. rewrite Hsl.
    assert (zlen (zwrite (out_buf o) (retained_bytes o) p) = zlen (out_buf o)) as Hlen
      by (apply zlen_zwrite; lia).
    assert (same_tables o (set_out_buf o (zwrite (out_buf o) (retained_bytes o) p))) as Hst
      by (unfold same_tables; simpl; done).
    eexists. split; [done|]. split_and!; [done| |simpl; apply zslice_zwrite; lia].
    apply same_tables_view; [done|done|]. simpl. apply ztake_zwrite. lia.
  - by rewrite (proj2 (Z.ltb_lt _ _)) by lia.
Qed.

(** What an encoder leaves: the old packets, and on success the new one's bytes
    right behind them. *)
Definition encoded_out (o o' : Outbound) (r : option bytes) : Prop :=
  out_wf o' /\ same_tables o o' /\ view o' = view o /\
  match r with
  | Some p => retained_bytes o + zlen p <= retained_capacity o /\
      zslice (retained_bytes o) (retained_bytes o + zlen p) (out_buf o') = p
  | None => True
  end.

(** Both encoders fill a slice that starts behind the retained packets, then
    pack. *)
Lemma encode_slice_spec o j s off p :
  out_wf o -> retained_bytes o <= j <= zlen (out_buf o) -> zlen s = j - retained_bytes o ->
  encoded_at s off p ->
  let o1 := set_slice o (retained_bytes o) j s in
  match pack_encoded o1 off (zlen p) with
  | (o2, Ok _) => encoded_out o o2 (Some p)
  | (o2, Err _) => encoded_out o o2 None
  end.
Proof.
  intros Hw Hj Hs (Hoff & Hin & Hsl) o1. destruct (out_wf_bounds o Hw) as (H0 & _).
  destruct (set_slice_spec o (retained_bytes o) j s Hw) as (Hst & Hv & Hz); [lia|lia|done|].
  fold o1 in Hst, Hv, Hz. pose proof (same_tables_wf _ _ Hst Hw) as Hw1.
  assert (retained_bytes o1 = retained_bytes o) as Hrb
    by (unfold retained_bytes; by destruct Hst as (-> & _)).
  assert (retained_capacity o1 = retained_capacity o) as Hrc
    by (unfold retained_capacity; by destruct Hst as (_ & _ & _ & -> & ->)).
  assert (encoded_at (zdrop (retained_bytes o1) (out_buf o1)) off p) as Hat.
  { rewrite Hrb. assert (zlen (out_buf o1) = zlen (out_buf o)) as Hlen by apply Hst.
    split_and!; [done|rewrite zlen_zdrop; lia|].
    rewrite zslice_zdrop by lia. rewrite <- Hz in Hsl. unfold zslice at 2 in Hsl.
    rewrite zslice_ztake, zslice_zdrop in Hsl by lia. done. }
  pose proof (pack_encoded_spec o1 off p Hw1 Hat) as Hp. rewrite Hrb, Hrc in Hp.
  destruct (Z.leb_spec (retained_bytes o + zlen p) (retained_capacity o)).
  - destruct Hp as (o2 & -> & Hst2 & Hv2 & Hz2). unfold encoded_out.
    split_and!; try done; [by apply (same_tables_wf o1)|by apply (same_tables_trans o o1)|congruence].
  - rewrite Hp. unfold encoded_out. by split_and!.
Qed.

Lemma encode_packet_spec {T} `{PacketSpec T} o (packet : T) :
  out_wf o -> packet_ok packet ->
  match encode_packet o packet with
  | (o', Ok len) => exists body, packet_enc packet = Ok body /\
      len = zlen (packet_bytes (fixed_header packet) body) /\
      encoded_out o o' (Some (packet_bytes (fixed_header packet) body))
  | (o', Err _) => encoded_out o o' None
  end.
Proof.
  intros Hw Hok. destruct (out_wf_bounds o Hw) as (Hb0 & Hb1 & _).
  assert (zlen (out_buf o) <= MQTT_VARINT_MAX) as Hmax by apply Hw.
  pose proof (encode_with_offset_cases packet (zdrop (retained_bytes o) (out_buf o)) _
                (packet_implements packet Hok)) as Hc.
  rewrite zlen_zdrop in Hc by lia. specialize (Hc ltac:(lia)). unfold encode_packet.
  destruct (encode_with_offset _ packet) as [s r]. destruct Hc as [Hlen Hr].
  destruct r as [[off p]|e].
  - destruct Hr as (body & He & -> & _ & Hat & _).
    pose proof (encode_slice_spec o (zlen (out_buf o)) s off _ Hw ltac:(lia) Hlen Hat) as Hs.
    cbv zeta in Hs. destruct (pack_encoded _ _ _) as [o2 [u|e2]]; [|done]. by exists body.
  - destruct (set_slice_spec o (retained_bytes o) (zlen (out_buf o)) s Hw) as (Hst & Hv & _);
      [lia|lia|done|]. unfold encoded_out. split_and!; try done. by apply (same_tables_wf o).
Qed.

Lemma encode_publish_out_spec {P E} o header (payload : ToPayload P) :
  out_wf o -> properties_ok (ph_properties header) ->
  match encode_publish_out (E := E) o header payload with
  | (o', Ok len) => exists hb slice n,
      let room := zslice (retained_bytes o) (retained_capacity o) (out_buf o) in
      let p := packet_bytes (publish_header_fixed_header header) (hb ++ ztake n slice) in
      enc_publish_header header = Ok hb /\
      to_payload payload (zdrop (MAX_FIXED_HEADER_SIZE + zlen hb) room) = (slice, Ok n) /\
      len = zlen p /\ encoded_out o o' (Some p)
  | (o', Err _) => encoded_out o o' None
  end.
Proof.
  intros Hw Hok. destruct (out_wf_bounds o Hw) as (Hb0 & Hb1 & Hb2).
  assert (zlen (out_buf o) <= MQTT_VARINT_MAX) as Hmax by apply Hw.
  pose proof (encode_publish_cases (zslice (retained_bytes o) (retained_capacity o) (out_buf o))
                _ _ (publish_header_fixed_header header) payload (implements_publish_header header Hok)
                (enc_publish_header_pos header)) as Hc.
  rewrite zlen_zslice in Hc by lia. specialize (Hc ltac:(lia)). unfold encode_publish_out.
  destruct (encode_publish_with_offset _ _ _ payload) as [s r]. destruct Hc as [Hlen Hr].
  destruct r as [[off p]|e].
  - destruct Hr as (hb & slice & n & He & _ & Hp & -> & Hat).
    pose proof (encode_slice_spec o (retained_capacity o) s off _ Hw ltac:(lia) Hlen Hat) as Hs.
    cbv zeta in Hs. destruct (pack_encoded _ _ _) as [o2 [u|e2]]; [|done].
    by exists hb, slice, n.
  - destruct (set_slice_spec o (retained_bytes o) (retained_capacity o) s Hw) as (Hst & Hv & _);
      [lia|lia|done|]. unfold encoded_out. split_and!; try done. by apply (same_tables_wf o).
Qed.

Lemma retain_packet_spec o o1 kind packet_id p :
  encoded_out o o1 (Some p) -> p <> [] ->
  match retain_packet o1 kind packet_id (zlen p) with
  | (o2, Ok _) => out_wf o2 /\ view o2 = view o ++ [mkEntry kind packet_id p (Write 0)] /\
      pending_control o2 = pending_control o /\ pending_release o2 = pending_release o /\
      connect_workspace o2 = connect_workspace o /\ out_buf o2 = out_buf o1 /\
      (length (retained o) < MAX_RETAINED)%nat
  | (o2, Err e) => o2 = o1 /\ e = ProtocolError.InflightMetadataExhausted /\
      retained_full o = true
  end.
Proof.
  intros (Hw & (Hr & Hc & Hp & Hcw & Hl) & Hv & Hfit & Hz) Hne.
  assert (0 < zlen p) as Hpos by (destruct p; [done|]; rewrite zlen_cons; zlia).
  unfold retain_packet. destruct (vec_push _ _ _) as [l|] eqn:Hvec.
  - apply vec_push_some in Hvec as [-> Hlt]. rewrite Hr in Hlt.
    assert (view (set_retained o1 (retained o1 ++ [mkRetainedPacket kind packet_id (zlen p) (Write 0)]))
            = view o ++ [mkEntry kind packet_id p (Write 0)]) as Hview.
    { unfold view at 1. simpl. rewrite view_from_app. fold (view o1). rewrite Hv. f_equal.
      simpl. rewrite Z.add_0_l. fold (retained_bytes o1). unfold retained_bytes. rewrite Hr.
      fold (retained_bytes o). by rewrite Hz. }
    split_and!; try done; try congruence.
    destruct Hw as (H1 & H2 & H3 & H4 & H5 & H6 & H7).
    unfold out_wf, retained_bytes, retained_capacity in *. simpl.
    rewrite sum_by_app, length_app, Hr in *. simpl.
    change (sum_by rp_len [mkRetainedPacket kind packet_id (zlen p) (Write 0)]) with (zlen p + 0).
    split_and!; try done; try lia. apply Forall_app. split; [done|by constructor].
  - split_and!; try done. unfold vec_push in Hvec. unfold retained_full. rewrite Hr in Hvec.
    destruct (Nat.ltb_spec (length (retained o)) MAX_RETAINED); [done|].
    by apply Nat.leb_le.
Qed.

(** * Replay *)

Definition mark_first (bs : bytes) : bytes :=
  match bs with b :: bs' => mark_publish_duplicate b :: bs' | [] => [] end.

Definition mark_entry (e : Entry) : Entry :=
  mkEntry (entry_kind e) (entry_id e)
    (if is_publish (entry_kind e) then mark_first (entry_bytes e) else entry_bytes e)
    (entry_state e).

(** The byte at the start of a packet, set in place. *)
Lemma mark_at buf off len b :
  0 <= off -> 0 < len -> off + len <= zlen buf -> zget buf off = Some b ->
  zslice off (off + len) (zwrite buf off [mark_publish_duplicate b]) =
  mark_first (zslice off (off + len) buf).
Proof.
  intros Ho Hl Hfit Hb. change [mark_publish_duplicate b] with ([mark_publish_duplicate b] : bytes).
  assert (zlen [mark_publish_duplicate b] = 1) as H1 by done.
  rewrite (zslice_split off (off + 1)) by lia.
  rewrite zslice_zwrite_eq, zslice_zwrite_after by lia.
  rewrite (zslice_split off (off + 1) (off + len) buf) by lia.
  assert (zslice off (off + 1) buf = [b]) as ->; [|done].
  unfold zslice. rewrite (zget_zdrop _ _ _ Hb).
  replace (off + 1 - off) with 1 by lia. done.
Qed.

Lemma mark_publish_dup_view l off buf :
  Forall (fun e => 0 < rp_len e) l -> 0 <= off -> off + sum_by rp_len l <= zlen buf ->
  let buf' := mark_publish_dup_loop l off buf in
  zlen buf' = zlen buf /\ ztake off buf' = ztake off buf /\
  view_from buf' off l = map mark_entry (view_from buf off l).
Proof.
  intros Hl. revert off buf. induction Hl as [|e l He Hl IH]; intros off buf Ho Hfit; [done|].
  pose proof (retained_nonneg _ Hl).
  change (sum_by rp_len (e :: l)) with (rp_len e + sum_by rp_len l) in Hfit.
  cbn [mark_publish_dup_loop]. cbv zeta.
  destruct (zget_is_some buf off) as [b Hb]; [lia|]. rewrite Hb.
  set (buf1 := if is_publish (rp_kind e) then zwrite buf off [mark_publish_duplicate b] else buf).
  assert (zlen buf1 = zlen buf) as Hlen1.
  { unfold buf1. destruct (is_publish _); [|done].
    apply zlen_zwrite; [lia|]. change (zlen [mark_publish_duplicate b]) with 1. lia. }
  destruct (IH (off + rp_len e) buf1) as (Hlen & Htake & Hview); [lia|lia|]. cbv zeta in *.
  set (buf2 := mark_publish_dup_loop l (off + rp_len e) buf1) in *.
  split_and!; [congruence| |].
  - rewrite <- (ztake_ztake off (off + rp_len e)) by lia. rewrite Htake, ztake_ztake by lia.
    unfold buf1. destruct (is_publish _); [|done]. apply ztake_zwrite. lia.
  - cbn [view_from map]. rewrite Hview. f_equal.
    + unfold mark_entry. cbn [entry_kind entry_id entry_bytes entry_state]. f_equal.
      rewrite <- (zslice_ztake off _ (off + rp_len e) buf2) by lia. rewrite Htake.
      rewrite zslice_ztake by lia. unfold buf1.
      destruct (is_publish (rp_kind e)); [|done]. apply mark_at; lia || done.
    + f_equal. apply view_from_ext; try done; try lia. unfold buf1.
      destruct (is_publish _); [|done]. apply zslice_zwrite_after; [lia| |lia].
      change (zlen [mark_publish_duplicate b]) with 1. lia.
Qed.

Definition replay_entry (e : Entry) : Entry :=
  let e := mark_entry e in mkEntry (entry_kind e) (entry_id e) (entry_bytes e) (Write 0).

Lemma view_set_state buf off l f :
  view_from buf off (map (fun e => set_rp_state e (f (rp_state e))) l) =
  map (fun e => mkEntry (entry_kind e) (entry_id e) (entry_bytes e) (f (entry_state e)))
    (view_from buf off l).
Proof.
  revert off. induction l as [|e l IH]; intros off; simpl; [done|]. by rewrite IH.
Qed.

Lemma sum_by_set_state l f :
  sum_by rp_len (map (fun e => set_rp_state e (f (rp_state e))) l) = sum_by rp_len l.
Proof. induction l as [|e l IH]; [done|]. unfold sum_by in *. simpl. by rewrite IH. Qed.

Lemma forall_set_state l f :
  Forall (fun e => 0 < rp_len e) l ->
  Forall (fun e => 0 < rp_len e) (map (fun e => set_rp_state e (f (rp_state e))) l).
Proof. induction 1; constructor; done. Qed.

Lemma arm_replay_spec o :
  out_wf o ->
  out_wf (arm_replay o) /\ view (arm_replay o) = map replay_entry (view o) /\
  pending_control (arm_replay o) = map (fun p => set_pc_state p (Write 0)) (pending_control o) /\
  pending_release (arm_replay o) = map (fun p => set_pr_state p (Write 0)) (pending_release o) /\
  connect_workspace (arm_replay o) = connect_workspace o /\
  zlen (out_buf (arm_replay o)) = zlen (out_buf o) /\
  map rp_packet_id (retained (arm_replay o)) = map rp_packet_id (retained o).
Proof.
  intros Hw. unfold arm_replay, has_pending_state. destruct (out_wf_bounds o Hw) as (_ & Hb & _).
  pose proof Hw as (Hl & H2 & H3 & H4 & H5 & H6 & H7).
  destruct (mark_publish_dup_view (retained o) 0 (out_buf o) Hl) as (Hlen & _ & Hv);
    [lia|rewrite Z.add_0_l; exact Hb|]. cbv zeta in *.
  destruct (is_empty (pending_control o)) eqn:Hc, (is_empty (retained o)) eqn:Hr,
    (is_empty (pending_release o)) eqn:Hp; simpl.
  1: { unfold view. destruct (pending_control o), (retained o), (pending_release o); done. }
  all: split_and!; try done; try by rewrite map_map.
  all: try (unfold out_wf, retained_bytes; simpl; rewrite !length_map, Hlen;
    rewrite (sum_by_set_state _ (fun _ => Write 0)); split_and!; try done;
    by apply (forall_set_state _ (fun _ => Write 0))).
  all: unfold view; simpl; rewrite (view_set_state _ _ _ (fun _ => Write 0)), Hv, map_map; done.
Qed.

(** * The send queue

    All packets that wait to be sent, in the order of the scans of
    [next_step], each with its bytes and its progress. *)

Definition control_packet (a : ControlAction) : bytes :=
  match snd (encode_control_packet control_workspace a) with Ok bs => bs | Err _ => [] end.

Definition release_packet (packet_id : Z) (reason : ReasonCode) : bytes :=
  match snd (encode_pubrel control_workspace packet_id reason) with Ok bs => bs | Err _ => [] end.

(** The workspace is always enough: acknowledgements take five bytes, a ping
    two. *)
Lemma encode_ack_workspace {T} `{PacketSpec T} (packet : T) body :
  packet_ok packet -> packet_enc packet = Ok body -> zlen body <= 4 ->
  snd (encode control_workspace packet) = Ok (packet_bytes (fixed_header packet) body).
Proof.
  intros Hok He Hl. destruct (encode_spec packet control_workspace body Hok He) as (b & Hb).
  - rewrite MQTT_VARINT_MAX_eq. lia.
  - change (zlen control_workspace) with 9. unfold MAX_FIXED_HEADER_SIZE. lia.
  - by rewrite Hb.
Qed.

Lemma control_packet_ok a :
  snd (encode_control_packet control_workspace a) = Ok (control_packet a) /\
  zlen (control_packet a) = match a with ControlAction.PingReq => 2 | _ => 5 end.
Proof.
  unfold control_packet, encode_control_packet. destruct a as [i c|i c|i c|].
  - pose proof (encode_ack_workspace (mkPubAck i (reason_from c)) _ I eq_refl ltac:(done)) as He.
    destruct (encode _ _) as [b r]. simpl in *. by rewrite He.
  - pose proof (encode_ack_workspace (mkPubRec i (reason_from c)) _ I eq_refl ltac:(done)) as He.
    destruct (encode _ _) as [b r]. simpl in *. by rewrite He.
  - pose proof (encode_ack_workspace (mkPubComp i (reason_from c)) _ I eq_refl ltac:(done)) as He.
    destruct (encode _ _) as [b r]. simpl in *. by rewrite He.
  - done.
Qed.

Lemma release_packet_ok i c :
  snd (encode_pubrel control_workspace i c) = Ok (release_packet i c) /\
  zlen (release_packet i c) = 5.
Proof.
  unfold release_packet, encode_pubrel.
  pose proof (encode_ack_workspace (mkPubRel i (reason_from c)) _ I eq_refl ltac:(done)) as He.
  destruct (encode _ _) as [b r]. simpl in *. by rewrite He.
Qed.

Definition control_item (c : PendingControl) : bytes * SendState :=
  (control_packet (pc_action c), pc_state c).
Definition release_item (p : PendingRelease) : bytes * SendState :=
  (release_packet (pr_packet_id p) (pr_reason p), pr_state p).
Definition entry_item (e : Entry) : bytes * SendState := (entry_bytes e, entry_state e).

Definition queue (o : Outbound) : list (bytes * SendState) :=
  map control_item (pending_control o) ++ map release_item (pending_release o) ++
  map entry_item (view o).

Definition writable (in_progress : bool) (item : bytes * SendState) : bool :=
  match write_offset (snd item) in_progress with Some _ => true | None => false end.

Definition step_written (s : OutboundStep) : Z :=
  match s with
  | ControlOut s => cs_written s
  | ReleaseOut s => ls_written s
  | RetainedOut s => rs_written s
  end.

(** The packet a step transmits. *)
Definition step_packet (o : Outbound) (s : OutboundStep) : bytes :=
  match s with
  | ControlOut s => control_packet (cs_action s)
  | ReleaseOut s => release_packet (ls_packet_id s) (ls_reason s)
  | RetainedOut s => retained_packet o (rs_offset s) (rs_len s)
  end.

(** [Connection::set_written] after [count] more bytes. *)
Definition record_write (o : Outbound) (s : OutboundStep) (written : Z) : Outbound :=
  let len := zlen (step_packet o s) in
  fst match s with
      | ControlOut s => set_control_written o (cs_index s) written len
      | ReleaseOut s => set_release_written o (ls_packet_id s) written len
      | RetainedOut s => set_retained_written o (rs_packet_id s) written len
      end.

(** Packet identifiers name at most one entry of each table. *)
Definition ids_unique (o : Outbound) : Prop :=
  NoDup (map rp_packet_id (retained o)) /\ NoDup (map pr_packet_id (pending_release o)).

(** The scans find the first item of their table with something to write. *)
Lemma next_control_spec b k l :
  match next_control b k l with
  | Some s => exists i, cs_index s = (k + i)%nat /\
      l !! i = Some (mkPendingControl (cs_action s) (Write (cs_written s))) /\
      write_offset (Write (cs_written s)) b = Some (cs_written s) /\
      Forall (fun c => writable b (control_item c) = false) (take i l)
  | None => Forall (fun c => writable b (control_item c) = false) l
  end.
Proof.
  revert k. induction l as [|[a st] l IH]; intros k; simpl; [constructor|].
  destruct (write_offset st b) as [w|] eqn:Hw.
  - destruct st as [w'| |]; simpl in Hw; try done.
    destruct (Bool.eqb _ b) eqn:Hb; [|done]. injection Hw as ->. simpl.
    exists O. rewrite Hb. split_and!; [lia|done|done|constructor].
  - specialize (IH (S k)). assert (writable b (control_item (mkPendingControl a st)) = false) as Hf
      by (unfold writable; simpl; by rewrite Hw).
    destruct (next_control b (S k) l) as [s|]; [|by constructor].
    destruct IH as (i & Hi & Hl & Hwo & Hf'). exists (S i).
    split_and!; [lia|done|done|by constructor].
Qed.

Lemma next_release_spec b l :
  match next_release b l with
  | Some s => exists i,
      l !! i = Some (mkPendingRelease (ls_packet_id s) (ls_reason s) (Write (ls_written s))) /\
      write_offset (Write (ls_written s)) b = Some (ls_written s) /\
      Forall (fun c => writable b (release_item c) = false) (take i l)
  | None => Forall (fun c => writable b (release_item c) = false) l
  end.
Proof.
  induction l as [|[id r st] l IH]; simpl; [constructor|].
  destruct (write_offset st b) as [w|] eqn:Hw.
  - destruct st as [w'| |]; simpl in Hw; try done.
    destruct (Bool.eqb _ b) eqn:Hb; [|done]. injection Hw as ->. simpl.
    exists O. rewrite Hb. split_and!; [done|done|constructor].
  - assert (writable b (release_item (mkPendingRelease id r st)) = false) as Hf
      by (unfold writable; simpl; by rewrite Hw).
    destruct (next_release b l) as [s|]; [|by constructor].
    destruct IH as (i & Hl & Hwo & Hf'). exists (S i). split_and!; [done|done|by constructor].
Qed.

Lemma next_retained_spec b buf off l :
  match next_retained b off l with
  | Some s => exists i e,
      l !! i = Some e /\ rp_packet_id e = rs_packet_id s /\ rp_len e = rs_len s /\
      rp_state e = Write (rs_written s) /\
      rs_offset s = off + sum_by rp_len (take i l) /\
      write_offset (Write (rs_written s)) b = Some (rs_written s) /\
      Forall (fun e => writable b (entry_item e) = false) (take i (view_from buf off l)) /\
      view_from buf off l !! i = Some (mkEntry (rp_kind e) (rp_packet_id e)
        (zslice (rs_offset s) (rs_offset s + rs_len s) buf) (rp_state e))
  | None => Forall (fun e => writable b (entry_item e) = false) (view_from buf off l)
  end.
Proof.
  revert off. induction l as [|e l IH]; intros off; simpl; [constructor|].
  destruct (write_offset (rp_state e) b) as [w|] eqn:Hw.
  - destruct (rp_state e) as [w'| |] eqn:Hst; simpl in Hw; try done.
    destruct (Bool.eqb _ b) eqn:Hb; [|done]. injection Hw as ->. simpl.
    exists O, e. rewrite Hb. split_and!; try done; [by rewrite Z.add_0_r|by rewrite Hst].
  - specialize (IH (off + rp_len e)). set (e0 := mkEntry _ _ _ _).
    assert (writable b (entry_item e0) = false) as Hf
      by (unfold writable; simpl; by rewrite Hw).
    destruct (next_retained b (off + rp_len e) l) as [s|]; [|by constructor].
    destruct IH as (i & e' & H1 & H2 & H3 & H4 & H5 & H6 & H7 & H8). exists (S i), e'.
    split_and!; try done; [|by constructor]. rewrite H5. unfold sum_by. simpl. lia.
Qed.

Lemma map_lookup {A B} (f : A -> B) l i : map f l !! i = option_map f (l !! i).
Proof. revert i. induction l as [|x l IH]; intros [|i]; simpl; [done|done|done|apply IH]. Qed.

Lemma map_insert {A B} (f : A -> B) l i x : map f (<[i := x]> l) = <[i := f x]> (map f l).
Proof. revert i. induction l as [|y l IH]; intros [|i]; simpl; [done|done|done|]. by rewrite IH. Qed.

Lemma map_take {A B} (f : A -> B) l i : take i (map f l) = map f (take i l).
Proof. revert i. induction l as [|x l IH]; intros [|i]; simpl; [done|done|done|]. by rewrite IH. Qed.

Lemma Forall_of_map {A B} (P : B -> Prop) (f : A -> B) l :
  Forall (fun x => P (f x)) l -> Forall P (map f l).
Proof. induction 1; constructor; done. Qed.

Lemma update_first_unique {A} (id : A -> Z) (g : A -> A) l i x :
  NoDup (map id l) -> l !! i = Some x ->
  update_first (fun y => id y =? id x) g l = Some (<[i := g x]> l).
Proof.
  intros Hnd. revert i. induction l as [|y l IH]; intros i Hi; [done|].
  inversion_clear Hnd as [|? ? Hnin Hnd']. destruct i as [|i]; simpl in *.
  - injection Hi as ->. by rewrite Z.eqb_refl.
  - destruct (Z.eqb_spec (id y) (id x)) as [He|].
    + exfalso. apply Hnin. rewrite He. apply list_elem_of_In, in_map.
      by apply list_elem_of_In, list_elem_of_lookup_2 with i.
    + by rewrite (IH Hnd' i Hi).
Qed.

(** A view with one state changed. *)
Lemma view_from_insert buf off l i e s :
  l !! i = Some e ->
  map entry_item (view_from buf off (<[i := set_rp_state e s]> l)) =
  <[i := (zslice (off + sum_by rp_len (take i l))
            (off + sum_by rp_len (take i l) + rp_len e) buf, s)]>
    (map entry_item (view_from buf off l)).
Proof.
  revert off i. induction l as [|x l IH]; intros off i Hi; [done|]. destruct i as [|i]; simpl in *.
  - injection Hi as ->. unfold entry_item at 1. simpl. unfold sum_by. simpl.
    by rewrite Z.add_0_r.
  - rewrite (IH _ i Hi). unfold sum_by. simpl. f_equal. f_equal.
    do 2 f_equal; lia.
Qed.

(** Item [i] of the queue is the step [s] of a pass: the first with something to write in
    it; recording progress changes this item only. *)
Definition selected (o : Outbound) (b : bool) (s : OutboundStep) (i : nat) : Prop :=
  queue o !! i = Some (step_packet o s, Write (step_written s)) /\
  write_offset (Write (step_written s)) b = Some (step_written s) /\
  Forall (fun x => writable b x = false) (take i (queue o)) /\
  (ids_unique o -> forall w,
     queue (record_write o s w) =
       <[i := (step_packet o s, set_written w (zlen (step_packet o s)))]> (queue o)).

Lemma control_selected o b s :
  next_control b 0 (pending_control o) = Some s -> exists i, selected o b (ControlOut s) i.
Proof.
  intros Hn. pose proof (next_control_spec b 0 (pending_control o)) as Hc. rewrite Hn in Hc.
  destruct Hc as (i & Hi & Hl & Hwo & Hf). simpl in Hi. pose proof (lookup_lt_Some _ _ _ Hl).
  set (qc := map control_item (pending_control o)).
  assert (length qc = length (pending_control o)) as Hlc by apply length_map.
  exists i. unfold selected, queue. fold qc. simpl. split_and!; [|done| |].
  - rewrite lookup_app_l by lia. unfold qc. by rewrite map_lookup, Hl.
  - rewrite take_app_le by lia. unfold qc. rewrite map_take. by apply Forall_of_map.
  - intros _ w. unfold record_write, set_control_written. simpl. rewrite Hi, Hl. simpl.
    rewrite map_insert. rewrite insert_app_l by lia. done.
Qed.

Lemma release_selected o b s :
  Forall (fun x => writable b x = false) (map control_item (pending_control o)) ->
  next_release b (pending_release o) = Some s -> exists i, selected o b (ReleaseOut s) i.
Proof.
  intros Hc Hn. pose proof (next_release_spec b (pending_release o)) as Hr. rewrite Hn in Hr.
  destruct Hr as (i & Hl & Hwo & Hf). pose proof (lookup_lt_Some _ _ _ Hl).
  set (qc := map control_item (pending_control o)) in *.
  set (qr := map release_item (pending_release o)).
  assert (length qr = length (pending_release o)) as Hlr by apply length_map.
  exists (length qc + i)%nat. unfold selected, queue. fold qc qr. simpl. split_and!; [|done| |].
  - rewrite lookup_app_r, Nat.add_comm, Nat.add_sub by lia. rewrite lookup_app_l by lia.
    unfold qr. by rewrite map_lookup, Hl.
  - rewrite take_app_add' by done. apply Forall_app. split; [done|]. rewrite take_app_le by lia.
    unfold qr. rewrite map_take. by apply Forall_of_map.
  - intros [_ Hnd] w. unfold record_write, set_release_written. simpl.
    pose proof (update_first_unique pr_packet_id
      (fun e => set_pr_state e (set_written w (zlen (release_packet (ls_packet_id s) (ls_reason s)))))
      _ _ _ Hnd Hl) as Hu. simpl in Hu. rewrite Hu. simpl. fold (view o).
    rewrite map_insert. rewrite insert_app_r. rewrite insert_app_l by lia. done.
Qed.

Lemma retained_selected o b s :
  Forall (fun x => writable b x = false) (map control_item (pending_control o)) ->
  Forall (fun x => writable b x = false) (map release_item (pending_release o)) ->
  next_retained b 0 (retained o) = Some s -> exists i, selected o b (RetainedOut s) i.
Proof.
  intros Hc Hr Hn. pose proof (next_retained_spec b (out_buf o) 0 (retained o)) as Hv.
  fold (view o) in Hv. rewrite Hn in Hv.
  destruct Hv as (i & e & Hl & Hid & Hlen & Hst & Hoff & Hwo & Hf & Hview).
  assert (i < length (view o))%nat by (by apply lookup_lt_Some in Hview).
  set (qc := map control_item (pending_control o)) in *.
  set (qr := map release_item (pending_release o)) in *. set (qv := map entry_item (view o)).
  exists (length qc + (length qr + i))%nat. unfold selected, queue. fold qc qr qv. simpl.
  split_and!; [|done| |].
  - rewrite lookup_app_r, Nat.add_comm, Nat.add_sub by lia.
    rewrite lookup_app_r, Nat.add_comm, Nat.add_sub by lia.
    unfold qv. rewrite map_lookup, Hview. simpl. unfold entry_item. simpl. by rewrite Hst.
  - rewrite take_app_add' by done. apply Forall_app. split; [done|].
    rewrite take_app_add' by done. apply Forall_app. split; [done|].
    unfold qv. rewrite map_take. by apply Forall_of_map.
  - intros [Hnd _] w. unfold record_write, set_retained_written. simpl. rewrite <- Hid.
    set (len := zlen _).
    pose proof (update_first_unique rp_packet_id
      (fun e => set_rp_state e (set_written w len)) _ _ _ Hnd Hl) as Hu.
    rewrite Hu. simpl. unfold view. simpl. rewrite (view_from_insert _ _ _ _ _ _ Hl).
    rewrite !insert_app_r. rewrite <- Hoff, Hlen. done.
Qed.

(** One pass of [next_step], on the queue. *)
Lemma next_step_pass_queue o b :
  match next_step_pass o b with
  | Some s => exists i, selected o b s i
  | None => Forall (fun x => writable b x = false) (queue o)
  end.
Proof.
  unfold next_step_pass.
  pose proof (next_control_spec b 0 (pending_control o)) as Hc.
  destruct (next_control b 0 (pending_control o)) as [s|] eqn:Hnc; [by apply control_selected|].
  apply (Forall_of_map (fun x => writable b x = false) control_item) in Hc.
  pose proof (next_release_spec b (pending_release o)) as Hr.
  destruct (next_release b (pending_release o)) as [s|] eqn:Hnr; [by apply release_selected|].
  apply (Forall_of_map (fun x => writable b x = false) release_item) in Hr.
  pose proof (next_retained_spec b (out_buf o) 0 (retained o)) as Hv. fold (view o) in Hv.
  destruct (next_retained b 0 (retained o)) as [s|] eqn:Hnv; [by apply retained_selected|].
  apply (Forall_of_map (fun x => writable b x = false) entry_item) in Hv.
  unfold queue. by repeat (apply Forall_app; split).
Qed.

(** * Framing *)

(** The part of an item that is already on the wire, while it is being
    written. *)
Definition partial_item (x : bytes * SendState) : bytes :=
  match snd x with Write w => ztake w (fst x) | _ => [] end.

Definition partial (q : list (bytes * SendState)) : bytes := concat (map partial_item q).

Definition item_ok (x : bytes * SendState) : Prop :=
  match snd x with Write w => 0 <= w < zlen (fst x) | _ => True end.

(** At most one packet is partly written, and no progress exceeds its
    packet. *)
Definition queue_ok (q : list (bytes * SendState)) : Prop :=
  (length (List.filter (writable true) q) <= 1)%nat /\ Forall item_ok q.

Definition idle (q : list (bytes * SendState)) : Prop :=
  Forall (fun x => writable true x = false) q.

Lemma idle_filter q : idle q <-> List.filter (writable true) q = [].
Proof.
  induction q as [|x q IH]; simpl; [split; [done|by constructor]|].
  unfold idle in *. rewrite Forall_cons, IH.
  destruct (writable true x); split; (intros [? ?] || intros ?); done.
Qed.

Lemma idle_partial q : Forall item_ok q -> idle q -> partial q = [].
Proof.
  intros Hok Hi. induction Hok as [|[p s] q Hx _ IH]; [done|]. inversion_clear Hi as [|? ? Hs Hq].
  unfold partial in *. simpl. rewrite (IH Hq), app_nil_r. destruct s as [w| |]; try done.
  unfold writable in Hs. simpl in Hs. destruct (Z.eqb_spec w 0) as [->|]; done.
Qed.

Lemma partial_app q1 q2 : partial (q1 ++ q2) = partial q1 ++ partial q2.
Proof. unfold partial. by rewrite map_app, concat_app. Qed.

(** Progress of the chosen item: everything else is idle. *)
Lemma next_step_split o s :
  out_wf o -> queue_ok (queue o) -> next_step o = Some s ->
  exists q1 q2,
    queue o = q1 ++ (step_packet o s, Write (step_written s)) :: q2 /\ idle q1 /\ idle q2 /\
    0 <= step_written s < zlen (step_packet o s) /\
    (ids_unique o -> forall w,
       queue (record_write o s w) =
         q1 ++ (step_packet o s, set_written w (zlen (step_packet o s))) :: q2).
Proof.
  intros Hw [Hone Hok] Hs. unfold next_step in Hs.
  assert (exists b, next_step_pass o b = Some s /\
    (b = true \/ b = false /\ idle (queue o))) as (b & Hb & Hbi).
  { pose proof (next_step_pass_queue o true) as Hq.
    destruct (next_step_pass o true) as [s'|] eqn:Ht.
    - injection Hs as ->. exists true. split; [done|by left].
    - exists false. split; [done|by right]. }
  pose proof (next_step_pass_queue o b) as Hq. rewrite Hb in Hq.
  destruct Hq as (i & Hi & Hwo & Hf & Hrec). exists (take i (queue o)), (drop (S i) (queue o)).
  pose proof (take_drop_middle _ _ _ Hi) as Hsplit.
  assert (0 <= step_written s < zlen (step_packet o s)) as Hrange.
  { rewrite Forall_lookup in Hok. by specialize (Hok _ _ Hi). }
  assert (idle (take i (queue o)) /\ idle (drop (S i) (queue o))) as [Hi1 Hi2].
  { destruct Hbi as [->|[-> Hidle]].
    - rewrite <- Hsplit, List.filter_app, length_app in Hone. simpl in Hone.
      assert (writable true (step_packet o s, Write (step_written s)) = true) as Hwr
        by (unfold writable; cbn [snd]; by rewrite Hwo).
      rewrite Hwr in Hone. simpl in Hone. split; apply idle_filter, nil_length_inv; lia.
    - split; [by apply Forall_take|by apply Forall_drop]. }
  split_and!; try done; try lia. intros Hu w. rewrite (Hrec Hu).
  rewrite <- Hsplit at 1. rewrite insert_app_r_alt by (rewrite length_take; lia).
  apply lookup_lt_Some in Hi. rewrite length_take, Nat.min_l, Nat.sub_diag by lia. done.
Qed.

Lemma set_written_partial p w :
  0 <= w <= zlen p -> partial_item (p, set_written w (zlen p)) = if w =? zlen p then [] else ztake w p.
Proof.
  intros Hw. unfold set_written, partial_item.
  destruct (Z.leb_spec (zlen p) w), (Z.eqb_spec w (zlen p)); simpl; try lia; done.
Qed.

Lemma record_write_queue_ok o s w :
  out_wf o -> ids_unique o -> queue_ok (queue o) -> next_step o = Some s ->
  step_written s < w <= zlen (step_packet o s) -> queue_ok (queue (record_write o s w)).
Proof.
  intros Hwf Hu Hq Hs Hw. pose proof Hq as [Hone Hok].
  destruct (next_step_split o s Hwf Hq Hs) as (q1 & q2 & He & Hi1 & Hi2 & Hr & Hrec).
  rewrite (Hrec Hu). rewrite He in Hok. apply Forall_app in Hok as [Hok1 Hok2].
  inversion_clear Hok2. split.
  - rewrite List.filter_app, length_app. simpl. apply idle_filter in Hi1, Hi2.
    rewrite Hi1, Hi2. destruct (writable true _); simpl; lia.
  - apply Forall_app. split; [done|]. constructor; [|done]. unfold item_ok, set_written. simpl.
    destruct (Z.leb_spec (zlen (step_packet o s)) w); [done|lia].
Qed.

Lemma update_first_ids {A B} f (g : A -> A) (id : A -> B) l l' :
  (forall x, id (g x) = id x) -> update_first f g l = Some l' -> map id l' = map id l.
Proof.
  intros Hg. revert l'. induction l as [|x l IH]; intros l' Hl; simpl in *; [done|].
  destruct (f x); [injection Hl as <-; simpl; by rewrite Hg|].
  destruct (update_first f g l); [|done]. injection Hl as <-. simpl. by rewrite (IH l0).
Qed.

Lemma record_write_frame o s w :
  map rp_packet_id (retained (record_write o s w)) = map rp_packet_id (retained o) /\
  map rp_len (retained (record_write o s w)) = map rp_len (retained o) /\
  map rp_kind (retained (record_write o s w)) = map rp_kind (retained o) /\
  map pr_packet_id (pending_release (record_write o s w)) = map pr_packet_id (pending_release o) /\
  length (pending_control (record_write o s w)) = length (pending_control o) /\
  out_buf (record_write o s w) = out_buf o /\
  connect_workspace (record_write o s w) = connect_workspace o.
Proof.
  unfold record_write, set_control_written, set_release_written, set_retained_written.
  destruct s as [s|s|s]; simpl.
  - destruct (_ !! _); simpl; [|done]. by rewrite length_insert.
  - destruct (update_first _ _ _) as [l|] eqn:Hl; simpl; [|done]. split_and!; try done.
    by apply (update_first_ids _ _ pr_packet_id) in Hl.
  - destruct (update_first _ _ _) as [l|] eqn:Hl; simpl; [|done]. split_and!; try done.
    + by apply (update_first_ids _ _ rp_packet_id) in Hl.
    + by apply (update_first_ids _ _ rp_len) in Hl.
    + by apply (update_first_ids _ _ rp_kind) in Hl.
Qed.

Lemma sum_by_map {A} (f : A -> Z) l : sum_by f l = sum_by id (map f l).
Proof. induction l as [|x l IH]; [done|]. unfold sum_by in *. simpl. by rewrite IH. Qed.

Lemma record_write_wf o s w : out_wf o -> out_wf (record_write o s w).
Proof.
  destruct (record_write_frame o s w) as (H1 & H2 & _ & H3 & H4 & H5 & H6).
  intros (Hl & Hcw & Hfit & Hc1 & Hc2 & Hc3 & Hm). unfold out_wf, retained_bytes in *.
  rewrite H5, H6, H4, sum_by_map, H2, <- sum_by_map. split_and!; try done.
  - assert (Forall (fun z => 0 < z) (map rp_len (retained o))) as Hp by (by apply Forall_of_map).
    rewrite <- H2 in Hp. exact (proj1 (List.Forall_map rp_len (fun z => 0 < z) _) Hp).
  - by rewrite <- (length_map rp_packet_id), H1, length_map.
  - by rewrite <- (length_map pr_packet_id), H3, length_map.
Qed.

Lemma record_write_ids o s w : ids_unique o -> ids_unique (record_write o s w).
Proof.
  destruct (record_write_frame o s w) as (H1 & _ & _ & H3 & _).
  unfold ids_unique. by rewrite H1, H3.
Qed.

(** Completing a flush: what was written out is sent or dropped; what is being
    written is not touched. *)
Definition flush_item (x : bytes * SendState) : bytes * SendState := (fst x, flushed (snd x)).

Lemma flush_item_same x :
  writable true (flush_item x) = writable true x /\ partial_item (flush_item x) = partial_item x /\
  (item_ok x -> item_ok (flush_item x)).
Proof. by destruct x as [p []]. Qed.

Definition in_progress (q : list (bytes * SendState)) : nat :=
  length (List.filter (writable true) q).

Lemma in_progress_app q1 q2 : in_progress (q1 ++ q2) = (in_progress q1 + in_progress q2)%nat.
Proof. unfold in_progress. by rewrite List.filter_app, length_app. Qed.

Lemma flush_items_same q :
  in_progress (map flush_item q) = in_progress q /\ partial (map flush_item q) = partial q /\
  (Forall item_ok q -> Forall item_ok (map flush_item q)).
Proof.
  induction q as [|x q (IH1 & IH2 & IH3)]; [done|]. unfold in_progress, partial in *. simpl.
  destruct (flush_item_same x) as (H1 & H2 & H3). rewrite H1, H2, IH2. split_and!; [|done|].
  - destruct (writable true x); simpl; congruence.
  - inversion_clear 1. constructor; auto.
Qed.

Lemma flush_controls_same l :
  let q' := map control_item (base.filter (fun p => pc_state p <> Flush) l) in
  let q := map control_item l in
  in_progress q' = in_progress q /\ partial q' = partial q /\
  (Forall item_ok q -> Forall item_ok q').
Proof.
  induction l as [|[a st] l (IH1 & IH2 & IH3)]; [done|].
  rewrite filter_cons. cbv zeta in *. unfold in_progress, partial in *.
  destruct (decide (pc_state (mkPendingControl a st) <> Flush)) as [Hne|Heq]; simpl in *.
  - rewrite IH2. split_and!; [|done|].
    + destruct (writable true (control_item _)); simpl; congruence.
    + inversion_clear 1. constructor; auto.
  - assert (st = Flush) as -> by (destruct (decide (st = Flush)); [done|naive_solver]).
    split_and!; [done|done|]. inversion_clear 1. auto.
Qed.

Lemma complete_flush_queue o :
  queue_ok (queue o) ->
  queue_ok (queue (complete_flush o)) /\ partial (queue (complete_flush o)) = partial (queue o).
Proof.
  intros [Hone Hok]. fold (in_progress (queue o)) in Hone. unfold queue in *.
  assert (map release_item (pending_release (complete_flush o)) =
          map flush_item (map release_item (pending_release o))) as Hr
    by (simpl; rewrite !map_map; done).
  assert (map entry_item (view (complete_flush o)) = map flush_item (map entry_item (view o))) as Hv
    by (unfold view; simpl; rewrite (view_set_state _ _ _ flushed), !map_map; done).
  rewrite Hr, Hv. destruct (flush_controls_same (pending_control o)) as (C1 & C2 & C3).
  destruct (flush_items_same (map release_item (pending_release o))) as (R1 & R2 & R3).
  destruct (flush_items_same (map entry_item (view o))) as (V1 & V2 & V3). cbv zeta in *.
  rewrite !in_progress_app in Hone. unfold queue_ok. fold in_progress.
  rewrite !partial_app. cbn [complete_flush pending_control] in *.
  rewrite C2, R2, V2. split; [|done]. split.
  - match goal with |- (length (List.filter _ ?q) <= 1)%nat => fold (in_progress q) end.
    rewrite !in_progress_app, C1, R1, V1. done.
  - apply Forall_app in Hok as [Ho1 Ho2]. apply Forall_app in Ho2 as [Ho2 Ho3].
    repeat (apply Forall_app; split); auto.
Qed.

Lemma complete_flush_wf o : out_wf o -> out_wf (complete_flush o).
Proof.
  intros (Hl & Hcw & Hfit & Hc1 & Hc2 & Hc3 & Hm). unfold out_wf, retained_bytes. simpl.
  rewrite !length_map, (sum_by_set_state _ flushed). split_and!; try done.
  - by apply (forall_set_state _ flushed).
  - etransitivity; [apply length_filter|done].
Qed.

Lemma complete_flush_ids o : ids_unique o -> ids_unique (complete_flush o).
Proof. unfold ids_unique. simpl. by rewrite !map_map. Qed.

Lemma queue_control_spec o a o1 :
  queue_control o a = (o1, Ok tt) ->
  (length (pending_control o) < MAX_PENDING_CONTROL)%nat /\
  o1 = set_pending_control o (pending_control o ++ [mkPendingControl a (Write 0)]).
Proof.
  unfold queue_control. destruct (vec_push _ _ _) as [l|] eqn:Hv; [|done].
  intros [= <-]. by apply vec_push_some in Hv as [-> ?].
Qed.

Lemma queue_control_wf o a o1 :
  queue_control o a = (o1, Ok tt) -> out_wf o -> out_wf o1.
Proof.
  intros [Hlt ->]%queue_control_spec (Hl & Hcw & Hfit & Hc1 & Hc2 & Hc3 & Hm).
  unfold out_wf, retained_bytes. simpl. rewrite length_app. simpl. split_and!; try done. lia.
Qed.

Lemma queue_control_queue o a o1 :
  queue_control o a = (o1, Ok tt) -> queue_ok (queue o) ->
  queue_ok (queue o1) /\ partial (queue o1) = partial (queue o).
Proof.
  intros [_ ->]%queue_control_spec [Hone Hok]. fold (in_progress (queue o)) in Hone.
  unfold queue in *. simpl.
  change (view (set_pending_control o _)) with (view o). rewrite map_app, <- app_assoc.
  unfold queue_ok. rewrite !partial_app. split; [|done].
  match goal with |- (length (List.filter _ ?q) <= 1)%nat /\ _ => fold (in_progress q) end.
  rewrite !in_progress_app in *.
  assert (in_progress (map control_item [mkPendingControl a (Write 0)]) = 0%nat) as -> by done.
  split; [lia|].
  apply Forall_app in Hok as [Ho1 Ho2]. apply Forall_app. split; [done|].
  apply Forall_app. split; [|done]. constructor; [|constructor].
  unfold item_ok. simpl. destruct (control_packet_ok a) as [_ ->]. by destruct a.
Qed.

(** Sending: any sequence of transport writes of the step [next_step] asks for,
    each accepted in part or in whole, with new control packets queued and
    flushes completed in between. [sends o wire packets o']: the bytes put on
    the wire and the packets completed by them. *)
Inductive sends : Outbound -> bytes -> list bytes -> Outbound -> Prop :=
| sends_nil o : sends o [] [] o
| sends_write o s n wire packets o' :
    next_step o = Some s -> 0 < n <= zlen (step_packet o s) - step_written s ->
    sends (record_write o s (step_written s + n)) wire packets o' ->
    sends o (zslice (step_written s) (step_written s + n) (step_packet o s) ++ wire)
      ((if step_written s + n =? zlen (step_packet o s) then [step_packet o s] else []) ++ packets)
      o'
| sends_control o a o1 wire packets o' :
    queue_control o a = (o1, Ok tt) -> sends o1 wire packets o' -> sends o wire packets o'
| sends_flush o wire packets o' :
    sends (complete_flush o) wire packets o' -> sends o wire packets o'.

(** The state of the send path: well formed, with unique identifiers and at
    most one packet on its way. *)
Definition out_inv (o : Outbound) : Prop := out_wf o /\ ids_unique o /\ queue_ok (queue o).

Lemma record_write_inv o s w :
  out_inv o -> next_step o = Some s -> step_written s < w <= zlen (step_packet o s) ->
  out_inv (record_write o s w).
Proof.
  intros (Hw & Hu & Hq) Hs Hr. split_and!; [by apply record_write_wf|by apply record_write_ids|].
  by apply record_write_queue_ok.
Qed.

Lemma write_partial o s n :
  out_inv o -> next_step o = Some s -> 0 < n <= zlen (step_packet o s) - step_written s ->
  let p := step_packet o s in let k := step_written s in
  partial (queue o) ++ zslice k (k + n) p =
  (if k + n =? zlen p then p else []) ++ partial (queue (record_write o s (k + n))).
Proof.
  intros (Hw & Hu & Hq) Hs Hn p k.
  destruct (next_step_split o s Hw Hq Hs) as (q1 & q2 & He & Hi1 & Hi2 & Hr & Hrec).
  rewrite (Hrec Hu). destruct Hq as [_ Hok]. rewrite He in Hok |- *.
  apply Forall_app in Hok as [Hok1 Hok2]. inversion_clear Hok2.
  fold p k in Hr, Hn |- *. rewrite !partial_app, (idle_partial q1) by done.
  unfold partial. simpl. fold (partial q2). rewrite (idle_partial q2), !app_nil_r by done.
  rewrite set_written_partial by lia. unfold partial_item. simpl.
  rewrite <- (ztake_zslice k (k + n)) by lia.
  destruct (Z.eqb_spec (k + n) (zlen p)) as [->|]; [|done].
  rewrite app_nil_r. apply ztake_full. lia.
Qed.

(** The bytes of a run of the queue. *)
Lemma sends_framed o wire packets o' :
  out_inv o -> sends o wire packets o' ->
  out_inv o' /\ partial (queue o) ++ wire = concat packets ++ partial (queue o').
Proof.
  intros Hinv Hs. revert Hinv.
  induction Hs as [o|o s n wire packets o' Hn Hr _ IH|o a o1 wire packets o' Hq _ IH
                  |o wire packets o' _ IH]; intros Hinv.
  - split; [done|]. by rewrite app_nil_r.
  - pose proof (write_partial o s n Hinv Hn Hr) as Hp. cbv zeta in Hp.
    destruct IH as [Hi He]; [apply record_write_inv; done || lia|]. split; [done|].
    rewrite app_assoc, Hp, <- app_assoc, He.
    destruct (_ =? _); simpl; by rewrite ?app_assoc, ?app_nil_r.
  - pose proof Hinv as (Hw & Hu & Hqo). destruct (queue_control_queue o a o1 Hq Hqo) as [Hq1 Hp1].
    rewrite <- Hp1. apply IH. split_and!; [by apply (queue_control_wf o a)| |done].
    apply queue_control_spec in Hq as [_ ->]. exact Hu.
  - pose proof Hinv as (Hw & Hu & Hqo). destruct (complete_flush_queue o Hqo) as [Hq1 Hp1].
    rewrite <- Hp1. apply IH.
    split_and!; [by apply complete_flush_wf|by apply complete_flush_ids|done].
Qed.

(** * Claims *)

(** C19: packets on the wire are never interleaved. From any state in which at
    most one packet is partly written, whatever the transport accepts of each
    write, and with acknowledgements queued and flushes completed in between,
    the bytes written continue the packet in progress and then form a sequence
    of whole packets, followed by a prefix of at most one more, the one then in
    progress. *)
Theorem wire_is_framed o wire packets o' :
  out_inv o -> sends o wire packets o' ->
  out_inv o' /\ partial (queue o) ++ wire = concat packets ++ partial (queue o').
Proof. apply sends_framed. Qed.

Definition demo_outbound : Outbound :=
  mkOutbound [0x82; 3; 0; 1; 0; 0; 0; 0; 0; 0; 0; 0] 4 [mkPendingControl ControlAction.PingReq (Write 0)]
    [mkRetainedPacket OpKind.Subscribe 1 5 (Write 2)]
    [mkPendingRelease 7 ReasonCode.Success (Write 0)].

Lemma demo_outbound_inv : out_inv demo_outbound.
Proof.
  unfold out_inv. split_and!.
  - unfold out_wf. split_and!; try (by vm_compute); repeat constructor.
  - split; simpl; repeat constructor; set_solver.
  - split; [by vm_compute|]. unfold queue. repeat (constructor || split); by vm_compute.
Qed.

Lemma wire_is_framed_witness :
  exists o', sends demo_outbound ([0; 1; 0] ++ [0xc0] ++ []) ([[0x82; 3; 0; 1; 0]] ++ [] ++ []) o' /\
    partial (queue demo_outbound) ++ [0; 1; 0; 0xc0] = [0x82; 3; 0; 1; 0] ++ partial (queue o').
Proof.
  set (o1 := record_write demo_outbound (RetainedOut (mkRetainedStep 1 0 5 2)) (2 + 3)).
  set (o2 := record_write o1 (ControlOut (mkControlStep 0 ControlAction.PingReq 0)) (0 + 1)).
  assert (sends demo_outbound ([0; 1; 0] ++ [0xc0] ++ []) ([[0x82; 3; 0; 1; 0]] ++ [] ++ []) o2) as Hs.
  { apply (sends_write demo_outbound (RetainedOut (mkRetainedStep 1 0 5 2)) 3);
      [by vm_compute|by vm_compute|].
    apply (sends_write o1 (ControlOut (mkControlStep 0 ControlAction.PingReq 0)) 1);
      [by vm_compute|by vm_compute|]. apply sends_nil. }
  exists o2. split; [exact Hs|].
  exact (proj2 (wire_is_framed demo_outbound _ _ o2 demo_outbound_inv Hs)).
Defined.

(** An acknowledgement removes exactly the packet it names. If some
    retained packet has the acknowledged kind and identifier, the first such
    leaves the list and all others keep their bytes, order and progress; if
    none has, the state is unchanged and the acknowledgement is reported as
    stale. *)
Theorem ack_removes_only_its_packet o kind packet_id :
  out_wf o ->
  match position (is_entry kind packet_id) (view o) with
  | None => ack_packet o kind packet_id = (o, false)
  | Some i => exists o', ack_packet o kind packet_id = (o', true) /\ out_wf o' /\
      view o' = delete i (view o) /\ pending_control o' = pending_control o /\
      pending_release o' = pending_release o
  end.
Proof.
  intros Hw. pose proof (ack_packet_view o kind packet_id Hw) as H.
  destruct (position _ _) as [i|]; [|done]. destruct H as (o' & H1 & H2 & H3 & _ & _ & H4 & H5 & _).
  by exists o'.
Qed.

Lemma ack_removes_only_its_packet_witness :
  exists o', ack_packet
    (mkOutbound [1; 2; 3; 4; 5; 6] 0 []
       [mkRetainedPacket OpKind.Subscribe 1 2 Sent; mkRetainedPacket OpKind.Unsubscribe 2 3 Flush] [])
    OpKind.Subscribe 1 = (o', true) /\
    view o' = [mkEntry OpKind.Unsubscribe 2 [3; 4; 5] Flush].
Proof.
  assert (out_wf (mkOutbound [1; 2; 3; 4; 5; 6] 0 []
       [mkRetainedPacket OpKind.Subscribe 1 2 Sent; mkRetainedPacket OpKind.Unsubscribe 2 3 Flush] []))
    as Hw by (unfold out_wf; split_and!; try (by vm_compute); repeat constructor).
  destruct (ack_removes_only_its_packet _ OpKind.Subscribe 1 Hw) as (o' & H1 & _ & H2 & _).
  exists o'. split; [exact H1|]. rewrite H2. by vm_compute.
Defined.

(** Admitting a packet appends it. Encoding a control packet (SUBSCRIBE,
    UNSUBSCRIBE) into the arena and retaining it adds one entry at the end, with
    the packet's exact wire bytes and nothing written yet; the packets already
    there, the other tables and the workspace reserved for CONNECT keep their
    place. When encoding or retaining fails, the retained packets are as
    before. *)
Theorem admit_packet_appends {T} `{PacketSpec T} o (packet : T) kind packet_id :
  out_wf o -> packet_ok packet ->
  match encode_packet o packet with
  | (o1, Err _) => out_wf o1 /\ view o1 = view o
  | (o1, Ok len) =>
      out_wf o1 /\ view o1 = view o /\
      match retain_packet o1 kind packet_id len with
      | (o2, Err _) => o2 = o1 /\ retained_full o = true
      | (o2, Ok _) => out_wf o2 /\ connect_workspace o2 = connect_workspace o /\
          exists body, packet_enc packet = Ok body /\
          view o2 = view o ++
            [mkEntry kind packet_id (packet_bytes (fixed_header packet) body) (Write 0)]
      end
  end.
Proof.
  intros Hw Hok. pose proof (encode_packet_spec o packet Hw Hok) as Hs.
  destruct (encode_packet o packet) as [o1 [len|e]]; [|by destruct Hs as (? & _ & ? & _)].
  destruct Hs as (body & He & -> & Henc). pose proof Henc as (Hw1 & _ & Hv & _).
  split_and!; try done.
  pose proof (retain_packet_spec o o1 kind packet_id _ Henc ltac:(done)) as Hr.
  destruct (retain_packet _ _ _ _) as [o2 [u|e2]]; [|by destruct Hr as (? & _ & ?)].
  destruct Hr as (Hw2 & Hv2 & _ & _ & Hcw & _). split_and!; try done. by exists body.
Qed.

Lemma admit_packet_appends_witness :
  exists o1 len o2,
    encode_packet (Outbound_new (repeat 0 64))
      (mkSubscribe 16 (Slice []) [TopicFilter_new [65; 66; 67]]) = (o1, Ok len) /\
    retain_packet o1 OpKind.Subscribe 16 len = (o2, Ok tt) /\
    view o2 = [mkEntry OpKind.Subscribe 16
                 [0x82; 9; 0; 16; 0; 0; 3; 65; 66; 67; 0] (Write 0)].
Proof.
  assert (out_wf (Outbound_new (repeat 0 64))) as Hw
    by (unfold out_wf; split_and!; try (by vm_compute); repeat constructor).
  pose proof (admit_packet_appends (Outbound_new (repeat 0 64))
    (mkSubscribe 16 (Slice []) [TopicFilter_new [65; 66; 67]]) OpKind.Subscribe 16 Hw
    (List.Forall_nil _)) as H.
  destruct (encode_packet _ _) as [o1 [len|e]] eqn:He; [|by vm_compute in He].
  destruct H as (_ & _ & H). destruct (retain_packet o1 _ _ _) as [o2 [[]|e]] eqn:Hr.
  - destruct H as (_ & _ & body & Hb & Hv). exists o1, len, o2. split_and!; [done|done|].
    vm_compute in Hb. injection Hb as <-. rewrite Hv. by vm_compute.
  - exfalso. destruct H as [_ H]. by vm_compute in H.
Defined.

(** C23: admitting a publish appends it. The payload serializer is offered
    exactly the room that the retention budget leaves behind the header; on
    success the new entry holds the header fields and the bytes the payload
    serializer wrote and counted. On any failure (a field without an encoding,
    no room, the payload's own error, a payload that claims more than it was
    given) the retained packets are as before. *)
Theorem admit_publish_appends {P E} o header (payload : ToPayload P) kind packet_id :
  out_wf o -> properties_ok (ph_properties header) ->
  match encode_publish_out (E := E) o header payload with
  | (o1, Err _) => out_wf o1 /\ view o1 = view o
  | (o1, Ok len) =>
      match retain_packet o1 kind packet_id len with
      | (o2, Err _) => view o2 = view o /\ retained_full o = true
      | (o2, Ok _) => out_wf o2 /\ exists hb slice n,
          enc_publish_header header = Ok hb /\
          to_payload payload
            (zdrop (MAX_FIXED_HEADER_SIZE + zlen hb)
               (zslice (retained_bytes o) (retained_capacity o) (out_buf o))) = (slice, Ok n) /\
          view o2 = view o ++
            [mkEntry kind packet_id
               (packet_bytes (publish_header_fixed_header header) (hb ++ ztake n slice)) (Write 0)]
      end
  end.
Proof.
  intros Hw Hok. pose proof (encode_publish_out_spec (E := E) o header payload Hw Hok) as Hs.
  destruct (encode_publish_out o header payload) as [o1 [len|e]];
    [|by destruct Hs as (? & _ & ? & _)].
  destruct Hs as (hb & slice & n & He & Hp & -> & Henc).
  pose proof (retain_packet_spec o o1 kind packet_id _ Henc ltac:(done)) as Hr.
  destruct (retain_packet _ _ _ _) as [o2 [u|e2]].
  - destruct Hr as (Hw2 & Hv2 & _). split; [done|]. by exists hb, slice, n.
  - destruct Hr as (-> & _ & Hf). split; [|done]. apply Henc.
Qed.

Lemma admit_publish_appends_witness :
  let hdr := mkPublishHeader [97] (Some 3) (Slice []) Retain.NotRetained QoS.AtLeastOnce false in
  exists o1 len o2,
    encode_publish_out (E := unit) (Outbound_new (repeat 0 32)) hdr (bytes_payload [9; 8]) =
      (o1, Ok len) /\
    retain_packet o1 OpKind.PublishAtLeastOnce 3 len = (o2, Ok tt) /\ length (view o2) = 1%nat.
Proof.
  intros hdr. assert (out_wf (Outbound_new (repeat 0 32))) as Hw
    by (unfold out_wf; split_and!; try (by vm_compute); repeat constructor).
  pose proof (admit_publish_appends (E := unit) (Outbound_new (repeat 0 32)) hdr
    (bytes_payload [9; 8]) OpKind.PublishAtLeastOnce 3 Hw (List.Forall_nil _)) as H.
  destruct (encode_publish_out _ _ _) as [o1 [len|e]] eqn:He; [|by vm_compute in He].
  destruct (retain_packet o1 _ _ _) as [o2 [[]|e]] eqn:Hr.
  - destruct H as (_ & hb & slice & n & _ & _ & Hv). exists o1, len, o2.
    split_and!; [done|done|]. by rewrite Hv.
  - exfalso. destruct H as [_ H]. by vm_compute in H.
Defined.

(** Arming a replay keeps every packet and restarts its transmission. All
    retained packets stay in order with their identifiers; the bytes of a
    publish change only in the DUP flag of their header byte, those of a
    subscribe or unsubscribe not at all; and every packet, release and control
    packet starts over from its first byte. *)
Theorem replay_restarts_everything o :
  out_wf o ->
  out_wf (arm_replay o) /\ view (arm_replay o) = map replay_entry (view o) /\
  (forall e, e ∈ view (arm_replay o) -> entry_state e = Write 0) /\
  pending_control (arm_replay o) = map (fun p => set_pc_state p (Write 0)) (pending_control o) /\
  pending_release (arm_replay o) = map (fun p => set_pr_state p (Write 0)) (pending_release o) /\
  view (arm_replay (arm_replay o)) = view (arm_replay o).
Proof.
  intros Hw. destruct (arm_replay_spec o Hw) as (Hw1 & Hv1 & Hc & Hr & _).
  destruct (arm_replay_spec _ Hw1) as (_ & Hv2 & _). split_and!; try done.
  - intros e He. rewrite Hv1 in He. apply list_elem_of_In, in_map_iff in He as (x & <- & _). done.
  - rewrite Hv2, Hv1, map_map. apply map_ext. intros [k i bs s].
    unfold replay_entry, mark_entry. simpl. destruct (is_publish k); [|done].
    destruct bs as [|b bs]; [done|]. simpl. do 2 f_equal.
    unfold mark_publish_duplicate, with_publish_duplicate. simpl.
    by rewrite <- Z.lor_assoc, Z.lor_diag.
Qed.

Lemma replay_restarts_everything_witness :
  view (arm_replay (mkOutbound [0x32; 1; 9; 0x82; 0; 0] 0 []
    [mkRetainedPacket OpKind.PublishAtLeastOnce 1 3 Sent;
     mkRetainedPacket OpKind.Subscribe 2 2 (Write 1)] [])) =
  [mkEntry OpKind.PublishAtLeastOnce 1 [0x3a; 1; 9] (Write 0);
   mkEntry OpKind.Subscribe 2 [0x82; 0] (Write 0)].
Proof.
  assert (out_wf (mkOutbound [0x32; 1; 9; 0x82; 0; 0] 0 []
    [mkRetainedPacket OpKind.PublishAtLeastOnce 1 3 Sent;
     mkRetainedPacket OpKind.Subscribe 2 2 (Write 1)] [])) as Hw
    by (unfold out_wf; split_and!; try (by vm_compute); repeat constructor).
  etransitivity; [apply (replay_restarts_everything _ Hw)|]. by vm_compute.
Defined.

(** * Live identifiers *)

Definition live_ids (o : Outbound) : list Z :=
  map rp_packet_id (retained o) ++ map pr_packet_id (pending_release o).

(** The invariant of the outbound state between the operations of a session. *)
Definition live_inv (o : Outbound) : Prop :=
  out_wf o /\ NoDup (live_ids o) /\ queue_ok (queue o).

Lemma live_inv_out o : live_inv o -> out_inv o.
Proof.
  intros (Hw & Hn & Hq). split_and!; try done. apply NoDup_app in Hn as (H1 & _ & H2). done.
Qed.

Lemma in_progress_perm q1 q2 : q1 ≡ₚ q2 -> in_progress q1 = in_progress q2.
Proof.
  unfold in_progress. induction 1 as [|x q1 q2 _ IH|x y q|q1 q2 q3 _ IH1 _ IH2]; simpl.
  - done.
  - destruct (writable true x); simpl; congruence.
  - by destruct (writable true x), (writable true y).
  - congruence.
Qed.

(** Dropping items keeps the queue in order. *)
Lemma queue_ok_submseteq q q' : q' ⊆+ q -> queue_ok q -> queue_ok q'.
Proof.
  intros (k & Hk)%submseteq_Permutation [Hone Hok]. fold (in_progress q) in Hone.
  rewrite (in_progress_perm _ _ Hk), in_progress_app in Hone. rewrite Hk in Hok.
  apply Forall_app in Hok as [Hok _]. split; [|done]. fold (in_progress q'). lia.
Qed.

Lemma map_delete {A B} (f : A -> B) i l : map f (delete i l) = delete i (map f l).
Proof. revert i. induction l as [|x l IH]; intros [|i]; simpl; [done|done|done|]. by rewrite IH. Qed.

Lemma delete_submseteq {A} i (l : list A) : delete i l ⊆+ l.
Proof. apply sublist_submseteq, sublist_delete. Qed.

Lemma view_ids o : map entry_id (view o) = map rp_packet_id (retained o).
Proof.
  unfold view. generalize 0. induction (retained o) as [|e l IH]; intros z; simpl; [done|].
  by rewrite IH.
Qed.

Lemma ack_packet_inv o kind id o' found :
  live_inv o -> ack_packet o kind id = (o', found) ->
  live_inv o' /\ pending_control o' = pending_control o /\
  pending_release o' = pending_release o /\
  (found = true -> id ∈ map rp_packet_id (retained o) /\ live_ids o ≡ₚ id :: live_ids o') /\
  (found = false -> o' = o).
Proof.
  intros (Hw & Hn & Hq) Ha. pose proof (ack_packet_view o kind id Hw) as Hs.
  destruct (position (is_entry kind id) (view o)) as [i|] eqn:Hp.
  - destruct Hs as (o1 & Ha1 & Hw1 & Hv & _ & _ & Hc & Hr & Hret).
    rewrite Ha in Ha1. injection Ha1 as <- ->.
    apply position_some in Hp as (l1 & e & l2 & Hview & Hi & He & _).
    unfold is_entry in He. apply andb_prop in He as [_ He]. apply Z.eqb_eq in He.
    assert (live_ids o ≡ₚ id :: live_ids o') as Hperm.
    { unfold live_ids. rewrite Hret, map_delete, <- view_ids, Hr, Hview, map_app. simpl.
      rewrite <- Hi, <- (length_map entry_id l1), delete_middle, He.
      rewrite <- !app_assoc. simpl. symmetry. apply Permutation_middle. }
    split_and!; try done; [split_and!; [done| |]|].
    + rewrite Hperm in Hn. by inversion Hn.
    + apply (queue_ok_submseteq (queue o)); [|done]. unfold queue. rewrite Hv, Hc, Hr, map_delete.
      do 2 (apply submseteq_app; [done|]). apply delete_submseteq.
    + intros _. split; [|done]. rewrite <- view_ids, Hview, map_app. simpl. rewrite He. set_solver.
  - rewrite Ha in Hs. injection Hs as -> ->. by split_and!.
Qed.

Lemma queue_release_inv o id reason o' r :
  live_inv o -> id ∉ live_ids o -> queue_release o id reason = (o', r) ->
  live_inv o' /\ pending_control o' = pending_control o /\ retained o' = retained o /\
  match r with
  | Ok _ => pending_release o' = pending_release o ++ [mkPendingRelease id reason (Write 0)]
  | Err e => o' = o /\ e = ProtocolError.InflightMetadataExhausted /\
      length (pending_release o) = MAX_PENDING_RELEASE
  end.
Proof.
  intros (Hw & Hn & Hq) Hid. unfold queue_release, vec_push.
  pose proof Hw as (Hl & Hcw & Hfit & Hc1 & Hc2 & Hc3 & Hm).
  destruct (Nat.ltb_spec (length (pending_release o)) MAX_PENDING_RELEASE) as [Hlt|Hge];
    intros [= <- <-]; [|split_and!; try done; lia].
  split_and!; try done. split_and!.
  - unfold out_wf, retained_bytes. simpl. rewrite length_app. simpl. split_and!; try done. lia.
  - unfold live_ids in *. simpl. rewrite map_app, app_assoc. apply NoDup_app.
    split_and!; [done| |simpl; apply NoDup_singleton]. set_solver.
  - destruct Hq as [Hone Hok]. fold (in_progress (queue o)) in Hone. unfold queue in *. simpl.
    change (view (set_pending_release o _)) with (view o). rewrite map_app, <- app_assoc. split.
    + match goal with |- (length (List.filter _ ?q) <= 1)%nat => fold (in_progress q) end.
      rewrite !in_progress_app in *.
      assert (in_progress (map release_item [mkPendingRelease id reason (Write 0)]) = 0%nat) as ->
        by done. lia.
    + apply Forall_app in Hok as [Ho1 Ho2]. apply Forall_app in Ho2 as [Ho2 Ho3].
      repeat (apply Forall_app; split; [done|]). apply Forall_app. split; [|done].
      constructor; [|constructor]. unfold item_ok. simpl.
      destruct (release_packet_ok id reason) as [_ ->]. done.
Qed.

Lemma ack_release_inv o id o' found :
  live_inv o -> ack_release o id = (o', found) ->
  live_inv o' /\ retained o' = retained o /\ pending_control o' = pending_control o /\
  (found = true -> id ∈ map pr_packet_id (pending_release o) /\ live_ids o ≡ₚ id :: live_ids o') /\
  (found = false -> o' = o /\ id ∉ map pr_packet_id (pending_release o)).
Proof.
  intros (Hw & Hn & Hq). unfold ack_release.
  destruct (position _ (pending_release o)) as [i|] eqn:Hp; intros [= <- <-].
  - apply swap_remove_position in Hp as (x & Hx & Hperm). apply Z.eqb_eq in Hx.
    assert (live_ids o ≡ₚ id ::
      live_ids (set_pending_release o (swap_remove (pending_release o) i))) as Hids.
    { unfold live_ids. simpl. rewrite Hperm at 1. simpl. rewrite Hx. by rewrite Permutation_middle. }
    split_and!; try done; [split_and!|].
    + destruct Hw as (Hl & Hcw & Hfit & Hc1 & Hc2 & Hc3 & Hm). unfold out_wf, retained_bytes. simpl.
      split_and!; try done. rewrite Hperm in Hc3. simpl in Hc3. lia.
    + rewrite Hids in Hn. by inversion Hn.
    + apply (queue_ok_submseteq (queue o)); [|done]. unfold queue. simpl.
      change (view (set_pending_release o _)) with (view o).
      apply submseteq_app; [done|]. apply submseteq_app; [|done].
      rewrite (Permutation_map release_item Hperm). simpl. by apply submseteq_cons.
    + intros _. split; [|done]. rewrite Hperm. simpl. rewrite Hx. set_solver.
  - split_and!; try done. intros _. split; [done|]. intros Hin.
    apply list_elem_of_In, in_map_iff in Hin as (x & Hx & Hin).
    apply position_none in Hp. rewrite List.Forall_forall in Hp. specialize (Hp x Hin).
    simpl in Hp. lia.
Qed.

Lemma queue_control_inv o a o' r :
  live_inv o -> queue_control o a = (o', r) ->
  live_inv o' /\ retained o' = retained o /\ pending_release o' = pending_release o /\
  match r with
  | Ok _ => pending_control o' = pending_control o ++ [mkPendingControl a (Write 0)]
  | Err e => o' = o /\ e = ProtocolError.InflightMetadataExhausted /\
      length (pending_control o) = MAX_PENDING_CONTROL
  end.
Proof.
  intros (Hw & Hn & Hq) Hc. destruct r as [[]|e].
  - destruct (queue_control_queue o a o' Hc Hq) as [Hq' _].
    pose proof (queue_control_wf o a o' Hc Hw). apply queue_control_spec in Hc as [_ ->].
    by split_and!.
  - unfold queue_control, vec_push in Hc. destruct Hw as (Hl & Hcw & Hfit & Hc1 & Hc2 & Hw).
    destruct (Nat.ltb_spec (length (pending_control o)) MAX_PENDING_CONTROL); [done|].
    injection Hc as <- <-. split_and!; try done. lia.
Qed.

Lemma existsb_ids {A} (f : A -> Z) l id :
  existsb (fun x => f x =? id) l = true <-> id ∈ map f l.
Proof.
  rewrite existsb_exists, list_elem_of_In, in_map_iff.
  split; intros (x & H1 & H2); exists x; rewrite ?Z.eqb_eq in *; done.
Qed.

Lemma has_retained_ids o id : has_retained o id = true <-> id ∈ map rp_packet_id (retained o).
Proof. apply existsb_ids. Qed.

Lemma has_pending_release_ids o id :
  has_pending_release o id = true <-> id ∈ map pr_packet_id (pending_release o).
Proof. apply existsb_ids. Qed.
