(* ===== verification/Config.v ===== *)
(** Session configuration: [src/minimq/src/config.rs].

    The packet buffers and the settings of a session, with the builder's
    checks. *)

From S2P Require Import Prelude Types Io Packets.

Definition CLIENT_ID_CAPACITY : Z := 64.

Record Buffers : Type := mkBuffers { rx : bytes; tx : bytes }.

Definition Buffers_split (buffer : bytes) (rx_size : Z) : result ConfigError Buffers :=
  if zlen buffer <? rx_size then Err ConfigError.BufferSplit
  else Ok (mkBuffers (ztake rx_size buffer) (zdrop rx_size buffer)).

Section Config.
Context {T : Time}.

Record ConfigBuilder : Type := mkConfig {
  cfg_buffers : Buffers;
  cfg_will : option Will;
  cfg_client_id : bytes;
  cfg_keepalive_interval : Duration;
  cfg_session_expiry_interval : Z;
  cfg_downgrade_qos : bool;
  cfg_auth : option Auth
}.

Definition ConfigBuilder_new (buffers : Buffers) : ConfigBuilder :=
  mkConfig buffers None [] (from_secs 60) 0 false None.

Definition ConfigBuilder_from_buffer (buffer : bytes) (rx_size : Z)
  : result ConfigError ConfigBuilder :=
  let? buffers := Buffers_split buffer rx_size in
  Ok (ConfigBuilder_new buffers).

Definition config_auth (c : ConfigBuilder) (user_name password : bytes)
  : result ConfigError ConfigBuilder :=
  match cfg_auth c with
  | Some _ => Err ConfigError.DuplicateConfig
  | None =>
      Ok (mkConfig (cfg_buffers c) (cfg_will c) (cfg_client_id c) (cfg_keepalive_interval c)
            (cfg_session_expiry_interval c) (cfg_downgrade_qos c)
            (Some (mkAuth user_name password)))
  end.

Definition config_client_id (c : ConfigBuilder) (id : bytes) : result ConfigError ConfigBuilder :=
  let? id := ok_or ConfigError.ClientIdTooLong (string_try_from CLIENT_ID_CAPACITY id) in
  Ok (mkConfig (cfg_buffers c) (cfg_will c) id (cfg_keepalive_interval c)
        (cfg_session_expiry_interval c) (cfg_downgrade_qos c) (cfg_auth c)).

Definition config_keepalive_interval (c : ConfigBuilder) (seconds : Z) : ConfigBuilder :=
  mkConfig (cfg_buffers c) (cfg_will c) (cfg_client_id c) (from_secs seconds)
    (cfg_session_expiry_interval c) (cfg_downgrade_qos c) (cfg_auth c).

Definition config_session_expiry_interval (c : ConfigBuilder) (seconds : Z) : ConfigBuilder :=
  mkConfig (cfg_buffers c) (cfg_will c) (cfg_client_id c) (cfg_keepalive_interval c)
    seconds (cfg_downgrade_qos c) (cfg_auth c).

Definition config_autodowngrade_qos (c : ConfigBuilder) : ConfigBuilder :=
  mkConfig (cfg_buffers c) (cfg_will c) (cfg_client_id c) (cfg_keepalive_interval c)
    (cfg_session_expiry_interval c) true (cfg_auth c).

Definition config_rx_len (c : ConfigBuilder) : Z := zlen (rx (cfg_buffers c)).
Definition config_tx_len (c : ConfigBuilder) : Z := zlen (tx (cfg_buffers c)).

Definition config_will (c : ConfigBuilder) (w : Will) : result ConfigError ConfigBuilder :=
  match cfg_will c with
  | Some _ => Err ConfigError.DuplicateConfig
  | None =>
      Ok (mkConfig (cfg_buffers c) (Some w) (cfg_client_id c) (cfg_keepalive_interval c)
            (cfg_session_expiry_interval c) (cfg_downgrade_qos c) (cfg_auth c))
  end.
End Config.
