(* ===== verification/Session.v ===== *)
(** Session state and inbound packet handling:
    [src/minimq/src/mqtt_client/session/state.rs],
    [src/minimq/src/mqtt_client/session/mod.rs] and the packet handler of
    [src/minimq/src/mqtt_client/session/inbound.rs].

    [SessionData] is the durable MQTT state, [RuntimeState] the state of one
    connection. [handle_packet] is a computation on both; on an error it keeps
    what was already changed, as the source does. *)

From S2P Require Import Prelude Varint Types Io Wire Ser De Properties Packets Received Outbound.

(** * Runtime state *)

Definition ROUND_TRIP_TIMEOUT_MS : Z := 5000.
Definition MAX_INBOUND_QOS2 : nat := 8.

Section Runtime.
Context {T : Time}.

Record RuntimeState : Type := mkRuntime {
  session_resumed : bool;
  keepalive_interval : Duration;
  send_quota : Z;
  max_send_quota : Z;
  maximum_packet_size : option Z;
  max_qos : option QoS;
  next_ping : option Instant;
  ping_timeout : option Instant
}.

Definition RuntimeState_new (keepalive_interval : Duration) : RuntimeState :=
  mkRuntime false keepalive_interval (2 ^ 16 - 1) (2 ^ 16 - 1) None None None None.

Definition set_send_quota (r : RuntimeState) (q : Z) : RuntimeState :=
  mkRuntime (session_resumed r) (keepalive_interval r) q (max_send_quota r)
    (maximum_packet_size r) (max_qos r) (next_ping r) (ping_timeout r).
Definition set_next_ping (r : RuntimeState) (t : option Instant) : RuntimeState :=
  mkRuntime (session_resumed r) (keepalive_interval r) (send_quota r) (max_send_quota r)
    (maximum_packet_size r) (max_qos r) t (ping_timeout r).
Definition set_ping_timeout (r : RuntimeState) (t : option Instant) : RuntimeState :=
  mkRuntime (session_resumed r) (keepalive_interval r) (send_quota r) (max_send_quota r)
    (maximum_packet_size r) (max_qos r) (next_ping r) t.

Definition reset_transport (r : RuntimeState) : RuntimeState :=
  mkRuntime false (keepalive_interval r) (send_quota r) (max_send_quota r)
    (maximum_packet_size r) (max_qos r) None None.

Definition keepalive_send_interval (r : RuntimeState) : option Duration :=
  let keepalive_ms := as_millis (keepalive_interval r) in
  if keepalive_ms =? 0 then None else
  let lead_ms := Z.min ROUND_TRIP_TIMEOUT_MS (keepalive_ms / 2) in
  Some (from_millis (keepalive_ms - lead_ms)).

Definition note_outbound_activity (r : RuntimeState) (now : Instant) : RuntimeState :=
  set_next_ping r (option_map (instant_add now) (keepalive_send_interval r)).

Definition require_packet_size {E} (r : RuntimeState) (len : Z) : result (Error E) unit :=
  if exceeds (maximum_packet_size r) len
  then Err (Error.Resource ResourceError.PacketTooLarge) else Ok tt.

Definition next_deadline (r : RuntimeState) : option Instant :=
  match next_ping r, ping_timeout r with
  | Some next_ping, Some ping_timeout => Some (instant_min next_ping ping_timeout)
  | Some next_ping, None => Some next_ping
  | None, Some ping_timeout => Some ping_timeout
  | None, None => None
  end.
End Runtime.

(** * Session data *)

Record SessionData : Type := mkSessionData {
  packet_id : Z;
  generation : Z;
  outbound : Outbound;
  pending_server_packet_ids : list Z;
  session_present_flag : bool
}.

Definition set_packet_id (d : SessionData) (i : Z) : SessionData :=
  mkSessionData i (generation d) (outbound d) (pending_server_packet_ids d) (session_present_flag d).
Definition set_outbound (d : SessionData) (o : Outbound) : SessionData :=
  mkSessionData (packet_id d) (generation d) o (pending_server_packet_ids d)
    (session_present_flag d).
Definition set_pending_server_packet_ids (d : SessionData) (l : list Z) : SessionData :=
  mkSessionData (packet_id d) (generation d) (outbound d) l (session_present_flag d).

Definition SessionData_new (buf : bytes) : SessionData :=
  mkSessionData 1 0 (Outbound_new buf) [] false.

Definition mark_session_present (d : SessionData) : SessionData :=
  mkSessionData (packet_id d) (generation d) (outbound d) (pending_server_packet_ids d) true.

Definition session_reset (d : SessionData) : SessionData :=
  mkSessionData 1 (u32_wrapping_add (generation d) 1) (clear_inflight (outbound d)) [] false.

(** [NonZeroU16::new(packet_id.wrapping_add(1)).unwrap_or(NonZeroU16::MIN)]. *)
Definition succ_packet_id (packet_id : Z) : Z :=
  let n := u16_wrapping_add packet_id 1 in if n =? 0 then 1 else n.

Definition id_in_use (o : Outbound) (packet_id : Z) : bool :=
  has_retained o packet_id || has_pending_release o packet_id.

(** The loop of [next_packet_id]. Each turn but the last finds an identifier of
    a different entry of the two tables, so their lengths bound the turns, see
    [next_packet_id_loop_enough]. *)
Fixpoint next_packet_id_loop (fuel : nat) (d : SessionData) : SessionData * Z :=
  match fuel with
  | O => (d, 0)
  | S fuel' =>
      let id := packet_id d in
      let d := set_packet_id d (succ_packet_id id) in
      if negb (has_retained (outbound d) id) && negb (has_pending_release (outbound d) id)
      then (d, id) else next_packet_id_loop fuel' d
  end.

Definition next_packet_id_fuel (d : SessionData) : nat :=
  S (length (retained (outbound d)) + length (pending_release (outbound d))).

Definition next_packet_id (d : SessionData) : SessionData * Z :=
  next_packet_id_loop (next_packet_id_fuel d) d.

(** * Operation status: [Session::status] *)

Inductive OpStatus : Type := Pending | Complete | Invalidated.

#[export] Instance OpStatus_eq_dec : EqDecision OpStatus.
Proof. solve_decision. Defined.

Definition status (d : SessionData) (op : Op) : OpStatus :=
  if negb (op_generation op =? generation d) then Invalidated else
  let pending :=
    match op_kind op with
    | OpKind.PublishAtLeastOnce | OpKind.Subscribe | OpKind.Unsubscribe =>
        has_retained (outbound d) (op_packet_id op)
    | OpKind.PublishExactlyOnce =>
        has_retained (outbound d) (op_packet_id op) ||
        has_pending_release (outbound d) (op_packet_id op)
    end in
  if pending then Pending else Complete.

(** * Handling a packet *)

Section HandlePacket.
Context {T : Time}.

Definition HP (A : Type) : Type :=
  ST (SessionData * RuntimeState) (Error Empty_set) A.

Definition on_outbound {A} (f : Outbound -> Outbound * A) : HP A :=
  fun '(d, rt) => let '(o, a) := f (outbound d) in ((set_outbound d o, rt), Ok a).

Definition try_outbound (f : Outbound -> Outbound * result ProtocolError unit) : HP unit :=
  fun '(d, rt) => let '(o, r) := f (outbound d) in
                  ((set_outbound d o, rt), map_err error_of_protocol r).

Definition data : HP SessionData := fun s => (s, Ok (fst s)).
Definition runtime : HP RuntimeState := fun s => (s, Ok (snd s)).
Definition set_data (d : SessionData) : HP unit := fun s => ((d, snd s), Ok tt).
Definition set_runtime (rt : RuntimeState) : HP unit := fun s => ((fst s, rt), Ok tt).
Definition try {A} (r : result ProtocolError A) : HP A := lift (map_err error_of_protocol r).
Definition try_peer (r : result PeerError unit) : HP unit := lift (map_err Error.Peer r).

Fixpoint check_codes (codes : bytes) : HP unit :=
  match codes with
  | [] => ret tt
  | code :: codes' =>
      do! try_peer (as_result (reason_code_from code)) in check_codes codes'
  end.

Definition restore_quota (rt : RuntimeState) : RuntimeState :=
  set_send_quota rt (Z.min (u16_saturating_add (send_quota rt) 1) (max_send_quota rt)).

Definition contains (l : list Z) (x : Z) : bool := existsb (fun y => y =? x) l.

(** [SubAck] and [UnsubAck]. *)
Definition handle_list_ack (kind : OpKind) (packet_id : Z) (codes : bytes) : HP bool :=
  let! found := on_outbound (fun o => ack_packet o kind packet_id) in
  if negb found then ret false else
  do! check_codes codes in ret false.

Definition handle_puback (ack : PubAck) : HP bool :=
  let! found := on_outbound (fun o => ack_packet o OpKind.PublishAtLeastOnce (puback_packet_id ack)) in
  if negb found then ret false else
  let! rt := runtime in
  do! set_runtime (restore_quota rt) in
  do! try_peer (as_result (reason_get_code (puback_reason ack))) in
  ret false.

(** What the branch does after the acknowledgement. *)
Definition finish_pubrec (rec : PubRec) (release : bool) : HP bool :=
  do! try_peer (as_result (reason_get_code (pubrec_reason rec))) in
  if release then
    let! rt := runtime in
    do! try (check_pubrel_size (maximum_packet_size rt) (pubrec_packet_id rec) ReasonCode.Success) in
    do! try_outbound (fun o => queue_release o (pubrec_packet_id rec) ReasonCode.Success) in
    ret false
  else ret false.

Definition handle_pubrec (rec : PubRec) : HP bool :=
  let! found := on_outbound (fun o => ack_packet o OpKind.PublishExactlyOnce (pubrec_packet_id rec)) in
  if found then
    let! rt := runtime in
    do! set_runtime (restore_quota rt) in
    finish_pubrec rec true
  else
    let! d := data in
    if has_pending_release (outbound d) (pubrec_packet_id rec) then finish_pubrec rec false
    else ret false.

Definition handle_pubcomp (comp : PubComp) : HP bool :=
  let! found := on_outbound (fun o => ack_release o (pubcomp_packet_id comp)) in
  if negb found then ret false else
  do! try_peer (as_result (reason_get_code (pubcomp_reason comp))) in
  ret false.

Definition handle_pubrel (rel : PubRel) : HP bool :=
  let! d := data in
  let! reason :=
    match position (fun id => id =? pubrel_packet_id rel) (pending_server_packet_ids d) with
    | Some index =>
        do! set_data (set_pending_server_packet_ids d
                        (swap_remove (pending_server_packet_ids d) index)) in
        ret ReasonCode.Success
    | None => ret ReasonCode.PacketIdNotFound
    end in
  let action := ControlAction.PubComp (pubrel_packet_id rel) reason in
  let! rt := runtime in
  do! try (check_control_packet_size (maximum_packet_size rt) action) in
  do! try_outbound (fun o => queue_control o action) in
  ret false.

Definition handle_publish (info : Publish) : HP bool :=
  match publish_qos_level info with
  | QoS.AtMostOnce => ret true
  | QoS.AtLeastOnce =>
      let! packet_id := try (ok_or ProtocolError.MalformedPacket (publish_packet_id info)) in
      let! d := data in
      let reason := if contains (pending_server_packet_ids d) packet_id
                    then ReasonCode.PacketIdInUse else ReasonCode.Success in
      let action := ControlAction.PubAck packet_id reason in
      let! rt := runtime in
      do! try (check_control_packet_size (maximum_packet_size rt) action) in
      do! try_outbound (fun o => queue_control o action) in
      ret true
  | QoS.ExactlyOnce =>
      let! packet_id := try (ok_or ProtocolError.MalformedPacket (publish_packet_id info)) in
      let! d := data in
      let duplicate := contains (pending_server_packet_ids d) packet_id in
      let! reason :=
        if negb duplicate then
          match vec_push MAX_INBOUND_QOS2 (pending_server_packet_ids d) packet_id with
          | Some l => do! set_data (set_pending_server_packet_ids d l) in ret ReasonCode.Success
          | None => ret ReasonCode.ReceiveMaxExceeded
          end
        else ret ReasonCode.Success in
      let action := ControlAction.PubRec packet_id reason in
      let! rt := runtime in
      do! try (check_control_packet_size (maximum_packet_size rt) action) in
      do! try_outbound (fun o => queue_control o action) in
      if duplicate || negb (success reason) then ret false else ret true
  end.

(** [SessionData::handle_packet]: [true] is a publish to deliver. *)
Definition handle_packet (packet : ReceivedPacket) : HP bool :=
  match packet with
  | ReceivedPacket.ConnAck _ => raise (error_of_protocol ProtocolError.UnexpectedPacket)
  | ReceivedPacket.SubAck ack =>
      handle_list_ack OpKind.Subscribe (suback_packet_id ack) (suback_codes ack)
  | ReceivedPacket.UnsubAck ack =>
      handle_list_ack OpKind.Unsubscribe (unsuback_packet_id ack) (unsuback_codes ack)
  | ReceivedPacket.PingResp =>
      let! rt := runtime in
      do! set_runtime (set_ping_timeout rt None) in
      ret false
  | ReceivedPacket.PubAck ack => handle_puback ack
  | ReceivedPacket.PubRec rec => handle_pubrec rec
  | ReceivedPacket.PubComp comp => handle_pubcomp comp
  | ReceivedPacket.PubRel rel => handle_pubrel rel
  | ReceivedPacket.Publish info => handle_publish info
  | ReceivedPacket.Disconnect _ => raise Error.Disconnected
  end.
End HandlePacket.

(** * Packet identifiers *)

Lemma succ_packet_id_range p : 1 <= p < 2 ^ 16 -> 1 <= succ_packet_id p < 2 ^ 16.
Proof.
  unfold succ_packet_id, u16_wrapping_add. intros Hp.
  pose proof (Z.mod_pos_bound (p + 1) (2 ^ 16) ltac:(lia)).
  destruct (Z.eqb_spec ((p + 1) mod 2 ^ 16) 0); lia.
Qed.

(** The identifiers the loop tries, the first [n]. *)
Fixpoint candidates (n : nat) (p : Z) : list Z :=
  match n with O => [] | S n' => p :: candidates n' (succ_packet_id p) end.

Definition nth_id (p : Z) (k : Z) : Z := (p - 1 + k) mod (2 ^ 16 - 1) + 1.

Lemma succ_nth_id p k : 1 <= p < 2 ^ 16 -> 0 <= k -> succ_packet_id (nth_id p k) = nth_id p (k + 1).
Proof.
  intros Hp Hk. unfold succ_packet_id, nth_id, u16_wrapping_add.
  pose proof (Z.mod_pos_bound (p - 1 + k) (2 ^ 16 - 1) ltac:(lia)) as Hb.
  set (m := (p - 1 + k) mod (2 ^ 16 - 1)) in *.
  assert ((p - 1 + (k + 1)) mod (2 ^ 16 - 1) = (m + 1) mod (2 ^ 16 - 1)) as ->.
  { unfold m. rewrite Z.add_mod_idemp_l by lia. f_equal. lia. }
  destruct (Z.eq_dec m (2 ^ 16 - 2)) as [->|].
  - done.
  - rewrite !Z.mod_small by lia. destruct (Z.eqb_spec (m + 1 + 1) 0); lia.
Qed.

Lemma candidates_nth n p k :
  1 <= p < 2 ^ 16 -> 0 <= k ->
  candidates n (nth_id p k) = map (fun i => nth_id p (k + Z.of_nat i)) (seq 0 n).
Proof.
  intros Hp. revert k. induction n as [|n IH]; intros k Hk; [done|].
  cbn [candidates seq map]. rewrite Z.add_0_r. f_equal.
  rewrite succ_nth_id, IH by lia. rewrite <- seq_shift, map_map. apply map_ext.
  intros i. f_equal. lia.
Qed.

Lemma candidates_nodup n p :
  1 <= p < 2 ^ 16 -> Z.of_nat n < 2 ^ 16 -> NoDup (candidates n p).
Proof.
  intros Hp Hn. assert (p = nth_id p 0) as He
    by (unfold nth_id; rewrite Z.mod_small; lia).
  rewrite He, candidates_nth by lia.
  apply NoDup_ListNoDup, Finite.Injective_map_NoDup_in; [|apply seq_NoDup].
  intros i j Hi%in_seq Hj%in_seq Heq. unfold nth_id in Heq.
  destruct (Z.eq_dec (Z.of_nat i) (Z.of_nat j)) as [|Hne]; [lia|]. exfalso.
  assert (((p - 1 + (0 + Z.of_nat i)) - (p - 1 + (0 + Z.of_nat j))) mod (2 ^ 16 - 1) = 0) as Hz.
  { rewrite Zminus_mod. replace ((p - 1 + (0 + Z.of_nat i)) mod (2 ^ 16 - 1))
      with ((p - 1 + (0 + Z.of_nat j)) mod (2 ^ 16 - 1)) by lia.
    by rewrite Z.sub_diag. }
  apply Z.mod_divide in Hz; [|lia]. destruct Hz as [q Hq]. nia.
Qed.

(** A run of the loop: the first free candidate. *)
Lemma next_packet_id_loop_spec fuel d :
  1 <= packet_id d < 2 ^ 16 ->
  (exists i, i ∈ candidates fuel (packet_id d) /\ id_in_use (outbound d) i = false) ->
  let '(d', i) := next_packet_id_loop fuel d in
  i ∈ candidates fuel (packet_id d) /\ id_in_use (outbound d) i = false /\
  1 <= i < 2 ^ 16 /\ 1 <= packet_id d' < 2 ^ 16 /\
  d' = set_packet_id d (packet_id d').
Proof.
  revert d. induction fuel as [|fuel IH]; intros d Hp (i & Hi & Hfree); [by apply not_elem_of_nil in Hi|].
  cbn [next_packet_id_loop candidates]. cbn [outbound set_packet_id].
  rewrite <- negb_orb. fold (id_in_use (outbound d) (packet_id d)).
  pose proof (succ_packet_id_range _ Hp).
  destruct (id_in_use (outbound d) (packet_id d)) eqn:Hu; simpl.
  - specialize (IH (set_packet_id d (succ_packet_id (packet_id d)))). cbn [packet_id outbound set_packet_id] in IH.
    simpl in Hi. apply elem_of_cons in Hi as [->|Hi]; [congruence|].
    specialize (IH ltac:(done) (ex_intro _ i (conj Hi Hfree))).
    destruct (next_packet_id_loop fuel _) as [d' j]. destruct IH as (H1 & H2 & H3 & H4 & H5).
    split_and!; try done; try lia; by right.
  - split_and!; try done; try lia. by left.
Qed.

Lemma id_in_use_ids o i : id_in_use o i = true <-> i ∈ live_ids o.
Proof.
  unfold id_in_use, live_ids. rewrite orb_true_iff, has_retained_ids, has_pending_release_ids.
  by rewrite elem_of_app.
Qed.

Lemma free_candidate fuel d :
  1 <= packet_id d < 2 ^ 16 -> (length (live_ids (outbound d)) < fuel)%nat ->
  Z.of_nat fuel < 2 ^ 16 ->
  exists i, i ∈ candidates fuel (packet_id d) /\ id_in_use (outbound d) i = false.
Proof.
  intros Hp Hl Hf. destruct (decide (Forall (fun i => id_in_use (outbound d) i = true)
    (candidates fuel (packet_id d)))) as [Hall|Hnot].
  - exfalso. assert (candidates fuel (packet_id d) ⊆+ live_ids (outbound d)) as Hsub.
    { apply NoDup_submseteq; [by apply candidates_nodup|]. intros i Hi.
      rewrite Forall_forall in Hall. by apply id_in_use_ids, Hall. }
    apply submseteq_length in Hsub.
    assert (forall n p, length (candidates n p) = n) as Hlen
      by (intros n; induction n; intros; simpl; auto).
    rewrite Hlen in Hsub. lia.
  - apply not_Forall_Exists in Hnot; [|apply _]. apply Exists_exists in Hnot as (i & Hi & Hn).
    exists i. split; [done|]. simpl in Hn. by destruct (id_in_use (outbound d) i).
Qed.

Lemma next_packet_id_spec d :
  out_wf (outbound d) -> 1 <= packet_id d < 2 ^ 16 ->
  let '(d', i) := next_packet_id d in
  (i ∉ live_ids (outbound d)) /\ 1 <= i < 2 ^ 16 /\ 1 <= packet_id d' < 2 ^ 16 /\
  d' = set_packet_id d (packet_id d').
Proof.
  intros Hw Hp. unfold next_packet_id.
  assert (next_packet_id_fuel d = S (length (live_ids (outbound d)))) as Hf
    by (unfold next_packet_id_fuel, live_ids; by rewrite length_app, !length_map).
  destruct Hw as (_ & _ & _ & Hr & _ & Hl & _). unfold MAX_RETAINED, MAX_PENDING_RELEASE in *.
  pose proof (next_packet_id_loop_spec (next_packet_id_fuel d) d Hp) as Hs.
  specialize (Hs (free_candidate (next_packet_id_fuel d) d Hp ltac:(lia)
    ltac:(unfold next_packet_id_fuel; lia))).
  destruct (next_packet_id_loop _ d) as [d' i]. destruct Hs as (_ & H2 & H3 & H4 & H5).
  split_and!; try done; try lia. intros Hin. apply id_in_use_ids in Hin. congruence.
Qed.

(** More fuel than entries changes nothing: the loop ends by itself. *)
Lemma next_packet_id_loop_enough n m d :
  1 <= packet_id d < 2 ^ 16 ->
  (exists i, i ∈ candidates n (packet_id d) /\ id_in_use (outbound d) i = false) ->
  (n <= m)%nat -> next_packet_id_loop m d = next_packet_id_loop n d.
Proof.
  revert m d. induction n as [|n IH]; intros m d Hp (i & Hi & Hfree) Hm;
    [by apply not_elem_of_nil in Hi|]. destruct m as [|m]; [lia|].
  cbn [next_packet_id_loop]. cbn [outbound set_packet_id]. rewrite <- negb_orb.
  fold (id_in_use (outbound d) (packet_id d)).
  destruct (id_in_use (outbound d) (packet_id d)) eqn:Hu; simpl; [|done].
  apply IH; [by apply succ_packet_id_range| |lia].
  simpl in Hi. apply elem_of_cons in Hi as [->|Hi]; [congruence|]. by exists i.
Qed.

(** * The session invariant *)

Definition data_inv (d : SessionData) : Prop :=
  live_inv (outbound d) /\ 1 <= packet_id d < 2 ^ 16 /\
  NoDup (pending_server_packet_ids d) /\
  (length (pending_server_packet_ids d) <= MAX_INBOUND_QOS2)%nat.

Section Handler.
Context {T : Time}.

Definition quota_inv (rt : RuntimeState) : Prop :=
  0 <= send_quota rt <= max_send_quota rt /\ max_send_quota rt < 2 ^ 16.

Definition session_inv (s : SessionData * RuntimeState) : Prop :=
  data_inv (fst s) /\ quota_inv (snd s).

(** A step keeps the invariant, the generation and the next identifier. *)
Definition hp_step (s s' : SessionData * RuntimeState) : Prop :=
  session_inv s' /\ generation (fst s') = generation (fst s) /\
  packet_id (fst s') = packet_id (fst s).

Definition hp_safe {A} (m : HP A) : Prop := forall s, session_inv s -> hp_step s (fst (m s)).

Lemma hp_step_refl s : session_inv s -> hp_step s s.
Proof. done. Qed.

Lemma hp_step_trans s1 s2 s3 : hp_step s1 s2 -> hp_step s2 s3 -> hp_step s1 s3.
Proof. intros (? & ? & ?) (? & ? & ?). split_and!; congruence || done. Qed.

Lemma hp_safe_ret {A} (a : A) : hp_safe (ret a).
Proof. by intros s. Qed.

Lemma hp_safe_raise {A} e : hp_safe (@raise _ _ A e).
Proof. by intros s. Qed.

Lemma hp_safe_lift {A} r : hp_safe (@lift _ _ A r).
Proof. by intros s. Qed.

Lemma hp_safe_bind {A B} (m : HP A) (k : A -> HP B) :
  hp_safe m -> (forall a, hp_safe (k a)) -> hp_safe (bind m k).
Proof.
  intros Hm Hk s Hs. specialize (Hm s Hs). unfold bind.
  destruct (m s) as [s' [a|e]]; simpl in *; [|done].
  eapply hp_step_trans; [done|]. apply Hk, Hm.
Qed.

Lemma hp_safe_get {A} (f : SessionData * RuntimeState -> A) : hp_safe (fun s => (s, Ok (f s))).
Proof. by intros s. Qed.

(** Steps that read a part of the state and go on from it. *)
Lemma hp_safe_runtime {A} (k : RuntimeState -> HP A) :
  (forall s, session_inv s -> hp_step s (fst (k (snd s) s))) -> hp_safe (bind runtime k).
Proof. intros Hk s Hs. unfold bind, runtime. by apply Hk. Qed.

Lemma hp_safe_data {A} (k : SessionData -> HP A) :
  (forall s, session_inv s -> hp_step s (fst (k (fst s) s))) -> hp_safe (bind data k).
Proof. intros Hk s Hs. unfold bind, data. by apply Hk. Qed.

Lemma hp_safe_try_outbound f :
  (forall o, live_inv o -> live_inv (fst (f o))) -> hp_safe (try_outbound f).
Proof.
  intros Hf [d rt] [(Hl & Hd) Hq]. unfold try_outbound. simpl in *. specialize (Hf _ Hl).
  destruct (f (outbound d)) as [o r]. simpl in *. done.
Qed.

Lemma hp_safe_on_outbound {A} (f : Outbound -> Outbound * A) :
  (forall o, live_inv o -> live_inv (fst (f o))) -> hp_safe (on_outbound f).
Proof.
  intros Hf [d rt] [(Hl & Hd) Hq]. unfold on_outbound. simpl in *. specialize (Hf _ Hl).
  destruct (f (outbound d)) as [o r]. simpl in *. done.
Qed.

Lemma hp_safe_queue_control a : hp_safe (try_outbound (fun o => queue_control o a)).
Proof.
  apply hp_safe_try_outbound. intros o Ho. destruct (queue_control o a) as [o' r] eqn:Hc.
  by destruct (queue_control_inv o a o' r Ho Hc).
Qed.

Lemma hp_safe_ack kind id : hp_safe (on_outbound (fun o => ack_packet o kind id)).
Proof.
  apply hp_safe_on_outbound. intros o Ho. destruct (ack_packet o kind id) as [o' r] eqn:Hc.
  by destruct (ack_packet_inv o kind id o' r Ho Hc).
Qed.

Lemma hp_safe_ack_release id : hp_safe (on_outbound (fun o => ack_release o id)).
Proof.
  apply hp_safe_on_outbound. intros o Ho. destruct (ack_release o id) as [o' r] eqn:Hc.
  by destruct (ack_release_inv o id o' r Ho Hc).
Qed.

Lemma restore_quota_inv rt : quota_inv rt -> quota_inv (restore_quota rt).
Proof. unfold quota_inv, restore_quota, u16_saturating_add. simpl. lia. Qed.

Lemma hp_safe_restore_quota :
  hp_safe (let! rt := runtime in set_runtime (restore_quota rt)).
Proof.
  intros [d rt] [Hd Hq]. split_and!; try done. split; [done|]. by apply restore_quota_inv.
Qed.

Lemma hp_safe_check_codes codes : hp_safe (check_codes codes).
Proof.
  induction codes as [|c codes IH]; simpl; [apply hp_safe_ret|].
  apply hp_safe_bind; [apply hp_safe_lift|done].
Qed.

Lemma hp_safe_pending l :
  NoDup l -> (length l <= MAX_INBOUND_QOS2)%nat ->
  forall s, session_inv s -> hp_step s (fst (set_data (set_pending_server_packet_ids (fst s) l) s)).
Proof. intros Hn Hl [d rt] [(Ho & Hp & _) Hq]. done. Qed.

Lemma hp_safe_list_ack kind id codes : hp_safe (handle_list_ack kind id codes).
Proof.
  apply hp_safe_bind; [apply hp_safe_ack|]. intros found. destruct found; simpl; [|apply hp_safe_ret].
  apply hp_safe_bind; [apply hp_safe_check_codes|]. intros. apply hp_safe_ret.
Qed.

Lemma hp_safe_restore_then {A} (m : HP A) :
  hp_safe m -> hp_safe (let! rt := runtime in do! set_runtime (restore_quota rt) in m).
Proof.
  intros Hm s Hs. pose proof (hp_safe_restore_quota s Hs) as Hr.
  eapply hp_step_trans; [exact Hr|]. apply Hm, Hr.
Qed.

Lemma hp_safe_puback ack : hp_safe (handle_puback ack).
Proof.
  apply hp_safe_bind; [apply hp_safe_ack|]. intros found. destruct found; simpl; [|apply hp_safe_ret].
  apply hp_safe_restore_then. apply hp_safe_bind; [apply hp_safe_lift|]. intros. apply hp_safe_ret.
Qed.

Lemma hp_safe_pubcomp comp : hp_safe (handle_pubcomp comp).
Proof.
  apply hp_safe_bind; [apply hp_safe_ack_release|]. intros found. destruct found; simpl; [|apply hp_safe_ret].
  apply hp_safe_bind; [apply hp_safe_lift|]. intros. apply hp_safe_ret.
Qed.

(** Queueing the release of an identifier that is not live. *)
Lemma finish_pubrec_step rec s :
  session_inv s -> pubrec_packet_id rec ∉ live_ids (outbound (fst s)) ->
  hp_step s (fst (finish_pubrec rec true s)).
Proof.
  intros Hs Hid. unfold finish_pubrec, bind at 1, try_peer, lift.
  destruct (as_result _) as [[]|e]; simpl; [|done].
  unfold bind at 1, runtime. unfold bind at 1, try, lift.
  destruct (check_pubrel_size _ _ _) as [[]|e]; simpl; [|done].
  destruct s as [d rt]. pose proof Hs as [(Hl & Hd) Hq]. unfold bind, try_outbound. simpl in *.
  destruct (queue_release _ _ _) as [o r] eqn:Hr.
  destruct (queue_release_inv _ _ _ _ _ Hl Hid Hr) as (Hl' & _). by destruct r.
Qed.

Lemma hp_safe_finish_false rec : hp_safe (finish_pubrec rec false).
Proof. apply hp_safe_bind; [apply hp_safe_lift|]. intros. apply hp_safe_ret. Qed.

Lemma hp_safe_pubrec rec : hp_safe (handle_pubrec rec).
Proof.
  intros s Hs. unfold handle_pubrec, bind at 1. pose proof (hp_safe_ack OpKind.PublishExactlyOnce (pubrec_packet_id rec) s Hs) as Ha.
  destruct s as [d rt]. unfold on_outbound in *. simpl in *.
  destruct (ack_packet _ _ _) as [o found] eqn:Hack. simpl in *.
  destruct (ack_packet_inv _ _ _ _ _ (proj1 (proj1 Hs)) Hack) as (_ & _ & _ & Ht & _).
  eapply hp_step_trans; [exact Ha|]. destruct found.
  - pose proof (hp_safe_restore_quota _ (proj1 Ha)) as Hr. unfold bind at 1, runtime. simpl.
    unfold bind at 1, set_runtime. simpl. eapply hp_step_trans; [exact Hr|].
    apply finish_pubrec_step; [apply Hr|]. simpl. destruct Ht as [_ Hp]; [done|].
    destruct Hs as [((_ & Hn & _) & _) _]. rewrite Hp in Hn. by inversion Hn.
  - unfold bind, data. simpl. destruct (has_pending_release o _); [|by apply hp_step_refl, Ha].
    apply hp_safe_finish_false, Ha.
Qed.

Lemma hp_safe_ack_action action :
  hp_safe (let! rt := runtime in
           do! try (check_control_packet_size (maximum_packet_size rt) action) in
           try_outbound (fun o => queue_control o action)).
Proof.
  apply hp_safe_bind; [apply hp_safe_get|]. intros rt.
  apply hp_safe_bind; [apply hp_safe_lift|]. intros _. apply hp_safe_queue_control.
Qed.

Lemma hp_safe_action_then {A} action (m : HP A) :
  hp_safe m ->
  hp_safe (let! rt := runtime in
           do! try (check_control_packet_size (maximum_packet_size rt) action) in
           do! try_outbound (fun o => queue_control o action) in m).
Proof.
  intros Hm. apply hp_safe_bind; [apply hp_safe_get|]. intros rt.
  apply hp_safe_bind; [apply hp_safe_lift|]. intros _.
  by apply hp_safe_bind; [apply hp_safe_queue_control|].
Qed.

Lemma hp_safe_pubrel rel : hp_safe (handle_pubrel rel).
Proof.
  apply hp_safe_data. intros s Hs. pose proof Hs as [(_ & _ & Hn & Hl) _].
  match goal with |- hp_step _ (fst (bind ?m ?k s)) =>
    assert (hp_step s (fst (m s))) as Hm; [|assert (forall r, hp_safe (k r)) as Hk] end.
  - destruct (position _ _) as [i|] eqn:Hp; [|by apply hp_step_refl].
    apply swap_remove_position in Hp as (x & _ & Hperm).
    apply (hp_safe_pending (swap_remove (pending_server_packet_ids (fst s)) i)); [| |done].
    + rewrite Hperm in Hn. by inversion Hn.
    + apply Permutation_length in Hperm. simpl in Hperm. lia.
  - intros r. apply hp_safe_action_then, hp_safe_ret.
  - unfold bind at 1. destruct (_ s) as [s1 [r|e]]; simpl in *; [|done].
    eapply hp_step_trans; [exact Hm|]. apply Hk, Hm.
Qed.

Lemma contains_elem l x : contains l x = true <-> x ∈ l.
Proof.
  unfold contains. rewrite existsb_exists, list_elem_of_In.
  split; [intros (y & Hy & He); apply Z.eqb_eq in He; by subst|].
  intros Hx. exists x. by rewrite Z.eqb_refl.
Qed.

Lemma hp_safe_publish info : hp_safe (handle_publish info).
Proof.
  unfold handle_publish. destruct (publish_qos_level info); [apply hp_safe_ret| |];
    (apply hp_safe_bind; [apply hp_safe_lift|]); intros id.
  - apply hp_safe_bind; [apply hp_safe_get|]. intros d. apply hp_safe_action_then, hp_safe_ret.
  - apply hp_safe_data. intros s Hs. pose proof Hs as [(_ & _ & Hn & Hl) _].
    match goal with |- hp_step _ (fst (bind ?m ?k s)) =>
      assert (hp_step s (fst (m s))) as Hm; [|assert (forall r, hp_safe (k r)) as Hk] end.
    + destruct (contains _ _) eqn:Hc; simpl; [done|].
      destruct (vec_push _ _ _) as [l|] eqn:Hv; [|done]. apply vec_push_some in Hv as [-> Hlt].
      apply (hp_safe_pending (pending_server_packet_ids (fst s) ++ [id])); [| |done].
      * apply NoDup_app. split_and!; [done| |apply NoDup_singleton]. intros x Hx.
        rewrite list_elem_of_singleton. intros ->. apply contains_elem in Hx. congruence.
      * rewrite length_app. simpl. lia.
    + intros r. apply hp_safe_action_then. destruct (_ || _); apply hp_safe_ret.
    + unfold bind at 1. destruct (_ s) as [s1 [r|e]]; simpl in *; [|done].
      eapply hp_step_trans; [exact Hm|]. apply Hk, Hm.
Qed.

Lemma hp_safe_handle_packet packet : hp_safe (handle_packet packet).
Proof.
  destruct packet; simpl; auto using hp_safe_raise, hp_safe_list_ack, hp_safe_puback,
    hp_safe_pubrec, hp_safe_pubcomp, hp_safe_pubrel, hp_safe_publish.
  intros [d rt] [Hd Hq]. done.
Qed.

(** * Delivery of inbound QoS 2 publishes *)

Definition is_pubrel_of (id : Z) (p : ReceivedPacket) : bool :=
  match p with ReceivedPacket.PubRel rel => pubrel_packet_id rel =? id | _ => false end.

(** What a handler keeps of the session data, also when it fails. *)
Definition hp_keeps (P : SessionData -> Prop) {A} (m : HP A) : Prop :=
  forall s, P (fst s) -> P (fst (fst (m s))).

Lemma hp_keeps_bind P {A B} (m : HP A) (k : A -> HP B) :
  hp_keeps P m -> (forall a, hp_keeps P (k a)) -> hp_keeps P (bind m k).
Proof.
  intros Hm Hk s Hs. specialize (Hm s Hs). unfold bind.
  destruct (m s) as [s' [a|e]]; simpl in *; [|done]. by apply Hk.
Qed.

Lemma hp_keeps_on P {A} (f : Outbound -> Outbound * A) :
  (forall d, P d -> P (set_outbound d (fst (f (outbound d))))) -> hp_keeps P (on_outbound f).
Proof.
  intros Hf [d rt] Hs. unfold on_outbound. specialize (Hf d Hs). by destruct (f _).
Qed.

Lemma hp_keeps_try P f :
  (forall d, P d -> P (set_outbound d (fst (f (outbound d))))) -> hp_keeps P (try_outbound f).
Proof.
  intros Hf [d rt] Hs. unfold try_outbound. specialize (Hf d Hs). by destruct (f _).
Qed.

Lemma hp_keeps_pure P {A} (m : HP A) : (forall s, fst (m s) = s) -> hp_keeps P m.
Proof. intros Hm s Hs. by rewrite Hm. Qed.

Lemma hp_keeps_runtime P rt : hp_keeps P (set_runtime rt).
Proof. by intros s. Qed.

Lemma hp_keeps_codes P codes : hp_keeps P (check_codes codes).
Proof.
  induction codes as [|c codes IH]; simpl; [by apply hp_keeps_pure|].
  apply hp_keeps_bind; [by apply hp_keeps_pure|done].
Qed.
End Handler.

Create HintDb hp.
#[export] Hint Resolve hp_keeps_bind hp_keeps_on hp_keeps_try hp_keeps_runtime hp_keeps_codes : hp.
#[export] Hint Extern 2 (hp_keeps _ (ret _)) => (by apply hp_keeps_pure) : hp.
#[export] Hint Extern 2 (hp_keeps _ (raise _)) => (by apply hp_keeps_pure) : hp.
#[export] Hint Extern 2 (hp_keeps _ (try _)) => (by apply hp_keeps_pure) : hp.
#[export] Hint Extern 2 (hp_keeps _ (try_peer _)) => (by apply hp_keeps_pure) : hp.
#[export] Hint Extern 2 (hp_keeps _ runtime) => (by apply hp_keeps_pure) : hp.
#[export] Hint Extern 2 (hp_keeps _ data) => (by apply hp_keeps_pure) : hp.
#[export] Hint Extern 4 (hp_keeps _ (if ?b then _ else _)) => (destruct b) : hp.

(** An inbound QoS 2 identifier is reserved. *)
Definition is_reserved (id : Z) (d : SessionData) : Prop := id ∈ pending_server_packet_ids d.

#[export] Hint Extern 3 (is_reserved _ (set_outbound _ _)) => (assumption) : hp.

(** Predicates on the outbound state that all its operations keep. *)
Section Keeps.
Context {T : Time} (P : SessionData -> Prop).
Hypothesis keeps_control : forall d a,
  P d -> P (set_outbound d (fst (queue_control (outbound d) a))).
Hypothesis keeps_reserved : forall d l, P d -> P (set_pending_server_packet_ids d l).

Lemma hp_keeps_publish info : hp_keeps P (handle_publish info).
Proof using keeps_control keeps_reserved.
  unfold handle_publish. destruct (publish_qos_level info); auto 10 with hp.
  apply hp_keeps_bind; [auto with hp|]. intros id s Hs. unfold bind at 1, data.
  match goal with |- P (fst (fst (bind ?m ?k s))) =>
    assert (P (fst (fst (m s)))) as Hm;
    [|assert (forall r, hp_keeps P (k r)) as Hk by (intros; auto 10 with hp)] end.
  - destruct (negb _); [|done]. destruct (vec_push _ _ _); [by apply keeps_reserved|done].
  - unfold bind at 1. destruct (_ s) as [s1 [r|e]]; simpl in *; [|done]. by apply Hk.
Qed.

Lemma hp_keeps_pubrel rel : hp_keeps P (handle_pubrel rel).
Proof using keeps_control keeps_reserved.
  intros s Hs. unfold handle_pubrel, bind at 1, data. simpl.
  match goal with |- P (fst (fst (bind ?m ?k s))) =>
    assert (P (fst (fst (m s)))) as Hm;
    [|assert (forall r, hp_keeps P (k r)) as Hk by (intros; auto 10 with hp)] end.
  - destruct (position _ _); [by apply keeps_reserved|done].
  - unfold bind at 1. destruct (_ s) as [s1 [r|e]]; simpl in *; [|done]. by apply Hk.
Qed.

Hypothesis keeps_ack : forall d kind id,
  P d -> P (set_outbound d (fst (ack_packet (outbound d) kind id))).
Hypothesis keeps_ack_release : forall d id,
  P d -> P (set_outbound d (fst (ack_release (outbound d) id))).
Hypothesis keeps_queue_release : forall d id reason,
  P d -> P (set_outbound d (fst (queue_release (outbound d) id reason))).

Lemma hp_keeps_handle p : hp_keeps P (handle_packet p).
Proof using All.
  assert (forall rec b, hp_keeps P (finish_pubrec rec b)) as Hfinish.
  { intros rec b. apply hp_keeps_bind; [auto with hp|]. intros _. destruct b; auto 10 with hp. }
  destruct p as [p|info|ack|ack|ack|rel|rec|comp|p|]; simpl;
    auto using hp_keeps_publish, hp_keeps_pubrel with hp.
  - apply hp_keeps_bind; [auto with hp|]. intros []; simpl; auto 10 with hp.
  - apply hp_keeps_bind; [auto with hp|]. intros []; simpl; auto with hp.
  - apply hp_keeps_bind; [auto with hp|]. intros []; simpl; auto with hp.
  - apply hp_keeps_bind; [auto with hp|]. intros []; auto 10 with hp.
  - apply hp_keeps_bind; [auto with hp|]. intros []; simpl; auto with hp.
Qed.
End Keeps.

Section Qos2.
Context {T : Time}.

Lemma keeps_reserved_list_ack id kind pid codes :
  hp_keeps (is_reserved id) (handle_list_ack kind pid codes).
Proof. unfold handle_list_ack. apply hp_keeps_bind; [auto with hp|]. intros []; simpl; auto with hp. Qed.

Lemma keeps_reserved_pubrec id rec : hp_keeps (is_reserved id) (handle_pubrec rec).
Proof.
  assert (forall b, hp_keeps (is_reserved id) (finish_pubrec rec b)) as Hf.
  { intros b. apply hp_keeps_bind; [auto with hp|]. intros _. destruct b; auto 10 with hp. }
  apply hp_keeps_bind; [auto with hp|]. intros []; auto 10 with hp.
Qed.

Lemma keeps_reserved_publish id info : hp_keeps (is_reserved id) (handle_publish info).
Proof.
  unfold handle_publish. destruct (publish_qos_level info); [auto with hp| |].
  - auto 10 with hp.
  - apply hp_keeps_bind; [auto with hp|]. intros pid s Hs. unfold bind at 1, data.
    match goal with |- is_reserved _ (fst (fst (bind ?m ?k s))) =>
      assert (is_reserved id (fst (fst (m s)))) as Hm;
      [|assert (forall r, hp_keeps (is_reserved id) (k r)) as Hk by (intros; auto 10 with hp)] end.
    + destruct (negb _); [|done]. destruct (vec_push _ _ _) as [l|] eqn:Hv; [|done].
      apply vec_push_some in Hv as [-> _]. unfold is_reserved in *. simpl. set_solver.
    + unfold bind at 1. destruct (_ s) as [s1 [r|e]]; simpl in *; [|done]. by apply Hk.
Qed.

Lemma keeps_reserved_pubrel id rel :
  pubrel_packet_id rel <> id -> hp_keeps (is_reserved id) (handle_pubrel rel).
Proof.
  intros Hne s Hs. unfold handle_pubrel, bind at 1, data. simpl.
  match goal with |- is_reserved _ (fst (fst (bind ?m ?k s))) =>
    assert (is_reserved id (fst (fst (m s)))) as Hm;
    [|assert (forall r, hp_keeps (is_reserved id) (k r)) as Hk by (intros; auto 10 with hp)] end.
  - destruct (position _ _) as [i|] eqn:Hp; [|done].
    apply swap_remove_position in Hp as (x & Hx & Hperm). apply Z.eqb_eq in Hx. simpl.
    unfold is_reserved in *. simpl. rewrite Hperm in Hs. apply elem_of_cons in Hs as [->|Hs]; [done|done].
  - unfold bind at 1. destruct (_ s) as [s1 [r|e]]; simpl in *; [|done]. by apply Hk.
Qed.

Lemma keeps_reserved_handle id p :
  is_pubrel_of id p = false -> hp_keeps (is_reserved id) (handle_packet p).
Proof.
  destruct p; simpl; intros Hp; auto using keeps_reserved_list_ack, keeps_reserved_pubrec,
    keeps_reserved_publish with hp.
  - unfold handle_puback. apply hp_keeps_bind; [auto with hp|]. intros []; simpl; auto 10 with hp.
  - apply keeps_reserved_pubrel. lia.
  - unfold handle_pubcomp. apply hp_keeps_bind; [auto with hp|]. intros []; simpl; auto with hp.
Qed.

(** The outcome of an inbound QoS 2 publish. *)
Lemma handle_qos2_cases info id s :
  publish_qos_level info = QoS.ExactlyOnce -> publish_packet_id info = Some id ->
  let '(s', r) := handle_publish info s in
  (id ∈ pending_server_packet_ids (fst s) -> r <> Ok true) /\
  (r = Ok true -> id ∈ pending_server_packet_ids (fst s')).
Proof.
  intros Hq Hid. unfold handle_publish. rewrite Hq, Hid. simpl.
  unfold bind at 1, try, lift. simpl. unfold bind at 1, data. simpl.
  destruct (contains (pending_server_packet_ids (fst s)) id) eqn:Hc; simpl.
  - unfold bind. simpl. destruct (check_control_packet_size _ _) as [[]|e]; simpl; [|done].
    unfold try_outbound. destruct s as [d rt]. simpl.
    destruct (queue_control _ _) as [o [[]|e]]; simpl; done.
  - assert (id ∉ pending_server_packet_ids (fst s)) as Hnin
      by (intros Hin%contains_elem; congruence).
    destruct (vec_push _ _ _) as [l|] eqn:Hv; simpl.
    + apply vec_push_some in Hv as [-> _]. unfold bind. simpl.
      destruct (check_control_packet_size _ _) as [[]|e]; simpl; [|done].
      unfold try_outbound. simpl. destruct (queue_control _ _) as [o [[]|e]]; simpl; [|done].
      split; [done|]. intros _. set_solver.
    + unfold bind. simpl. destruct (check_control_packet_size _ _) as [[]|e]; simpl; [|done].
      unfold try_outbound. destruct s as [d rt]. simpl.
      destruct (queue_control _ _) as [o [[]|e]]; simpl; done.
Qed.

(** Handling a sequence of packets, errors ignored by the caller. *)
Definition handle_all (packets : list ReceivedPacket) (s : SessionData * RuntimeState)
  : SessionData * RuntimeState :=
  foldl (fun s p => fst (handle_packet p s)) s packets.

Lemma handle_all_pending id packets s :
  Forall (fun p => is_pubrel_of id p = false) packets ->
  id ∈ pending_server_packet_ids (fst s) ->
  id ∈ pending_server_packet_ids (fst (handle_all packets s)).
Proof.
  intros Hp. revert s. induction Hp as [|p packets Hp _ IH]; intros s Hs; simpl; [done|].
  by apply IH, keeps_reserved_handle.
Qed.
End Qos2.

(** * Operations in flight *)

(** An issued operation: its packet is retained under its own kind, or the
    release of its QoS 2 publish is pending. *)
Definition op_live (op : Op) (d : SessionData) : Prop :=
  op_generation op = generation d /\
  ((exists e, e ∈ retained (outbound d) /\ rp_kind e = op_kind op /\
      rp_packet_id e = op_packet_id op) \/
   (op_kind op = OpKind.PublishExactlyOnce /\
      op_packet_id op ∈ map pr_packet_id (pending_release (outbound d)))).

Lemma op_live_pending op d : op_live op d -> status d op = Pending.
Proof.
  intros [Hg Hl]. unfold status. rewrite Hg, Z.eqb_refl. simpl.
  destruct Hl as [(e & He & Hk & Hi)|[Hk Hr]].
  - assert (has_retained (outbound d) (op_packet_id op) = true) as ->.
    { apply has_retained_ids. rewrite <- Hi. apply list_elem_of_fmap. by exists e. }
    by destruct (op_kind op).
  - rewrite Hk. apply has_pending_release_ids in Hr. rewrite Hr. by rewrite orb_true_r.
Qed.

Lemma free_complete kind id d :
  id ∉ live_ids (outbound d) -> status d (mkOp kind id (generation d)) = Complete.
Proof.
  intros Hid. unfold status. simpl. rewrite Z.eqb_refl. simpl.
  assert (id_in_use (outbound d) id = false) as Hu
    by (apply not_true_is_false; by rewrite id_in_use_ids).
  unfold id_in_use in Hu. rewrite Hu. apply orb_false_elim in Hu as [-> _]. by destruct kind.
Qed.

Lemma ack_packet_keeps_op op kind id d :
  ~ (kind = op_kind op /\ id = op_packet_id op) -> op_live op d ->
  op_live op (set_outbound d (fst (ack_packet (outbound d) kind id))).
Proof.
  intros Hne [Hg Hl]. split; [done|]. unfold ack_packet.
  destruct (position _ _) as [i|] eqn:Hp; [|done]. simpl.
  destruct Hl as [(e & He & Hk & Hi)|]; [|by right]. left. exists e. split; [|done].
  apply position_some in Hp as (l1 & x & l2 & Hl & <- & Hx & _). rewrite Hl in *.
  rewrite delete_middle. unfold is_retained_op in Hx.
  apply andb_prop in Hx as [Hx1%bool_decide_eq_true Hx2%Z.eqb_eq].
  apply elem_of_app. apply elem_of_app in He as [|[->|]%elem_of_cons]; [by left| |by right].
  exfalso. apply Hne. split; congruence.
Qed.

Lemma ack_release_keeps_op op id d :
  ~ (op_kind op = OpKind.PublishExactlyOnce /\ id = op_packet_id op) -> op_live op d ->
  op_live op (set_outbound d (fst (ack_release (outbound d) id))).
Proof.
  intros Hne [Hg Hl]. split; [done|]. unfold ack_release.
  destruct (position _ _) as [i|] eqn:Hp; [|done]. simpl.
  destruct Hl as [|[Hk Hr]]; [by left|]. right. split; [done|].
  apply swap_remove_position in Hp as (x & Hx & Hperm). apply Z.eqb_eq in Hx.
  rewrite (Permutation_map pr_packet_id Hperm) in Hr. simpl in Hr.
  apply elem_of_cons in Hr as [Hr|]; [|done]. exfalso. apply Hne. split; congruence.
Qed.

Lemma queue_control_keeps_op op a d :
  op_live op d -> op_live op (set_outbound d (fst (queue_control (outbound d) a))).
Proof. intros [Hg Hl]. split; [done|]. unfold queue_control. by destruct (vec_push _ _ _). Qed.

Lemma queue_release_keeps_op op id reason d :
  op_live op d -> op_live op (set_outbound d (fst (queue_release (outbound d) id reason))).
Proof.
  intros [Hg Hl]. split; [done|]. unfold queue_release. destruct (vec_push _ _ _) as [l|] eqn:Hv; [|done].
  apply vec_push_some in Hv as [-> _]. simpl. rewrite map_app.
  destruct Hl as [|[Hk Hr]]; [by left|right]. split; [done|]. apply elem_of_app. by left.
Qed.

#[export] Hint Resolve ack_packet_keeps_op ack_release_keeps_op queue_control_keeps_op
  queue_release_keeps_op : hp.

(** The packets that end an operation: its own acknowledgement, and for QoS 2 a
    PUBREC that is not followed up by a PUBREL because handling it failed. *)
Definition acknowledges (op : Op) (p : ReceivedPacket) (failed : bool) : Prop :=
  match op_kind op, p with
  | OpKind.PublishAtLeastOnce, ReceivedPacket.PubAck ack => puback_packet_id ack = op_packet_id op
  | OpKind.PublishExactlyOnce, ReceivedPacket.PubRec rec =>
      pubrec_packet_id rec = op_packet_id op /\ failed = true
  | OpKind.PublishExactlyOnce, ReceivedPacket.PubComp comp =>
      pubcomp_packet_id comp = op_packet_id op
  | OpKind.Subscribe, ReceivedPacket.SubAck ack => suback_packet_id ack = op_packet_id op
  | OpKind.Unsubscribe, ReceivedPacket.UnsubAck ack => unsuback_packet_id ack = op_packet_id op
  | _, _ => False
  end.

Section Operations.
Context {T : Time}.

Lemma op_live_list_ack op kind id codes :
  ~ (kind = op_kind op /\ id = op_packet_id op) ->
  hp_keeps (op_live op) (handle_list_ack kind id codes).
Proof.
  intros Hne. apply hp_keeps_bind; [auto with hp|]. intros []; simpl; auto with hp.
Qed.

Lemma op_live_puback op ack :
  ~ (OpKind.PublishAtLeastOnce = op_kind op /\ puback_packet_id ack = op_packet_id op) ->
  hp_keeps (op_live op) (handle_puback ack).
Proof.
  intros Hne. apply hp_keeps_bind; [auto with hp|]. intros []; simpl; auto 10 with hp.
Qed.

Lemma op_live_pubcomp op comp :
  ~ (op_kind op = OpKind.PublishExactlyOnce /\ pubcomp_packet_id comp = op_packet_id op) ->
  hp_keeps (op_live op) (handle_pubcomp comp).
Proof.
  intros Hne. apply hp_keeps_bind; [auto with hp|]. intros []; simpl; auto 10 with hp.
Qed.

Lemma op_live_finish op rec b : hp_keeps (op_live op) (finish_pubrec rec b).
Proof. apply hp_keeps_bind; [auto with hp|]. intros _. destruct b; auto 10 with hp. Qed.

Lemma finish_keeps_generation g rec b :
  hp_keeps (fun d => g = generation d) (finish_pubrec rec b).
Proof. apply hp_keeps_bind; [auto with hp|]. intros _. destruct b; auto 10 with hp. Qed.

Lemma op_live_pubrec_other op rec :
  ~ (OpKind.PublishExactlyOnce = op_kind op /\ pubrec_packet_id rec = op_packet_id op) ->
  hp_keeps (op_live op) (handle_pubrec rec).
Proof.
  intros Hne. apply hp_keeps_bind; [auto with hp|].
  intros []; auto 10 using op_live_finish with hp.
Qed.

Lemma op_live_publish op info : hp_keeps (op_live op) (handle_publish info).
Proof. apply hp_keeps_publish; [auto with hp|done]. Qed.

Lemma op_live_pubrel op rel : hp_keeps (op_live op) (handle_pubrel rel).
Proof. apply hp_keeps_pubrel; [auto with hp|done]. Qed.

(** The release of a PUBREC that is followed up. *)
Lemma finish_pubrec_ok rec s b :
  snd (finish_pubrec rec true s) = Ok b ->
  pubrec_packet_id rec ∈
    map pr_packet_id (pending_release (outbound (fst (fst (finish_pubrec rec true s))))).
Proof.
  unfold finish_pubrec, bind, try_peer, try, lift, runtime, try_outbound, queue_release.
  destruct s as [d rt]. simpl. destruct (as_result _) as [[]|e]; simpl; [|done].
  destruct (check_pubrel_size _ _ _) as [[]|e]; simpl; [|done].
  destruct (vec_push _ _ _) as [l|] eqn:Hv; simpl; [|done]. intros _.
  apply vec_push_some in Hv as [-> _]. rewrite map_app. set_solver.
Qed.

Lemma handle_pubrec_eq rec d rt :
  handle_pubrec rec (d, rt) =
  let '(o, found) := ack_packet (outbound d) OpKind.PublishExactlyOnce (pubrec_packet_id rec) in
  if found then finish_pubrec rec true (set_outbound d o, restore_quota rt)
  else if has_pending_release o (pubrec_packet_id rec)
       then finish_pubrec rec false (set_outbound d o, rt)
       else ((set_outbound d o, rt), Ok false).
Proof.
  unfold handle_pubrec, bind at 1, on_outbound. destruct (ack_packet _ _ _) as [o []]; [done|].
  unfold bind, data. simpl. by destruct (has_pending_release o _).
Qed.

Lemma op_live_pubrec op rec s :
  op_live op (fst s) ->
  op_live op (fst (fst (handle_pubrec rec s))) \/
  acknowledges op (ReceivedPacket.PubRec rec)
    (match snd (handle_pubrec rec s) with Ok _ => false | Err _ => true end).
Proof.
  intros Hs. destruct (decide (op_kind op = OpKind.PublishExactlyOnce /\
    pubrec_packet_id rec = op_packet_id op)) as [[Hk Hid]|Hne];
    [|left; apply op_live_pubrec_other; [|done]; intros []; by apply Hne].
  unfold acknowledges. rewrite Hk. destruct (snd (handle_pubrec rec s)) as [b|e] eqn:Hr; [|by right].
  left. destruct s as [d rt]. rewrite handle_pubrec_eq in *. simpl in Hs.
  destruct (ack_packet _ _ _) as [o found] eqn:Ha. destruct found.
  - destruct Hs as [Hg _]. split.
    + rewrite Hg. by apply (finish_keeps_generation (generation d)).
    + right. split; [done|]. rewrite <- Hid. by eapply finish_pubrec_ok.
  - unfold ack_packet in Ha. destruct (position _ _); [done|]. injection Ha as <-.
    assert (op_live op (set_outbound d (outbound d))) as Hs' by done.
    destruct (has_pending_release _ _); [by apply op_live_finish|done].
Qed.
Ltac own_ack op kind pid :=
  destruct (decide (op_kind op = kind /\ pid = op_packet_id op)) as [[Hk Hi]|Hne];
  [right; unfold acknowledges; by rewrite Hk|left].

Lemma op_live_handle op p s :
  op_live op (fst s) ->
  op_live op (fst (fst (handle_packet p s))) \/
  acknowledges op p (match snd (handle_packet p s) with Ok _ => false | Err _ => true end).
Proof.
  intros Hs. destruct p as [p|info|ack|ack|ack|rel|rec|comp|p|]; simpl.
  - by left.
  - left. by apply op_live_publish.
  - own_ack op OpKind.PublishAtLeastOnce (puback_packet_id ack).
    apply op_live_puback; [|done]. intros []. by apply Hne.
  - own_ack op OpKind.Subscribe (suback_packet_id ack).
    apply op_live_list_ack; [|done]. intros []. by apply Hne.
  - own_ack op OpKind.Unsubscribe (unsuback_packet_id ack).
    apply op_live_list_ack; [|done]. intros []. by apply Hne.
  - left. by apply op_live_pubrel.
  - by apply op_live_pubrec.
  - own_ack op OpKind.PublishExactlyOnce (pubcomp_packet_id comp).
    apply op_live_pubcomp; [|done]. intros []. by apply Hne.
  - by left.
  - by left.
Qed.

(** * Acknowledgements *)

Lemma set_outbound_same d : set_outbound d (outbound d) = d.
Proof. by destruct d. Qed.

Lemma ack_packet_stale o kind id :
  id ∉ map rp_packet_id (retained o) -> ack_packet o kind id = (o, false).
Proof.
  intros Hid. unfold ack_packet. destruct (position _ _) as [i|] eqn:Hp; [|done].
  exfalso. apply Hid. apply position_some in Hp as (l1 & x & l2 & -> & _ & Hx & _).
  apply andb_prop in Hx as [_ Hx%Z.eqb_eq]. rewrite map_app. simpl. rewrite Hx. set_solver.
Qed.

Lemma ack_packet_live o kind e :
  e ∈ retained o -> rp_kind e = kind -> exists o', ack_packet o kind (rp_packet_id e) = (o', true).
Proof.
  intros He Hk. unfold ack_packet. destruct (position _ _) as [i|] eqn:Hp; [by eexists|].
  apply position_none in Hp. rewrite Forall_forall in Hp. specialize (Hp e He).
  unfold is_retained_op in Hp. rewrite Hk, bool_decide_true, Z.eqb_refl in Hp; done.
Qed.

Lemma ack_release_stale o id :
  id ∉ map pr_packet_id (pending_release o) -> ack_release o id = (o, false).
Proof.
  intros Hid. unfold ack_release. destruct (position _ _) as [i|] eqn:Hp; [|done].
  exfalso. apply Hid. apply position_some in Hp as (l1 & x & l2 & -> & _ & Hx%Z.eqb_eq & _).
  rewrite map_app. simpl. rewrite Hx. set_solver.
Qed.

Lemma ack_release_live o id :
  id ∈ map pr_packet_id (pending_release o) -> exists o', ack_release o id = (o', true).
Proof.
  intros Hid. unfold ack_release. destruct (position _ _) as [i|] eqn:Hp; [by eexists|].
  apply position_none in Hp. rewrite Forall_forall in Hp.
  apply list_elem_of_fmap in Hid as (x & -> & Hx). specialize (Hp x Hx). simpl in Hp. lia.
Qed.

Lemma handle_pubcomp_eq comp d rt :
  handle_pubcomp comp (d, rt) =
  let '(o, found) := ack_release (outbound d) (pubcomp_packet_id comp) in
  ((set_outbound d o, rt),
   if found then match as_result (reason_get_code (pubcomp_reason comp)) with
                 | Ok _ => Ok false | Err e => Err (Error.Peer e) end
   else Ok false).
Proof.
  unfold handle_pubcomp, bind, on_outbound, try_peer, lift.
  destruct (ack_release _ _) as [o []]; simpl; [|done]. by destruct (as_result _).
Qed.

(** A PUBREC with a success code, when the release fits. *)
Lemma finish_pubrec_success rec d rt :
  as_result (reason_get_code (pubrec_reason rec)) = Ok tt ->
  check_pubrel_size (maximum_packet_size rt) (pubrec_packet_id rec) ReasonCode.Success = Ok tt ->
  finish_pubrec rec true (d, rt) =
  let '(o, r) := queue_release (outbound d) (pubrec_packet_id rec) ReasonCode.Success in
  ((set_outbound d o, rt), match r with Ok _ => Ok false | Err e => Err (error_of_protocol e) end).
Proof.
  intros Hc Hs. unfold finish_pubrec, bind, try_peer, try, lift, runtime, try_outbound.
  rewrite Hc. simpl. rewrite Hs. simpl. by destruct (queue_release _ _ _) as [o [[]|]].
Qed.

(** The packet identifier an acknowledgement refers to. *)
Definition ack_id (p : ReceivedPacket) : option Z :=
  match p with
  | ReceivedPacket.PubAck ack => Some (puback_packet_id ack)
  | ReceivedPacket.PubRec rec => Some (pubrec_packet_id rec)
  | ReceivedPacket.PubComp comp => Some (pubcomp_packet_id comp)
  | ReceivedPacket.SubAck ack => Some (suback_packet_id ack)
  | ReceivedPacket.UnsubAck ack => Some (unsuback_packet_id ack)
  | _ => None
  end.

Lemma stale_ack_eq p id s :
  ack_id p = Some id -> id ∉ live_ids (outbound (fst s)) -> handle_packet p s = (s, Ok false).
Proof.
  intros Hp Hid. unfold live_ids in Hid. rewrite elem_of_app in Hid.
  assert (id ∉ map rp_packet_id (retained (outbound (fst s)))) as Hr by tauto.
  assert (id ∉ map pr_packet_id (pending_release (outbound (fst s)))) as Hl by tauto. clear Hid.
  destruct s as [d rt]. simpl in *.
  destruct p; simplify_eq/=; unfold handle_list_ack, handle_puback, bind, on_outbound;
    rewrite ?handle_pubrec_eq, ?handle_pubcomp_eq, ?ack_packet_stale, ?ack_release_stale by done;
    simpl; rewrite ?set_outbound_same; try done.
  destruct (has_pending_release _ _) eqn:Hb; [|done].
  by apply has_pending_release_ids in Hb.
Qed.
End Operations.

(** * Claims *)

(** C24: packet identifiers are fresh and the search for one ends. From any
    well-formed state the next identifier is a non-zero 16-bit number that no
    retained packet and no pending release uses; at most one candidate per live
    entry is skipped (more turns of the loop change nothing), also when the
    counter wraps around; and nothing but the counter changes. *)
Theorem next_packet_id_fresh d :
  out_wf (outbound d) -> 1 <= packet_id d < 2 ^ 16 ->
  let '(d', id) := next_packet_id d in
  has_retained (outbound d) id = false /\ has_pending_release (outbound d) id = false /\
  1 <= id < 2 ^ 16 /\ 1 <= packet_id d' < 2 ^ 16 /\ d' = set_packet_id d (packet_id d') /\
  forall fuel, (length (live_ids (outbound d)) < fuel)%nat ->
    next_packet_id_loop fuel d = (d', id).
Proof.
  intros Hw Hp. pose proof (next_packet_id_spec d Hw Hp) as Hs.
  assert (next_packet_id_fuel d = S (length (live_ids (outbound d)))) as Hf
    by (unfold next_packet_id_fuel, live_ids; by rewrite length_app, !length_map).
  assert (exists i, i ∈ candidates (next_packet_id_fuel d) (packet_id d) /\
    id_in_use (outbound d) i = false) as Hex.
  { destruct Hw as (_ & _ & _ & Hr & _ & Hl & _). unfold MAX_RETAINED, MAX_PENDING_RELEASE in *.
    apply free_candidate; [done|lia|unfold next_packet_id_fuel; lia]. }
  destruct (next_packet_id d) as [d' id] eqn:Hn. destruct Hs as (Hid & H1 & H2 & H3).
  unfold live_ids in Hid. rewrite elem_of_app in Hid. split_and!; try done; try lia.
  - destruct (has_retained (outbound d) id) eqn:Hr; [|done].
    exfalso. apply Hid. left. by apply has_retained_ids.
  - destruct (has_pending_release (outbound d) id) eqn:Hr; [|done].
    exfalso. apply Hid. right. by apply has_pending_release_ids.
  - intros fuel Hfuel. rewrite <- Hn. apply next_packet_id_loop_enough; [done|done|lia].
Qed.

Lemma next_packet_id_fresh_witness :
  let o := mkOutbound (repeat 0 16) 0 [] [mkRetainedPacket OpKind.Subscribe 65535 5 (Write 0)]
             [mkPendingRelease 1 ReasonCode.Success (Write 0)] in
  let d := mkSessionData 65535 0 o [] false in
  snd (next_packet_id d) = 2 /\ has_retained o (snd (next_packet_id d)) = false.
Proof.
  intros o d. split; [by vm_compute|].
  assert (out_wf o) as Hw by (unfold out_wf; split_and!; try (by vm_compute); repeat constructor).
  pose proof (next_packet_id_fresh d Hw ltac:(split; by vm_compute)) as H.
  destruct (next_packet_id d) as [d' id]. apply H.
Defined.

(** No received packet can break the session. Handling any decoded packet,
    whether it succeeds or fails, keeps the invariant: the retained packets lie
    inside their budget, live identifiers are unique across both tables, at most
    one packet is partly written, the inbound QoS 2 identifiers are unique and
    within capacity, the send quota stays within its maximum; and it neither
    changes the generation nor consumes a packet identifier. *)
Theorem handle_packet_keeps_invariant {T : Time} packet s :
  session_inv s ->
  let s' := fst (handle_packet packet s) in
  session_inv s' /\ generation (fst s') = generation (fst s) /\
  packet_id (fst s') = packet_id (fst s).
Proof. intros Hs. by apply hp_safe_handle_packet. Qed.

Definition demo_session : SessionData * RuntimeState (T := Scripted.time) :=
  (SessionData_new (repeat 0 64), RuntimeState_new (T := Scripted.time) 10000).

Lemma SessionData_new_inv buf : zlen buf <= MQTT_VARINT_MAX -> data_inv (SessionData_new buf).
Proof.
  intros Hb. unfold data_inv, live_inv, out_wf. simpl.
  pose proof (zlen_nonneg buf).
  split_and!; try done; try lia; try constructor; try (unfold zlen; lia).
  all: unfold retained_bytes, queue; simpl; try lia; try constructor; done.
Qed.

Lemma demo_session_inv : session_inv demo_session.
Proof. split; [apply SessionData_new_inv; by vm_compute|by vm_compute]. Qed.

Definition demo_qos2 (id : Z) : Publish :=
  mkPublish [116] (Some id) (Slice []) [1] Retain.NotRetained QoS.ExactlyOnce false.

Lemma handle_packet_keeps_invariant_witness :
  session_inv (fst (handle_packet (ReceivedPacket.Publish (demo_qos2 5)) demo_session)).
Proof. apply (handle_packet_keeps_invariant _ demo_session demo_session_inv). Defined.

(** A QoS 2 message is delivered at most once. After a QoS 2 publish was
    handed to the application, the same identifier is not delivered again,
    whatever packets come in between, until the broker released it with a
    PUBREL. *)
Theorem qos2_at_most_once {T : Time} s info packets info' id :
  publish_qos_level info = QoS.ExactlyOnce -> publish_packet_id info = Some id ->
  publish_qos_level info' = QoS.ExactlyOnce -> publish_packet_id info' = Some id ->
  Forall (fun p => is_pubrel_of id p = false) packets ->
  snd (handle_packet (ReceivedPacket.Publish info) s) = Ok true ->
  let s1 := handle_all packets (fst (handle_packet (ReceivedPacket.Publish info) s)) in
  snd (handle_packet (ReceivedPacket.Publish info') s1) <> Ok true.
Proof.
  intros Hq Hi Hq' Hi' Hp Hd s1. simpl in *.
  pose proof (handle_qos2_cases info id s Hq Hi) as H1.
  destruct (handle_publish info s) as [s' r]. destruct H1 as [_ H1]. simpl in *.
  pose proof (handle_all_pending id packets s' Hp (H1 Hd)) as H2. fold s1 in H2.
  pose proof (handle_qos2_cases info' id s1 Hq' Hi') as H3.
  destruct (handle_publish info' s1) as [s2 r2]. by apply H3.
Qed.

Lemma qos2_at_most_once_witness :
  snd (handle_packet (ReceivedPacket.Publish (demo_qos2 5)) demo_session) = Ok true /\
  snd (handle_packet (ReceivedPacket.Publish (demo_qos2 5))
         (handle_all [ReceivedPacket.PingResp; ReceivedPacket.Publish (demo_qos2 6)]
            (fst (handle_packet (ReceivedPacket.Publish (demo_qos2 5)) demo_session)))) <> Ok true.
Proof.
  split; [by vm_compute|].
  apply (qos2_at_most_once demo_session (demo_qos2 5)
    [ReceivedPacket.PingResp; ReceivedPacket.Publish (demo_qos2 6)] (demo_qos2 5) 5);
    first [by vm_compute | by repeat constructor].
Defined.

(** C7: an operation stays pending until its own acknowledgement. Whatever packet
    the broker sends, a publish, subscribe or unsubscribe in flight still reports
    [Pending] after it was handled, unless the packet is the acknowledgement of
    that kind with its identifier; for QoS 2 that is the PUBCOMP, and the PUBREC
    only when handling it fails. *)
Theorem operation_ends_only_by_its_ack {T : Time} op p s :
  op_live op (fst s) ->
  let '(s', r) := handle_packet p s in
  status (fst s') op = Pending \/
  acknowledges op p (match r with Ok _ => false | Err _ => true end).
Proof.
  intros Hs.
  pose proof (op_live_handle op p s Hs) as H.
  destruct (handle_packet p s) as [s' r]. simpl in H.
  destruct H as [H%op_live_pending|H]; [by left|by right].
Qed.

(** The invariant of a concrete session. *)
Ltac solve_session_inv :=
  unfold session_inv, data_inv, live_inv, out_wf, queue_ok; split_and!;
  first [ by vm_compute | vm_compute; lia | apply (bool_decide_unpack _); by vm_compute
        | repeat (constructor; [by vm_compute|]); constructor ].

(** Two QoS 2 publishes in flight, 7 and 8. *)
Definition demo_inflight : SessionData * RuntimeState (T := Scripted.time) :=
  (mkSessionData 9 3
     (mkOutbound ([52; 2; 0; 1; 55; 52; 2; 0; 1; 56] ++ repeat 0 54) 20 []
        [mkRetainedPacket OpKind.PublishExactlyOnce 7 5 Sent;
         mkRetainedPacket OpKind.PublishExactlyOnce 8 5 Flush] []) [] true,
   set_send_quota (RuntimeState_new (T := Scripted.time) 10000) 6).

Definition demo_op (id : Z) : Op := mkOp OpKind.PublishExactlyOnce id 3.

Lemma demo_inflight_inv : session_inv demo_inflight. Proof. solve_session_inv. Qed.

Lemma demo_op_live : op_live (demo_op 7) (fst demo_inflight).
Proof.
  split; [done|]. left. exists (mkRetainedPacket OpKind.PublishExactlyOnce 7 5 Sent).
  split; [left|done].
Qed.

Lemma operation_ends_only_by_its_ack_witness :
  let p := ReceivedPacket.PubRec (mkPubRec 8 (mkReason None)) in
  status (fst (fst (handle_packet p demo_inflight))) (demo_op 7) = Pending \/
  acknowledges (demo_op 7) p
    (match snd (handle_packet p demo_inflight) with Ok _ => false | Err _ => true end).
Proof.
  intros p. pose proof (operation_ends_only_by_its_ack (demo_op 7) p demo_inflight demo_op_live) as H.
  by destruct (handle_packet p demo_inflight).
Defined.

(** The QoS 2 handshake of an outgoing publish. A PUBREC replaces the
    retained publish by a pending PUBREL and gives back the send quota; the
    operation still reports [Pending]. A repeated PUBREC changes nothing. The
    PUBCOMP then completes the operation and frees the identifier. *)
Theorem qos2_publish_handshake {T : Time} s e rec comp :
  session_inv s -> e ∈ retained (outbound (fst s)) ->
  rp_kind e = OpKind.PublishExactlyOnce ->
  pubrec_packet_id rec = rp_packet_id e -> pubcomp_packet_id comp = rp_packet_id e ->
  as_result (reason_get_code (pubrec_reason rec)) = Ok tt ->
  as_result (reason_get_code (pubcomp_reason comp)) = Ok tt ->
  check_pubrel_size (maximum_packet_size (snd s)) (rp_packet_id e) ReasonCode.Success = Ok tt ->
  (length (pending_release (outbound (fst s))) < MAX_PENDING_RELEASE)%nat ->
  let op := mkOp OpKind.PublishExactlyOnce (rp_packet_id e) (generation (fst s)) in
  let '(s1, r1) := handle_packet (ReceivedPacket.PubRec rec) s in
  let '(s2, r2) := handle_packet (ReceivedPacket.PubComp comp) s1 in
  r1 = Ok false /\ status (fst s1) op = Pending /\
  has_retained (outbound (fst s1)) (rp_packet_id e) = false /\
  send_quota (snd s1) = Z.min (send_quota (snd s) + 1) (max_send_quota (snd s)) /\
  handle_packet (ReceivedPacket.PubRec rec) s1 = (s1, Ok false) /\
  r2 = Ok false /\ status (fst s2) op = Complete /\
  rp_packet_id e ∉ live_ids (outbound (fst s2)).
Proof.
  intros Hs He Hk Hid1 Hid2 Hc1 Hc2 Hsize Hroom op. destruct s as [d rt].
  destruct Hs as [(Hinv & _) (Hq1 & Hq2)]. simpl in *. rewrite handle_pubrec_eq.
  destruct (ack_packet_live _ _ e He Hk) as [o1 Ha]. rewrite Hid1, Ha.
  destruct (ack_packet_inv _ _ _ _ _ Hinv Ha) as (Hinv1 & _ & Hrel & Hf & _).
  destruct Hf as [_ Hperm]; [done|].
  assert (rp_packet_id e ∉ live_ids o1) as Hfree.
  { destruct Hinv as (_ & Hn & _). rewrite Hperm in Hn. by inversion Hn. }
  rewrite finish_pubrec_success by (simpl; rewrite ?Hid1; done). simpl. rewrite Hid1.
  destruct (queue_release o1 (rp_packet_id e) ReasonCode.Success) as [o2 r] eqn:Hqr.
  destruct (queue_release_inv _ _ _ _ _ Hinv1 Hfree Hqr) as (Hinv2 & _ & Hret & Hr).
  destruct r as [[]|er]; [|destruct Hr as (_ & _ & Hr); rewrite Hrel in Hr; lia]. simpl.
  assert (rp_packet_id e ∉ map rp_packet_id (retained o2)) as Hnr.
  { rewrite Hret. unfold live_ids in Hfree. rewrite elem_of_app in Hfree. tauto. }
  assert (rp_packet_id e ∈ map pr_packet_id (pending_release o2)) as Hp.
  { rewrite Hr, map_app. apply elem_of_app. right. by left. }
  rewrite handle_pubcomp_eq, Hid2, Hc2. simpl. destruct (ack_release_live _ _ Hp) as [o3 Hrl].
  rewrite Hrl. simpl. destruct (ack_release_inv _ _ _ _ Hinv2 Hrl) as (_ & Hret3 & _ & Hf3 & _).
  destruct Hf3 as [_ Hperm3]; [done|].
  assert (rp_packet_id e ∉ live_ids o3) as Hfree3.
  { destruct Hinv2 as (_ & Hn & _). rewrite Hperm3 in Hn. by inversion Hn. }
  split_and!; try done.
  - apply op_live_pending. split; [done|]. by right.
  - by apply not_true_is_false; rewrite has_retained_ids.
  - unfold u16_saturating_add. lia.
  - rewrite handle_pubrec_eq. simpl. rewrite Hid1, ack_packet_stale by done.
    apply has_pending_release_ids in Hp. rewrite Hp. unfold finish_pubrec, bind, try_peer, lift.
    rewrite Hc1. simpl. done.
  - by apply (free_complete _ _ (set_outbound (set_outbound (set_outbound d o1) o2) o3)).
Qed.

Lemma qos2_publish_handshake_witness :
  let rec := ReceivedPacket.PubRec (mkPubRec 7 (mkReason None)) in
  let comp := ReceivedPacket.PubComp (mkPubComp 7 (mkReason None)) in
  status (fst (fst (handle_packet rec demo_inflight))) (demo_op 7) = Pending /\
  status (fst (fst (handle_packet comp (fst (handle_packet rec demo_inflight))))) (demo_op 7)
    = Complete.
Proof.
  intros rec comp.
  assert (mkRetainedPacket OpKind.PublishExactlyOnce 7 5 Sent
    ∈ retained (outbound (fst demo_inflight))) as He by (simpl; left).
  pose proof (qos2_publish_handshake demo_inflight
    (mkRetainedPacket OpKind.PublishExactlyOnce 7 5 Sent) (mkPubRec 7 (mkReason None))
    (mkPubComp 7 (mkReason None)) demo_inflight_inv He eq_refl eq_refl eq_refl
    eq_refl eq_refl ltac:(by vm_compute) ltac:(simpl; unfold MAX_PENDING_RELEASE; lia)) as H.
  fold rec comp in H. destruct (handle_packet rec demo_inflight) as [s1 r1].
  cbn [fst]. destruct (handle_packet comp s1) as [s2 r2].
  destruct H as (_ & H1 & _ & _ & _ & _ & H2 & _). split; [exact H1|exact H2].
Defined.

(** Acknowledgements that match nothing in flight are ignored: handling
    them succeeds and leaves the session exactly as it was. *)
Theorem stale_ack_ignored {T : Time} p id s :
  ack_id p = Some id -> id ∉ live_ids (outbound (fst s)) ->
  handle_packet p s = (s, Ok false).
Proof. apply stale_ack_eq. Qed.

Lemma stale_ack_ignored_witness :
  handle_packet (ReceivedPacket.PubRec (mkPubRec 9 (mkReason None))) demo_inflight =
  (demo_inflight, Ok false).
Proof.
  apply (stale_ack_ignored _ 9); [done|]. apply (bool_decide_unpack _). by vm_compute.
Defined.

(** C40: a PUBREC that finds the release table full ends the operation without its PUBREL. When a PUBREC
    with a success code answers a publish in flight, a PUBREL fits the maximum packet
    size and all 8 releases are taken, the retained publish is already removed and the
    send quota raised by one (up to its maximum) when the PUBREL cannot be queued: the
    error is reported, the releases are unchanged, so that no PUBREL will be sent, the
    other packets in flight stay, and the operation changes from [Pending] to [Complete]
    although the broker never gets its PUBREL. *)
Theorem pubrec_without_release_slot {T : Time} s e rec :
  session_inv s -> e ∈ retained (outbound (fst s)) ->
  rp_kind e = OpKind.PublishExactlyOnce -> pubrec_packet_id rec = rp_packet_id e ->
  as_result (reason_get_code (pubrec_reason rec)) = Ok tt ->
  check_pubrel_size (maximum_packet_size (snd s)) (rp_packet_id e) ReasonCode.Success = Ok tt ->
  length (pending_release (outbound (fst s))) = MAX_PENDING_RELEASE ->
  let op := mkOp OpKind.PublishExactlyOnce (rp_packet_id e) (generation (fst s)) in
  let '(s', r) := handle_packet (ReceivedPacket.PubRec rec) s in
  status (fst s) op = Pending /\
  r = Err (Error.Resource ResourceError.InflightExhausted) /\
  status (fst s') op = Complete /\ has_retained (outbound (fst s')) (rp_packet_id e) = false /\
  pending_release (outbound (fst s')) = pending_release (outbound (fst s)) /\
  live_ids (outbound (fst s)) ≡ₚ rp_packet_id e :: live_ids (outbound (fst s')) /\
  send_quota (snd s') = Z.min (send_quota (snd s) + 1) (max_send_quota (snd s)) /\
  max_send_quota (snd s') = max_send_quota (snd s).
Proof.
  intros Hs He Hk Hid1 Hc1 Hsize Hfull op. destruct s as [d rt].
  destruct Hs as [(Hinv & _) Hquota]. simpl in *. rewrite handle_pubrec_eq.
  destruct (ack_packet_live _ _ e He Hk) as [o1 Ha]. rewrite Hid1, Ha.
  destruct (ack_packet_inv _ _ _ _ _ Hinv Ha) as (Hinv1 & _ & Hrel & Hf & _).
  destruct Hf as [_ Hperm]; [done|].
  assert (rp_packet_id e ∉ live_ids o1) as Hfree.
  { destruct Hinv as (_ & Hn & _). rewrite Hperm in Hn. by inversion Hn. }
  rewrite finish_pubrec_success by (simpl; rewrite ?Hid1; done). simpl. rewrite Hid1.
  destruct (queue_release o1 (rp_packet_id e) ReasonCode.Success) as [o2 r] eqn:Hqr.
  destruct (queue_release_inv _ _ _ _ _ Hinv1 Hfree Hqr) as (_ & _ & _ & Hr).
  destruct r as [[]|er].
  { unfold queue_release in Hqr. destruct (vec_push _ _ _) eqn:Hv; [|done].
    apply vec_push_some in Hv as [_ Hv]. rewrite Hrel in Hv. lia. }
  destruct Hr as (-> & -> & _). split_and!; try done.
  - apply op_live_pending. split; [done|]. left. by exists e.
  - by apply (free_complete _ _ (set_outbound d o1)).
  - apply not_true_is_false. rewrite has_retained_ids. unfold live_ids in Hfree.
    rewrite elem_of_app in Hfree. tauto.
  - destruct Hquota. simpl. unfold u16_saturating_add. lia.
Qed.

(** Eight publishes were received by the broker and wait for their PUBCOMP;
    publish 9 is sent meanwhile, since the quota was given back. *)
Definition demo_full : SessionData * RuntimeState (T := Scripted.time) :=
  (mkSessionData 10 3
     (mkOutbound ([52; 2; 0; 1; 57] ++ repeat 0 54) 20 []
        [mkRetainedPacket OpKind.PublishExactlyOnce 9 5 Sent]
        (map (fun id => mkPendingRelease id ReasonCode.Success Sent) [1; 2; 3; 4; 5; 6; 7; 8]))
     [] true,
   set_send_quota (RuntimeState_new (T := Scripted.time) 10000) 7).

Lemma demo_full_inv : session_inv demo_full. Proof. solve_session_inv. Qed.

Lemma pubrec_without_release_slot_witness :
  status (fst (fst (handle_packet (ReceivedPacket.PubRec (mkPubRec 9 (mkReason None))) demo_full)))
    (demo_op 9) = Complete.
Proof.
  assert (mkRetainedPacket OpKind.PublishExactlyOnce 9 5 Sent
    ∈ retained (outbound (fst demo_full))) as He by (simpl; left).
  pose proof (pubrec_without_release_slot demo_full
    (mkRetainedPacket OpKind.PublishExactlyOnce 9 5 Sent) (mkPubRec 9 (mkReason None))
    demo_full_inv He eq_refl eq_refl eq_refl ltac:(by vm_compute) eq_refl) as H.
  destruct (handle_packet _ demo_full) as [s1 r1]. apply H.
Defined.
