(* ===== verification/Connection.v ===== *)
(** The connected client: [src/minimq/src/mqtt_client/session/mod.rs],
    [drive.rs] and [operations.rs] of the same directory, the packet processing
    of [inbound.rs] and [InboundPublish] of [src/minimq/src/mqtt_client/mod.rs].

    A [Connection] is the session, the transport and the progress of its flush.
    Every async method is an [Async] computation on it: an error keeps the state
    reached, and so does a future that is dropped at an [.await]. This file has
    the definitions; [Driver.v], [Operations.v] and [Handshake.v] prove the
    properties. *)

From S2P Require Import Prelude Varint Types Io Wire Ser De Properties Packets Received.
From S2P Require Import PacketReader Outbound Config Session.

Inductive FlushState : Type := Clean | Dirty | Flushing.

Module ConnectEvent.
Inductive ConnectEvent : Type := Connected | Reconnected.
End ConnectEvent.
Abbreviation ConnectEvent := ConnectEvent.ConnectEvent.

(** The packet a write step belongs to. *)
Module OutPacket.
Inductive OutPacket : Type := Control (index : nat) | Release (packet_id : Z) | Retained (packet_id : Z).
End OutPacket.
Abbreviation OutPacket := OutPacket.OutPacket.

Record WriteStep : Type := mkWriteStep {
  ws_packet : OutPacket; ws_bytes : bytes; ws_written : Z; ws_len : Z }.

Module Progress.
Inductive Progress : Type := Idle | Advanced | Inbound (packet_length : Z).
End Progress.
Abbreviation Progress := Progress.Progress.

(** * Inbound publishes *)

Record InboundPublish : Type := mkInboundPublish {
  ip_topic : bytes;
  ip_payload : bytes;
  ip_properties : Properties;
  ip_retain : Retain;
  ip_qos : QoS
}.

Definition ip_retained (p : InboundPublish) : bool :=
  match ip_retain p with Retain.Retained => true | Retain.NotRetained => false end.

Definition ip_response_topic (p : InboundPublish) : option bytes := response_topic (ip_properties p).
Definition ip_correlation_data (p : InboundPublish) : option bytes :=
  correlation_data (ip_properties p).

Definition response_target (p : InboundPublish) : option ResponseTarget :=
  match ip_response_topic p with
  | Some topic => Some (mkResponseTarget topic (ip_correlation_data p))
  | None => None
  end.

Definition reply {P} (p : InboundPublish) (payload : P) : option (Publication P) :=
  option_map (fun target => target_publication target payload) (response_target p).

Definition reply_owned (TOPIC CORRELATION : Z) (p : InboundPublish)
  : result ResourceError (option ResponseTarget) :=
  match response_target p with
  | None => Ok None
  | Some target =>
      match target_to_owned TOPIC CORRELATION target with
      | Ok t => Ok (Some t)
      | Err e => Err e
      end
  end.

(** * Transport operations *)

Section TransportOps.
Context {IO E : Type} `{Transport IO E}.

Definition write (bs : bytes) : Async IO (Error E) Z :=
  fun io => let '(io, r) := io_write io bs in (io, option_map (map_err Error.Transport) r).

Definition flush : Async IO (Error E) unit :=
  fun io => let '(io, r) := io_flush io in (io, option_map (map_err Error.Transport) r).

(** [outbound::write_all]; each turn writes at least one byte. *)
Fixpoint write_all_loop (fuel : nat) (bs : bytes) : Async IO (Error E) unit :=
  match fuel with
  | O => fun io => (io, None)
  | S fuel' =>
      match bs with
      | [] => aret tt
      | _ =>
          let* written := write bs in
          if written =? 0 then araise Error.WriteZero
          else write_all_loop fuel' (zdrop written bs)
      end
  end.

Definition write_all (bs : bytes) : Async IO (Error E) unit := write_all_loop (S (length bs)) bs.

(** [write_current]. *)
Definition write_current (bs : bytes) : Async IO (Error E) Z :=
  let* count := write bs in
  if count =? 0 then araise Error.WriteZero else aret count.
End TransportOps.

Section Connection.
Context {IO E : Type} `{Transport IO E} {T : Time} `{!Clock IO T}.

(** * Session and connection *)

Record Session : Type := mkSession {
  client_id : bytes;
  packet_reader : PacketReader;
  sdata : SessionData;
  sruntime : RuntimeState;
  will : option Will;
  auth : option Auth;
  session_expiry_interval : Z;
  downgrade_qos : bool
}.

Definition Session_new (config : ConfigBuilder) : Session :=
  mkSession (cfg_client_id config) (PacketReader_new (rx (cfg_buffers config)))
    (SessionData_new (tx (cfg_buffers config)))
    (RuntimeState_new (cfg_keepalive_interval config)) (cfg_will config) (cfg_auth config)
    (cfg_session_expiry_interval config) (cfg_downgrade_qos config).

Definition set_reader (s : Session) (r : PacketReader) : Session :=
  mkSession (client_id s) r (sdata s) (sruntime s) (will s) (auth s)
    (session_expiry_interval s) (downgrade_qos s).
Definition set_state (s : Session) (d : SessionData) (rt : RuntimeState) : Session :=
  mkSession (client_id s) (packet_reader s) d rt (will s) (auth s)
    (session_expiry_interval s) (downgrade_qos s).
Definition set_client_id (s : Session) (id : bytes) : Session :=
  mkSession id (packet_reader s) (sdata s) (sruntime s) (will s) (auth s)
    (session_expiry_interval s) (downgrade_qos s).

Definition max_rx_packet_size (s : Session) : Z := reader_capacity (packet_reader s).
Definition max_tx_packet_size (s : Session) : Z := capacity (outbound (sdata s)).

Definition session_can_publish (s : Session) (qos : QoS) : bool :=
  if bool_decide (qos = QoS.AtMostOnce)
  then MAX_FIXED_HEADER_SIZE <=? scratch_len (outbound (sdata s))
  else negb (send_quota (sruntime s) =? 0) && can_retain (outbound (sdata s)).

Definition is_publish_quiescent (s : Session) : bool := is_quiescent (outbound (sdata s)).

Definition is_pending (s : Session) (op : Op) : bool := bool_decide (status (sdata s) op = Pending).
Definition is_complete (s : Session) (op : Op) : bool := bool_decide (status (sdata s) op = Complete).
Definition is_invalidated (s : Session) (op : Op) : bool :=
  bool_decide (status (sdata s) op = Invalidated).

(** [Session::handle_disconnect]. *)
Definition session_handle_disconnect (s : Session) : Session :=
  set_reader
    (set_state s (set_outbound (sdata s) (arm_replay (outbound (sdata s))))
       (reset_transport (sruntime s)))
    (reader_reset (packet_reader s)).

Record Connection : Type := mkConnection {
  session : Session;
  io : IO;
  event : ConnectEvent;
  live : bool;
  flush_state : FlushState
}.

Definition set_session (c : Connection) (s : Session) : Connection :=
  mkConnection s (io c) (event c) (live c) (flush_state c).
Definition set_io (c : Connection) (i : IO) : Connection :=
  mkConnection (session c) i (event c) (live c) (flush_state c).
Definition set_flush_state (c : Connection) (f : FlushState) : Connection :=
  mkConnection (session c) (io c) (event c) (live c) f.

Definition conn_data (c : Connection) : SessionData := sdata (session c).
Definition conn_runtime (c : Connection) : RuntimeState := sruntime (session c).
Definition conn_outbound (c : Connection) : Outbound := outbound (conn_data c).
Definition conn_reader (c : Connection) : PacketReader := packet_reader (session c).
Definition set_conn_state (c : Connection) (d : SessionData) (rt : RuntimeState) : Connection :=
  set_session c (set_state (session c) d rt).
Definition set_conn_outbound (c : Connection) (o : Outbound) : Connection :=
  set_conn_state c (set_outbound (conn_data c) o) (conn_runtime c).
Definition set_conn_runtime (c : Connection) (rt : RuntimeState) : Connection :=
  set_conn_state c (conn_data c) rt.

Definition can_publish (c : Connection) (qos : QoS) : bool :=
  live c && session_can_publish (session c) qos.

(** [Connection::handle_disconnect]. *)
Definition handle_disconnect (c : Connection) : Connection :=
  mkConnection (session_handle_disconnect (session c)) (io c) (event c) false (flush_state c).

Definition into_inner (c : Connection) : Session * IO :=
  let c := handle_disconnect c in (session c, io c).

Definition C (A : Type) : Type := Async Connection (Error E) A.

(** [Instant::now()]. *)
Definition instant_now : C Instant :=
  fun c => let '(i, t) := now (io c) in (set_io c i, Some (Ok t)).

(** [if !self.live { return Err(Error::Disconnected); }]. *)
Definition require_live : C unit :=
  fun c => (c, Some (if live c then Ok tt else Err Error.Disconnected)).

Definition fail_disconnected {A} (e : Error E) : C A :=
  fun c => (handle_disconnect c, Some (Err e)).

(** A computation on the outbound state alone. *)
Definition with_outbound {A} (f : Outbound -> Outbound * result (Error E) A) : C A :=
  fun c => let '(o, r) := f (conn_outbound c) in (set_conn_outbound c o, Some r).

Definition on_io {A} (m : Async IO (Error E) A) : C A :=
  fun c => let '(i, r) := m (io c) in (set_io c i, r).

(** [match m { Err(err) => { handle_disconnect(); return Err(err) } ok => ok }]. *)
Definition or_disconnect {A} (m : C A) : C A :=
  fun c => match m c with
           | (c', Some (Err e)) => (handle_disconnect c', Some (Err e))
           | r => r
           end.

(** * Outbound progress *)

Definition flush_current : C unit :=
  do* require_live in
  do* amodify (fun c => set_flush_state c Flushing) in
  do* or_disconnect (on_io flush) in
  let* t := instant_now in
  amodify (fun c =>
    set_flush_state
      (set_conn_state c (set_outbound (conn_data c) (complete_flush (conn_outbound c)))
         (note_outbound_activity (conn_runtime c) t)) Clean).

Definition set_conn_written (c : Connection) (packet : OutPacket) (written len : Z) : Connection :=
  let o := conn_outbound c in
  set_conn_outbound c
    (fst match packet with
         | OutPacket.Control index => set_control_written o index written len
         | OutPacket.Release packet_id => set_release_written o packet_id written len
         | OutPacket.Retained packet_id => set_retained_written o packet_id written len
         end).

(** The packet of a step, encoded and checked against the broker's limit. *)
Definition prepare_step (step : OutboundStep) : C WriteStep :=
  let* rt := aget conn_runtime in
  match step with
  | ControlOut step =>
      let* packet := alift (serialize_control_packet control_workspace (cs_action step)
                              (maximum_packet_size rt)) in
      aret (mkWriteStep (OutPacket.Control (cs_index step)) packet (cs_written step) (zlen packet))
  | ReleaseOut step =>
      let* packet := alift (serialize_pubrel control_workspace (ls_packet_id step)
                              (ls_reason step) (maximum_packet_size rt)) in
      aret (mkWriteStep (OutPacket.Release (ls_packet_id step)) packet (ls_written step)
              (zlen packet))
  | RetainedOut step =>
      do* alift (require_packet_size rt (rs_len step)) in
      let* o := aget conn_outbound in
      aret (mkWriteStep (OutPacket.Retained (rs_packet_id step))
              (retained_packet o (rs_offset step) (rs_len step)) (rs_written step) (rs_len step))
  end.

Definition is_ping (step : OutboundStep) : bool :=
  match step with
  | ControlOut step => bool_decide (cs_action step = ControlAction.PingReq)
  | _ => false
  end.

Definition perform_outbound_step (step : OutboundStep) : C bool :=
  let ping := is_ping step in
  let* ws := prepare_step step in
  do* require_live in
  let* count := or_disconnect (on_io (write_current (zdrop (ws_written ws) (ws_bytes ws)))) in
  do* amodify (fun c => set_flush_state c Dirty) in
  let written := ws_written ws + count in
  do* amodify (fun c => set_conn_written c (ws_packet ws) written (ws_len ws)) in
  do* (if ping && (written =? ws_len ws) then
         let* t := instant_now in
         amodify (fun c => set_conn_runtime c
           (set_ping_timeout (conn_runtime c)
              (Some (instant_add t (from_millis ROUND_TRIP_TIMEOUT_MS)))))
       else aret tt) in
  aret true.

Definition should_queue_pingreq (c : Connection) (t : Instant) : bool :=
  match ping_timeout (conn_runtime c) with None => true | Some _ => false end &&
  match next_ping (conn_runtime c) with Some deadline => instant_leb deadline t | None => false end &&
  negb (has_pending_pingreq (conn_outbound c)).

Definition maybe_queue_pingreq (t : Instant) : C unit :=
  let* due := aget (fun c => should_queue_pingreq c t) in
  if due then
    let* rt := aget conn_runtime in
    do* alift (map_err error_of_protocol
          (check_control_packet_size (maximum_packet_size rt) ControlAction.PingReq)) in
    with_outbound (fun o => let '(o, r) := queue_control o ControlAction.PingReq in
                            (o, map_err error_of_protocol r))
  else aret tt.

Definition service_outbound_once (t : Instant) : C bool :=
  let* fs := aget flush_state in
  match fs with
  | Flushing => do* flush_current in aret true
  | _ =>
      let* step := aget (fun c => next_step (conn_outbound c)) in
      match step with
      | Some step => perform_outbound_step step
      | None =>
          match fs with
          | Dirty => do* flush_current in aret true
          | _ =>
              do* maybe_queue_pingreq t in
              let* step := aget (fun c => next_step (conn_outbound c)) in
              match step with
              | Some step => perform_outbound_step step
              | None => aret false
              end
          end
      end
  end.

(** * Fuel

    What a turn of the send loops uses up: two for each byte still to be
    written, one for a flush, and five for a keepalive ping that may still be
    queued (a ping is two bytes). *)
Definition state_remaining (len : Z) (s : SendState) : Z :=
  match s with Write w => Z.max (len - w) 0 | _ => 0 end.

Definition remaining (o : Outbound) : Z :=
  sum_by (fun p => state_remaining (zlen (control_packet (pc_action p))) (pc_state p))
    (pending_control o) +
  sum_by (fun p => state_remaining (zlen (release_packet (pr_packet_id p) (pr_reason p)))
                     (pr_state p)) (pending_release o) +
  sum_by (fun e => state_remaining (rp_len e) (rp_state e)) (retained o).

Definition ping_unwritten (o : Outbound) : bool :=
  existsb (fun entry => bool_decide (pc_action entry = ControlAction.PingReq) &&
    match pc_state entry with Write _ => true | _ => false end) (pending_control o).

Definition ping_weight (c : Connection) : Z :=
  match ping_timeout (conn_runtime c) with
  | Some _ => 0
  | None => if ping_unwritten (conn_outbound c) then 0 else 5
  end.

Definition flush_weight (c : Connection) : Z :=
  match flush_state c with Clean => 0 | _ => 1 end.

Definition send_measure (c : Connection) : nat :=
  Z.to_nat (2 * remaining (conn_outbound c) + flush_weight c + ping_weight c).

(** [while self.service_outbound_once(Instant::now()).await? {}]. *)
Definition flush_outbound_turn : C (option unit) :=
  let* t := instant_now in
  let* more := service_outbound_once t in
  aret (if more then None else Some tt).

Definition flush_outbound : C unit := arun (fun c => S (send_measure c)) flush_outbound_turn.

Definition service (t : Instant) : C bool :=
  let* rt := aget conn_runtime in
  if match ping_timeout rt with Some deadline => instant_leb deadline t | None => false end
  then fail_disconnected Error.Disconnected
  else service_outbound_once t.

(** * Inbound progress *)

Definition read_packet : C unit :=
  do* require_live in
  or_disconnect (fun c =>
    let '((r, i), res) := fill_packet_reader (conn_reader c) (io c) in
    (set_io (set_session c (set_reader (session c) r)) i, res)).

Definition process_received_packet : C (option Z) :=
  fun c =>
    if negb (packet_available (conn_reader c)) then (c, Some (Ok None)) else
    match take_packet (conn_reader c) with
    | (r, Err err) =>
        fail_disconnected (error_of_protocol err) (set_session c (set_reader (session c) r))
    | (r, Ok (packet_length, packet)) =>
        let c := set_session c (set_reader (session c) r) in
        let '((d, rt), res) := handle_packet packet (conn_data c, conn_runtime c) in
        let c := set_conn_state c d rt in
        match res with
        | Ok true => (c, Some (Ok (Some packet_length)))
        | Ok false => (c, Some (Ok None))
        | Err Error.Disconnected => fail_disconnected Error.Disconnected c
        | Err (Error.Peer PeerError.InvalidPacket) =>
            fail_disconnected (Error.Peer PeerError.InvalidPacket) c
        | Err (Error.Resource ResourceError.PacketTooLarge) =>
            fail_disconnected (Error.Resource ResourceError.PacketTooLarge) c
        | Err (Error.Peer err) => (c, Some (Err (Error.Peer err)))
        | Err (Error.Resource err) => (c, Some (Err (Error.Resource err)))
        | Err Error.InvalidRequest => (c, Some (Err Error.InvalidRequest))
        | Err Error.NotReady => (c, Some (Err Error.NotReady))
        | Err Error.WriteZero => (c, Some (Err Error.WriteZero))
        | Err (Error.Transport never) => match never with end
        end
    end.

Definition decode_inbound_publish (packet_length : Z) : C InboundPublish :=
  fun c =>
    (c, Some (map_err error_of_protocol
      (let buffer := buffer (conn_reader c) in
       if zlen buffer <? packet_length then Err ProtocolError.MalformedPacket else
       match from_buffer (ztake packet_length buffer) with
       | Ok (ReceivedPacket.Publish info) =>
           Ok (mkInboundPublish (publish_topic info) (publish_payload info)
                 (publish_properties info) (publish_retain_flag info) (publish_qos_level info))
       | Ok _ => Err ProtocolError.UnexpectedPacket
       | Err e => Err e
       end))).
End Connection.
Arguments Connection IO {T}.
Arguments C IO E {T} A.

(** * Driving the connection *)

Section Drive.
Context {IO E : Type} `{Transport IO E} {T : Time} `{!Clock IO T}.

(** The loop of [drive_packet] also keeps the flag [advanced]. *)
Definition D (A : Type) : Type := Async (Connection IO * bool) (Error E) A.

Definition on_conn {A} (m : C IO E A) : D A :=
  fun '(c, advanced) => let '(c', r) := m c in ((c', advanced), r).

Definition advance (more : bool) : D unit :=
  amodify (fun '(c, advanced) => (c, advanced || more)).

Definition process_turn : D (option Progress) :=
  let* inbound := on_conn process_received_packet in
  match inbound with
  | Some packet_length => aret (Some (Progress.Inbound packet_length))
  | None => do* advance true in aret None
  end.

Definition drive_turn : D (option Progress) :=
  let* s := aget fst in
  if packet_available (conn_reader s) &&
     (pending_control_len (conn_outbound s) =? MAX_PENDING_CONTROL)%nat
  then
    let* t := on_conn instant_now in
    let* more := on_conn (service_outbound_once t) in
    do* advance more in aret None
  else if packet_available (conn_reader s) then process_turn
  else
    let* t := on_conn instant_now in
    let* more := on_conn (service t) in
    do* advance more in
    let* s := aget id in
    if packet_available (conn_reader (fst s)) then process_turn
    else
      match next_step (conn_outbound (fst s)), flush_state (fst s) with
      | None, Clean => aret (Some (if snd s then Progress.Advanced else Progress.Idle))
      | _, _ => aret None
      end.

(** A packet to process can queue one acknowledgement of five bytes and make
    room for a ping. *)
Definition drive_measure (s : Connection IO * bool) : nat :=
  send_measure (fst s) + if packet_available (conn_reader (fst s)) then 40 else 0.

Definition drive_packet : C IO E Progress :=
  do* require_live in
  fun c => let '((c', _), r) := arun (fun s => S (drive_measure s)) drive_turn (c, false) in
           (c', r).

Definition drive : C IO E (option InboundPublish) :=
  let* progress := drive_packet in
  match progress with
  | Progress.Inbound packet_length =>
      let* msg := decode_inbound_publish packet_length in aret (Some msg)
  | _ => aret None
  end.

(** [wait_for_progress], for at most [turns] turns: it may wait forever, then
    the future is still pending. The read under a deadline is dropped when the
    deadline expires first. *)
Fixpoint wait_for_progress (turns : nat) : C IO E (option Z) :=
  match turns with
  | O => fun c => (c, None)
  | S turns' =>
      let* progress := drive_packet in
      match progress with
      | Progress.Inbound packet_length => aret (Some packet_length)
      | Progress.Advanced => aret None
      | Progress.Idle =>
          let* rt := aget conn_runtime in
          match next_deadline rt with
          | Some deadline => fun c =>
              match read_packet c with
              | (c, Some (Ok _)) => wait_for_progress turns' c
              | (c, Some (Err err)) => (c, Some (Err err))
              | (c, None) =>
                  let '(i, expired) := deadline_expired (io c) deadline in
                  if expired then wait_for_progress turns' (set_io c i) else (set_io c i, None)
              end
          | None => do* read_packet in wait_for_progress turns'
          end
      end
  end.

Definition poll (turns : nat) : C IO E (option InboundPublish) :=
  let* progress := wait_for_progress turns in
  match progress with
  | Some packet_length => let* msg := decode_inbound_publish packet_length in aret (Some msg)
  | None => aret None
  end.

Fixpoint recv (turns : nat) : C IO E InboundPublish :=
  match turns with
  | O => fun c => (c, None)
  | S turns' =>
      let* progress := wait_for_progress turns in
      match progress with
      | Some packet_length => decode_inbound_publish packet_length
      | None => recv turns'
      end
  end.
End Drive.

(** * Operations *)

Section Operations.
Context {IO E : Type} `{Transport IO E} {T : Time} `{!Clock IO T}.

Definition require_retained_slot (c : Connection IO) : result (Error E) unit :=
  if retained_full (conn_outbound c)
  then Err (Error.Resource ResourceError.InflightExhausted) else Ok tt.

Definition take_packet_id : C IO E Z :=
  fun c => let '(d, id) := next_packet_id (conn_data c) in
           (set_conn_state c d (conn_runtime c), Some (Ok id)).

(** Encode a packet at the end of the arena and retain it. *)
Definition enqueue {P} `{Serialize P, ControlPacket P} (kind : OpKind) (packet_id : Z) (packet : P)
  : C IO E unit :=
  let* len := with_outbound (fun o => let '(o, r) := encode_packet o packet in
                                      (o, map_err error_of_protocol r)) in
  let* rt := aget conn_runtime in
  do* alift (require_packet_size rt len) in
  with_outbound (fun o => let '(o, r) := retain_packet o kind packet_id len in
                          (o, map_err error_of_protocol r)).

Definition subscribe (topics : list TopicFilter) (properties : list Property) : C IO E Op :=
  do* require_live in
  if is_empty topics then araise Error.InvalidRequest else
  if negb (valid_for (Slice properties) PropertyContext.Subscribe)
  then araise Error.InvalidRequest else
  do* flush_outbound in
  let* c := aget id in
  do* alift (require_retained_slot c) in
  let* packet_id := take_packet_id in
  do* enqueue OpKind.Subscribe packet_id (mkSubscribe packet_id (Slice properties) topics) in
  do* flush_outbound in
  let* d := aget conn_data in
  aret (mkOp OpKind.Subscribe packet_id (generation d)).

Definition unsubscribe (topics : list bytes) (properties : list Property) : C IO E Op :=
  do* require_live in
  if is_empty topics then araise Error.InvalidRequest else
  if negb (valid_for (Slice properties) PropertyContext.Unsubscribe)
  then araise Error.InvalidRequest else
  do* flush_outbound in
  let* c := aget id in
  do* alift (require_retained_slot c) in
  let* packet_id := take_packet_id in
  do* enqueue OpKind.Unsubscribe packet_id (mkUnsubscribe packet_id (Slice properties) topics) in
  do* flush_outbound in
  let* d := aget conn_data in
  aret (mkOp OpKind.Unsubscribe packet_id (generation d)).

Definition disconnect_with (disconnect : Disconnect) : C IO E unit :=
  fun c =>
    if negb (live c) then (c, Some (Ok tt)) else
    (if match disconnect_properties disconnect with
        | Some properties => negb (valid_for properties PropertyContext.Disconnect)
        | None => false
        end
     then araise Error.InvalidRequest else
     let* packet := alift (map_err error_of_ser (snd (encode control_workspace disconnect))) in
     do* alift (require_packet_size (conn_runtime c) (zlen packet)) in
     do* flush_outbound in
     fun c => match on_io (do* write_all packet in flush) c with
              | (c, Some result) => (handle_disconnect c, Some result)
              | (c, None) => (c, None)
              end) c.

Definition disconnect : C IO E unit := disconnect_with Disconnect_success.

(** ** Publish *)

Section Publish.
Context {P : Type}.

Definition Pub (A : Type) : Type := Async (Connection IO) (PubError P E) A.

(** [?] on an [Error]. *)
Definition pub {A} (m : C IO E A) : Pub A :=
  fun c => let '(c', r) := m c in (c', option_map (map_err PubError.Session) r).

(** The QoS a publication is sent with. *)
Definition effective_qos (c : Connection IO) (qos : QoS) : result (Error E) QoS :=
  match max_qos (conn_runtime c) with
  | Some max =>
      if qos_gt qos max && downgrade_qos (session c) then Ok max
      else if qos_gt qos max then Err Error.InvalidRequest else Ok qos
  | None => Ok qos
  end.

(** The retained branch: QoS 1 and 2. *)
Definition publish_retained (header : PublishHeader) (qos : QoS) (payload : ToPayload P)
    (packet_id : Z) : Pub (option Op) :=
  let kind := if bool_decide (qos = QoS.ExactlyOnce) then OpKind.PublishExactlyOnce
              else OpKind.PublishAtLeastOnce in
  let* encoded :=
    fun c => let '(o, r) := encode_publish_out (conn_outbound c) header payload in
             let c := set_conn_outbound c o in
             (c, Some (Ok match r with
                          | Ok len =>
                              match require_packet_size (conn_runtime c) len with
                              | Ok _ => Ok len
                              | Err e => Err (PubError.Session e)
                              end
                          | Err e => Err e
                          end)) in
  match encoded with
  | Err err => do* pub flush_outbound in araise err
  | Ok len =>
      do* pub (with_outbound (fun o => let '(o, r) := retain_packet o kind packet_id len in
                                       (o, map_err error_of_protocol r))) in
      do* pub (amodify (fun c => set_conn_runtime c
             (set_send_quota (conn_runtime c)
                (u16_saturating_sub (send_quota (conn_runtime c)) 1)))) in
      do* pub flush_outbound in
      let* d := aget conn_data in
      aret (Some (mkOp kind packet_id (generation d)))
  end.

(** The direct branch: QoS 0. *)
Definition publish_direct (header : PublishHeader) (payload : ToPayload P) : Pub (option Op) :=
  do* pub flush_outbound in
  let* packet :=
    fun c => let '(slice, r) := encode_publish (scratch_space (conn_outbound c))
                 (serialize header) (publish_header_fixed_header header) payload in
             (set_conn_outbound c (set_scratch_space (conn_outbound c) slice),
              Some (map_err pub_error_of_ser r)) in
  let* rt := aget conn_runtime in
  do* pub (alift (require_packet_size rt (zlen packet))) in
  do* pub require_live in
  do* pub (or_disconnect (on_io (write_all packet))) in
  do* pub (or_disconnect (on_io flush)) in
  let* t := pub instant_now in
  do* pub (amodify (fun c => set_conn_runtime c (note_outbound_activity (conn_runtime c) t))) in
  aret None.

Definition publish (publication : Publication (ToPayload P)) : Pub (option Op) :=
  do* pub require_live in
  if negb (valid_for (pub_properties publication) PropertyContext.Publish)
  then araise (PubError.Session Error.InvalidRequest) else
  let* c := aget id in
  let* qos := pub (alift (effective_qos c (pub_qos publication))) in
  let* packet_id := (if qos_gt qos QoS.AtMostOnce
                     then let* id := pub take_packet_id in aret (Some id)
                     else aret None) in
  let header := mkPublishHeader (pub_topic publication) packet_id (pub_properties publication)
                  (pub_retain publication) qos false in
  let* c := aget id in
  match packet_id, require_retained_slot c with
  | Some _, Err err => do* pub flush_outbound in araise (PubError.Session err)
  | _, _ =>
      let* c := aget id in
      if negb (can_publish c qos) then
        do* pub flush_outbound in araise (PubError.Session Error.NotReady)
      else
        match packet_id with
        | Some packet_id =>
            publish_retained header qos (pub_payload publication) packet_id
        | None => publish_direct header (pub_payload publication)
        end
  end.
End Publish.
End Operations.
