(* ===== verification/Driver.v ===== *)
(** The send and receive loops of a connection keep its invariant, end, and
    put whole packets on the wire: properties of
    [src/minimq/src/mqtt_client/session/drive.rs] and of the packet processing
    in [inbound.rs], on the definitions of [Connection.v]. *)

From S2P Require Import Prelude Varint Types Io Wire Ser De Properties Packets Received.
From S2P Require Import PacketReader Outbound Config Session Connection.

(** * Outbound state *)

(** No packet waits for a flush. *)
Definition no_flush (o : Outbound) : Prop :=
  Forall (fun p => pc_state p <> Flush) (pending_control o) /\
  Forall (fun p => pr_state p <> Flush) (pending_release o) /\
  Forall (fun e => rp_state e <> Flush) (retained o).

(** What the flush state says about the packets: while it is [Clean], none
    waits for a flush; and control packets are dropped once they are flushed. *)
Definition flush_ok (fs : FlushState) (o : Outbound) : Prop :=
  Forall (fun p => pc_state p <> Sent) (pending_control o) /\ (fs = Clean -> no_flush o).

Lemma view_nonempty o : out_wf o -> Forall (fun e => 0 < zlen (entry_bytes e)) (view o).
Proof.
  intros Hw. destruct (out_wf_bounds o Hw) as (Hb0 & Hb & _). destruct Hw as (Hl & _).
  unfold view, retained_bytes in *.
  assert (forall off, 0 <= off -> off + sum_by rp_len (retained o) <= zlen (out_buf o) ->
    Forall (fun e => 0 < zlen (entry_bytes e)) (view_from (out_buf o) off (retained o))) as Hgen.
  { clear Hb Hb0. induction Hl as [|e l He Hl IH]; intros off H0 Hoff; simpl; [constructor|].
    pose proof (retained_nonneg l Hl). unfold sum_by in *. simpl in Hoff.
    constructor; [|apply IH; lia]. simpl. rewrite zlen_zslice; lia. }
  apply Hgen; lia.
Qed.

Lemma view_lens o :
  out_wf o -> map (fun e => zlen (entry_bytes e)) (view o) = map rp_len (retained o).
Proof.
  intros Hw. destruct (out_wf_bounds o Hw) as (Hb0 & Hb & _). destruct Hw as (Hl & _).
  unfold view, retained_bytes in *.
  assert (forall off, 0 <= off -> off + sum_by rp_len (retained o) <= zlen (out_buf o) ->
    map (fun e => zlen (entry_bytes e)) (view_from (out_buf o) off (retained o)) =
    map rp_len (retained o)) as Hgen.
  { clear Hb Hb0. induction Hl as [|e l He Hl IH]; intros off H0 Hoff; simpl; [done|].
    pose proof (retained_nonneg l Hl). unfold sum_by in *. simpl in Hoff.
    rewrite IH by lia. f_equal. rewrite zlen_zslice; lia. }
  apply Hgen; lia.
Qed.

Lemma arm_replay_live o :
  live_inv o -> live_inv (arm_replay o) /\ live_ids (arm_replay o) = live_ids o.
Proof.
  intros (Hw & Hn & Hq). destruct (arm_replay_spec o Hw) as (Hw' & Hv & Hc & Hr & _ & _ & Hi).
  assert (live_ids (arm_replay o) = live_ids o) as Hids
    by (unfold live_ids; rewrite Hi, Hr, map_map; done).
  split; [|done]. split_and!; [done|by rewrite Hids|].
  assert (Forall (fun x => snd x = Write 0 /\ 0 < zlen (fst x)) (queue (arm_replay o))) as Hall.
  { unfold queue. rewrite Hc, Hr, !map_map. repeat (apply Forall_app; split).
    - apply List.Forall_map, Forall_true. intros p. split; [done|]. simpl.
      destruct (control_packet_ok (pc_action p)) as [_ ->]. by destruct (pc_action p).
    - apply List.Forall_map, Forall_true. intros p. split; [done|]. simpl.
      destruct (release_packet_ok (pr_packet_id p) (pr_reason p)) as [_ ->]. done.
    - apply List.Forall_map. pose proof (view_nonempty _ Hw') as Hne. rewrite Hv in *.
      apply (List.Forall_map replay_entry (fun e => 0 < zlen (entry_bytes e))) in Hne.
      apply List.Forall_map. eapply Forall_impl; [exact Hne|]. intros e He. done. }
  split.
  - assert (List.filter (writable true) (queue (arm_replay o)) = []) as ->; [|simpl; lia].
    apply idle_filter. eapply Forall_impl; [exact Hall|]. intros [p s] [Hs _]. simpl in Hs. by subst.
  - eapply Forall_impl; [exact Hall|]. intros [p s] [Hs Hp]. unfold item_ok. simpl in *. subst. lia.
Qed.

Lemma arm_replay_flush_ok fs o : out_wf o -> flush_ok fs (arm_replay o).
Proof.
  intros Hw. unfold arm_replay. destruct (negb (has_pending_state o)) eqn:Hp.
  - unfold has_pending_state in Hp.
    destruct (pending_control o) eqn:H1, (retained o) eqn:H2, (pending_release o) eqn:H3; try done.
    unfold flush_ok, no_flush. rewrite H1, H2, H3. repeat constructor.
  - unfold flush_ok, no_flush. simpl. rewrite !List.Forall_map.
    split; [by apply Forall_true|]. intros _. split_and!; by apply Forall_true.
Qed.

Lemma record_write_live o s w :
  live_inv o -> next_step o = Some s -> step_written s < w <= zlen (step_packet o s) ->
  live_inv (record_write o s w).
Proof.
  intros Hl Hs Hw. pose proof (record_write_inv o s w (live_inv_out o Hl) Hs Hw) as (Hwf & _ & Hq).
  split_and!; [done| |done]. destruct (record_write_frame o s w) as (H1 & _ & _ & H3 & _).
  unfold live_ids. rewrite H1, H3. apply Hl.
Qed.

Lemma set_written_not_sent w len : set_written w len <> Sent.
Proof. unfold set_written. by destruct (_ <=? _). Qed.

Lemma record_write_flush_ok fs o s w : flush_ok fs o -> flush_ok Dirty (record_write o s w).
Proof.
  intros [Hc _]. split; [|done]. destruct s as [s|s|s]; unfold record_write; simpl.
  - unfold set_control_written. destruct (_ !! _) as [e|] eqn:He; simpl; [|done].
    apply Forall_insert; [done|]. simpl. apply set_written_not_sent.
  - unfold set_release_written. by destruct (update_first _ _ _).
  - unfold set_retained_written. by destruct (update_first _ _ _).
Qed.

Lemma complete_flush_live o :
  live_inv o -> live_inv (complete_flush o) /\ live_ids (complete_flush o) = live_ids o.
Proof.
  intros (Hw & Hn & Hq). assert (live_ids (complete_flush o) = live_ids o) as Hids
    by (unfold live_ids; simpl; rewrite !map_map; done).
  split; [|done]. split_and!; [by apply complete_flush_wf|by rewrite Hids|].
  by apply complete_flush_queue.
Qed.

Lemma complete_flush_flush_ok fs o : flush_ok fs o -> flush_ok Clean (complete_flush o).
Proof.
  intros [Hc _]. unfold flush_ok, no_flush. simpl. rewrite !List.Forall_map. split.
  - rewrite Forall_forall in *. intros p Hp%list_elem_of_filter. apply Hc, Hp.
  - intros _. split_and!.
    + apply Forall_forall. intros p Hp%list_elem_of_filter. apply Hp.
    + apply Forall_true. intros p. by destruct p as [? ? []].
    + apply Forall_true. intros p. by destruct p as [? ? ? []].
Qed.

(** * Bytes still to be written *)

Lemma state_remaining_nonneg len s : 0 <= state_remaining len s.
Proof. destruct s; simpl; lia. Qed.

Lemma remaining_nonneg o : 0 <= remaining o.
Proof.
  unfold remaining. repeat apply Z.add_nonneg_nonneg;
    apply sum_by_nonneg, Forall_true; intros; apply state_remaining_nonneg.
Qed.

Definition item_remaining (x : bytes * SendState) : Z := state_remaining (zlen (fst x)) (snd x).

Lemma sum_by_comp {A B} (f : B -> Z) (g : A -> B) l : sum_by f (map g l) = sum_by (fun x => f (g x)) l.
Proof. induction l as [|x l IH]; [done|]. unfold sum_by in *. simpl. by rewrite IH. Qed.

Lemma remaining_queue o : out_wf o -> remaining o = sum_by item_remaining (queue o).
Proof.
  intros Hw. unfold remaining, queue. rewrite !sum_by_app, !sum_by_comp. rewrite Z.add_assoc.
  f_equal. pose proof (view_lens o Hw) as Hl. unfold view in *. revert Hl. generalize 0 as off.
  induction (retained o) as [|e l IH]; intros off Hl; [done|]. simpl in Hl. injection Hl as H1 H2.
  unfold sum_by in *. simpl. rewrite (IH _ H2). f_equal. unfold item_remaining. simpl. by rewrite H1.
Qed.

Lemma remaining_record_write o s n :
  live_inv o -> next_step o = Some s -> 0 < n <= zlen (step_packet o s) - step_written s ->
  remaining (record_write o s (step_written s + n)) = remaining o - n.
Proof.
  intros Hl Hs Hn. pose proof Hl as (Hw & _ & Hq). pose proof (live_inv_out o Hl) as (_ & Hu & _).
  destruct (next_step_split o s Hw Hq Hs) as (q1 & q2 & He & _ & _ & Hr & Hrec).
  rewrite !remaining_queue by (done || by apply record_write_wf). rewrite (Hrec Hu), He.
  rewrite !sum_by_app, !sum_by_cons.
  generalize (sum_by item_remaining q1) (sum_by item_remaining q2). intros r1 r2.
  unfold item_remaining, set_written. simpl.
  destruct (Z.leb_spec (zlen (step_packet o s)) (step_written s + n)); simpl; lia.
Qed.

Lemma sum_by_ext {A} (f g : A -> Z) l : Forall (fun x => f x = g x) l -> sum_by f l = sum_by g l.
Proof. induction 1; [done|]. unfold sum_by in *. simpl. congruence. Qed.

Lemma remaining_complete_flush o : remaining (complete_flush o) = remaining o.
Proof.
  unfold remaining. simpl. rewrite !sum_by_comp. f_equal; [f_equal|].
  - induction (pending_control o) as [|p l IH]; [done|]. rewrite filter_cons. unfold sum_by in *.
    destruct (decide (pc_state p <> Flush)) as [|Hd]; simpl; rewrite IH; [done|].
    destruct (pc_state p); [naive_solver| |naive_solver]. done.
  - apply sum_by_ext, Forall_true. intros p. by destruct p as [? ? []].
  - apply sum_by_ext, Forall_true. intros p. by destruct p as [? ? ? []].
Qed.

Lemma remaining_queue_control o a o' r :
  queue_control o a = (o', r) ->
  remaining o' <= remaining o + match a with ControlAction.PingReq => 2 | _ => 5 end.
Proof.
  intros Hq. destruct r as [[]|e].
  - apply queue_control_spec in Hq as [_ ->]. unfold remaining. simpl. rewrite sum_by_app.
    rewrite sum_by_cons. simpl. destruct (control_packet_ok a) as [_ ->]. destruct a; simpl; lia.
  - unfold queue_control in Hq. destruct (vec_push _ _ _); [done|]. injection Hq as <- _.
    destruct a; lia.
Qed.

Lemma next_step_control o s :
  next_step o = Some (ControlOut s) ->
  pending_control o !! cs_index s = Some (mkPendingControl (cs_action s) (Write (cs_written s))).
Proof.
  intros Hs. assert (exists b, next_control b 0 (pending_control o) = Some s) as [b Hb]
    by (unfold next_step, next_step_pass in Hs; repeat case_match; simplify_eq; eauto).
  pose proof (next_control_spec b 0 (pending_control o)) as Hc. rewrite Hb in Hc.
  destruct Hc as (i & -> & Hl & _). done.
Qed.

(** A ping stays queued until its last byte is written. *)
Lemma ping_unwritten_record o s w :
  next_step o = Some s -> w <= zlen (step_packet o s) ->
  ~ (is_ping s = true /\ w = zlen (step_packet o s)) ->
  ping_unwritten o = true -> ping_unwritten (record_write o s w) = true.
Proof.
  intros Hs Hw Hnot Hp. destruct s as [s|s|s]; unfold record_write; simpl in *.
  2: { unfold set_release_written. by destruct (update_first _ _ _). }
  2: { unfold set_retained_written. by destruct (update_first _ _ _). }
  pose proof (next_step_control o s Hs) as Hl. unfold set_control_written. rewrite Hl. simpl.
  unfold ping_unwritten in *. simpl. apply existsb_exists in Hp as (e & He & Hp).
  apply list_elem_of_In, list_elem_of_lookup in He as [j Hj]. apply existsb_exists.
  destruct (decide (j = cs_index s)) as [->|Hne].
  - rewrite Hl in Hj. injection Hj as <-. simpl in Hp. rewrite andb_true_r in Hp. eexists. split.
    + apply list_elem_of_In, (list_elem_of_lookup_2 _ (cs_index s)).
      apply list_lookup_insert_eq. by apply lookup_lt_Some in Hl.
    + simpl. rewrite Hp. simpl. unfold set_written.
      destruct (Z.leb_spec (zlen (control_packet (cs_action s))) w); [|done].
      exfalso. apply Hnot. split; [done|lia].
  - exists e. split; [|done]. apply list_elem_of_In, (list_elem_of_lookup_2 _ j).
    by rewrite list_lookup_insert_ne.
Qed.

Lemma ping_unwritten_flush o : ping_unwritten (complete_flush o) = ping_unwritten o.
Proof.
  unfold ping_unwritten. simpl. induction (pending_control o) as [|p l IH]; [done|].
  rewrite filter_cons. destruct (decide (pc_state p <> Flush)) as [|Hd]; simpl; rewrite IH; [done|].
  destruct (pc_state p); [naive_solver| |naive_solver]. by rewrite andb_false_r.
Qed.

(** Nothing left to write. *)
Lemma next_step_none o :
  out_wf o -> next_step o = None ->
  Forall (fun x => match snd x with Write _ => False | _ => True end) (queue o).
Proof.
  intros Hw Hs. unfold next_step in Hs.
  pose proof (next_step_pass_queue o true) as Ht. pose proof (next_step_pass_queue o false) as Hf.
  destruct (next_step_pass o true); [done|]. rewrite Hs in Hf.
  rewrite Forall_forall in *. intros [p s] Hx. specialize (Ht _ Hx). specialize (Hf _ Hx).
  unfold writable in *. simpl in *. destruct s as [w| |]; [|done|done]. simpl in *.
  by destruct (w =? 0).
Qed.

Lemma next_step_queued o a o1 :
  out_wf o -> queue_control o a = (o1, Ok tt) -> exists step, next_step o1 = Some step.
Proof.
  intros Hw Hq. destruct (next_step o1) as [step|] eqn:Hs; [by exists step|]. exfalso.
  apply next_step_none in Hs; [|by eapply queue_control_wf].
  apply queue_control_spec in Hq as [_ ->]. unfold queue in Hs. simpl in Hs.
  rewrite map_app in Hs. apply Forall_app in Hs as [Hs _]. apply Forall_app in Hs as [_ Hs].
  by inversion Hs.
Qed.

(** * Handling a packet *)

Lemma sum_by_delete {A} (f : A -> Z) i l :
  Forall (fun x => 0 <= f x) l -> sum_by f (delete i l) <= sum_by f l.
Proof.
  intros Hl. revert i. induction Hl as [|x l Hx Hl IH]; intros [|i]; unfold sum_by in *; simpl; try lia.
  specialize (IH i). lia.
Qed.

Lemma sum_by_perm {A} (f : A -> Z) l1 l2 : l1 ≡ₚ l2 -> sum_by f l1 = sum_by f l2.
Proof. induction 1; unfold sum_by in *; simpl; lia. Qed.

Section Handle.
Context {T : Time}.

(** A handler queues at most [n] bytes more. *)
Definition hp_grows (n : Z) {A} (m : HP A) : Prop :=
  forall s, remaining (outbound (fst (fst (m s)))) <= remaining (outbound (fst s)) + n.

Lemma hp_grows_pure {A} n (m : HP A) : 0 <= n -> (forall s, fst (fst (m s)) = fst s) -> hp_grows n m.
Proof. intros Hn Hm s. rewrite Hm. lia. Qed.

Lemma hp_grows_bind {A B} n (m : HP A) (k : A -> HP B) :
  hp_grows 0 m -> 0 <= n -> (forall a, hp_grows n (k a)) -> hp_grows n (bind m k).
Proof.
  intros Hm Hn Hk s. specialize (Hm s). unfold bind.
  destruct (m s) as [s' [a|e]]; simpl in *; [specialize (Hk a s')|]; lia.
Qed.

Lemma hp_grows_last {A B} n (m : HP A) (k : A -> HP B) :
  hp_grows n m -> (forall a, hp_grows 0 (k a)) -> hp_grows n (bind m k).
Proof.
  intros Hm Hk s. specialize (Hm s). unfold bind.
  destruct (m s) as [s' [a|e]]; simpl in *; [specialize (Hk a s')|]; lia.
Qed.

Lemma hp_grows_ack kind id : hp_grows 0 (on_outbound (fun o => ack_packet o kind id)).
Proof.
  intros [d rt]. unfold on_outbound, ack_packet. simpl.
  destruct (position _ _) as [i|]; simpl; [|lia]. unfold remaining. simpl.
  pose proof (sum_by_delete (fun e => state_remaining (rp_len e) (rp_state e)) i
    (retained (outbound d)) ltac:(apply Forall_true; intros; apply state_remaining_nonneg)). lia.
Qed.

Lemma hp_grows_ack_release id : hp_grows 0 (on_outbound (fun o => ack_release o id)).
Proof.
  intros [d rt]. unfold on_outbound, ack_release. simpl.
  destruct (position _ _) as [i|] eqn:Hp; simpl; [|lia]. unfold remaining. simpl.
  apply swap_remove_position in Hp as (x & _ & Hperm).
  pose proof (sum_by_perm (fun p => state_remaining (zlen (release_packet (pr_packet_id p)
    (pr_reason p))) (pr_state p)) _ _ Hperm) as Hs.
  rewrite sum_by_cons in Hs.
  pose proof (state_remaining_nonneg (zlen (release_packet (pr_packet_id x) (pr_reason x)))
    (pr_state x)). lia.
Qed.

Lemma hp_grows_control a : hp_grows 5 (try_outbound (fun o => queue_control o a)).
Proof.
  intros [d rt]. unfold try_outbound. simpl.
  destruct (queue_control _ _) as [o r] eqn:Hq. apply remaining_queue_control in Hq. simpl.
  destruct a; lia.
Qed.

Lemma hp_grows_release id : hp_grows 5 (try_outbound (fun o => queue_release o id ReasonCode.Success)).
Proof.
  intros [d rt]. unfold try_outbound, queue_release. simpl.
  destruct (vec_push _ _ _) as [l|] eqn:Hv; simpl; [|lia]. apply vec_push_some in Hv as [-> _].
  unfold remaining. simpl. rewrite sum_by_app. rewrite sum_by_cons. simpl.
  destruct (release_packet_ok id ReasonCode.Success) as [_ ->]. lia.
Qed.

Lemma hp_grows_codes codes : hp_grows 0 (check_codes codes).
Proof.
  induction codes as [|c codes IH]; simpl; [by apply hp_grows_pure|].
  apply hp_grows_bind; [by apply hp_grows_pure|lia|done].
Qed.

Lemma hp_grows_action {A} n (a : ControlAction) (m : HP A) :
  n = 5 -> hp_grows 0 m ->
  hp_grows n (let! rt := runtime in
              do! try (check_control_packet_size (maximum_packet_size rt) a) in
              do! try_outbound (fun o => queue_control o a) in m).
Proof.
  intros -> Hm. apply hp_grows_bind; [by apply hp_grows_pure|lia|]. intros rt.
  apply hp_grows_bind; [by apply hp_grows_pure|lia|]. intros _.
  by apply hp_grows_last; [apply hp_grows_control|].
Qed.

Lemma hp_grows_finish rec b : hp_grows 5 (finish_pubrec rec b).
Proof.
  apply hp_grows_bind; [by apply hp_grows_pure|lia|]. intros _. destruct b; [|by apply hp_grows_pure].
  apply hp_grows_bind; [by apply hp_grows_pure|lia|]. intros rt.
  apply hp_grows_bind; [by apply hp_grows_pure|lia|]. intros _.
  apply hp_grows_last; [apply hp_grows_release|]. intros _. by apply hp_grows_pure.
Qed.

Lemma hp_grows_pubrec rec : hp_grows 5 (handle_pubrec rec).
Proof.
  apply hp_grows_bind; [apply hp_grows_ack|lia|]. intros [].
  - apply hp_grows_bind; [by apply hp_grows_pure|lia|]. intros rt.
    apply hp_grows_bind; [by apply hp_grows_pure|lia|]. intros _. apply hp_grows_finish.
  - apply hp_grows_bind; [by apply hp_grows_pure|lia|]. intros d.
    destruct (has_pending_release _ _); [apply hp_grows_finish|by apply hp_grows_pure].
Qed.

Lemma hp_grows_publish info : hp_grows 5 (handle_publish info).
Proof.
  unfold handle_publish. destruct (publish_qos_level info); [by apply hp_grows_pure| |];
    (apply hp_grows_bind; [by apply hp_grows_pure|lia|]); intros id.
  - apply hp_grows_bind; [by apply hp_grows_pure|lia|]. intros d.
    apply hp_grows_action; [done|by apply hp_grows_pure].
  - intros s. unfold bind at 1, data.
    match goal with |- remaining (outbound (fst (fst (bind ?m ?k s)))) <= _ =>
      assert (outbound (fst (fst (m s))) = outbound (fst s)) as Hm;
      [|assert (forall r, hp_grows 5 (k r)) as Hk] end.
    + destruct (negb _); [|done]. by destruct (vec_push _ _ _).
    + intros r. apply hp_grows_action; [done|]. destruct (_ || _); by apply hp_grows_pure.
    + unfold bind at 1. destruct (_ s) as [s1 [r|e]]; simpl in *; [|rewrite Hm; lia].
      rewrite <- Hm. apply Hk.
Qed.

Lemma hp_grows_pubrel rel : hp_grows 5 (handle_pubrel rel).
Proof.
  intros s. unfold handle_pubrel, bind at 1, data.
  match goal with |- remaining (outbound (fst (fst (bind ?m ?k s)))) <= _ =>
    assert (outbound (fst (fst (m s))) = outbound (fst s)) as Hm;
    [|assert (forall r, hp_grows 5 (k r)) as Hk] end.
  - by destruct (position _ _).
  - intros r. apply hp_grows_action; [done|]. by apply hp_grows_pure.
  - unfold bind at 1. destruct (_ s) as [s1 [r|e]]; simpl in *; [|rewrite Hm; lia].
    rewrite <- Hm. apply Hk.
Qed.

Lemma hp_grows_weaken {A} n (m : HP A) : hp_grows 0 m -> 0 <= n -> hp_grows n m.
Proof. intros Hm Hn s. specialize (Hm s). lia. Qed.

Lemma hp_grows_handle p : hp_grows 5 (handle_packet p).
Proof.
  destruct p as [p|info|ack|ack|ack|rel|rec|comp|p|]; simpl;
    auto using hp_grows_publish, hp_grows_pubrel, hp_grows_pubrec; try by apply hp_grows_pure.
  - apply hp_grows_weaken; [|lia]. apply hp_grows_bind; [apply hp_grows_ack|lia|].
    intros []; simpl; [|by apply hp_grows_pure].
    repeat (apply hp_grows_bind; [by apply hp_grows_pure|lia|intros ?]). by apply hp_grows_pure.
  - apply hp_grows_weaken; [|lia]. apply hp_grows_bind; [apply hp_grows_ack|lia|].
    intros []; simpl; [|by apply hp_grows_pure].
    apply hp_grows_bind; [apply hp_grows_codes|lia|]. intros _. by apply hp_grows_pure.
  - apply hp_grows_weaken; [|lia]. apply hp_grows_bind; [apply hp_grows_ack|lia|].
    intros []; simpl; [|by apply hp_grows_pure].
    apply hp_grows_bind; [apply hp_grows_codes|lia|]. intros _. by apply hp_grows_pure.
  - apply hp_grows_weaken; [|lia]. apply hp_grows_bind; [apply hp_grows_ack_release|lia|].
    intros []; simpl; [|by apply hp_grows_pure].
    apply hp_grows_bind; [by apply hp_grows_pure|lia|]. intros _. by apply hp_grows_pure.
Qed.

(** The flush state stays right: what a handler queues is unwritten. *)
Lemma flush_ok_ack fs kind id d :
  flush_ok fs (outbound d) ->
  flush_ok fs (outbound (set_outbound d (fst (ack_packet (outbound d) kind id)))).
Proof.
  intros [Hc Hf]. unfold ack_packet. destruct (position _ _) as [i|]; [|done].
  split; [done|]. intros Hfs. destruct (Hf Hfs) as (H1 & H2 & H3). split_and!; try done.
  simpl. by apply Forall_delete.
Qed.

Lemma flush_ok_ack_release fs id d :
  flush_ok fs (outbound d) ->
  flush_ok fs (outbound (set_outbound d (fst (ack_release (outbound d) id)))).
Proof.
  intros [Hc Hf]. unfold ack_release. destruct (position _ _) as [i|] eqn:Hp; [|done].
  split; [done|]. intros Hfs. destruct (Hf Hfs) as (H1 & H2 & H3). split_and!; try done.
  simpl. apply swap_remove_position in Hp as (x & _ & Hperm). rewrite Hperm in H2.
  by inversion H2.
Qed.

Lemma flush_ok_control fs a o : flush_ok fs o -> flush_ok fs (fst (queue_control o a)).
Proof.
  intros [Hc Hf]. unfold queue_control. destruct (vec_push _ _ _) as [l|] eqn:Hv; [|done].
  apply vec_push_some in Hv as [-> _]. split; [by apply Forall_app; split; [|repeat constructor]|].
  intros Hfs. destruct (Hf Hfs) as (H1 & H2 & H3). split_and!; try done.
  simpl. by apply Forall_app; split; [|repeat constructor].
Qed.

Lemma flush_ok_release fs id reason o : flush_ok fs o -> flush_ok fs (fst (queue_release o id reason)).
Proof.
  intros [Hc Hf]. unfold queue_release. destruct (vec_push _ _ _) as [l|] eqn:Hv; [|done].
  apply vec_push_some in Hv as [-> _]. split; [done|].
  intros Hfs. destruct (Hf Hfs) as (H1 & H2 & H3). split_and!; try done.
  simpl. by apply Forall_app; split; [|repeat constructor].
Qed.
End Handle.

Lemma handle_keeps_flush_ok {T : Time} fs p :
  hp_keeps (fun d => flush_ok fs (outbound d)) (handle_packet p).
Proof.
  apply hp_keeps_handle; intros; [by apply flush_ok_control|done|by apply flush_ok_ack
    |by apply flush_ok_ack_release|by apply flush_ok_release].
Qed.

(** * The connection invariant *)

Section Invariant.
Context {IO E : Type} `{Transport IO E} {T : Time} `{!Clock IO T}.

Definition conn_inv (c : Connection IO) : Prop :=
  session_inv (conn_data c, conn_runtime c) /\ reader_wf (conn_reader c) /\
  flush_ok (flush_state c) (conn_outbound c).

Lemma conn_inv_live c : conn_inv c -> live_inv (conn_outbound c).
Proof. by intros [[(Hl & _) _] _]. Qed.

Lemma arm_data_inv d : data_inv d -> data_inv (set_outbound d (arm_replay (outbound d))).
Proof. intros (Hl & Hd). split; [by apply arm_replay_live|done]. Qed.

Lemma handle_disconnect_inv c : conn_inv c -> conn_inv (handle_disconnect c).
Proof.
  intros [[Hd Hq] (Hr & Hf)]. split_and!.
  - split; [by apply arm_data_inv|done].
  - by apply reader_wf_reset.
  - apply arm_replay_flush_ok. apply Hd.
Qed.

Lemma set_io_inv c i : conn_inv c -> conn_inv (set_io c i).
Proof. done. Qed.

Lemma keeps_instant_now : keeps conn_inv (instant_now (IO := IO) (E := E)).
Proof. intros c Hc. unfold instant_now. by destruct (now (io c)). Qed.

Lemma keeps_require_live : keeps conn_inv (require_live (IO := IO) (E := E)).
Proof. by intros c Hc. Qed.

Lemma keeps_on_io {A} (m : Async IO (Error E) A) : keeps conn_inv (on_io m).
Proof. intros c Hc. unfold on_io. by destruct (m (io c)). Qed.

Lemma keeps_or_disconnect {A} (m : C IO E A) :
  keeps conn_inv m -> keeps conn_inv (or_disconnect m).
Proof.
  intros Hm c Hc. specialize (Hm c Hc). unfold or_disconnect.
  destruct (m c) as [c' [[a|e]|]]; simpl in *; [done|by apply handle_disconnect_inv|done].
Qed.

Lemma keeps_fail {A} (e : Error E) : keeps conn_inv (fail_disconnected (A := A) e).
Proof. intros c Hc. by apply handle_disconnect_inv. Qed.

Lemma keeps_with_outbound {A} (f : Outbound -> Outbound * result (Error E) A) :
  (forall fs o, live_inv o -> flush_ok fs o -> live_inv (fst (f o)) /\ flush_ok fs (fst (f o))) ->
  keeps conn_inv (with_outbound f).
Proof.
  intros Hf c [[(Hl & Hd) Hq] (Hr & Ho)]. unfold with_outbound.
  destruct (Hf _ (conn_outbound c) Hl Ho) as [Hl' Ho']. by destruct (f (conn_outbound c)).
Qed.

Lemma keeps_require_then {A} (m : C IO E A) :
  keeps conn_inv m -> keeps conn_inv (do* require_live in m).
Proof. intros Hm. apply keeps_abind; [apply keeps_require_live|done]. Qed.

Lemma note_quota rt t : quota_inv rt -> quota_inv (note_outbound_activity rt t).
Proof. done. Qed.

Lemma keeps_flush_current : keeps conn_inv (flush_current (IO := IO) (E := E)).
Proof.
  apply keeps_require_then. apply keeps_abind.
  { apply keeps_amodify. intros c (Hs & Hr & Hf & _). by split_and!. }
  intros _. apply keeps_abind; [apply keeps_or_disconnect, keeps_on_io|]. intros _.
  apply keeps_abind; [apply keeps_instant_now|]. intros t. apply keeps_amodify.
  intros c [[(Hl & Hd) Hq] (Hr & Hf)]. split_and!; [|done|by eapply complete_flush_flush_ok].
  split; [|by apply note_quota]. split; [by apply complete_flush_live|done].
Qed.

Lemma keeps_queue_pingreq t : keeps conn_inv (maybe_queue_pingreq (IO := IO) (E := E) t).
Proof.
  apply keeps_abind; [apply keeps_aget|]. intros []; [|apply keeps_aret].
  apply keeps_abind; [apply keeps_aget|]. intros rt.
  apply keeps_abind; [apply keeps_alift|]. intros _. apply keeps_with_outbound.
  intros fs o Hl Hf. pose proof (flush_ok_control fs ControlAction.PingReq o Hf) as Hf'.
  destruct (queue_control o _) as [o' r] eqn:Hq.
  destruct (queue_control_inv _ _ _ _ Hl Hq) as (Hl' & _). done.
Qed.

(** * One outbound step *)

Definition step_target (step : OutboundStep) : OutPacket :=
  match step with
  | ControlOut s => OutPacket.Control (cs_index s)
  | ReleaseOut s => OutPacket.Release (ls_packet_id s)
  | RetainedOut s => OutPacket.Retained (rs_packet_id s)
  end.

Lemma next_step_len o s :
  out_wf o -> next_step o = Some (RetainedOut s) -> zlen (retained_packet o (rs_offset s) (rs_len s)) = rs_len s.
Proof.
  intros Hw Hs. assert (exists b, next_retained b 0 (retained o) = Some s) as [b Hb].
  { unfold next_step, next_step_pass in Hs.
    repeat case_match; simplify_eq; eauto. }
  pose proof (next_retained_spec b (out_buf o) 0 (retained o)) as Hv. rewrite Hb in Hv.
  destruct Hv as (i & e & Hl & _ & Hlen & _ & _ & _ & _ & Hview). fold (view o) in Hview.
  pose proof (view_lens o Hw) as Hlens.
  apply (f_equal (fun l => l !! i)) in Hlens. rewrite !map_lookup, Hview, Hl in Hlens.
  simpl in Hlens. injection Hlens as Hlens. unfold retained_packet. congruence.
Qed.

Lemma prepare_step_spec step c :
  conn_inv c -> next_step (conn_outbound c) = Some step ->
  let p := step_packet (conn_outbound c) step in
  prepare_step (E := E) step c =
    (c, Some (if exceeds (maximum_packet_size (conn_runtime c)) (zlen p)
              then Err (Error.Resource ResourceError.PacketTooLarge)
              else Ok (mkWriteStep (step_target step) p (step_written step) (zlen p)))).
Proof.
  intros Hc Hs p. unfold prepare_step, abind at 1, aget.
  destruct step as [s|s|s]; simpl in *.
  - unfold serialize_control_packet. destruct (control_packet_ok (cs_action s)) as [-> _].
    fold p. unfold abind, alift. by destruct (exceeds _ _).
  - unfold serialize_pubrel. destruct (release_packet_ok (ls_packet_id s) (ls_reason s)) as [-> _].
    fold p. unfold abind, alift. by destruct (exceeds _ _).
  - pose proof (next_step_len _ _ (proj1 (conn_inv_live c Hc)) Hs) as Hlen.
    unfold p. rewrite Hlen. unfold require_packet_size, abind, alift.
    by destruct (exceeds _ _).
Qed.

Lemma set_conn_written_record (c : Connection IO) step w :
  set_conn_written c (step_target step) w (zlen (step_packet (conn_outbound c) step)) =
  set_conn_outbound c (record_write (conn_outbound c) step w).
Proof. by destruct step. Qed.

(** The outcomes of a step: progress on its packet; an error, with the
    connection unchanged or dead; or a dropped write. *)
Definition step_outcome (c : Connection IO) (step : OutboundStep) (c' : Connection IO)
    (r : option (result (Error E) bool)) : Prop :=
  let o := conn_outbound c in let p := step_packet o step in let w := step_written step in
  match r with
  | Some (Ok more) => more = true /\
      exists n i0 i rt, 0 < n <= zlen p - w /\
        io_write (io c) (zdrop w p) = (i0, Some (Ok n)) /\ (i = i0 \/ i = fst (now i0)) /\
        c' = set_io (set_conn_state (set_flush_state c Dirty)
                       (set_outbound (conn_data c) (record_write o step (w + n))) rt) i /\
        ((rt = conn_runtime c /\ ~ (is_ping step = true /\ w + n = zlen p)) \/
         exists t, rt = set_ping_timeout (conn_runtime c) (Some t))
  | Some (Err e) =>
      c' = c \/ exists i, c' = handle_disconnect (set_io c i)
  | None => exists i, c' = set_io c i /\ io_write (io c) (zdrop w p) = (i, None)
  end.

Lemma perform_spec c step c' r :
  conn_inv c -> live c = true -> next_step (conn_outbound c) = Some step ->
  perform_outbound_step step c = (c', r) -> step_outcome c step c' r.
Proof.
  intros Hc Hlive Hs Hp. unfold step_outcome.
  destruct (next_step_split _ _ (proj1 (conn_inv_live c Hc)) (proj2 (proj2 (conn_inv_live c Hc))) Hs)
    as (_ & _ & _ & _ & _ & Hr & _).
  set (p := step_packet (conn_outbound c) step) in *. set (w := step_written step) in *.
  unfold perform_outbound_step, abind at 1 in Hp. rewrite prepare_step_spec in Hp by done.
  fold p w in Hp. destruct (exceeds _ _); [injection Hp as <- <-; by left|].
  unfold abind at 1, require_live in Hp. rewrite Hlive in Hp. cbn [ws_written ws_bytes ws_packet ws_len] in Hp.
  unfold abind at 1, or_disconnect, on_io, write_current, abind at 1, write in Hp.
  destruct (io_write (io c) (zdrop w p)) as [i0 [[n|e]|]] eqn:Hio; simpl in Hp.
  2: { injection Hp as <- <-. right. by exists i0. }
  2: { injection Hp as <- <-. by exists i0. }
  apply io_write_fits in Hio as Hn. rewrite zlen_zdrop in Hn by lia.
  destruct (Z.eqb_spec n 0) as [|Hn0]; simpl in Hp; [injection Hp as <- <-; right; by exists i0|].
  assert (set_conn_written (set_flush_state (set_io c i0) Dirty) (step_target step) (w + n) (zlen p) =
    set_conn_outbound (set_flush_state (set_io c i0) Dirty)
      (record_write (conn_outbound c) step (w + n))) as Hrec
    by exact (set_conn_written_record (set_flush_state (set_io c i0) Dirty) step (w + n)).
  rewrite !abind_amodify, Hrec in Hp. clear Hrec.
  unfold abind at 1 in Hp. destruct (is_ping step && (w + n =? zlen p)) eqn:Hping.
  - unfold abind, instant_now in Hp. simpl in Hp. destruct (now i0) as [i t] eqn:Hnow.
    injection Hp as <- <-. split; [done|]. eexists n, i0, i, _. split_and!; [lia|lia|done| |done|].
    + right. by rewrite Hnow.
    + right. by eexists.
  - injection Hp as <- <-. split; [done|]. eexists n, i0, i0, _.
    split_and!; [lia|lia|done|by left|done|]. left. split; [done|]. intros [H1 H2].
    rewrite H1 in Hping. simpl in Hping. lia.
Qed.
End Invariant.

(** * One turn of the send loop *)

Section Service.
Context {IO E : Type} `{Transport IO E} {T : Time} `{!Clock IO T}.

Lemma set_conn_outbound_same (c : Connection IO) : set_conn_outbound c (conn_outbound c) = c.
Proof. by destruct c as [[? ? [] ? ? ? ? ?] ? ? ? ?]. Qed.

(** Everything [service_outbound_once] can do. *)
Inductive service_step (c : Connection IO)
  : Connection IO -> option (result (Error E) bool) -> Prop :=
| service_flush i0 i t :
    flush_state c <> Clean -> (flush_state c = Dirty -> next_step (conn_outbound c) = None) ->
    io_flush (io c) = (i0, Some (Ok tt)) -> now i0 = (i, t) ->
    service_step c
      (set_flush_state
         (set_conn_state (set_io c i) (set_outbound (conn_data c) (complete_flush (conn_outbound c)))
            (note_outbound_activity (conn_runtime c) t)) Clean) (Some (Ok true))
| service_flush_dropped i :
    flush_state c <> Clean -> io_flush (io c) = (i, None) ->
    service_step c (set_io (set_flush_state c Flushing) i) None
| service_flush_failed i e :
    flush_state c <> Clean -> io_flush (io c) = (i, Some (Err e)) ->
    service_step c (handle_disconnect (set_io (set_flush_state c Flushing) i))
      (Some (Err (Error.Transport e)))
| service_write step c' r :
    flush_state c <> Flushing -> next_step (conn_outbound c) = Some step ->
    step_outcome c step c' r -> service_step c c' r
| service_ping o1 step c' r :
    flush_state c = Clean -> next_step (conn_outbound c) = None ->
    ping_timeout (conn_runtime c) = None -> has_pending_pingreq (conn_outbound c) = false ->
    queue_control (conn_outbound c) ControlAction.PingReq = (o1, Ok tt) ->
    next_step o1 = Some step -> step_outcome (set_conn_outbound c o1) step c' r ->
    service_step c c' r
| service_ping_failed e :
    flush_state c = Clean -> next_step (conn_outbound c) = None ->
    service_step c c (Some (Err e))
| service_idle :
    flush_state c = Clean -> next_step (conn_outbound c) = None ->
    service_step c c (Some (Ok false)).

Lemma flush_current_spec c c' r :
  live c = true -> flush_state c <> Clean ->
  (flush_state c = Dirty -> next_step (conn_outbound c) = None) ->
  (do* flush_current in aret true) c = (c', r) -> service_step c c' r.
Proof.
  intros Hlive Hf Hn. unfold flush_current, abind at 1, abind at 1, require_live. rewrite Hlive.
  rewrite abind_amodify. unfold abind at 1, or_disconnect, on_io, flush. simpl.
  destruct (io_flush (io c)) as [i0 [[[]|e]|]] eqn:Hio; simpl.
  - unfold abind, instant_now. simpl. destruct (now i0) as [i t] eqn:Hnow.
    intros [= <- <-]. exact (service_flush c i0 i t Hf Hn Hio Hnow).
  - intros [= <- <-]. by apply service_flush_failed.
  - intros [= <- <-]. by apply service_flush_dropped.
Qed.

Lemma queue_control_conn_inv (c : Connection IO) a o1 :
  conn_inv c -> queue_control (conn_outbound c) a = (o1, Ok tt) -> conn_inv (set_conn_outbound c o1).
Proof.
  intros [[(Hl & Hd) Hq] (Hr & Hf)] Hc. pose proof (flush_ok_control _ a _ Hf) as Hf'.
  rewrite Hc in Hf'. destruct (queue_control_inv _ _ _ _ Hl Hc) as (Hl' & _).
  by split_and!.
Qed.

Lemma service_spec t c c' r :
  conn_inv c -> live c = true -> service_outbound_once t c = (c', r) -> service_step c c' r.
Proof.
  intros Hc Hlive. unfold service_outbound_once. rewrite abind_aget.
  destruct (flush_state c) eqn:Hfs.
  - rewrite abind_aget. destruct (next_step (conn_outbound c)) as [step|] eqn:Hs.
    { intros Hp. eapply service_write; [congruence|done|]. by apply perform_spec. }
    unfold abind at 1, maybe_queue_pingreq. rewrite abind_aget.
    destruct (should_queue_pingreq c t) eqn:Hdue.
    + rewrite abind_aget. unfold abind at 1, alift.
      destruct (check_control_packet_size _ _) as [[]|e]; simpl;
        [|intros [= <- <-]; by apply service_ping_failed].
      unfold with_outbound. destruct (queue_control _ _) as [o1 [[]|e]] eqn:Hq; simpl.
      * rewrite abind_aget. change (conn_outbound (set_conn_outbound c o1)) with o1.
        unfold should_queue_pingreq in Hdue. apply andb_prop in Hdue as [Hdue Hpend].
        apply andb_prop in Hdue as [Hdue _].
        assert (exists step, next_step o1 = Some step) as [step Hs1]
          by (eapply next_step_queued; [apply (conn_inv_live c Hc)|done]).
        rewrite Hs1. intros Hp. eapply service_ping; try done.
        -- by destruct (ping_timeout _).
        -- by destruct (has_pending_pingreq _).
        -- apply perform_spec; [by eapply queue_control_conn_inv|done|done|done].
      * intros [= <- <-]. unfold queue_control in Hq. destruct (vec_push _ _ _); [done|].
        injection Hq as <- _. rewrite set_conn_outbound_same. by apply service_ping_failed.
    + cbv beta iota delta [aret]. rewrite abind_aget, Hs. intros [= <- <-]. by apply service_idle.
  - rewrite abind_aget. destruct (next_step (conn_outbound c)) as [step|] eqn:Hs.
    { intros Hp. eapply service_write; [congruence|done|]. by apply perform_spec. }
    apply flush_current_spec; [done|congruence|done].
  - apply flush_current_spec; [done|congruence|congruence].
Qed.

(** ** Consequences *)

Lemma step_outcome_inv c step c' r :
  conn_inv c -> next_step (conn_outbound c) = Some step -> step_outcome c step c' r -> conn_inv c'.
Proof.
  intros Hc Hs. unfold step_outcome. destruct r as [[more|e]|].
  - intros (_ & n & i0 & i & rt & Hn & _ & _ & -> & Hrt).
    pose proof (record_write_live _ step (step_written step + n) (conn_inv_live c Hc) Hs ltac:(lia)).
    destruct Hc as [[(Hl & Hd) Hq] (Hr & Hf)]. split_and!; [split; [by split|]|done|].
    + destruct Hrt as [[-> _]|[t ->]]; done.
    + by eapply record_write_flush_ok.
  - intros [->|[i ->]]; [done|]. by apply handle_disconnect_inv.
  - intros (i & -> & _). done.
Qed.

Lemma service_step_inv c c' r : conn_inv c -> service_step c c' r -> conn_inv c'.
Proof.
  intros Hc Hs. destruct Hs as [i0 i t H1 H2 H3 H4|i H1 H2|i e H1 H2|step c' r H1 H2 H3
                                |o1 step c' r H1 H2 H3 H4 H5 H6 H7|e H1 H2|H1 H2]; try done.
  - destruct Hc as [[(Hl & Hd) Hq] (Hr & Hf)]. split_and!; [|done|by eapply complete_flush_flush_ok].
    split; [|done]. split; [by apply complete_flush_live|done].
  - destruct Hc as (Hs & Hr & Hf & _). by split_and!.
  - apply handle_disconnect_inv. destruct Hc as (Hs & Hr & Hf & _). by split_and!.
  - by eapply step_outcome_inv.
  - eapply step_outcome_inv; [by eapply queue_control_conn_inv|done|done].
Qed.

Lemma send_measure_pos (c : Connection IO) :
  0 <= 2 * remaining (conn_outbound c) + flush_weight c + ping_weight c.
Proof.
  pose proof (remaining_nonneg (conn_outbound c)). unfold flush_weight, ping_weight.
  destruct (flush_state c), (ping_timeout _), (ping_unwritten (conn_outbound c)); lia.
Qed.

Lemma ping_weight_bounds (c : Connection IO) : 0 <= ping_weight c <= 5.
Proof. unfold ping_weight. destruct (ping_timeout _), (ping_unwritten (conn_outbound c)); lia. Qed.

(** A step does not bring back the right to queue a ping. *)
Lemma step_outcome_ping c step c' more :
  next_step (conn_outbound c) = Some step -> step_outcome c step c' (Some (Ok more)) ->
  ping_weight c' <= ping_weight c.
Proof.
  intros Hs (_ & n & i0 & i & rt & Hn & _ & _ & -> & Hrt). pose proof (ping_weight_bounds c).
  destruct Hrt as [[-> Hnot]|[t ->]]; [|change (0 <= ping_weight c); lia].
  unfold ping_weight. change (conn_runtime (set_io _ _)) with (conn_runtime c).
  change (conn_outbound (set_io _ _)) with
    (record_write (conn_outbound c) step (step_written step + n)).
  destruct (ping_timeout (conn_runtime c)); [lia|].
  destruct (ping_unwritten (conn_outbound c)) eqn:Hp; [|case_match; lia].
  by rewrite (ping_unwritten_record _ step (step_written step + n) Hs ltac:(lia) Hnot Hp).
Qed.

(** A completed write uses up fuel, whatever the flush state was. *)
Lemma step_outcome_measure c step c' :
  conn_inv c -> next_step (conn_outbound c) = Some step ->
  step_outcome c step c' (Some (Ok true)) ->
  live c' = live c /\ conn_reader c' = conn_reader c /\
  2 * remaining (conn_outbound c') + flush_weight c' + ping_weight c' <
  2 * remaining (conn_outbound c) + ping_weight c.
Proof.
  intros Hc Hs Ho. pose proof (step_outcome_ping c step c' _ Hs Ho) as Hp.
  destruct Ho as (_ & n & i0 & i & rt & Hn & _ & _ & -> & Hrt).
  split_and!; [done|done|].
  change (conn_outbound (set_io _ _)) with
    (record_write (conn_outbound c) step (step_written step + n)).
  rewrite remaining_record_write by (done || by apply conn_inv_live).
  unfold flush_weight. simpl flush_state. cbv match. lia.
Qed.

Lemma ping_queued o o1 :
  queue_control o ControlAction.PingReq = (o1, Ok tt) ->
  ping_unwritten o1 = true /\ remaining o1 = remaining o + 2.
Proof.
  intros [_ ->]%queue_control_spec. split.
  - unfold ping_unwritten. simpl. by rewrite existsb_app, orb_true_r.
  - unfold remaining. simpl. rewrite sum_by_app, sum_by_cons. change (sum_by _ []) with 0.
    destruct (control_packet_ok ControlAction.PingReq) as [_ Hl]. simpl in *. rewrite Hl. lia.
Qed.

Lemma not_pending_not_unwritten o : has_pending_pingreq o = false -> ping_unwritten o = false.
Proof.
  intros Hp. apply not_true_is_false. intros Hu. apply not_true_iff_false in Hp. apply Hp.
  apply existsb_exists in Hu as (e & He & Hu). apply existsb_exists. exists e. split; [done|].
  apply andb_prop in Hu as [-> Hu]. simpl. by destruct (pc_state e).
Qed.

Lemma service_progress c c' :
  conn_inv c -> service_step c c' (Some (Ok true)) ->
  live c' = live c /\ conn_reader c' = conn_reader c /\ (send_measure c' < send_measure c)%nat.
Proof.
  intros Hc Hs. pose proof (send_measure_pos c) as Hp1. pose proof (send_measure_pos c') as Hp2.
  assert (live c' = live c /\ conn_reader c' = conn_reader c /\
    2 * remaining (conn_outbound c') + flush_weight c' + ping_weight c' <
    2 * remaining (conn_outbound c) + flush_weight c + ping_weight c) as (? & ? & ?);
    [|split_and!; [done|done|unfold send_measure; lia]].
  inversion Hs as [i0 i t H1 H2 H3 H4| | |step c1 r1 H1 H2 H3
                  |o1 step c1 r1 H1 H2 H3 H4 H5 H6 H7| |]; subst.
  - split_and!; [done|done|].
    change (conn_outbound (set_flush_state _ _)) with (complete_flush (conn_outbound c)).
    rewrite remaining_complete_flush. unfold flush_weight, ping_weight. simpl flush_state.
    change (ping_timeout (conn_runtime (set_flush_state _ _))) with (ping_timeout (conn_runtime c)).
    pose proof (ping_unwritten_flush (conn_outbound c)) as Hp.
    change (conn_outbound (set_flush_state _ _)) with (complete_flush (conn_outbound c)).
    rewrite Hp. destruct (flush_state c); [done| |]; destruct (ping_timeout _); lia.
  - destruct (step_outcome_measure _ _ _ Hc H2 H3) as (? & ? & ?). split_and!; try done.
    unfold flush_weight at 2. destruct (flush_state c); lia.
  - destruct (step_outcome_measure _ _ _ (queue_control_conn_inv _ _ _ Hc H5) H6 H7) as (? & ? & Hm).
    split_and!; [done|done|]. destruct (ping_queued _ _ H5) as [Hu Hr].
    change (conn_outbound (set_conn_outbound c o1)) with o1 in *.
    unfold ping_weight at 2 in Hm. unfold ping_weight at 2.
    change (conn_outbound (set_conn_outbound c o1)) with o1 in *.
    change (conn_runtime (set_conn_outbound c o1)) with (conn_runtime c) in *.
    rewrite Hu, H3, Hr in Hm. rewrite H3, (not_pending_not_unwritten _ H4).
    unfold flush_weight at 2. destruct (flush_state c); lia.
Qed.
End Service.

(** * The send loop *)

Section Loops.
Context {IO E : Type} `{Transport IO E} {T : Time} `{!Clock IO T}.

Implicit Type c : Connection IO.

Lemma service_step_false c c' :
  service_step (E := E) c c' (Some (Ok false)) ->
  c' = c /\ flush_state c = Clean /\ next_step (conn_outbound c) = None.
Proof.
  intros Hs. inversion Hs as [| | |step c1 r1 H1 H2 H3|o1 step c1 r1 H1 H2 H3 H4 H5 H6 H7| |]; subst.
  - by destruct H3.
  - by destruct H7.
  - done.
Qed.

Lemma service_step_live c c' r :
  live c = true -> service_step (E := E) c c' r ->
  (forall e, r <> Some (Err e)) -> live c' = true /\ conn_reader c' = conn_reader c.
Proof.
  intros Hl Hs Hr. inversion Hs as [| |i e H1 H2|step c1 r1 H1 H2 H3
    |o1 step c1 r1 H1 H2 H3 H4 H5 H6 H7|e H1 H2|]; subst; try done.
  - by destruct (Hr (Error.Transport e)).
  - destruct r as [[b|e]|]; simpl in H3; [|by destruct (Hr e)|].
    + by destruct H3 as (_ & ? & ? & ? & ? & _ & _ & _ & -> & _).
    + by destruct H3 as (? & -> & _).
  - destruct r as [[b|e]|]; simpl in H7; [|by destruct (Hr e)|].
    + by destruct H7 as (_ & ? & ? & ? & ? & _ & _ & _ & -> & _).
    + by destruct H7 as (? & -> & _).
Qed.

(** What [flush_outbound] ensures, with any property [J] of live connections
    that the turns of the loop keep. *)
Lemma flush_outbound_rule (J : Connection IO -> Prop) c :
  (forall c, J c -> J (set_io c (fst (now (io c))))) ->
  (forall c c' r, conn_inv c -> J c -> service_step (E := E) c c' r -> live c' = true -> J c') ->
  conn_inv c -> live c = true -> J c ->
  let '(c', r) := flush_outbound (E := E) c in
  conn_inv c' /\ (live c' = true -> J c') /\
  match r with
  | Some (Ok _) => live c' = true /\ next_step (conn_outbound c') = None /\ flush_state c' = Clean
  | Some (Err _) => True
  | None => live c' = true
  end.
Proof.
  intros Hnow Hstep Hc Hlive HJ.
  apply (arun_rule (fun c => conn_inv c /\ live c = true /\ J c) _ send_measure); [|done].
  clear c Hc Hlive HJ. intros c (Hc & Hlive & HJ).
  unfold flush_outbound_turn, abind at 1, instant_now.
  destruct (now (io c)) as [i t] eqn:Hn. set (c1 := set_io c i).
  assert (J c1) as HJ1 by (specialize (Hnow c HJ); by rewrite Hn in Hnow).
  unfold abind at 1. destruct (service_outbound_once t c1) as [c' r] eqn:Hs.
  apply service_spec in Hs; [|done|done].
  pose proof (service_step_inv c1 c' r Hc Hs) as Hc'.
  pose proof (Hstep c1 c' r Hc HJ1 Hs) as HJ'.
  pose proof (service_step_live c1 c' r Hlive Hs) as Hl'.
  destruct r as [[[|]|e]|]; simpl.
  - destruct (service_progress c1 c' Hc Hs) as (Hlv & _ & Hm). split; [|exact Hm].
    split_and!; [done|by rewrite Hlv|]. apply HJ'. by rewrite Hlv.
  - apply service_step_false in Hs as (-> & Hf & Hn0). by split_and!.
  - by split_and!.
  - destruct Hl' as [Hl' _]; [done|]. by split_and!.
Qed.

Lemma keeps_flush_outbound c :
  conn_inv c -> live c = true -> conn_inv (fst (flush_outbound (E := E) c)).
Proof.
  intros Hc Hl. pose proof (flush_outbound_rule (fun _ => True) c) as Hr.
  destruct (flush_outbound c). by apply Hr.
Qed.

(** * Packet processing *)

Lemma take_packet_reset r r' res :
  packet_available r = true -> take_packet r = (r', res) -> r' = reader_reset r.
Proof.
  unfold packet_available, take_packet. destruct (packet_length r); [|done]. intros _.
  destruct (from_buffer _); by intros [= <- <-].
Qed.

(** The reader still holds the publish to deliver. *)
Definition deliverable (c : Connection IO) (len : Z) : Prop :=
  len <= zlen (buffer (conn_reader c)) /\
  exists info, from_buffer (ztake len (buffer (conn_reader c))) = Ok (ReceivedPacket.Publish info).

Lemma take_packet_ok rd r' len packet :
  reader_wf rd -> packet_available rd = true -> take_packet rd = (r', Ok (len, packet)) ->
  len <= zlen (buffer rd) /\ from_buffer (ztake len (buffer rd)) = Ok packet.
Proof.
  intros (Hi & _) Ha. unfold take_packet. unfold packet_available in Ha.
  destruct (packet_length rd) as [l|]; [|done]. simpl.
  destruct (from_buffer (ztake l (buffer rd))) eqn:Hf; [|done]. intros [= _ <- <-].
  split; [lia|done].
Qed.

(** Only a publish is delivered. *)
Definition never_true (m : HP bool) : Prop := forall s, snd (m s) <> Ok true.

Lemma never_true_bind {A} (m : HP A) k : (forall a, never_true (k a)) -> never_true (bind m k).
Proof. intros Hk s. unfold bind. destruct (m s) as [s' [a|e]]; simpl; [apply Hk|done]. Qed.

Lemma never_true_false : never_true (ret false).
Proof. by intros s. Qed.

Ltac solve_never_true :=
  repeat match goal with
         | |- never_true (bind _ _) => apply never_true_bind; intros ?
         | |- never_true (if ?b then _ else _) => destruct b
         | |- never_true (ret false) => apply never_true_false
         end.

Lemma never_true_finish rec b : never_true (finish_pubrec rec b).
Proof. unfold finish_pubrec. solve_never_true. Qed.

Lemma handle_true_publish packet s s' :
  handle_packet packet s = (s', Ok true) -> exists info, packet = ReceivedPacket.Publish info.
Proof.
  intros Hh. assert (~ never_true (handle_packet packet)) as Hn.
  { intros Hn. apply (Hn s). by rewrite Hh. }
  destruct packet as [p|info|ack|ack|ack|rel|rec|comp|p|]; eauto; exfalso; apply Hn; simpl;
    unfold handle_puback, handle_list_ack, handle_pubrel, handle_pubrec, handle_pubcomp;
    solve_never_true; auto using never_true_finish; done.
Qed.

(** Every outcome of [process_received_packet]. *)
Lemma process_spec c c' r :
  conn_inv c -> packet_available (conn_reader c) = true ->
  process_received_packet (E := E) c = (c', r) ->
  conn_inv c' /\ packet_available (conn_reader c') = false /\
  match r with
  | Some (Ok inbound) => live c' = live c /\ (send_measure c' <= send_measure c + 15)%nat /\
      forall len, inbound = Some len -> deliverable c' len
  | Some (Err _) => True
  | None => False
  end.
Proof.
  intros Hc Ha. unfold process_received_packet. rewrite Ha. simpl negb. cbn iota.
  destruct (take_packet (conn_reader c)) as [r1 res] eqn:Ht.
  pose proof (fun len p e => take_packet_ok _ _ len p (proj1 (proj2 Hc)) Ha
    (eq_trans Ht (f_equal (pair r1) e))) as Hok.
  apply take_packet_reset in Ht; [|done]. subst r1.
  set (c1 := set_session c (set_reader (session c) (reader_reset (conn_reader c)))).
  assert (conn_inv c1) as Hc1.
  { destruct Hc as (Hs & Hr & Hf). split_and!; try done. by apply reader_wf_reset. }
  destruct res as [[len packet]|err].
  2: { intros [= <- <-]. split_and!; [by apply handle_disconnect_inv|done|done]. }
  destruct (handle_packet packet (conn_data c1, conn_runtime c1)) as [[d rt] hr] eqn:Hh.
  set (c2 := set_conn_state c1 d rt).
  assert (conn_inv c2) as Hc2.
  { destruct Hc1 as (Hs & Hr & Hf). split_and!; try done.
    - pose proof (hp_safe_handle_packet packet _ Hs) as [Hs' _]. by rewrite Hh in Hs'.
    - pose proof (handle_keeps_flush_ok (flush_state c1) packet (conn_data c1, conn_runtime c1) Hf)
        as Hf'. by rewrite Hh in Hf'. }
  assert (send_measure c2 <= send_measure c + 15)%nat as Hm.
  { pose proof (hp_grows_handle packet (conn_data c1, conn_runtime c1)) as Hg. rewrite Hh in Hg.
    simpl in Hg. pose proof (ping_weight_bounds c2). pose proof (ping_weight_bounds c).
    pose proof (send_measure_pos c2). pose proof (send_measure_pos c).
    unfold send_measure. change (conn_outbound c2) with (outbound d) in *.
    change (flush_weight c2) with (flush_weight c) in *.
    change (outbound (conn_data c1)) with (conn_outbound c) in Hg. lia. }
  assert (hr = Ok true -> deliverable c2 len) as Hdel.
  { intros ->. apply handle_true_publish in Hh as [info ->].
    destruct (Hok len (ReceivedPacket.Publish info) eq_refl) as [Hlen Hfb]. split; [done|eauto]. }
  destruct hr as [[|]|[| | |[code|]|[| |]|[]|]]; intros [= <- <-];
    split_and!; try done; try (by apply handle_disconnect_inv).
  intros l [= <-]. by apply Hdel.
Qed.

Lemma keeps_process : keeps conn_inv (process_received_packet (IO := IO) (E := E)).
Proof.
  intros c Hc. destruct (packet_available (conn_reader c)) eqn:Ha.
  - destruct (process_received_packet c) as [c' r] eqn:Hp. by eapply process_spec.
  - unfold process_received_packet. by rewrite Ha.
Qed.

Lemma keeps_read_packet : keeps conn_inv (read_packet (IO := IO) (E := E)).
Proof.
  apply keeps_require_then, keeps_or_disconnect. intros c Hc.
  destruct (fill_packet_reader (conn_reader c) (io c)) as [[r i] res] eqn:Hf.
  destruct Hc as (Hs & Hr & Hfl). split_and!; try done.
  by eapply fill_loop_inv in Hf as (? & _).
Qed.
End Loops.

(** * Nothing left to do *)

Section Idle.
Context {IO : Type} {T : Time}.

(** Nothing to write and nothing to flush: everything is sent. *)
Lemma controls_gone (c : Connection IO) :
  conn_inv c -> next_step (conn_outbound c) = None -> flush_state c = Clean ->
  pending_control (conn_outbound c) = [].
Proof.
  intros Hc Hn Hfs. pose proof (conn_inv_live c Hc) as (Hw & _).
  apply next_step_none in Hn; [|done]. destruct Hc as (_ & _ & Hopen & Hclean).
  destruct (Hclean Hfs) as (Hnf & _). unfold queue in Hn. apply Forall_app in Hn as [Hn _].
  destruct (pending_control (conn_outbound c)) as [|p l]; [done|].
  inversion_clear Hopen as [|? ? Ho _]. inversion_clear Hnf as [|? ? Hf _].
  inversion_clear Hn as [|? ? Hw' _]. simpl in *. by destruct (pc_state p).
Qed.

Lemma no_flush_queue o : no_flush o -> Forall (fun x => snd x <> Flush) (queue o).
Proof.
  intros (Hc & Hr & Hv). unfold queue. repeat (apply Forall_app; split); apply List.Forall_map.
  - done.
  - done.
  - unfold view. generalize 0. induction Hv as [|e l He _ IH]; intros off; simpl; constructor; auto.
Qed.

Lemma all_sent (c : Connection IO) :
  conn_inv c -> next_step (conn_outbound c) = None -> flush_state c = Clean ->
  Forall (fun x => snd x = Sent) (queue (conn_outbound c)).
Proof.
  intros Hc Hn Hfs.
  pose proof (conn_inv_live c Hc) as (Hw & _). apply next_step_none in Hn; [|done].
  destruct Hc as (_ & _ & _ & Hclean). specialize (Hclean Hfs).
  apply no_flush_queue in Hclean.
  rewrite Forall_forall in *. intros x Hx. specialize (Hn x Hx). specialize (Hclean x Hx).
  simpl in *. by destruct (snd x).
Qed.
End Idle.

(** * The drive loop *)

Section DriveProofs.
Context {IO E : Type} `{Transport IO E} {T : Time} `{!Clock IO T}.

Implicit Type c : Connection IO.

(** A full control queue always has something to write or to flush. *)
Lemma full_queue_works c :
  conn_inv c -> pending_control_len (conn_outbound c) = MAX_PENDING_CONTROL ->
  flush_state c = Clean -> next_step (conn_outbound c) <> None.
Proof.
  intros Hc Hfull Hfs Hn. unfold pending_control_len in Hfull.
  by rewrite (controls_gone c Hc Hn Hfs) in Hfull.
Qed.

(** How a turn or the whole loop may be left. *)
Definition drive_result (s : Connection IO * bool) (r : option (result (Error E) Progress)) : Prop :=
  conn_inv (fst s) /\
  match r with
  | Some (Ok (Progress.Inbound len)) => live (fst s) = true /\ deliverable (fst s) len
  | Some (Ok _) => live (fst s) = true /\ next_step (conn_outbound (fst s)) = None /\
      flush_state (fst s) = Clean /\ packet_available (conn_reader (fst s)) = false
  | Some (Err _) => True
  | None => live (fst s) = true
  end.

Definition turn_result (s : Connection IO * bool)
    (out : (Connection IO * bool) * option (result (Error E) (option Progress))) : Prop :=
  match out with
  | (s', Some (Ok None)) =>
      (conn_inv (fst s') /\ live (fst s') = true) /\ (drive_measure s' < drive_measure s)%nat
  | (s', Some (Ok (Some a))) => drive_result s' (Some (Ok a))
  | (s', Some (Err e)) => drive_result s' (Some (Err e))
  | (s', None) => drive_result s' None
  end.

Lemma process_turn_spec c b :
  conn_inv c -> live c = true -> packet_available (conn_reader c) = true ->
  turn_result (c, b) (process_turn (E := E) (c, b)).
Proof.
  intros Hc Hl Ha. unfold process_turn, abind at 1, on_conn.
  destruct (process_received_packet c) as [c' r] eqn:Hp.
  destruct (process_spec c c' r Hc Ha Hp) as (Hc' & Ha' & Hr).
  destruct r as [[[len|]|e]|]; simpl; [| |done|done].
  - destruct Hr as (Hl' & _ & Hd). split; [done|]. split; [simpl; congruence|auto].
  - destruct Hr as (Hl' & Hm & _). split; [split; [done|simpl; congruence]|].
    unfold drive_measure. simpl. rewrite Ha, Ha'. lia.
Qed.

(** A turn with a packet to process: it is processed, or an acknowledgement is sent first
    to make room for the next. *)
Lemma process_first_spec c b :
  conn_inv c -> live c = true -> packet_available (conn_reader c) = true ->
  turn_result (c, b) (drive_turn (E := E) (c, b)).
Proof.
  intros Hc Hl Ha. unfold drive_turn. rewrite abind_aget. cbv beta. cbn [fst]. rewrite Ha.
  destruct (Nat.eqb_spec (pending_control_len (conn_outbound c)) MAX_PENDING_CONTROL) as [Hfull|_];
    simpl; [|by apply process_turn_spec].
  unfold abind at 1, on_conn, instant_now. destruct (now (io c)) as [i t]. simpl.
  unfold abind at 1. destruct (service_outbound_once t (set_io c i)) as [c' r] eqn:Hs.
  apply service_spec in Hs; [|done|done].
  pose proof (service_step_inv _ _ _ (set_io_inv c i Hc) Hs) as Hc'.
  pose proof (service_step_live _ _ _ (Hl : live (set_io c i) = true) Hs) as Hl'.
  destruct r as [[[|]|e]|]; simpl.
  - destruct (service_progress (set_io c i) _ Hc Hs) as (Hlv & Hrd & Hm).
    split; [split; [done|by rewrite Hlv]|]. unfold drive_measure. simpl. rewrite Hrd.
    change (conn_reader (set_io c i)) with (conn_reader c). rewrite Ha.
    change (send_measure (set_io c i)) with (send_measure c) in Hm. lia.
  - apply service_step_false in Hs as (_ & Hf & Hn).
    by destruct (full_queue_works c Hc Hfull Hf).
  - by split.
  - destruct Hl' as [Hl' _]; [done|]. by split.
Qed.

(** A turn without one: the ping is checked, then the next packet is sent. *)
Lemma send_next_spec c b :
  conn_inv c -> live c = true -> packet_available (conn_reader c) = false ->
  turn_result (c, b) (drive_turn (E := E) (c, b)).
Proof.
  intros Hc Hl Ha. unfold drive_turn. rewrite abind_aget. cbv beta. cbn [fst]. rewrite Ha.
  simpl. unfold abind at 1, on_conn, instant_now. simpl. destruct (now (io c)) as [i t].
  unfold abind at 1, service. rewrite abind_aget.
  destruct (match ping_timeout _ with Some deadline => _ | None => false end).
  { split; [|done]. by apply handle_disconnect_inv. }
  destruct (service_outbound_once t (set_io c i)) as [c' r] eqn:Hs.
  apply service_spec in Hs; [|done|done].
  pose proof (service_step_inv _ _ _ (set_io_inv c i Hc) Hs) as Hc'.
  pose proof (service_step_live _ _ _ (Hl : live (set_io c i) = true) Hs) as Hl'.
  destruct r as [[more|e]|]; [|by split|destruct Hl' as [Hl' _]; [done|]; by split].
  destruct Hl' as [Hl' Hrd]; [done|].
  unfold advance. rewrite abind_amodify, abind_aget.
  unfold id. cbv beta iota. cbn [fst snd].
  rewrite Hrd. change (conn_reader (set_io c i)) with (conn_reader c). rewrite Ha.
  assert (packet_available (conn_reader c') = false) as Ha' by (rewrite Hrd; exact Ha).
  destruct more.
  - destruct (service_progress (set_io c i) _ Hc Hs) as (_ & _ & Hm).
    assert (drive_measure (c', b || true) < drive_measure (c, b))%nat as Hdm.
    { unfold drive_measure. simpl. rewrite Ha, Ha'.
      change (send_measure (set_io c i)) with (send_measure c) in Hm. lia. }
    destruct (next_step (conn_outbound c')) eqn:Hn, (flush_state c') eqn:Hf; simpl; try by split.
    split; [done|]. destruct (b || true); by split_and!.
  - apply service_step_false in Hs as (-> & Hf & Hn). rewrite Hf, Hn. simpl.
    split; [done|]. destruct (b || false); by split_and!.
Qed.

Lemma drive_turn_spec c b :
  conn_inv c -> live c = true -> turn_result (c, b) (drive_turn (E := E) (c, b)).
Proof.
  intros Hc Hl. destruct (packet_available (conn_reader c)) eqn:Ha;
    [by apply process_first_spec|by apply send_next_spec].
Qed.

Lemma drive_packet_spec c c' r :
  conn_inv c -> drive_packet (E := E) c = (c', r) -> 
  live c = false /\ c' = c /\ r = Some (Err Error.Disconnected) \/
  live c = true /\ drive_result (c', false) r.
Proof.
  intros Hc. unfold drive_packet, abind, require_live. destruct (live c) eqn:Hl.
  2: { intros [= <- <-]. by left. }
  intros Hd. right. split; [done|].
  pose proof (arun_rule (fun s => conn_inv (fst s) /\ live (fst s) = true) drive_result drive_measure
    drive_turn (c, false)) as Hr.
  destruct (arun _ drive_turn (c, false)) as [[c1 b] r1]. injection Hd as <- <-.
  apply Hr; [|done]. intros [c2 b2] [Hc2 Hl2]. exact (drive_turn_spec c2 b2 Hc2 Hl2).
Qed.
End DriveProofs.

Section DriveKeeps.
Context {IO E : Type} `{Transport IO E} {T : Time} `{!Clock IO T}.

Implicit Type c : Connection IO.

Lemma keeps_drive_packet : keeps conn_inv (drive_packet (IO := IO) (E := E)).
Proof.
  intros c Hc. destruct (drive_packet c) as [c' r] eqn:Hd.
  by destruct (drive_packet_spec c c' r Hc Hd) as [(_ & -> & _)|(_ & Hr & _)].
Qed.

Lemma keeps_decode len : keeps conn_inv (decode_inbound_publish (IO := IO) (E := E) len).
Proof. by intros c Hc. Qed.

Lemma keeps_drive : keeps conn_inv (drive (IO := IO) (E := E)).
Proof.
  apply keeps_abind; [apply keeps_drive_packet|]. intros [| |len]; try apply keeps_aret.
  apply keeps_abind; [apply keeps_decode|]. intros. apply keeps_aret.
Qed.

Lemma keeps_wait turns : keeps conn_inv (wait_for_progress (IO := IO) (E := E) turns).
Proof.
  induction turns as [|turns IH]; [by intros c Hc|]. cbn [wait_for_progress].
  apply keeps_abind; [apply keeps_drive_packet|]. intros [| |len]; try apply keeps_aret.
  apply keeps_abind; [apply keeps_aget|]. intros rt. destruct (next_deadline rt) as [deadline|].
  - intros c Hc. pose proof (keeps_read_packet (E := E) c Hc) as Hr.
    destruct (read_packet c) as [c' [[[]|e]|]]; simpl in *; [by apply IH|done|].
    destruct (deadline_expired (io c') deadline) as [i []]; [by apply IH|done].
  - apply keeps_abind; [apply keeps_read_packet|]. intros _. apply IH.
Qed.

Lemma keeps_poll turns : keeps conn_inv (poll (IO := IO) (E := E) turns).
Proof.
  apply keeps_abind; [apply keeps_wait|]. intros [len|]; [|apply keeps_aret].
  apply keeps_abind; [apply keeps_decode|]. intros. apply keeps_aret.
Qed.

Lemma keeps_recv turns : keeps conn_inv (recv (IO := IO) (E := E) turns).
Proof.
  induction turns as [|turns IH]; [by intros c Hc|]. cbn [recv].
  apply keeps_abind; [apply keeps_wait|]. intros [len|]; [apply keeps_decode|apply IH].
Qed.

Lemma deliverable_decodes c len :
  deliverable c len -> exists msg, decode_inbound_publish (E := E) len c = (c, Some (Ok msg)).
Proof.
  intros (Hlen & info & Hf). unfold decode_inbound_publish.
  destruct (Z.ltb_spec (zlen (buffer (conn_reader c))) len); [lia|]. rewrite Hf. by eexists.
Qed.
End DriveKeeps.

(** * Bytes on the wire *)

Lemma sends_trans o1 w1 p1 o2 w2 p2 o3 :
  sends o1 w1 p1 o2 -> sends o2 w2 p2 o3 -> sends o1 (w1 ++ w2) (p1 ++ p2) o3.
Proof.
  intros Hs H2. induction Hs as [o|o s n wire packets o' Hn Hr _ IH|o a oq wire packets o' Hq _ IH
                                 |o wire packets o' _ IH]; simpl.
  - done.
  - rewrite <- !app_assoc. apply sends_write; auto.
  - eapply sends_control; [done|auto].
  - apply sends_flush. auto.
Qed.

(** The packets of the queue that are not completely written. *)
Definition is_unsent (x : bytes * SendState) : bool :=
  match snd x with Write _ => true | _ => false end.

Definition unsent (q : list (bytes * SendState)) : list bytes := map fst (List.filter is_unsent q).

Lemma unsent_app q1 q2 : unsent (q1 ++ q2) = unsent q1 ++ unsent q2.
Proof. unfold unsent. by rewrite List.filter_app, map_app. Qed.

Lemma unsent_cons x q : unsent (x :: q) = (if is_unsent x then [fst x] else []) ++ unsent q.
Proof. unfold unsent. simpl. by destruct (is_unsent x). Qed.

(** Whether an item is still to be sent decides what it contributes. *)
Lemma unsent_map {A} (f g : A -> bytes * SendState) l :
  (forall x, fst (f x) = fst (g x) /\ is_unsent (f x) = is_unsent (g x)) ->
  unsent (map f l) = unsent (map g l).
Proof.
  intros Hfg. induction l as [|x l IH]; [done|]. cbn [map]. rewrite !unsent_cons, IH.
  by destruct (Hfg x) as [-> ->].
Qed.

Lemma all_sent_nothing q : Forall (fun x => snd x = Sent) q -> unsent q = [] /\ partial q = [].
Proof.
  induction 1 as [|[p s] q Hs _ [IH1 IH2]]; [done|]. simpl in Hs. subst s. by split.
Qed.

Lemma record_write_unsent o s n :
  out_inv o -> next_step o = Some s -> 0 < n <= zlen (step_packet o s) - step_written s ->
  unsent (queue o) ≡ₚ
    (if step_written s + n =? zlen (step_packet o s) then [step_packet o s] else []) ++
    unsent (queue (record_write o s (step_written s + n))).
Proof.
  intros (Hw & Hu & Hq) Hs Hn.
  destruct (next_step_split o s Hw Hq Hs) as (q1 & q2 & -> & _ & _ & _ & Hrec).
  rewrite (Hrec Hu), !unsent_app, !unsent_cons. unfold set_written, is_unsent. simpl.
  destruct (Z.leb_spec (zlen (step_packet o s)) (step_written s + n)) as [Hle|Hlt],
    (Z.eqb_spec (step_written s + n) (zlen (step_packet o s))); try lia; simpl; [|done].
  symmetry. apply Permutation_middle.
Qed.

Lemma complete_flush_unsent o : unsent (queue (complete_flush o)) = unsent (queue o).
Proof.
  unfold queue. rewrite !unsent_app. f_equal; [|f_equal].
  - simpl. induction (pending_control o) as [|p l IH]; [done|]. rewrite filter_cons.
    destruct (decide (pc_state p <> Flush)) as [Hp|Hp]; cbn [map]; rewrite !unsent_cons, IH; [|].
    + done.
    + unfold is_unsent. simpl. by destruct (pc_state p) as [|w|]; try (destruct Hp; congruence).
  - simpl. rewrite map_map. apply unsent_map. intros x. split; [done|].
    unfold is_unsent. simpl. by destruct (pr_state x).
  - unfold view. simpl. rewrite (view_set_state _ _ _ flushed), map_map. apply unsent_map. intros x. split; [done|].
    unfold is_unsent. simpl. by destruct (entry_state x).
Qed.

Lemma queue_control_unsent o a o1 :
  queue_control o a = (o1, Ok tt) ->
  unsent (queue o1) ≡ₚ unsent (queue o) ++ [control_packet a].
Proof.
  intros [_ ->]%queue_control_spec. unfold queue. simpl.
  change (view (set_pending_control o _)) with (view o).
  rewrite map_app, !unsent_app. cbn [map]. rewrite (unsent_cons (control_item _)). simpl.
  rewrite <- !app_assoc. apply Permutation_app_head. rewrite (app_assoc _ _ [_]).
  apply Permutation_cons_append.
Qed.

Section Wire.
Context {IO E : Type} `{Recording IO E} {T : Time} `{!Clock IO T} `{!QuietClock IO E T}.

Implicit Type c : Connection IO.

(** [c] is the connection [c0] after it wrote [wire] and with it completed [packets],
    having queued [pings] keepalive pings of its own: the bytes are those of a run of the
    send queue; the packets completed and those still to be sent are those that were to be
    sent and the pings, each once; and every ping uses up the right to queue one. *)
Definition conn_sends (c0 : Connection IO) (wire : bytes) (packets : list bytes) (pings : nat)
    (c : Connection IO) : Prop :=
  sends (conn_outbound c0) wire packets (conn_outbound c) /\
  io_sent (io c) = io_sent (io c0) ++ wire /\
  packets ++ unsent (queue (conn_outbound c)) ≡ₚ
    unsent (queue (conn_outbound c0)) ++ repeat (control_packet ControlAction.PingReq) pings /\
  5 * Z.of_nat pings + ping_weight c <= ping_weight c0.

Lemma conn_sends_quiet c c' :
  conn_outbound c' = conn_outbound c -> io_sent (io c') = io_sent (io c) ->
  ping_weight c' <= ping_weight c -> conn_sends c [] [] 0 c'.
Proof.
  intros Ho Hi Hp. unfold conn_sends. rewrite Ho, Hi, !app_nil_r. split_and!; [constructor|done..|lia].
Qed.

Lemma conn_sends_trans c1 w1 p1 k1 c2 w2 p2 k2 c3 :
  conn_sends c1 w1 p1 k1 c2 -> conn_sends c2 w2 p2 k2 c3 ->
  conn_sends c1 (w1 ++ w2) (p1 ++ p2) (k1 + k2) c3.
Proof.
  intros (Hs1 & Hw1 & Hu1 & Hp1) (Hs2 & Hw2 & Hu2 & Hp2). split_and!.
  - by eapply sends_trans.
  - by rewrite Hw2, Hw1, app_assoc.
  - rewrite <- app_assoc, Hu2, app_assoc, Hu1, repeat_app, app_assoc. done.
  - lia.
Qed.

Lemma step_outcome_sends c step c' r :
  conn_inv c -> next_step (conn_outbound c) = Some step -> step_outcome (E := E) c step c' r ->
  live c' = true -> exists wire packets, conn_sends c wire packets 0 c'.
Proof.
  intros Hc Hs Ho. destruct r as [[more|e]|].
  - pose proof (step_outcome_ping c step c' more Hs Ho) as Hp.
    destruct Ho as (_ & n & i0 & i & rt & Hn & Hio & Hi & -> & _). intros _.
    set (p := step_packet (conn_outbound c) step) in *.
    exists (zslice (step_written step) (step_written step + n) p ++ []),
      ((if step_written step + n =? zlen p then [p] else []) ++ []).
    split_and!; [apply sends_write; [done|done|constructor]| | |lia].
    + apply write_sent in Hio. rewrite app_nil_r. unfold zslice.
      replace (step_written step + n - step_written step) with n by lia. rewrite <- Hio. simpl.
      destruct Hi as [->| ->]; [done|]. apply now_sent.
    + rewrite !app_nil_r.
      symmetry. by apply record_write_unsent; [apply live_inv_out, conn_inv_live|..].
  - destruct Ho as [->|[i ->]]; [intros _|done]. exists [], []. by apply conn_sends_quiet.
  - destruct Ho as (i & -> & Hio). intros _. exists [], []. apply conn_sends_quiet; [done| |done].
    by eapply write_dropped.
Qed.

Lemma service_step_sends c c' r :
  conn_inv c -> service_step (E := E) c c' r -> live c' = true ->
  exists wire packets pings, conn_sends c wire packets pings c'.
Proof.
  intros Hc Hs Hl. destruct Hs as [i0 i t H1 H2 H3 H4|i H1 H2|i e H1 H2|step c' r H1 H2 H3
                                |o1 step c' r H1 H2 H3 H4 H5 H6 H7|e H1 H2|H1 H2]; try done.
  - exists [], [], 0%nat. split_and!.
    + apply sends_flush; constructor.
    + rewrite app_nil_r. change (io_sent i = io_sent (io c)).
      pose proof (now_sent i0) as Hn. rewrite H4 in Hn.
      pose proof (flush_sent (io c)) as Hf. rewrite H3 in Hf. simpl in *. congruence.
    + rewrite app_nil_r. by rewrite <- (complete_flush_unsent (conn_outbound c)).
    + pose proof (ping_unwritten_flush (conn_outbound c)) as Hp. unfold ping_weight.
      change (conn_outbound (set_flush_state _ _)) with (complete_flush (conn_outbound c)).
      by rewrite Hp.
  - exists [], [], 0%nat. apply conn_sends_quiet; [done| |done].
    pose proof (flush_sent (io c)) as Hf. by rewrite H2 in Hf.
  - destruct (step_outcome_sends _ _ _ _ Hc H2 H3 Hl) as (w & p & Hw). by exists w, p, 0%nat.
  - pose proof (queue_control_conn_inv _ _ _ Hc H5) as Hc1.
    destruct (step_outcome_sends _ _ _ _ Hc1 H6 H7 Hl) as (w & p & Hw).
    exists ([] ++ w), ([] ++ p), (1 + 0)%nat. eapply conn_sends_trans; [|exact Hw].
    destruct (ping_queued _ _ H5) as [Hu _]. split_and!.
    + eapply sends_control; [done|constructor].
    + by rewrite app_nil_r.
    + apply (queue_control_unsent _ _ _ H5).
    + unfold ping_weight. change (conn_outbound (set_conn_outbound c o1)) with o1.
      change (conn_runtime (set_conn_outbound c o1)) with (conn_runtime c).
      rewrite Hu, H3, (not_pending_not_unwritten _ H4). lia.
  - exists [], [], 0%nat. by apply conn_sends_quiet.
  - exists [], [], 0%nat. by apply conn_sends_quiet.
Qed.
End Wire.

(** * Claims *)

(** C6: the send loop delivers the queue, packet by packet. For any transport,
    [flush_outbound] keeps the connection's invariant. As long as the connection lives,
    also when the future is dropped, the bytes it put on the wire continue the packet in
    progress, complete a list of packets one after the other and end with the part of
    the packet then in progress that is written; the packets completed and those still
    to be sent are exactly the ones that were waiting to be sent, each once, and at most
    one keepalive ping. When it succeeds, nothing is left to be sent or flushed, so that
    every packet that was waiting has been written completely and once. *)
Theorem flush_outbound_delivers {IO E} `{Recording IO E} {T : Time} `{!Clock IO T}
    `{!QuietClock IO E T} (c : Connection IO) :
  conn_inv c -> live c = true ->
  let '(c', r) := flush_outbound (E := E) c in
  conn_inv c' /\
  (live c' = true -> exists wire packets pings,
     io_sent (io c') = io_sent (io c) ++ wire /\
     partial (queue (conn_outbound c)) ++ wire =
       concat packets ++ partial (queue (conn_outbound c')) /\
     packets ++ unsent (queue (conn_outbound c')) ≡ₚ
       unsent (queue (conn_outbound c)) ++
       repeat (control_packet ControlAction.PingReq) pings /\
     (pings <= 1)%nat) /\
  match r with
  | Some (Ok _) => live c' = true /\ flush_state c' = Clean /\
      Forall (fun x => snd x = Sent) (queue (conn_outbound c')) /\
      pending_control (conn_outbound c') = [] /\
      unsent (queue (conn_outbound c')) = [] /\ partial (queue (conn_outbound c')) = []
  | Some (Err _) => True
  | None => live c' = true
  end.
Proof.
  intros Hc Hl.
  pose proof (flush_outbound_rule (E := E)
    (fun c' => exists wire packets pings, conn_sends c wire packets pings c') c) as Hr.
  destruct (flush_outbound c) as [c' r].
  destruct Hr as (Hc' & HJ & Hres); try done.
  - intros c1 (w & p & k & Hs). exists (w ++ []), (p ++ []), (k + 0)%nat.
    eapply conn_sends_trans; [done|]. apply conn_sends_quiet; [done|apply now_sent|done].
  - intros c1 c2 r1 Hc1 (w & p & k & Hs) Hst Hl2.
    destruct (service_step_sends _ _ _ Hc1 Hst Hl2) as (w2 & p2 & k2 & Hs2).
    exists (w ++ w2), (p ++ p2), (k + k2)%nat. by eapply conn_sends_trans.
  - exists [], [], 0%nat. by apply conn_sends_quiet.
  - split_and!; [done| |].
    + intros Hl'. destruct (HJ Hl') as (wire & packets & pings & Hs & Hw & Hu & Hp).
      exists wire, packets, pings. pose proof (ping_weight_bounds c). pose proof (ping_weight_bounds c').
      split_and!; [done| |done|lia]. by apply sends_framed; [apply live_inv_out, conn_inv_live|].
    + destruct r as [[u|e]|]; [|done|done]. destruct Hres as (Hl' & Hn & Hf).
      pose proof (all_sent _ Hc' Hn Hf) as Hall. destruct (all_sent_nothing _ Hall) as [Hu Hp].
      split_and!; [done|done|done|by apply controls_gone|done|done].
Qed.

(** A connection in the middle of its work: an acknowledgement is queued, publish
    7 is partly written, and the transport accepts three bytes at a time. *)
Definition demo_conn (incoming : list bytes) : Connection Scripted.IO :=
  mkConnection
    (mkSession [] (PacketReader_new (repeat 0 32))
       (mkSessionData 9 3
          (mkOutbound ([52; 3; 0; 1; 55; 52; 3; 0; 1; 56] ++ repeat 0 54) 20
             [mkPendingControl (ControlAction.PubAck 4 ReasonCode.Success) (Write 0)]
             [mkRetainedPacket OpKind.PublishExactlyOnce 7 5 (Write 2);
              mkRetainedPacket OpKind.PublishExactlyOnce 8 5 Sent] []) [] true)
       (set_next_ping (set_send_quota (RuntimeState_new (T := Scripted.time) 10000) 6) (Some 20))
       None None 0 false)
    (Scripted.mkIO incoming [3; 3; 3; 3; 3] [52; 3] 0 1) ConnectEvent.Connected true Dirty.

Lemma demo_conn_inv incoming : conn_inv (demo_conn incoming).
Proof.
  split_and!.
  - change (session_inv (conn_data (demo_conn []), conn_runtime (demo_conn []))). solve_session_inv.
  - apply reader_wf_new. by repeat constructor.
  - split; [by repeat constructor|done].
Qed.

Lemma flush_outbound_delivers_witness :
  conn_inv (fst (flush_outbound (E := unit) (demo_conn []))) /\
  snd (flush_outbound (E := unit) (demo_conn [])) = Some (Ok tt) /\
  io_sent (io (fst (flush_outbound (E := unit) (demo_conn [])))) =
    [52; 3; 0; 1; 55; 0x40; 3; 0; 4; 0].
Proof.
  pose proof (flush_outbound_delivers (E := unit) (demo_conn []) (demo_conn_inv []) eq_refl) as H.
  destruct (flush_outbound (E := unit) (demo_conn [])) as [c' r] eqn:Hf.
  split; [apply H|]. clear H. vm_compute in Hf. injection Hf as <- <-. by vm_compute.
Defined.

(** C21: driving a connection ends and leaves nothing undone. The drive loop ends
    after a number of turns bounded by the bytes still to be written. It keeps the
    invariant; if it reports an inbound publish, that publish is still in the
    receive buffer and decodes; if it reports no publish, everything queued is sent
    and flushed and no received packet waits; and a dropped future leaves the
    connection alive. *)
Theorem drive_ends {IO E} `{Transport IO E} {T : Time} `{!Clock IO T} (c : Connection IO) :
  conn_inv c -> live c = true ->
  snd (aloop (S (drive_measure (c, false))) (drive_turn (E := E)) (c, false)) <> None /\
  let '(c', r) := drive_packet (E := E) c in
  conn_inv c' /\
  match r with
  | Some (Ok (Progress.Inbound len)) => live c' = true /\
      exists msg, decode_inbound_publish (E := E) len c' = (c', Some (Ok msg))
  | Some (Ok _) => live c' = true /\ Forall (fun x => snd x = Sent) (queue (conn_outbound c')) /\
      flush_state c' = Clean /\ packet_available (conn_reader c') = false
  | Some (Err _) => True
  | None => live c' = true
  end.
Proof.
  intros Hc Hl. split.
  - apply (aloop_ends (fun s => conn_inv (fst s) /\ live (fst s) = true) drive_measure);
      [|done|lia].
    intros [c1 b1] s' [Hc1 Hl1] Hb. pose proof (drive_turn_spec (E := E) c1 b1 Hc1 Hl1) as Ht.
    by rewrite Hb in Ht.
  - destruct (drive_packet c) as [c' r] eqn:Hd.
    destruct (drive_packet_spec c c' r Hc Hd) as [(Hl' & _)|(_ & Hc' & Hr)]; [congruence|].
    split; [done|]. destruct r as [[[| |len]|e]|]; simpl in *; try done.
    + destruct Hr as (? & ? & ? & ?). split_and!; try done. by apply all_sent.
    + destruct Hr as (? & ? & ? & ?). split_and!; try done. by apply all_sent.
    + destruct Hr as [? Hdel]. split; [done|]. by apply deliverable_decodes.
Qed.

Lemma drive_ends_witness :
  let c := demo_conn [] in
  snd (aloop (S (drive_measure (c, false))) (drive_turn (E := unit)) (c, false)) <> None /\
  snd (drive_packet (E := unit) c) = Some (Ok Progress.Advanced).
Proof.
  intros c. split; [|by vm_compute].
  apply (drive_ends c (demo_conn_inv []) eq_refl).
Defined.

(** [e'] is the retained packet [e], to be sent again from its first byte: a publish with
    the DUP flag set in its header byte, any other packet unchanged. *)
Definition replays (e e' : Entry) : Prop :=
  entry_kind e' = entry_kind e /\ entry_id e' = entry_id e /\ entry_state e' = Write 0 /\
  match entry_bytes e with
  | [] => entry_bytes e' = []
  | b :: bs => entry_bytes e' = (if is_publish (entry_kind e) then Z.lor b 8 else b) :: bs
  end.

Lemma replay_entry_replays e : replays e (replay_entry e).
Proof.
  destruct e as [k id bs s]. unfold replays, replay_entry, mark_entry, mark_first. simpl.
  split_and!; try done. by destruct bs, (is_publish k).
Qed.

Lemma arm_replay_status d op :
  out_wf (outbound d) -> status (set_outbound d (arm_replay (outbound d))) op = status d op.
Proof.
  intros Hw. destruct (arm_replay_spec _ Hw) as (_ & _ & _ & Hr & _ & _ & Hids).
  assert (has_retained (arm_replay (outbound d)) (op_packet_id op) =
    has_retained (outbound d) (op_packet_id op)) as H1
    by (apply eq_true_iff_eq; by rewrite !has_retained_ids, Hids).
  assert (has_pending_release (arm_replay (outbound d)) (op_packet_id op) =
    has_pending_release (outbound d) (op_packet_id op)) as H2
    by (apply eq_true_iff_eq; by rewrite !has_pending_release_ids, Hr, map_map).
  unfold status. simpl. by rewrite H1, H2.
Qed.

(** C39: a broker that does not answer the keepalive ping is given up. When the
    ping's deadline has passed and no received packet waits, driving the connection
    reports [Disconnected] without touching the transport (only the clock was read) and
    leaves the connection dead: the receive buffer is empty, no ping is awaited or due,
    every retained packet, release and acknowledgement is kept in order and starts again
    from its first byte, publishes with the DUP flag, and no operation changes its
    status. *)
Theorem ping_timeout_disconnects {IO E} `{Transport IO E} {T : Time} `{!Clock IO T}
    (c : Connection IO) deadline i t :
  conn_inv c -> live c = true -> packet_available (conn_reader c) = false ->
  ping_timeout (conn_runtime c) = Some deadline -> now (io c) = (i, t) ->
  instant_leb deadline t = true ->
  exists c', drive_packet (E := E) c = (c', Some (Err Error.Disconnected)) /\
    live c' = false /\ io c' = i /\
    read_bytes (conn_reader c') = 0 /\ packet_available (conn_reader c') = false /\
    ping_timeout (conn_runtime c') = None /\ next_ping (conn_runtime c') = None /\
    Forall2 replays (view (conn_outbound c)) (view (conn_outbound c')) /\
    pending_control (conn_outbound c') =
      map (fun p => mkPendingControl (pc_action p) (Write 0)) (pending_control (conn_outbound c)) /\
    pending_release (conn_outbound c') =
      map (fun p => mkPendingRelease (pr_packet_id p) (pr_reason p) (Write 0))
        (pending_release (conn_outbound c)) /\
    forall op, status (conn_data c') op = status (conn_data c) op.
Proof.
  intros Hc Hl Ha Hp Hn Ht. exists (handle_disconnect (set_io c i)). split.
  { unfold drive_packet, abind at 1, require_live. rewrite Hl.
    unfold arun. cbn [aloop]. unfold drive_turn at 1. rewrite abind_aget. cbv beta. cbn [fst].
    rewrite Ha. cbn [andb]. unfold abind at 1, on_conn, instant_now. rewrite Hn.
    unfold abind at 1, service. rewrite abind_aget.
    change (ping_timeout (conn_runtime (set_io c i))) with (ping_timeout (conn_runtime c)).
    by rewrite Hp, Ht. }
  pose proof (proj1 (conn_inv_live c Hc)) as Hw.
  destruct (arm_replay_spec _ Hw) as (_ & Hv & Hctl & Hrel & _).
  change (conn_outbound (handle_disconnect (set_io c i))) with (arm_replay (conn_outbound c)).
  split_and!; try done.
  - rewrite Hv. apply Forall2_fmap_r, Forall_Forall2_diag, Forall_true. apply replay_entry_replays.
  - intros op. by apply (arm_replay_status (conn_data c)).
Qed.

Definition demo_unanswered : Connection Scripted.IO :=
  set_conn_runtime (demo_conn [])
    (set_ping_timeout (conn_runtime (demo_conn [])) (Some 0)).

Lemma demo_unanswered_inv : conn_inv demo_unanswered.
Proof.
  split_and!; [|apply (demo_conn_inv [])|apply (demo_conn_inv [])].
  split; [apply (demo_conn_inv [])|by vm_compute].
Qed.

Lemma ping_timeout_disconnects_witness :
  exists c', drive_packet (E := unit) demo_unanswered = (c', Some (Err Error.Disconnected)) /\
    live c' = false.
Proof.
  destruct (ping_timeout_disconnects (E := unit) demo_unanswered 0
    _ _ demo_unanswered_inv eq_refl eq_refl eq_refl
    (surjective_pairing (now (io demo_unanswered))) ltac:(by vm_compute))
    as (c' & H1 & H2 & _).
  by exists c'.
Defined.
