(* ===== verification/Operations.v ===== *)
(** The operations of a connection: properties of
    [src/minimq/src/mqtt_client/session/operations.rs], on the definitions of
    [Connection.v]. *)

From S2P Require Import Prelude Varint Types Io Wire Ser De Properties Packets Received.
From S2P Require Import PacketReader Outbound Config Session Connection Driver.

(** * Admitting packets *)

Lemma encoded_live o o1 r : live_inv o -> encoded_out o o1 r -> live_inv o1.
Proof.
  intros (_ & Hn & Hq) (Hw & (Hr & Hc & Hp & _) & Hv & _). split_and!; [done| |].
  - unfold live_ids. by rewrite Hr, Hp.
  - unfold queue. by rewrite Hv, Hc, Hp.
Qed.

Lemma encoded_flush_ok fs o o1 r : flush_ok fs o -> encoded_out o o1 r -> flush_ok fs o1.
Proof.
  intros Hf (_ & (Hr & Hc & Hp & _) & _). unfold flush_ok, no_flush in *. by rewrite Hr, Hc, Hp.
Qed.

(** A retained packet joins the queue at its end. *)
Lemma retained_live o o1 kind id p o2 :
  live_inv o -> encoded_out o o1 (Some p) -> p <> [] -> id ∉ live_ids o ->
  retain_packet o1 kind id (zlen p) = (o2, Ok tt) ->
  live_inv o2 /\ queue o2 = queue o ++ [(p, Write 0)] /\
  retained o2 = retained o ++ [mkRetainedPacket kind id (zlen p) (Write 0)] /\
  pending_release o2 = pending_release o.
Proof.
  intros (_ & Hn & Hq) He Hp Hid Hr.
  pose proof (retain_packet_spec o o1 kind id p He Hp) as Hs. rewrite Hr in Hs.
  destruct Hs as (Hw2 & Hv2 & Hc2 & Hp2 & _).
  assert (retained o2 = retained o ++ [mkRetainedPacket kind id (zlen p) (Write 0)]) as Hret.
  { unfold retain_packet in Hr. destruct (vec_push _ _ _) as [l|] eqn:Hv; [|done].
    injection Hr as <-. apply vec_push_some in Hv as [-> _]. simpl.
    by destruct He as (_ & (-> & _) & _). }
  assert (queue o2 = queue o ++ [(p, Write 0)]) as Hqueue
    by (unfold queue; rewrite Hv2, Hc2, Hp2, map_app, !app_assoc; done).
  split; [split_and!; [done| |]|by split_and!].
  - unfold live_ids in *. rewrite Hret, Hp2, map_app, <- app_assoc.
    apply (NoDup_Permutation_proper _ (id :: live_ids o)).
    { simpl. symmetry. apply Permutation_middle. }
    by apply NoDup_cons.
  - rewrite Hqueue. destruct Hq as [Hone Hok]. fold (in_progress (queue o)) in Hone. split.
    + fold (in_progress (queue o ++ [(p, Write 0)])). rewrite in_progress_app.
      assert (in_progress [(p, Write 0)] = 0%nat) as -> by done. lia.
    + apply Forall_app. split; [done|]. constructor; [|constructor]. unfold item_ok. simpl.
      destruct p; [done|]. rewrite zlen_cons. pose proof (zlen_nonneg p). lia.
Qed.

Lemma retained_flush_ok fs o1 kind id len :
  flush_ok fs o1 -> flush_ok fs (fst (retain_packet o1 kind id len)).
Proof.
  intros [Hc Hf]. unfold retain_packet. destruct (vec_push _ _ _) as [l|] eqn:Hv; [|done].
  apply vec_push_some in Hv as [-> _]. split; [done|]. intros Hfs.
  destruct (Hf Hfs) as (H1 & H2 & H3). split_and!; try done. simpl.
  apply Forall_app. split; [done|]. by repeat constructor.
Qed.

(** * The state after an operation *)

Section Ops.
Context {IO E : Type} `{Transport IO E} {T : Time} `{!Clock IO T}.

Implicit Type c : Connection IO.

(** Only the outbound state differs. *)
Lemma set_conn_outbound_inv c o :
  conn_inv c -> live_inv o -> flush_ok (flush_state c) o -> conn_inv (set_conn_outbound c o).
Proof. intros [[(_ & Hd) Hq] (Hr & _)] Hl Hf. by split_and!. Qed.

Lemma take_packet_id_spec c :
  conn_inv c ->
  exists d id, next_packet_id (conn_data c) = (d, id) /\ (id ∉ live_ids (conn_outbound c)) /\
    1 <= id < 2 ^ 16 /\ d = set_packet_id (conn_data c) (packet_id d) /\
    take_packet_id (E := E) c = (set_conn_state c d (conn_runtime c), Some (Ok id)) /\
    conn_inv (set_conn_state c d (conn_runtime c)).
Proof.
  intros Hc. pose proof Hc as [[(Hl & Hp & Hd) Hq] (Hr & Hf)]. unfold take_packet_id.
  pose proof (next_packet_id_spec (conn_data c) (proj1 Hl) Hp) as Hs.
  destruct (next_packet_id (conn_data c)) as [d id]. exists d, id.
  destruct Hs as (Hid & Hrange & Hp' & Hd'). split_and!; try done; try lia. rewrite Hd'. by split_and!.
Qed.

(** Encoding and retaining a packet. *)
Lemma enqueue_spec {P} `{PacketSpec P} kind id (packet : P) c c' r :
  conn_inv c -> packet_ok packet -> id ∉ live_ids (conn_outbound c) ->
  enqueue (E := E) kind id packet c = (c', r) ->
  conn_inv c' /\ live c' = live c /\
  match r with
  | Some (Ok _) => exists body, packet_enc packet = Ok body /\
      exists o, c' = set_conn_outbound c o /\
      queue o = queue (conn_outbound c) ++ [(packet_bytes (fixed_header packet) body, Write 0)] /\
      exists e, e ∈ retained o /\ rp_kind e = kind /\ rp_packet_id e = id
  | _ => True
  end.
Proof.
  intros Hc Hok Hid. pose proof (conn_inv_live c Hc) as Hl. pose proof Hc as (_ & _ & Hf).
  unfold enqueue, abind at 1, with_outbound.
  pose proof (encode_packet_spec (conn_outbound c) packet (proj1 Hl) Hok) as Hs.
  destruct (encode_packet (conn_outbound c) packet) as [o1 [len|e]]; simpl.
  2: { intros [= <- <-]. split; [|done].
       apply set_conn_outbound_inv; [done|by eapply encoded_live|by eapply encoded_flush_ok]. }
  destruct Hs as (body & Hb & -> & He). rewrite abind_aget. unfold abind at 1, alift.
  assert (conn_inv (set_conn_outbound c o1)) as Hc1
    by (apply set_conn_outbound_inv; [done|by eapply encoded_live|by eapply encoded_flush_ok]).
  set (p := packet_bytes (fixed_header packet) body) in *.
  destruct (require_packet_size _ _) as [[]|e]; [|intros [= <- <-]; done].
  change (conn_outbound (set_conn_outbound c o1)) with o1.
  pose proof (retained_flush_ok (flush_state c) o1 kind id (zlen p)
    (encoded_flush_ok _ _ _ _ Hf He)) as Hf2.
  destruct (retain_packet o1 kind id (zlen p)) as [o2 [[]|e]] eqn:Hr; simpl.
  - intros [= <- <-].
    destruct (retained_live _ _ kind id p o2 Hl He ltac:(done) Hid Hr) as (Hl2 & Hq & Hret & _).
    split; [by apply (set_conn_outbound_inv c)|]. split; [done|].
    exists body. split; [done|]. exists o2. split_and!; [done|done|].
    exists (mkRetainedPacket kind id (zlen p) (Write 0)). rewrite Hret. split; [|done].
    apply elem_of_app. right. by left.
  - intros [= <- <-]. unfold retain_packet in Hr. destruct (vec_push _ _ _); [done|].
    injection Hr as <- _. done.
Qed.

(** * Operations stay pending while they are sent *)

Lemma complete_flush_op op d :
  op_live op d -> op_live op (set_outbound d (complete_flush (outbound d))).
Proof.
  intros [Hg Hl]. split; [done|]. destruct Hl as [(e & He & Hk & Hi)|[Hk Hr]].
  - left. exists (set_rp_state e (flushed (rp_state e))). split; [|done]. simpl.
    apply list_elem_of_fmap. by exists e.
  - right. split; [done|]. simpl. rewrite map_map. exact Hr.
Qed.

Lemma record_write_op op d s w :
  op_live op d -> op_live op (set_outbound d (record_write (outbound d) s w)).
Proof.
  destruct (record_write_frame (outbound d) s w) as (H1 & _ & H2 & H3 & _).
  intros [Hg Hl]. split; [done|]. destruct Hl as [(e & He & Hk & Hi)|[Hk Hr]].
  - left. apply list_elem_of_lookup in He as [i He].
    apply (f_equal (fun l => l !! i)) in H1. apply (f_equal (fun l => l !! i)) in H2.
    rewrite !map_lookup, He in H1. rewrite !map_lookup, He in H2. simpl in *.
    destruct (retained (record_write (outbound d) s w) !! i) as [e'|] eqn:He'; [|done].
    simpl in *. injection H1 as H1. injection H2 as H2. exists e'. split_and!; [|congruence|congruence].
    apply list_elem_of_lookup. by exists i.
  - right. split; [done|]. simpl. by rewrite H3.
Qed.

Lemma service_step_op op c c' r :
  service_step (E := E) c c' r -> live c' = true -> op_live op (conn_data c) ->
  op_live op (conn_data c') /\ send_quota (conn_runtime c') = send_quota (conn_runtime c).
Proof.
  assert (forall c step c' r, step_outcome (E := E) c step c' r -> live c' = true ->
    op_live op (conn_data c) ->
    op_live op (conn_data c') /\ send_quota (conn_runtime c') = send_quota (conn_runtime c)) as Hstep.
  { intros c1 step c2 [[more|e]|] Hs Hl Hop; simpl in Hs.
    - destruct Hs as (_ & n & i0 & i & rt & _ & _ & _ & -> & Hrt).
      split; [by apply (record_write_op op (conn_data c1))|].
      by destruct Hrt as [[-> _]|[t ->]].
    - by destruct Hs as [->|[i ->]].
    - by destruct Hs as (i & -> & _). }
  intros Hs Hl Hop. destruct Hs as [i0 i t H1 H2 H3 H4|i H1 H2|i e H1 H2|step c' r H1 H2 H3
                                |o1 step c' r H1 H2 H3 H4 H5 H6 H7|e H1 H2|H1 H2]; try done.
  - split; [|done]. by apply (complete_flush_op op (conn_data c)).
  - by eapply Hstep.
  - eapply (Hstep (set_conn_outbound c o1)); [done|done|].
    pose proof (queue_control_keeps_op op ControlAction.PingReq _ Hop) as Hq.
    change (outbound (conn_data c)) with (conn_outbound c) in Hq. by rewrite H5 in Hq.
Qed.

(** The send loop keeps an operation pending. *)
Lemma flush_outbound_op op c :
  conn_inv c -> live c = true -> op_live op (conn_data c) ->
  let '(c', r) := flush_outbound (E := E) c in
  match r with
  | Some (Ok _) => op_live op (conn_data c') /\
      send_quota (conn_runtime c') = send_quota (conn_runtime c) /\
      live c' = true /\ next_step (conn_outbound c') = None /\ flush_state c' = Clean
  | _ => True
  end.
Proof.
  intros Hc Hl Hop.
  pose proof (flush_outbound_rule (E := E) (fun c1 => op_live op (conn_data c1) /\
    send_quota (conn_runtime c1) = send_quota (conn_runtime c)) c) as Hr.
  destruct (flush_outbound c) as [c' r]. destruct Hr as (_ & HJ & Hres); try done.
  - intros c1 c2 r1 Hc1 [Ho1 Hq1] Hs Hl2. rewrite <- Hq1. by eapply service_step_op.
  - destruct r as [[u|e]|]; [|done|done]. destruct Hres as (Hl' & Hn & Hf).
    destruct (HJ Hl'). done.
Qed.

(** The operation is in flight, and everything was sent and flushed. *)
Definition issued (op : Op) (c : Connection IO) : Prop :=
  op_live op (conn_data c) /\ live c = true /\ next_step (conn_outbound c) = None /\
  flush_state c = Clean.

Lemma flush_outbound_result c :
  conn_inv c -> live c = true ->
  let '(c', r) := flush_outbound (E := E) c in
  conn_inv c' /\ match r with Some (Ok _) => live c' = true | _ => True end.
Proof.
  intros Hc Hl. pose proof (flush_outbound_rule (E := E) (fun _ => True) c) as Hr.
  destruct (flush_outbound c) as [c' r]. destruct Hr as (Hc' & _ & Hres); try done.
  split; [done|]. destruct r as [[[]|]|]; [apply Hres|done|done].
Qed.

(** Sending a packet that was just retained. *)
Lemma send_retained c op :
  conn_inv c -> live c = true -> op_live op (conn_data c) ->
  let '(c', r) := (do* flush_outbound (E := E) in
                   let* d := aget conn_data in
                   aret (mkOp (op_kind op) (op_packet_id op) (generation d))) c in
  conn_inv c' /\
  match r with
  | Some (Ok op') => op' = op /\ issued op c' /\
      send_quota (conn_runtime c') = send_quota (conn_runtime c)
  | _ => True
  end.
Proof.
  intros Hc Hl Hop. pose proof (flush_outbound_op op c Hc Hl Hop) as Ho.
  pose proof (flush_outbound_result c Hc Hl) as Hr. unfold abind at 1.
  destruct (flush_outbound c) as [c' [[[]|e]|]]; destruct Hr as [Hc' _]; simpl; try done.
  destruct Ho as (Ho & Hq & Hl' & Hn & Hf). split; [done|]. split; [|done].
  destruct Ho as [Hg _]. destruct op. simpl in *. by rewrite Hg.
Qed.

Lemma issue_spec {P} `{PacketSpec P} kind (packet : Z -> P) c c' r :
  conn_inv c -> live c = true -> (forall id, packet_ok (packet id)) ->
  (let* id := take_packet_id (E := E) in
   do* enqueue kind id (packet id) in
   do* flush_outbound in
   let* d := aget conn_data in
   aret (mkOp kind id (generation d))) c = (c', r) ->
  conn_inv c' /\
  match r with Some (Ok op) => op_kind op = kind /\ issued op c' | _ => True end.
Proof.
  intros Hc Hl Hok. destruct (take_packet_id_spec c Hc) as (d & id & _ & Hid & _ & Hd & Ht & Hc1).
  unfold abind at 1. rewrite Ht. set (c1 := set_conn_state c d (conn_runtime c)) in *.
  assert (id ∉ live_ids (conn_outbound c1)) as Hid1
    by (change (conn_outbound c1) with (outbound d); by rewrite Hd).
  unfold abind at 1. destruct (enqueue kind id (packet id) c1) as [c2 r2] eqn:He.
  destruct (enqueue_spec kind id (packet id) c1 c2 r2 Hc1 (Hok id) Hid1 He) as (Hc2 & Hl2 & Hr2).
  destruct r2 as [[[]|e]|]; [|by intros [= <- <-]|by intros [= <- <-]].
  destruct Hr2 as (body & _ & o & -> & _ & e & Hein & Hk & Hi).
  set (op := mkOp kind id (generation (conn_data c1))).
  pose proof (send_retained (set_conn_outbound c1 o) op Hc2 Hl) as Hs.
  assert (op_live op (conn_data (set_conn_outbound c1 o))) as Hop
    by (split; [done|]; left; by exists e).
  specialize (Hs Hop). simpl in Hs. intros Heq. rewrite Heq in Hs. destruct Hs as [Hc' Hr].
  split; [done|]. destruct r as [[op'|]|]; [|done|done]. by destruct Hr as (-> & Hi' & _).
Qed.

Lemma subscribe_spec topics properties c c' r :
  conn_inv c -> properties_ok (Slice properties) ->
  subscribe (E := E) topics properties c = (c', r) ->
  conn_inv c' /\
  match r with Some (Ok op) => op_kind op = OpKind.Subscribe /\ issued op c' | _ => True end.
Proof.
  intros Hc Hok. unfold subscribe, abind at 1, require_live.
  destruct (live c) eqn:Hl; [|by intros [= <- <-]].
  destruct (is_empty topics); [by intros [= <- <-]|].
  destruct (negb _); [by intros [= <- <-]|].
  pose proof (flush_outbound_result c Hc Hl) as Hf. unfold abind at 1.
  destruct (flush_outbound c) as [c1 [[[]|e]|]]; destruct Hf as [Hc1 Hl1];
    [|by intros [= <- <-]|by intros [= <- <-]].
  rewrite abind_aget. unfold abind at 1, alift.
  destruct (require_retained_slot _) as [[]|e]; [|by intros [= <- <-]].
  apply (issue_spec OpKind.Subscribe (fun id => mkSubscribe id (Slice properties) topics)); done.
Qed.

Lemma unsubscribe_spec topics properties c c' r :
  conn_inv c -> properties_ok (Slice properties) ->
  unsubscribe (E := E) topics properties c = (c', r) ->
  conn_inv c' /\
  match r with Some (Ok op) => op_kind op = OpKind.Unsubscribe /\ issued op c' | _ => True end.
Proof.
  intros Hc Hok. unfold unsubscribe, abind at 1, require_live.
  destruct (live c) eqn:Hl; [|by intros [= <- <-]].
  destruct (is_empty topics); [by intros [= <- <-]|].
  destruct (negb _); [by intros [= <- <-]|].
  pose proof (flush_outbound_result c Hc Hl) as Hf. unfold abind at 1.
  destruct (flush_outbound c) as [c1 [[[]|e]|]]; destruct Hf as [Hc1 Hl1];
    [|by intros [= <- <-]|by intros [= <- <-]].
  rewrite abind_aget. unfold abind at 1, alift.
  destruct (require_retained_slot _) as [[]|e]; [|by intros [= <- <-]].
  apply (issue_spec OpKind.Unsubscribe (fun id => mkUnsubscribe id (Slice properties) topics)); done.
Qed.

Lemma keeps_disconnect_with d c :
  conn_inv c -> conn_inv (fst (disconnect_with (E := E) d c)).
Proof.
  intros Hc. unfold disconnect_with. destruct (live c) eqn:Hl; simpl; [|done].
  destruct (match disconnect_properties d with Some _ => _ | None => false end); [done|].
  unfold abind at 1, alift. destruct (snd (encode _ d)) as [p|e]; simpl; [|done].
  unfold abind at 1. destruct (require_packet_size _ _) as [[]|e]; simpl; [|done].
  pose proof (flush_outbound_result c Hc Hl) as Hf. unfold abind at 1.
  destruct (flush_outbound c) as [c1 [[[]|e]|]]; destruct Hf as [Hc1 _]; simpl; [|done|done].
  unfold on_io. destruct (abind _ _ (io c1)) as [i [res|]]; simpl; [|done].
  by apply handle_disconnect_inv.
Qed.
End Ops.

(** * Publishing *)

Lemma scratch_encoded o s :
  out_wf o -> zlen s = zlen (scratch_space o) -> encoded_out o (set_scratch_space o s) None.
Proof.
  intros Hw Hs. destruct (out_wf_bounds o Hw) as (H0 & H1 & _).
  assert (set_scratch_space o s = set_slice o (retained_bytes o) (zlen (out_buf o)) s) as ->
    by (unfold set_scratch_space, set_slice; by rewrite zdrop_full, app_nil_r by lia).
  unfold scratch_space in Hs. rewrite zlen_zdrop in Hs by lia.
  destruct (set_slice_spec o (retained_bytes o) (zlen (out_buf o)) s Hw) as (Hst & Hv & _);
    [lia|lia|done|]. unfold encoded_out. split_and!; try done. by apply (same_tables_wf o).
Qed.

Section Publishing.
Context {IO E : Type} `{Transport IO E} {T : Time} `{!Clock IO T} {P : Type}.

Implicit Type c : Connection IO.

Lemma pub_state {A} (m : C IO E A) c c' r :
  pub (P := P) m c = (c', r) ->
  exists r0, m c = (c', r0) /\ r = option_map (map_err PubError.Session) r0.
Proof. unfold pub. destruct (m c) as [c1 r1]. intros [= <- <-]. by exists r1. Qed.

Lemma pub_flush_result c c' r :
  conn_inv c -> live c = true -> pub (P := P) (flush_outbound (E := E)) c = (c', r) ->
  conn_inv c' /\ match r with Some (Ok _) => live c' = true | _ => True end.
Proof.
  intros Hc Hl (r0 & Hf & ->)%pub_state. pose proof (flush_outbound_result (E := E) c Hc Hl) as Hr.
  rewrite Hf in Hr. destruct Hr as [Hc' Hr]. split; [done|]. by destruct r0 as [[]|].
Qed.

Lemma pub_amodify {A} f (k : unit -> Pub (P := P) A) c :
  abind (pub (P := P) (E := E) (amodify f)) k c = k tt (f c).
Proof. done. Qed.

(** Flushing and reporting an error. *)
Lemma flush_then_raise {A} (Q : option (result (PubError P E) A) -> Prop) e c c' r :
  conn_inv c -> live c = true -> (forall e, Q (Some (Err e))) -> Q None ->
  (do* pub flush_outbound in araise e) c = (c', r) -> conn_inv c' /\ Q r.
Proof.
  intros Hc Hl He Hn. unfold abind. destruct (pub flush_outbound c) as [c1 r1] eqn:Hf.
  destruct (pub_flush_result c c1 r1 Hc Hl Hf) as [Hc1 _].
  destruct r1 as [[]|]; intros [= <- <-]; auto.
Qed.

Ltac flush_raises :=
  let Heq := fresh in
  intros Heq;
  match type of Heq with
  | _ = (_, ?r) =>
      match goal with
      | |- conn_inv _ /\ ?G =>
          match eval pattern r in G with
          | ?Q _ => refine (flush_then_raise Q _ _ _ _ _ _ _ _ Heq); done
          end
      end
  end.

Lemma quota_spent rt :
  quota_inv rt -> quota_inv (set_send_quota rt (u16_saturating_sub (send_quota rt) 1)).
Proof. unfold quota_inv, u16_saturating_sub. simpl. lia. Qed.

Definition publish_kind (qos : QoS) : OpKind :=
  if bool_decide (qos = QoS.ExactlyOnce) then OpKind.PublishExactlyOnce
  else OpKind.PublishAtLeastOnce.

(** The end of a retained publish: flush, then hand out the operation. *)
Lemma retained_handed_out c op c' r :
  conn_inv c -> live c = true -> op_live op (conn_data c) ->
  (do* pub (P := P) (E := E) flush_outbound in
   let* d := aget conn_data in
   aret (Some (mkOp (op_kind op) (op_packet_id op) (generation d)))) c = (c', r) ->
  conn_inv c' /\
  match r with
  | Some (Ok res) => res = Some op /\ issued op c' /\
      send_quota (conn_runtime c') = send_quota (conn_runtime c)
  | _ => True
  end.
Proof.
  intros Hc Hl Hop. pose proof (send_retained (E := E) c op Hc Hl Hop) as Hsr. unfold abind at 1 in Hsr.
  unfold abind at 1, pub. destruct (flush_outbound c) as [c3 [[[]|e]|]]; simpl in *;
    intros [= <- <-]; [|by destruct Hsr..].
  destruct Hsr as (Hc3 & Heq & Hi & Hq). split; [done|]. split; [by f_equal|done].
Qed.

Lemma publish_retained_spec header qos (payload : ToPayload P) id c c' r :
  conn_inv c -> live c = true -> properties_ok (ph_properties header) ->
  id ∉ live_ids (conn_outbound c) ->
  publish_retained (E := E) header qos payload id c = (c', r) ->
  conn_inv c' /\
  match r with
  | Some (Ok res) => exists op, res = Some op /\ op_kind op = publish_kind qos /\ issued op c' /\
      send_quota (conn_runtime c') = u16_saturating_sub (send_quota (conn_runtime c)) 1
  | _ => True
  end.
Proof.
  intros Hc Hl Hok Hid. pose proof (conn_inv_live c Hc) as Hlv. pose proof Hc as (_ & _ & Hf).
  unfold publish_retained, abind at 1.
  pose proof (encode_publish_out_spec (E := E) (conn_outbound c) header payload (proj1 Hlv) Hok) as Hs.
  destruct (encode_publish_out (conn_outbound c) header payload) as [o1 r1].
  assert (exists x, encoded_out (conn_outbound c) o1 x) as [x Hx].
  { destruct r1 as [len|e]; [|by exists None]. destruct Hs as (hb & sl & n & _ & _ & _ & He).
    by eexists. }
  assert (conn_inv (set_conn_outbound c o1)) as Hc1
    by (apply set_conn_outbound_inv; [done|by eapply encoded_live|by eapply encoded_flush_ok]).
  destruct r1 as [len|e].
  2: { flush_raises. }
  destruct Hs as (hb & sl & n & _ & _ & -> & He).
  set (p := packet_bytes _ _) in *. destruct (require_packet_size _ _) as [[]|e].
  2: { flush_raises. }
  cbn iota. unfold abind at 1, pub at 1, with_outbound. fold (publish_kind qos).
  change (conn_outbound (set_conn_outbound c o1)) with o1.
  pose proof (retained_flush_ok (flush_state c) o1 (publish_kind qos) id (zlen p)
    (encoded_flush_ok _ _ _ _ Hf He)) as Hf2.
  destruct (retain_packet o1 (publish_kind qos) id (zlen p)) as [o2 [[]|e]] eqn:Hr;
    cbn [option_map map_err].
  2: { intros [= <- <-]. split; [|done]. unfold retain_packet in Hr.
       destruct (vec_push _ _ _); [done|]. injection Hr as <- _. done. }
  destruct (retained_live _ _ _ _ p o2 Hlv He ltac:(done) Hid Hr) as (Hl2 & _ & Hret & _).
  set (c2 := set_conn_runtime (set_conn_outbound c o2)
    (set_send_quota (conn_runtime c) (u16_saturating_sub (send_quota (conn_runtime c)) 1))).
  assert (conn_inv c2) as Hc2.
  { pose proof (set_conn_outbound_inv c o2 Hc Hl2 Hf2) as [[Hd Hq] Hrest].
    split; [split; [exact Hd|]|exact Hrest]. by apply quota_spent. }
  set (op := mkOp (publish_kind qos) id (generation (conn_data c2))).
  assert (op_live op (conn_data c2)) as Hop.
  { split; [done|]. left. exists (mkRetainedPacket (publish_kind qos) id (zlen p) (Write 0)).
    split; [|done]. change (outbound (conn_data c2)) with o2. rewrite Hret.
    apply elem_of_app. right. by left. }
  rewrite pub_amodify.
  match goal with |- abind _ _ ?x = _ -> _ => change x with c2 end.
  intros Hout. apply (retained_handed_out c2 op) in Hout as [Hc3 Hres]; [|done..].
  split; [done|]. destruct r as [[res|e]|]; [|done..]. exists op. by destruct Hres as (-> & ? & ?).
Qed.

Lemma encode_publish_slice (o : Outbound) header (payload : ToPayload P) :
  properties_ok (ph_properties header) ->
  zlen (fst (encode_publish (scratch_space o) (serialize header)
               (publish_header_fixed_header header) payload)) = zlen (scratch_space o).
Proof.
  intros Hok. unfold encode_publish.
  pose proof (encode_publish_len (scratch_space o) _ _ (publish_header_fixed_header header) payload
    (implements_publish_header header Hok)) as Hl.
  by destruct (encode_publish_with_offset _ _ _ payload) as [b [[off p]|e]].
Qed.

(** A step on the transport that ends the connection when it fails. *)
Lemma pub_io_step {A B} (m : Async IO (Error E) A) (k : A -> Pub (P := P) B) c c' r
    (Q : Connection IO -> option (result (PubError P E) B) -> Prop) :
  conn_inv c -> live c = true ->
  (forall a i, conn_inv (set_io c i) -> k a (set_io c i) = (c', r) -> conn_inv c' /\ Q c' r) ->
  (forall c e, Q c (Some (Err e))) -> (forall c, Q c None) ->
  abind (pub (or_disconnect (on_io m))) k c = (c', r) -> conn_inv c' /\ Q c' r.
Proof.
  intros Hc Hl Hk He Hn. unfold abind, pub, or_disconnect, on_io.
  destruct (m (io c)) as [i [[a|e]|]]; simpl.
  - intros Heq. by eapply Hk.
  - intros [= <- <-]. split; [by apply handle_disconnect_inv|apply He].
  - intros [= <- <-]. split; [done|apply Hn].
Qed.

Lemma publish_direct_spec header (payload : ToPayload P) c c' r :
  conn_inv c -> live c = true -> properties_ok (ph_properties header) ->
  publish_direct (E := E) header payload c = (c', r) ->
  conn_inv c' /\
  match r with Some (Ok res) => res = None /\ live c' = true | _ => True end.
Proof.
  intros Hc Hl Hok. unfold publish_direct, abind at 1.
  destruct (pub flush_outbound c) as [c1 r1] eqn:Hf.
  destruct (pub_flush_result c c1 r1 Hc Hl Hf) as [Hc1 Hl1].
  destruct r1 as [[[]|e]|]; [|by intros [= <- <-]|by intros [= <- <-]].
  unfold abind at 1. pose proof (encode_publish_slice (conn_outbound c1) header payload Hok) as Hlen.
  destruct (encode_publish _ _ _ payload) as [slice res]. simpl in Hlen.
  set (c2 := set_conn_outbound c1 (set_scratch_space (conn_outbound c1) slice)).
  assert (conn_inv c2) as Hc2.
  { pose proof (scratch_encoded _ slice (proj1 (conn_inv_live c1 Hc1)) Hlen) as He.
    apply set_conn_outbound_inv; [done|exact (encoded_live _ _ _ (conn_inv_live c1 Hc1) He)|].
    eapply encoded_flush_ok; [apply Hc1|done]. }
  destruct res as [p|e]; simpl; [|by intros [= <- <-]].
  rewrite abind_aget. unfold abind at 1, pub at 1, alift.
  destruct (require_packet_size _ _) as [[]|e]; simpl; [|by intros [= <- <-]].
  unfold abind at 1, pub at 1, require_live. change (live c2) with (live c1). rewrite Hl1. simpl.
  apply (pub_io_step _ _ c2 c' r (fun c' r =>
    match r with Some (Ok res) => res = None /\ live c' = true | _ => True end)); try done.
  intros [] i Hc3.
  apply (pub_io_step _ _ (set_io c2 i) c' r (fun c' r =>
    match r with Some (Ok res) => res = None /\ live c' = true | _ => True end)); try done.
  intros [] i2 Hc4. unfold abind at 1, pub at 1, instant_now.
  destruct (now _) as [i3 t]. cbn [option_map map_err]. rewrite pub_amodify.
  intros [= <- <-]. split; [|done]. done.
Qed.

(** ** The whole operation *)

Lemma publish_spec (publication : Publication (ToPayload P)) c c' r :
  conn_inv c -> properties_ok (pub_properties publication) ->
  publish (E := E) publication c = (c', r) ->
  conn_inv c' /\
  match r with
  | Some (Ok (Some op)) => exists qos, effective_qos (E := E) c (pub_qos publication) = Ok qos /\
      qos <> QoS.AtMostOnce /\ op_kind op = publish_kind qos /\ issued op c' /\
      send_quota (conn_runtime c) <> 0 /\
      send_quota (conn_runtime c') = send_quota (conn_runtime c) - 1
  | Some (Ok None) =>
      effective_qos (E := E) c (pub_qos publication) = Ok QoS.AtMostOnce /\ live c' = true
  | _ => True
  end.
Proof.
  intros Hc Hok. unfold publish, abind at 1, pub at 1, require_live.
  destruct (live c) eqn:Hl; simpl; [|by intros [= <- <-]].
  destruct (negb (valid_for _ _)); [by intros [= <- <-]|]. rewrite abind_aget.
  unfold abind at 1, pub at 1, alift. unfold id at 1.
  destruct (effective_qos c (pub_qos publication)) as [qos|e]; cbn [option_map map_err];
    [|by intros [= <- <-]].
  destruct (qos_gt qos QoS.AtMostOnce) eqn:Hgt.
  - destruct (take_packet_id_spec (E := E) c Hc) as (d & id & _ & Hid & _ & Hd & Ht & Hc1).
    unfold abind at 1, abind at 1, pub at 1. rewrite Ht. cbn [option_map map_err].
    set (c1 := set_conn_state c d (conn_runtime c)) in *. unfold aret at 1. rewrite abind_aget.
    unfold Datatypes.id at 1. destruct (require_retained_slot c1) as [[]|e].
    2: { flush_raises. }
    rewrite abind_aget. unfold Datatypes.id at 1. destruct (can_publish c1 qos) eqn:Hcan.
    2: { flush_raises. }
    simpl negb. cbn iota. intros Hp. apply publish_retained_spec in Hp as [Hc' Hr]; [|done|done|done|].
    2: { change (conn_outbound c1) with (outbound d). by rewrite Hd. }
    split; [done|]. destruct r as [[res|e]|]; [|done|done].
    destruct Hr as (op & -> & Hk & Hi & Hq). exists qos.
    assert (qos <> QoS.AtMostOnce) as Hne by (intros ->; done).
    unfold can_publish, session_can_publish in Hcan. apply andb_prop in Hcan as [_ Hcan].
    rewrite bool_decide_false in Hcan by done. apply andb_prop in Hcan as [Hcan _].
    change (sruntime (session c1)) with (conn_runtime c) in Hcan.
    change (conn_runtime c1) with (conn_runtime c) in Hq.
    destruct Hc as [[_ [Hq0 _]] _]. simpl in Hq0. split_and!; try done; [lia|].
    rewrite Hq. unfold u16_saturating_sub. lia.
  - unfold abind at 1, aret at 1. rewrite abind_aget. cbn iota.
    assert (qos = QoS.AtMostOnce) as -> by (by destruct qos).
    rewrite abind_aget. unfold Datatypes.id at 1. destruct (can_publish c QoS.AtMostOnce) eqn:Hcan.
    2: { flush_raises. }
    simpl negb. cbn iota. intros Hp. apply publish_direct_spec in Hp as [Hc' Hr]; [|done|done|done].
    split; [done|]. destruct r as [[res|e]|]; [|done|done]. by destruct Hr as [-> Hr].
Qed.
End Publishing.

(** * Sequences of calls *)

Section Calls.
Context {IO E : Type} `{Transport IO E} {T : Time} `{!Clock IO T} {P : Type}.

(** The calls an application can make on a connection; each may succeed, fail or
    be cancelled, as the transport has it. *)
Inductive Call : Type :=
| CallDrive
| CallPoll (turns : nat)
| CallRecv (turns : nat)
| CallSubscribe (topics : list TopicFilter) (properties : list Property)
| CallUnsubscribe (topics : list bytes) (properties : list Property)
| CallPublish (publication : Publication (ToPayload P))
| CallDisconnect (d : Disconnect)
| CallHandleDisconnect.

Definition run_call (c : Connection IO) (call : Call) : Connection IO :=
  match call with
  | CallDrive => fst (drive (E := E) c)
  | CallPoll turns => fst (poll (E := E) turns c)
  | CallRecv turns => fst (recv (E := E) turns c)
  | CallSubscribe topics properties => fst (subscribe (E := E) topics properties c)
  | CallUnsubscribe topics properties => fst (unsubscribe (E := E) topics properties c)
  | CallPublish publication => fst (publish (E := E) publication c)
  | CallDisconnect d => fst (disconnect_with (E := E) d c)
  | CallHandleDisconnect => handle_disconnect c
  end.

(** The properties passed are values of their Rust types. *)
Definition call_ok (call : Call) : Prop :=
  match call with
  | CallSubscribe _ properties | CallUnsubscribe _ properties => properties_ok (Slice properties)
  | CallPublish publication => properties_ok (pub_properties publication)
  | _ => True
  end.

Lemma run_call_inv c call : conn_inv c -> call_ok call -> conn_inv (run_call c call).
Proof.
  intros Hc Hok. destruct call as [|n|n|topics ps|topics ps|publication|d|]; simpl in *.
  - by apply keeps_drive.
  - by apply keeps_poll.
  - by apply keeps_recv.
  - destruct (subscribe topics ps c) as [c' r] eqn:Hs. by eapply subscribe_spec.
  - destruct (unsubscribe topics ps c) as [c' r] eqn:Hs. by eapply unsubscribe_spec.
  - destruct (publish publication c) as [c' r] eqn:Hs. by eapply publish_spec.
  - by apply keeps_disconnect_with.
  - by apply handle_disconnect_inv.
Qed.
End Calls.
Arguments Call P : clear implicits.

(** * Claims *)

(** C12: no sequence of calls breaks a connection. For every transport and clock,
    after any sequence of drive, poll, recv, subscribe, unsubscribe, publish and
    disconnect calls, each successful, failed or cancelled at any of its awaits,
    the invariant holds: the retained packets lie inside the budget of the arena,
    live packet identifiers are unique, at most one packet is partly written, the
    send quota is within its maximum, the receive buffer is consistent, and a
    packet waiting for a flush is never forgotten by the flush state. *)
Theorem calls_keep_invariant {IO E} `{Transport IO E} {T : Time} `{!Clock IO T} {P}
    (calls : list (Call P)) (c : Connection IO) :
  conn_inv c -> Forall call_ok calls -> conn_inv (foldl (run_call (E := E)) c calls).
Proof.
  intros Hc Hok. revert c Hc. induction Hok as [|call calls Hcall _ IH]; intros c Hc; simpl; [done|].
  by apply IH, run_call_inv.
Qed.

Definition demo_publication (qos : QoS) : Publication (ToPayload unit) :=
  Publication_qos (Publication_new [116] (bytes_payload [1; 2])) qos.

Lemma calls_keep_invariant_witness :
  conn_inv (foldl (run_call (E := unit)) (demo_conn [[0x40; 2; 0; 8]])
    [CallPublish (demo_publication QoS.AtLeastOnce); CallPoll 3;
     CallSubscribe [TopicFilter_new [97]] []; CallDisconnect Disconnect_success]).
Proof.
  apply (calls_keep_invariant (E := unit) _ _ (demo_conn_inv _)).
  repeat constructor.
Defined.

(** C13: what a successful publish means. At QoS 1 and 2 the returned operation is
    pending, of the kind of the effective QoS, everything queued was transmitted
    and flushed, the send quota was not exhausted and is one less. Only a publish
    at effective QoS 0 returns no operation. The invariant holds in every case. *)
Theorem publish_issues_operation {IO E} `{Transport IO E} {T : Time} `{!Clock IO T} {P}
    (publication : Publication (ToPayload P)) (c : Connection IO) :
  conn_inv c -> properties_ok (pub_properties publication) ->
  let '(c', r) := publish (E := E) publication c in
  conn_inv c' /\
  match r with
  | Some (Ok (Some op)) => exists qos, effective_qos (E := E) c (pub_qos publication) = Ok qos /\
      qos <> QoS.AtMostOnce /\ op_kind op = publish_kind qos /\
      status (conn_data c') op = Pending /\ live c' = true /\
      Forall (fun x => snd x = Sent) (queue (conn_outbound c')) /\
      send_quota (conn_runtime c) <> 0 /\
      send_quota (conn_runtime c') = send_quota (conn_runtime c) - 1
  | Some (Ok None) =>
      effective_qos (E := E) c (pub_qos publication) = Ok QoS.AtMostOnce /\ live c' = true
  | _ => True
  end.
Proof.
  intros Hc Hok. destruct (publish publication c) as [c' r] eqn:Hp.
  destruct (publish_spec publication c c' r Hc Hok Hp) as [Hc' Hr]. split; [done|].
  destruct r as [[[op|]|e]|]; [|done|done|done].
  destruct Hr as (qos & Hq & Hne & Hk & (Hop & Hl & Hn & Hf) & Hs1 & Hs2). exists qos.
  split_and!; try done; [by apply op_live_pending|by apply all_sent].
Qed.

Lemma publish_issues_operation_witness :
  snd (publish (E := unit) (demo_publication QoS.ExactlyOnce) (demo_conn [])) =
    Some (Ok (Some (mkOp OpKind.PublishExactlyOnce 9 3))) /\
  conn_inv (fst (publish (E := unit) (demo_publication QoS.ExactlyOnce) (demo_conn []))).
Proof.
  split; [by vm_compute|].
  pose proof (publish_issues_operation (E := unit) (demo_publication QoS.ExactlyOnce) (demo_conn [])
    (demo_conn_inv []) (List.Forall_nil _)) as H.
  destruct (publish (demo_publication QoS.ExactlyOnce) (demo_conn [])) as [c' r]. apply H.
Defined.

(** A subscription is pending until its acknowledgement. When [subscribe] or
    [unsubscribe] returns an operation, it is of that kind and pending, and
    everything queued was transmitted and flushed. *)
Theorem subscribe_issues_operation {IO E} `{Transport IO E} {T : Time} `{!Clock IO T}
    topics filters properties (c : Connection IO) :
  conn_inv c -> properties_ok (Slice properties) ->
  (forall c' op, subscribe (E := E) topics properties c = (c', Some (Ok op)) ->
     op_kind op = OpKind.Subscribe /\ status (conn_data c') op = Pending /\
     Forall (fun x => snd x = Sent) (queue (conn_outbound c'))) /\
  (forall c' op, unsubscribe (E := E) filters properties c = (c', Some (Ok op)) ->
     op_kind op = OpKind.Unsubscribe /\ status (conn_data c') op = Pending /\
     Forall (fun x => snd x = Sent) (queue (conn_outbound c'))).
Proof.
  intros Hc Hok. split; intros c' op Hs.
  - destruct (subscribe_spec topics properties c c' _ Hc Hok Hs) as (Hc' & Hk & Hop & Hl & Hn & Hf).
    split_and!; [done|by apply op_live_pending|by apply all_sent].
  - destruct (unsubscribe_spec filters properties c c' _ Hc Hok Hs) as (Hc' & Hk & Hop & Hl & Hn & Hf).
    split_and!; [done|by apply op_live_pending|by apply all_sent].
Qed.

Lemma subscribe_issues_operation_witness :
  exists c' op,
    subscribe (E := unit) [TopicFilter_new [97]] [] (demo_conn []) = (c', Some (Ok op)) /\
    status (conn_data c') op = Pending.
Proof.
  destruct (subscribe_issues_operation (E := unit) [TopicFilter_new [97]] [] [] (demo_conn [])
    (demo_conn_inv []) (List.Forall_nil _)) as [H _].
  destruct (subscribe (E := unit) [TopicFilter_new [97]] [] (demo_conn [])) as [c' r] eqn:Hs.
  assert (exists op, r = Some (Ok op)) as [op ->].
  { apply (f_equal snd) in Hs. vm_compute in Hs. by eexists. }
  exists c', op. split; [done|]. by apply (H c' op).
Defined.

(** A dead connection fails fast. Once a connection is no longer live, every
    network operation reports [Disconnected] (a disconnect request simply
    succeeds), without touching the session or the transport. *)
Theorem dead_connection_fails_fast {IO E} `{Transport IO E} {T : Time} `{!Clock IO T} {P}
    (c : Connection IO) topics filters properties (publication : Publication (ToPayload P)) d turns :
  live c = false ->
  drive (E := E) c = (c, Some (Err Error.Disconnected)) /\
  poll (E := E) (S turns) c = (c, Some (Err Error.Disconnected)) /\
  recv (E := E) (S turns) c = (c, Some (Err Error.Disconnected)) /\
  subscribe (E := E) topics properties c = (c, Some (Err Error.Disconnected)) /\
  unsubscribe (E := E) filters properties c = (c, Some (Err Error.Disconnected)) /\
  publish (E := E) publication c = (c, Some (Err (PubError.Session Error.Disconnected))) /\
  disconnect_with (E := E) d c = (c, Some (Ok tt)).
Proof.
  intros Hl. assert (drive_packet (E := E) c = (c, Some (Err Error.Disconnected))) as Hd
    by (unfold drive_packet, abind, require_live; by rewrite Hl).
  assert (wait_for_progress (E := E) (S turns) c = (c, Some (Err Error.Disconnected))) as Hw
    by (cbn [wait_for_progress]; unfold abind at 1; by rewrite Hd).
  split_and!.
  - unfold drive, abind. by rewrite Hd.
  - unfold poll, abind at 1. by rewrite Hw.
  - cbn [recv]. unfold abind at 1. by rewrite Hw.
  - unfold subscribe, abind at 1, require_live. by rewrite Hl.
  - unfold unsubscribe, abind at 1, require_live. by rewrite Hl.
  - unfold publish, abind at 1, pub at 1, require_live. by rewrite Hl.
  - unfold disconnect_with. by rewrite Hl.
Qed.

Lemma dead_connection_fails_fast_witness :
  subscribe (E := unit) [] [] (handle_disconnect (demo_conn [])) =
    (handle_disconnect (demo_conn []), Some (Err Error.Disconnected)).
Proof.
  apply (dead_connection_fails_fast (E := unit) (handle_disconnect (demo_conn [])) [] [] []
    (demo_publication QoS.AtMostOnce) Disconnect_success 0 eq_refl).
Defined.
