(* ===== verification/Handshake.v ===== *)
(** Connecting: [src/minimq/src/mqtt_client/session/handshake.rs].

    [connect] runs on a session and a fresh transport. What it changes of the
    session stays when it fails or is dropped; the source notes that the
    transport state is reset at the start of every [connect] for that reason. *)

From S2P Require Import Prelude Varint Types Io Wire Ser De Properties Packets Received.
From S2P Require Import PacketReader Outbound Config Session Connection Driver Operations.

(** The settings collected from the properties of a CONNACK. *)
Section Settings.
Context {T : Time}.

Record Settings : Type := mkSettings {
  hs_send_quota : Z;
  hs_max_send_quota : Z;
  hs_max_qos : option QoS;
  hs_maximum_packet_size : option Z;
  hs_keepalive_interval : Duration;
  hs_assigned_client_id : option bytes
}.

(** One property of the loop; [client_id] is the identifier the CONNECT had. *)
Definition apply_property (client_id : bytes) (local_quota : Z) (h : Settings) (p : Property)
  : result PeerError Settings :=
  match p with
  | Property.MaximumPacketSize size =>
      Ok (mkSettings (hs_send_quota h) (hs_max_send_quota h) (hs_max_qos h) (Some size)
            (hs_keepalive_interval h) (hs_assigned_client_id h))
  | Property.AssignedClientIdentifier id =>
      if negb (is_empty client_id) ||
         match hs_assigned_client_id h with Some _ => true | None => false end
      then Err PeerError.InvalidPacket else
      let? id := ok_or PeerError.InvalidPacket (string_try_from CLIENT_ID_CAPACITY id) in
      Ok (mkSettings (hs_send_quota h) (hs_max_send_quota h) (hs_max_qos h)
            (hs_maximum_packet_size h) (hs_keepalive_interval h) (Some id))
  | Property.ServerKeepAlive keepalive =>
      Ok (mkSettings (hs_send_quota h) (hs_max_send_quota h) (hs_max_qos h)
            (hs_maximum_packet_size h) (from_secs keepalive) (hs_assigned_client_id h))
  | Property.ReceiveMaximum max =>
      if max =? 0 then Err PeerError.InvalidPacket else
      Ok (mkSettings (Z.min max local_quota) (Z.min max local_quota) (hs_max_qos h)
            (hs_maximum_packet_size h) (hs_keepalive_interval h) (hs_assigned_client_id h))
  | Property.MaximumQoS max =>
      let? qos := ok_or PeerError.InvalidPacket (qos_try_from max) in
      Ok (mkSettings (hs_send_quota h) (hs_max_send_quota h) (Some qos)
            (hs_maximum_packet_size h) (hs_keepalive_interval h) (hs_assigned_client_id h))
  | _ => Ok h
  end.

Fixpoint apply_properties (client_id : bytes) (local_quota : Z) (h : Settings)
    (ps : list (result PeerError Property)) : result PeerError Settings :=
  match ps with
  | [] => Ok h
  | p :: ps' =>
      let? p := p in
      let? h := apply_property client_id local_quota h p in
      apply_properties client_id local_quota h ps'
  end.
End Settings.

Section Handshake.
Context {IO E : Type} `{Transport IO E} {T : Time} `{!Clock IO T}.

Definition HS (A : Type) : Type := Async (Session * IO) (Error E) A.

Definition hs_io {A} (m : Async IO (Error E) A) : HS A :=
  fun '(s, i) => let '(i', r) := m i in ((s, i'), r).

(** [Err(err) => { self.handle_disconnect(); return Err(err) }]. *)
Definition hs_fail {A} (e : Error E) : HS A :=
  fun '(s, i) => ((session_handle_disconnect s, i), Some (Err e)).

Definition set_session_outbound (s : Session) (o : Outbound) : Session :=
  set_state s (set_outbound (sdata s) o) (sruntime s).

(** The CONNECT packet of a session. *)
Definition connect_packet (s : Session) : Connect :=
  mkConnect (as_secs (keepalive_interval (sruntime s)) mod 2 ^ 16)
    (Slice [Property.MaximumPacketSize (zlen (buffer (packet_reader s)) mod 2 ^ 32);
            Property.SessionExpiryInterval (session_expiry_interval s);
            Property.ReceiveMaximum (Z.of_nat MAX_INBOUND_QOS2)])
    (client_id s) (auth s) (will s) (negb (session_present_flag (sdata s))).

(** Encode the CONNECT in the scratch space; the result is the offset of the
    packet and its bytes. *)
Definition encode_connect : HS (Z * bytes) :=
  fun '(s, i) =>
    let o := outbound (sdata s) in
    let '(slice, r) := encode_with_offset (scratch_space o) (connect_packet s) in
    ((set_session_outbound s (set_scratch_space o slice), i), Some (map_err error_of_ser r)).

Definition hs_set_connect_workspace (len : Z) : HS unit :=
  fun '(s, i) =>
    let '(o, r) := set_connect_workspace (outbound (sdata s)) len in
    ((set_session_outbound s o, i), Some (map_err Error.Resource r)).

Definition hs_fill : HS unit :=
  fun '(s, i) =>
    let '((r, i'), res) := fill_packet_reader (packet_reader s) i in
    let s := set_reader s r in
    match res with
    | Some (Err err) => hs_fail err (s, i')
    | res => ((s, i'), res)
    end.

(** The CONNACK, or the error of any other packet. *)
Definition hs_receive : HS ConnAck :=
  fun '(s, i) =>
    match received_packet (packet_reader s) with
    | (r, Err err) => hs_fail (error_of_protocol err) (set_reader s r, i)
    | (r, Ok packet) =>
        let s := set_reader s r in
        match packet with
        | ReceivedPacket.ConnAck ack => ((s, i), Some (Ok ack))
        | ReceivedPacket.Disconnect _ => hs_fail Error.Disconnected (s, i)
        | _ => hs_fail (Error.Peer PeerError.InvalidPacket) (s, i)
        end
    end.

Definition map_session (f : Session -> Session) : HS unit :=
  amodify (fun '(s, i) => (f s, i)).

Definition local_settings (s : Session) : Settings :=
  mkSettings max_inflight max_inflight None None (keepalive_interval (sruntime s)) None.

(** The runtime state of the accepted session. *)
Definition activate (resumed : bool) (h : Settings) (rt : RuntimeState) : RuntimeState :=
  mkRuntime resumed (hs_keepalive_interval h) (hs_send_quota h) (hs_max_send_quota h)
    (hs_maximum_packet_size h) (hs_max_qos h) (next_ping rt) (ping_timeout rt).

(** The end of the handshake, once the properties are accepted. *)
Definition finish_connect (resumed : bool) (workspace : Z) (h : Settings) : HS ConnectEvent :=
  do* map_session (fun s => set_state s (sdata s) (activate resumed h (sruntime s))) in
  do* match hs_assigned_client_id h with
      | Some id =>
          do* hs_set_connect_workspace (workspace + zlen id) in
          map_session (fun s => set_client_id s id)
      | None => aret tt
      end in
  do* map_session (fun s => set_state s (mark_session_present (sdata s)) (sruntime s)) in
  let* t := hs_io (fun i => let '(i', t) := now i in (i', Some (Ok t))) in
  do* map_session (fun s => set_state s (sdata s)
        (set_ping_timeout (note_outbound_activity (sruntime s) t) None)) in
  aret (if resumed then ConnectEvent.Reconnected else ConnectEvent.Connected).

(** Send the CONNECT and reserve its space in the arena, for the next
    CONNECT; the result is that space. *)
Definition send_connect : HS Z :=
  let* encoded := encode_connect in
  let workspace := fst encoded + zlen (snd encoded) in
  do* hs_io (write_all (snd encoded)) in
  do* hs_io flush in
  do* hs_set_connect_workspace workspace in
  do* map_session (fun s => set_state s (sdata s)
         (set_ping_timeout (set_next_ping (sruntime s) None) None)) in
  aret workspace.

(** The properties of the CONNACK, and the end of the handshake. *)
Definition apply_connack (old_client_id : bytes) (workspace : Z) (ack : ConnAck)
  : HS ConnectEvent :=
  let* s := aget fst in
  match apply_properties old_client_id max_inflight (local_settings s)
          (iter (connack_properties ack)) with
  | Err err => hs_fail (Error.Peer err)
  | Ok h => finish_connect (session_present ack) workspace h
  end.

Definition connect_handshake : HS ConnectEvent :=
  let* old_client_id := aget (fun s => client_id (fst s)) in
  let* workspace := send_connect in
  do* hs_fill in
  let* ack := hs_receive in
  do* alift (map_err Error.Peer (as_result (connack_reason_code ack))) in
  let resumed := session_present ack in
  do* (if resumed then aret tt
       else map_session (fun s => set_state s (session_reset (sdata s)) (sruntime s))) in
  apply_connack old_client_id workspace ack.

(** The three resets at the start of [connect]. *)
Definition prepare_connect (s : Session) : Session :=
  let s := set_reader s (reader_reset (packet_reader s)) in
  let s := set_state s (sdata s) (reset_transport (sruntime s)) in
  set_session_outbound s (arm_replay (outbound (sdata s))).

(** [Session::connect]. On success the connection holds the session and the
    transport. *)
Definition connect : HS (Connection IO) :=
  do* map_session prepare_connect in
  let* event := connect_handshake in
  fun '(s, i) => ((s, i), Some (Ok (mkConnection s i event true Clean))).
End Handshake.

(** * What a CONNACK can carry *)

Lemma take_n_u8 n d d' bs : all_u8 (de_buf d) -> try_take_n n d = (d', Ok bs) -> all_u8 bs.
Proof.
  intros Hu. unfold try_take_n. destruct (_ <? _); [done|]. intros [= _ <-].
  unfold zslice, ztake, zdrop. by apply Forall_take, Forall_drop.
Qed.

Lemma deserialize_bytes_u8 d d' bs :
  de_good d -> deserialize_bytes d = (d', Ok bs) -> all_u8 bs.
Proof.
  intros Hd. unfold deserialize_bytes. intros (d1 & next & H1 & H2)%bind_inv_ok.
  apply bind_inv_ok in H2 as (d2 & n & H2 & H3). unfold take_next_bytes_len in H1.
  injection H1 as <- <-. revert H3. apply take_n_u8.
  destruct (next_bytes_len d).
  - injection H2 as <- _. apply Hd.
  - pose proof (de_safe_u16 (mkDe (de_buf d) (de_index d) None)) as Hs.
    unfold deserialize_u16 in Hs. rewrite H2 in Hs. destruct Hs as ((_ & Hu & _) & _); [|done].
    destruct Hd as (Hi & Hu & _). split; [done|by split].
Qed.

Lemma deserialize_properties_encoded d d' ps :
  de_good d -> deserialize_properties d = (d', Ok ps) -> exists block, ps = Encoded block /\ all_u8 block.
Proof.
  intros Hd. unfold deserialize_properties, deserialize_seq. intros (d1 & n & H1 & H2)%bind_inv_ok.
  apply bind_inv_ok in H2 as (d2 & [] & H2 & H3).
  pose proof (de_safe_read_varint d Hd) as Hs. rewrite H1 in Hs. destruct Hs as (Hg & _).
  apply read_varint_inv in H1 as (Hn & _ & _); [|done].
  unfold set_next_bytes_len in H2. injection H2 as <-.
  assert (de_good (mkDe (de_buf d1) (de_index d1) (Some n))) as Hg2
    by (destruct Hg as (? & ? & ?); split; [done|split; [done|simpl; lia]]).
  destruct (bind _ _ _) as [sa r] eqn:Hb. injection H3 as _ ->.
  apply bind_inv_ok in Hb as (sa1 & data & Hdata & Hr). injection Hr as _ <-.
  exists (default [] data). split; [done|].
  unfold next_seq_element in Hdata. cbn [sa_length sa_deserializer] in Hdata.
  destruct (0 <? n); [|injection Hdata as _ <-; constructor].
  destruct (deserialize_bytes _) as [d3 [bs|e]] eqn:Hbytes; [|done].
  apply deserialize_bytes_u8 in Hbytes; [|done].
  destruct (usize_checked_sub _ _); [|done]. by injection Hdata as _ <-.
Qed.

Lemma deserialize_connack_encoded d d' ack :
  de_good d -> deserialize_connack d = (d', Ok ack) ->
  exists block, connack_properties ack = Encoded block /\ all_u8 block.
Proof.
  intros Hd. unfold deserialize_connack, deserialize_tuple.
  destruct (bind _ _ _) as [ea r] eqn:Hb. intros [= _ ->].
  apply bind_inv_ok in Hb as (ea1 & sp & H1 & Hb). apply bind_inv_ok in Hb as (ea2 & rc & H2 & Hb).
  apply bind_inv_ok in Hb as (ea3 & ps & H3 & Hb). injection Hb as _ <-.
  pose proof (ea_safe_required _ de_safe_bool (mkEA d 3) Hd) as Hs1. rewrite H1 in Hs1.
  pose proof (ea_safe_required _ de_safe_reason_code ea1 (proj1 Hs1)) as Hs2. rewrite H2 in Hs2.
  apply next_required_inv in H3. eapply deserialize_properties_encoded; [|done]. apply Hs2.
Qed.

Lemma from_buffer_connack buf ack :
  all_u8 buf -> from_buffer buf = Ok (ReceivedPacket.ConnAck ack) ->
  exists block, connack_properties ack = Encoded block /\ all_u8 block.
Proof.
  intros Hu. rewrite from_buffer_attach.
  destruct (deserialize_received_packet _) as [d [p|e]] eqn:Hd; [|done]. intros Ha.
  assert (p = ReceivedPacket.ConnAck ack) as ->.
  { unfold attach in Ha. destruct (de_remainder d); [congruence|]. by destruct p. }
  unfold deserialize_received_packet, deserialize_tuple in Hd.
  destruct (visit_seq _) as [ea r] eqn:Hv. injection Hd as _ ->.
  apply bind_inv_ok in Hv as (ea1 & b & H1 & Hv). cbv zeta in Hv.
  apply bind_inv_ok in Hv as (ea2 & n & H2 & Hv).
  pose proof (ea_safe_required _ de_safe_pop (mkEA _ 5) (de_good_new buf Hu)) as Hs1.
  unfold deserialize_u8 in H1. rewrite H1 in Hs1.
  pose proof (ea_safe_required _ de_safe_varint ea1 (proj1 Hs1)) as Hs2. rewrite H2 in Hs2.
  destruct (message_type _) as [t|]; [|done]. destruct (flags_valid _); [|done]. simpl in Hv.
  destruct t; simpl in Hv; try done;
    try (apply bind_inv_ok in Hv as (? & ? & _ & Hv); by injection Hv).
  - apply bind_inv_ok in Hv as (ea3 & a & H3 & Hv). injection Hv as _ <-.
    apply next_required_inv in H3. eapply deserialize_connack_encoded; [|done]. apply Hs2.
  - by apply visit_publish_matches in Hv as (? & ? & _).
Qed.

(** Values of a received property are in the range of their Rust type. *)
Definition received_item_ok (item : result PeerError Property) : Prop :=
  match item with
  | Ok (Property.ReceiveMaximum max) => 0 <= max
  | _ => True
  end.

Lemma deserialize_property_range d d' p :
  de_good d -> deserialize_property d = (d', Ok p) -> received_item_ok (Ok p).
Proof.
  intros Hd (d1 & id & H1 & H2)%bind_inv_ok.
  pose proof (de_safe_property_identifier d Hd) as Hs. rewrite H1 in Hs.
  destruct id; try done;
    try (apply bind_inv_ok in H2 as (d2 & v & Hv & H2); injection H2 as _ <-; done).
  apply bind_inv_ok in H2 as (d2 & v & Hv & H2). injection H2 as _ <-.
  apply bind_inv_ok in Hv as (d3 & a & Ha & Hr). injection Hr as _ <-.
  apply try_take_array_u8 in Ha as [Hu _]; [|apply Hs]. simpl. by apply from_be_bytes_bound.
Qed.

Lemma iter_from_range fuel it :
  iter_wf it -> (exists props index, it = IterEncoded props index) ->
  Forall received_item_ok (iter_from fuel it).
Proof.
  revert it. induction fuel as [|fuel IH]; intros it Hw He; simpl; [constructor|].
  destruct (iter_next it) as [it' [item|]] eqn:Hn; [|constructor].
  destruct (iter_next_decreases it it' item Hw Hn) as [Hw' _].
  destruct He as (props & index & ->). simpl in Hn. destruct Hw as [Hu Hi].
  destruct (_ <=? _); [done|].
  destruct (deserialize_property _) as [d r] eqn:Hd. injection Hn as <- <-.
  constructor; [|apply IH; [done|by eexists _, _]].
  destruct r as [p|e]; [|done]. eapply deserialize_property_range; [|done].
  apply de_good_new. unfold zdrop. by apply Forall_drop.
Qed.

Lemma iter_range block : all_u8 block -> Forall received_item_ok (iter (Encoded block)).
Proof.
  intros Hu. apply iter_from_range; [|by eexists _, _]. simpl. split; [done|].
  pose proof (zlen_nonneg block). lia.
Qed.

(** * Settings *)

Section SettingsProofs.
Context {T : Time}.

(** The quota lies between one and the number of packets the session can hold,
    an assigned identifier fits and was asked for. *)
Definition settings_ok (old_client_id : bytes) (h : Settings) : Prop :=
  1 <= hs_send_quota h <= max_inflight /\ hs_max_send_quota h = hs_send_quota h /\
  match hs_assigned_client_id h with
  | Some id => old_client_id = [] /\ zlen id <= CLIENT_ID_CAPACITY
  | None => True
  end.

Lemma apply_property_ok id h p h' :
  settings_ok id h -> received_item_ok (Ok p) -> apply_property id max_inflight h p = Ok h' ->
  settings_ok id h'.
Proof.
  intros (Hq & Hm & Ha) Hp. destruct p; simpl; try (intros [= <-]; done).
  - destruct (negb _ || _) eqn:Hb; [done|]. unfold string_try_from.
    destruct (Z.ltb_spec CLIENT_ID_CAPACITY (zlen data)); simpl; [done|]. intros [= <-].
    apply orb_false_elim in Hb as [Hb _]. split_and!; simpl; try done; try lia.
    split; [by destruct id|lia].
  - destruct (Z.eqb_spec value 0); [done|]. intros [= <-]. simpl in Hp.
    split_and!; simpl; try done; unfold max_inflight, MAX_RETAINED, MAX_PENDING_RELEASE in *; lia.
  - destruct (qos_try_from value); simpl; [|done]. by intros [= <-].
Qed.

Lemma apply_properties_ok id h ps h' :
  settings_ok id h -> Forall received_item_ok ps -> apply_properties id max_inflight h ps = Ok h' ->
  settings_ok id h'.
Proof.
  intros Hh Hps. revert h Hh. induction Hps as [|p ps Hp _ IH]; intros h Hh; simpl.
  - by intros [= <-].
  - destruct p as [p|e]; simpl; [|done].
    destruct (apply_property id max_inflight h p) as [h1|e] eqn:Ha; simpl; [|done].
    apply IH. by eapply apply_property_ok.
Qed.

(** What the broker announced: the last property of a kind counts. *)
Definition announced {A} (f : Property -> option A) (ps : list Property) : option A :=
  last (omap f ps).

Definition receive_maximum (p : Property) : option Z :=
  match p with Property.ReceiveMaximum max => Some max | _ => None end.
Definition packet_size_limit (p : Property) : option Z :=
  match p with Property.MaximumPacketSize size => Some size | _ => None end.
Definition server_keep_alive (p : Property) : option Duration :=
  match p with Property.ServerKeepAlive secs => Some (from_secs secs) | _ => None end.
Definition assigned_client_id (p : Property) : option bytes :=
  match p with Property.AssignedClientIdentifier id => Some id | _ => None end.
Definition qos_limit (p : Property) : option QoS :=
  match p with
  | Property.MaximumQoS 0 => Some QoS.AtMostOnce
  | Property.MaximumQoS 1 => Some QoS.AtLeastOnce
  | Property.MaximumQoS 2 => Some QoS.ExactlyOnce
  | _ => None
  end.

(** The properties a CONNACK may carry: a Receive Maximum that is not zero, a QoS that
    exists, and a client identifier only for a client without one. *)
Definition permitted (old_client_id : bytes) (p : Property) : Prop :=
  match p with
  | Property.ReceiveMaximum max => max <> 0
  | Property.MaximumQoS max => max = 0 \/ max = 1 \/ max = 2
  | Property.AssignedClientIdentifier id => old_client_id = [] /\ zlen id <= CLIENT_ID_CAPACITY
  | _ => True
  end.

(** [h'] is [h] with what [ps] announce. *)
Definition settings_read (h : Settings) (ps : list Property) (h' : Settings) : Prop :=
  hs_send_quota h' = from_option (fun max => Z.min max 8) (hs_send_quota h)
    (announced receive_maximum ps) /\
  hs_max_qos h' = from_option Some (hs_max_qos h) (announced qos_limit ps) /\
  hs_maximum_packet_size h' = from_option Some (hs_maximum_packet_size h)
    (announced packet_size_limit ps) /\
  hs_keepalive_interval h' = from_option id (hs_keepalive_interval h)
    (announced server_keep_alive ps) /\
  hs_assigned_client_id h' = from_option Some (hs_assigned_client_id h)
    (announced assigned_client_id ps).

Lemma announced_cons {A B} (f : Property -> option A) (g : A -> B) d p ps :
  from_option g d (announced f (p :: ps)) =
  from_option g (from_option g d (f p)) (announced f ps).
Proof.
  unfold announced. simpl. destruct (f p) as [a|]; simpl; [|done]. rewrite last_cons.
  change (list_omap _ _ f ps) with (omap f ps). by destruct (last (omap f ps)).
Qed.

Lemma apply_property_reads id h p h1 ps h' :
  apply_property id max_inflight h p = Ok h1 -> settings_read h1 ps h' ->
  permitted id p /\ settings_read h (p :: ps) h'.
Proof.
  intros Hp. unfold settings_read. rewrite !announced_cons.
  destruct p; simpl in Hp |- *; try (injection Hp as <-; by split).
  - destruct (negb _ || _) eqn:Hb; [done|]. unfold string_try_from in Hp.
    destruct (Z.ltb_spec CLIENT_ID_CAPACITY (zlen data)); simpl in Hp; [done|]. injection Hp as <-.
    apply orb_false_elim in Hb as [Hb _]. intros Hr. split; [|exact Hr]. split; [by destruct id|lia].
  - destruct (Z.eqb_spec value 0); [done|]. injection Hp as <-. intros Hr. by split.
  - unfold qos_try_from in Hp. intros Hr.
    destruct value as [|[|[]|]|]; try done; injection Hp as <-; split; auto.
Qed.

Lemma apply_properties_reads id h items h' :
  apply_properties id max_inflight h items = Ok h' ->
  exists ps, items = map Ok ps /\ Forall (permitted id) ps /\ settings_read h ps h'.
Proof.
  revert h. induction items as [|item items IH]; intros h; simpl.
  { intros [= <-]. exists []. by split_and!. }
  destruct item as [p|e]; simpl; [|done].
  destruct (apply_property id max_inflight h p) as [h1|e] eqn:Ha; simpl; [|done].
  intros (ps & -> & Hf & Hr)%IH. destruct (apply_property_reads _ _ _ _ _ _ Ha Hr) as [Hp Hr'].
  exists (p :: ps). split_and!; [done|by constructor|done..].
Qed.
End SettingsProofs.

(** * The handshake keeps the session *)

Section HandshakeProofs.
Context {IO E : Type} `{Transport IO E} {T : Time} `{!Clock IO T}.

Definition will_ok (w : option Will) : Prop :=
  match w with Some w => Forall property_ok (will_properties w) | None => True end.

Definition id_fits (id : bytes) : Prop := zlen id <= CLIENT_ID_CAPACITY.

(** What holds of a session between connections. *)
Definition session_ok (s : Session) : Prop :=
  session_inv (sdata s, sruntime s) /\ reader_wf (packet_reader s) /\
  will_ok (will s) /\ id_fits (client_id s).

(** During the handshake nothing is on its way. *)
Definition hs_inv (s : Session * IO) : Prop :=
  session_ok (fst s) /\ flush_ok Clean (outbound (sdata (fst s))).

Lemma session_handle_disconnect_ok s :
  session_ok s ->
  session_ok (session_handle_disconnect s) /\
  flush_ok Clean (outbound (sdata (session_handle_disconnect s))).
Proof.
  intros ([Hd Hq] & Hr & Hw). split; [split; [|split; [|done]]|].
  - split; [by apply arm_data_inv|done].
  - by apply reader_wf_reset.
  - apply arm_replay_flush_ok. apply Hd.
Qed.

Lemma keeps_hs_io {A} (m : Async IO (Error E) A) : keeps hs_inv (hs_io m).
Proof. intros [s i] Hs. unfold hs_io. by destruct (m i). Qed.

Lemma keeps_hs_fail {A} (e : Error E) : keeps hs_inv (hs_fail (A := A) e).
Proof. intros [s i] [Hs _]. by apply session_handle_disconnect_ok. Qed.

Lemma keeps_map_session f :
  (forall (s : Session) (i : IO), hs_inv (s, i) -> hs_inv (f s, i)) ->
  keeps hs_inv (map_session (E := E) f).
Proof. intros Hf. apply keeps_amodify. intros [s i] Hs. by apply Hf. Qed.

Lemma set_outbound_hs s (i : IO) o :
  hs_inv (s, i) -> live_inv o -> flush_ok Clean o -> hs_inv (set_session_outbound s o, i).
Proof. intros [([(_ & Hd) Hq] & Hr & Hw) _] Hl Hf. split; [|done]. split; [|by split]. by split. Qed.

Lemma connect_packet_ok s : will_ok (will s) -> packet_ok (connect_packet s).
Proof. intros Hw. split; [by repeat constructor|done]. Qed.

Lemma encode_connect_spec s (i : IO) :
  hs_inv (s, i) ->
  let '(st, r) := encode_connect (E := E) (s, i) in
  hs_inv st /\ 
  match r with
  | Some (Ok (off, p)) => exists body, enc_connect (connect_packet s) = Ok body /\
      off + zlen p = MAX_FIXED_HEADER_SIZE + zlen body /\
      p = packet_bytes (fixed_header (connect_packet s)) body
  | Some (Err e) =>
      match enc_connect (connect_packet s) with
      | Ok body => zlen (scratch_space (outbound (sdata s))) < MAX_FIXED_HEADER_SIZE + zlen body
      | Err _ => True
      end
  | None => False
  end /\
  exists slice, fst st = set_session_outbound s (set_scratch_space (outbound (sdata s)) slice) /\
    zlen slice = zlen (scratch_space (outbound (sdata s))).
Proof.
  intros Hs. pose proof Hs as [([(Hl & _) _] & _ & Hw & _) Hf]. simpl in *.
  unfold encode_connect.
  assert (zlen (scratch_space (outbound (sdata s))) <= MQTT_VARINT_MAX) as Hmax.
  { destruct Hl as (Hwf & _). destruct (out_wf_bounds _ Hwf) as (H0 & H1 & _).
    unfold scratch_space. rewrite zlen_zdrop by lia. destruct Hwf as (_ & _ & _ & _ & _ & _ & Hm). lia. }
  pose proof (encode_with_offset_cases (connect_packet s) (scratch_space (outbound (sdata s))) _
    (packet_implements (connect_packet s) (connect_packet_ok s Hw)) Hmax) as Hc.
  destruct (encode_with_offset _ _) as [slice r]. destruct Hc as [Hlen Hr].
  pose proof (scratch_encoded _ slice (proj1 Hl) Hlen) as Henc. split_and!.
  - apply set_outbound_hs; [done|by eapply encoded_live|by eapply encoded_flush_ok].
  - destruct r as [[off p]|e]; simpl; [|done].
    destruct Hr as (body & Hb & Hp & _ & _ & Hsum). exists body. done.
  - by exists slice.
Qed.

Lemma set_connect_workspace_cases o len o' r :
  live_inv o -> 0 <= len -> set_connect_workspace o len = (o', r) ->
  live_inv o' /\ view o' = view o /\ retained o' = retained o /\
  pending_control o' = pending_control o /\ pending_release o' = pending_release o /\
  out_buf o' = out_buf o /\
  match r with Ok _ => connect_workspace o' = len | Err _ => o' = o end.
Proof.
  intros (Hw & Hn & Hq) Hlen. unfold set_connect_workspace, usize_checked_sub.
  destruct (Z.leb_spec len (zlen (out_buf o))); [|intros [= <- <-]; by split_and!].
  destruct (Z.ltb_spec (zlen (out_buf o) - len) (retained_bytes o));
    intros [= <- <-]; [by split_and!|].
  split_and!; try done. split; [|done]. destruct Hw as (? & ? & ? & ? & ? & ? & ?).
  unfold out_wf, retained_bytes in *. simpl in *. split_and!; first [done|lia].
Qed.

Lemma keeps_workspace len : 0 <= len -> keeps hs_inv (hs_set_connect_workspace (E := E) len).
Proof.
  intros Hlen [s i] Hs. unfold hs_set_connect_workspace.
  destruct (set_connect_workspace _ len) as [o' r] eqn:Ho.
  destruct Hs as [([(Hl & Hd) Hq] & Hr & Hw) Hf].
  destruct (set_connect_workspace_cases _ _ _ _ Hl Hlen Ho) as (Hl' & _ & Hret & Hc & Hp & _).
  apply set_outbound_hs; [by split; [split; [split|split]|]|done|].
  unfold flush_ok, no_flush in *. by rewrite Hret, Hc, Hp.
Qed.

Lemma set_reader_hs s (i : IO) r : hs_inv (s, i) -> reader_wf r -> hs_inv (set_reader s r, i).
Proof. intros [(Hs & _ & Hw) Hf] Hr. split; [|done]. split; [done|by split]. Qed.

Lemma keeps_hs_fill : keeps hs_inv (hs_fill (IO := IO) (E := E)).
Proof.
  intros [s i] Hs. unfold hs_fill, fill_packet_reader.
  destruct (fill_loop _ (packet_reader s, i)) as [[r i'] res] eqn:Hf.
  apply fill_loop_inv in Hf as (Hr & _); [|apply Hs].
  pose proof (set_reader_hs s i' r Hs Hr) as Hs'.
  destruct res as [[[]|e]|]; [done| |done]. by apply (keeps_hs_fail (A := unit) e (_, i')).
Qed.

Lemma received_packet_wf r : reader_wf r -> reader_wf (fst (received_packet r)).
Proof.
  intros Hr. unfold received_packet, bind, take_packet.
  destruct (packet_length r); [|done]. destruct (from_buffer _); by apply reader_wf_reset.
Qed.

Lemma keeps_hs_receive : keeps hs_inv (hs_receive (IO := IO) (E := E)).
Proof.
  intros [s i] Hs. unfold hs_receive.
  pose proof (received_packet_wf (packet_reader s) (proj1 (proj2 (proj1 Hs)))) as Hr.
  destruct (received_packet _) as [r res]. pose proof (set_reader_hs s i r Hs Hr) as Hs'.
  destruct res as [packet|e]; [destruct packet; try done|];
    by apply (keeps_hs_fail (A := ConnAck) _ (_, i)).
Qed.

Lemma clear_inflight_live o : out_wf o -> live_inv (clear_inflight o).
Proof.
  intros Hw. destruct (out_wf_bounds o Hw) as (Hb & _).
  destruct Hw as (_ & Hc & Hle & _ & _ & _ & Hm). split; [|split; [apply NoDup_nil_2|split; [simpl; lia|constructor]]].
  unfold out_wf. change (retained_bytes (clear_inflight o)) with 0. simpl.
  split_and!; first [done|lia|constructor].
Qed.

Lemma reset_hs s (i : IO) : hs_inv (s, i) ->
  hs_inv (set_state s (session_reset (sdata s)) (sruntime s), i).
Proof.
  intros [([((Hwf & _) & _) Hq] & Hr & Hw) Hf].
  split; [|split; [constructor|intros _; repeat constructor]].
  split; [|by split]. split; [|done]. split; [by apply clear_inflight_live|].
  split; [done|split; [apply NoDup_nil_2|simpl; lia]].
Qed.

(** The state is activated with the settings of a decoded CONNACK. *)
Lemma activate_hs s (i : IO) resumed id h :
  hs_inv (s, i) -> settings_ok id h ->
  hs_inv (set_state s (sdata s) (activate resumed h (sruntime s)), i).
Proof.
  intros [([Hd Hq] & Hr & Hw) Hf] (Hs & Hm & _). split; [|done]. split; [|by split]. split; [done|].
  unfold quota_inv. simpl. rewrite Hm.
  unfold max_inflight, MAX_RETAINED, MAX_PENDING_RELEASE in *. lia.
Qed.

Lemma hs_receive_connack s (i : IO) st ack :
  reader_wf (packet_reader s) -> packet_available (packet_reader s) = true ->
  hs_receive (E := E) (s, i) = (st, Some (Ok ack)) ->
  st = (set_reader s (reader_reset (packet_reader s)), i) /\
  from_buffer (received (packet_reader s)) = Ok (ReceivedPacket.ConnAck ack).
Proof.
  intros Hr Ha. unfold hs_receive, received_packet, bind.
  rewrite (proj1 (take_packet_received _ Hr Ha)).
  destruct (from_buffer _) as [p|e]; [|done]. simpl.
  destruct p as [a| | | | | | | | |]; try done. by intros [= <- <-].
Qed.

Lemma hs_receive_ok s (i : IO) st ack :
  reader_wf (packet_reader s) -> hs_receive (E := E) (s, i) = (st, Some (Ok ack)) ->
  Forall received_item_ok (iter (connack_properties ack)).
Proof.
  intros (_ & Hu & _). unfold hs_receive, received_packet, bind, take_packet.
  destruct (packet_length (packet_reader s)) as [len|]; [|done]. simpl.
  destruct (from_buffer _) as [p|e] eqn:Hp; [|done]. simpl.
  destruct p as [a| | | | | | | | |]; try done. intros [= <- <-].
  apply from_buffer_connack in Hp as (block & -> & Hb); [by apply iter_range|].
  unfold ztake. by apply Forall_take.
Qed.

Lemma runtime_hs s (i : IO) rt :
  hs_inv (s, i) -> quota_inv rt -> hs_inv (set_state s (sdata s) rt, i).
Proof. intros [([Hd _] & Hr & Hw) Hf] Hq. split; [|done]. split; [done|by split]. Qed.

Lemma local_settings_ok s id : settings_ok id (local_settings s).
Proof. by split_and!. Qed.

Lemma keeps_finish resumed workspace id h :
  0 <= workspace -> settings_ok id h -> keeps hs_inv (finish_connect (IO := IO) (E := E) resumed workspace h).
Proof.
  intros Hwk Hh. apply keeps_abind.
  { apply keeps_map_session. intros s i Hs. by eapply activate_hs. }
  intros _. apply keeps_abind; [|intros _; apply keeps_abind; [|intros _; apply keeps_abind]].
  - destruct Hh as (_ & _ & Hid).
    destruct (hs_assigned_client_id h) as [cid|]; [|apply keeps_aret].
    apply keeps_abind; [apply keeps_workspace; pose proof (zlen_nonneg cid); lia|].
    intros _. apply keeps_map_session. intros s i [(Hs & Hr & Hw & _) Hf].
    split; [|done]. by destruct Hid.
  - by apply keeps_map_session.
  - apply keeps_hs_io.
  - intros t. apply keeps_abind; [|intros _; apply keeps_aret]. apply keeps_map_session.
    intros s i Hs. apply runtime_hs; [done|apply Hs].
Qed.

(** The space reserved for the CONNECT of a session. *)
Definition connect_space (s : Session) (workspace : Z) : Prop :=
  exists body, enc_connect (connect_packet s) = Ok body /\
    workspace = MAX_FIXED_HEADER_SIZE + zlen body.

Lemma connect_space_nonneg s workspace : connect_space s workspace -> 0 <= workspace.
Proof.
  intros (body & _ & ->). pose proof (zlen_nonneg body). unfold MAX_FIXED_HEADER_SIZE. lia.
Qed.

Lemma encode_connect_ok s (i : IO) st off p :
  hs_inv (s, i) -> encode_connect (E := E) (s, i) = (st, Some (Ok (off, p))) ->
  connect_space s (off + zlen p).
Proof.
  intros Hs He. pose proof (encode_connect_spec s i Hs) as Hc. rewrite He in Hc.
  destruct Hc as (_ & (body & Hb & Hsum & _) & _). by exists body.
Qed.

Lemma keeps_send_connect : keeps hs_inv (send_connect (IO := IO) (E := E)).
Proof.
  apply (keeps_abind_result _ (fun encoded => 0 <= fst encoded + zlen (snd encoded))).
  { intros [s i] Hs. pose proof (encode_connect_spec s i Hs). by destruct (encode_connect _), H0. }
  { intros [s i] st [off p] Hs He. by eapply connect_space_nonneg, encode_connect_ok. }
  intros [off p] Hwk. apply keeps_abind; [apply keeps_hs_io|]. intros _.
  apply keeps_abind; [apply keeps_hs_io|]. intros _.
  apply keeps_abind; [by apply keeps_workspace|]. intros _.
  apply keeps_abind; [|intros _; apply keeps_aret].
  apply keeps_map_session; intros s i Hs; apply runtime_hs; [done|apply Hs].
Qed.

Lemma prepare_connect_hs s (i : IO) : session_ok s -> hs_inv (prepare_connect s, i).
Proof.
  intros ([Hd Hq] & Hr & Hw). split; [split; [|split; [|done]]|].
  - split; [by apply arm_data_inv|done].
  - by apply reader_wf_reset.
  - apply arm_replay_flush_ok. apply Hd.
Qed.

(** What the handshake leaves alone until the broker has accepted: everything
    but the transport state and the bytes behind the retained packets. *)
Definition carried (s s' : Session) : Prop :=
  client_id s' = client_id s /\ will s' = will s /\ auth s' = auth s /\
  session_expiry_interval s' = session_expiry_interval s /\ downgrade_qos s' = downgrade_qos s /\
  keepalive_interval (sruntime s') = keepalive_interval (sruntime s) /\
  set_outbound (sdata s') (outbound (sdata s)) = sdata s /\
  view (outbound (sdata s')) = view (outbound (sdata s)) /\
  pending_control (outbound (sdata s')) = pending_control (outbound (sdata s)) /\
  pending_release (outbound (sdata s')) = pending_release (outbound (sdata s)).

Lemma set_outbound_back d o : set_outbound (set_outbound d o) (outbound d) = d.
Proof. by destruct d. Qed.

Lemma carried_refl s : carried s s.
Proof. split_and!; try done. apply set_outbound_same. Qed.

Lemma carried_reader s r : carried s (set_reader s r).
Proof. split_and!; try done. apply set_outbound_same. Qed.

Lemma carried_trans s1 s2 s3 : carried s1 s2 -> carried s2 s3 -> carried s1 s3.
Proof.
  intros (?&?&?&?&?&?& Hd &?&?&?) (?&?&?&?&?&?& Hd' &?&?&?).
  split_and!; try congruence. rewrite <- Hd at 2. by rewrite <- Hd'.
Qed.

Lemma encode_connect_carried s (i : IO) st r :
  hs_inv (s, i) -> encode_connect (E := E) (s, i) = (st, r) -> carried s (fst st).
Proof.
  intros Hs He. pose proof (encode_connect_spec s i Hs) as Hc. rewrite He in Hc.
  destruct Hc as (_ & _ & slice & -> & Hlen). destruct Hs as [([((Hwf & _) & _) _] & _) _].
  destruct (scratch_encoded _ slice Hwf Hlen) as (_ & (_ & Hc & Hp & _) & Hv & _).
  split_and!; try done. apply set_outbound_back.
Qed.

Lemma workspace_carried s (i : IO) len st :
  hs_inv (s, i) -> 0 <= len -> hs_set_connect_workspace (E := E) len (s, i) = (st, Some (Ok tt)) ->
  carried s (fst st) /\ connect_workspace (outbound (sdata (fst st))) = len.
Proof.
  intros [([(Hl & _) _] & _) _] Hlen. unfold hs_set_connect_workspace.
  destruct (set_connect_workspace _ len) as [o r] eqn:Ho.
  destruct (set_connect_workspace_cases _ _ _ _ Hl Hlen Ho) as (_ & Hv & _ & Hc & Hp & _ & Hr).
  destruct r; [|done]. intros [= <-]. split; [|done]. split_and!; try done. apply set_outbound_back.
Qed.

Lemma hs_fill_ok s (i : IO) st :
  reader_wf (packet_reader s) -> hs_fill (E := E) (s, i) = (st, Some (Ok tt)) ->
  exists r i', st = (set_reader s r, i') /\
    fill_packet_reader (E := E) (packet_reader s) i = ((r, i'), Some (Ok tt)) /\
    reader_wf r /\ packet_available r = true.
Proof.
  intros Hr. unfold hs_fill. destruct (fill_packet_reader _ _) as [[r i'] [[[]|e]|]] eqn:Hf; [|done|done].
  intros [= <-]. exists r, i'. destruct (fill_loop_inv _ _ _ _ _ _ Hr Hf) as (Hw & _ & _ & Ha).
  split_and!; try done. by apply Ha.
Qed.

(** The handshake of [s] read [packet] after its CONNECT, and left the transport in
    [i']. *)
Definition fetched (s : Session) (i : IO) (packet : bytes) (i' : IO) : Prop :=
  exists s0 i0 workspace r,
    send_connect (E := E) (s, i) = ((s0, i0), Some (Ok workspace)) /\
    hs_fill (E := E) (s0, i0) = ((set_reader s0 r, i'), Some (Ok tt)) /\
    fill_packet_reader (E := E) (packet_reader s0) i0 = ((r, i'), Some (Ok tt)) /\
    packet = received r.

Lemma hs_io_carried {A} (m : Async IO (Error E) A) s i st r :
  hs_io m (s, i) = (st, r) -> fst st = s.
Proof. unfold hs_io. destruct (m i). by intros [= <- _]. Qed.

Lemma assign_client_id s (i : IO) st workspace id :
  hs_inv (s, i) -> 0 <= workspace ->
  (do* hs_set_connect_workspace (workspace + zlen id) in
   map_session (fun s => set_client_id s id)) (s, i) = (st, Some (Ok tt) : option (result (Error E) unit)) ->
  carried s (set_client_id (fst st) (client_id s)) /\ client_id (fst st) = id /\
  sruntime (fst st) = sruntime s /\
  connect_workspace (outbound (sdata (fst st))) = workspace + zlen id.
Proof.
  intros Hs Hw ([s1 i1] & [] & H1 & H2)%abind_inv_ok. injection H2 as <-.
  pose proof (zlen_nonneg id).
  assert (sruntime s1 = sruntime s /\ client_id s1 = client_id s) as [Hr Hid].
  { unfold hs_set_connect_workspace in H1. destruct (set_connect_workspace _ _) as [o [[]|]];
      by injection H1 as <- _. }
  apply workspace_carried in H1 as [Hc Hlen]; [|done|lia]. split; [|done]. destruct Hc as [_ Hc]. by split.
Qed.

Lemma finish_connect_ok resumed workspace h s (i : IO) st event :
  hs_inv (set_state s (sdata s) (activate resumed h (sruntime s)), i) -> 0 <= workspace ->
  finish_connect (E := E) resumed workspace h (s, i) = (st, Some (Ok event)) ->
  let s' := fst st in
  event = (if resumed then ConnectEvent.Reconnected else ConnectEvent.Connected) /\
  client_id s' = default (client_id s) (hs_assigned_client_id h) /\
  will s' = will s /\ auth s' = auth s /\
  set_outbound (sdata s') (outbound (sdata s)) = mark_session_present (sdata s) /\
  view (outbound (sdata s')) = view (outbound (sdata s)) /\
  pending_control (outbound (sdata s')) = pending_control (outbound (sdata s)) /\
  pending_release (outbound (sdata s')) = pending_release (outbound (sdata s)) /\
  connect_workspace (outbound (sdata s')) =
    match hs_assigned_client_id h with
    | Some id => workspace + zlen id
    | None => connect_workspace (outbound (sdata s))
    end /\
  exists t, sruntime s' =
    set_ping_timeout (note_outbound_activity (activate resumed h (sruntime s)) t) None.
Proof.
  intros Hs Hwk (st1 & [] & H1 & Hf)%abind_inv_ok. injection H1 as <-.
  apply abind_inv_ok in Hf as ([s2 i2] & [] & H2 & Hf).
  apply abind_inv_ok in Hf as (st3 & [] & H3 & Hf). injection H3 as <-.
  apply abind_inv_ok in Hf as ([s4 i4] & t & H4 & Hf). apply hs_io_carried in H4. simpl in H4. subst s4.
  apply abind_inv_ok in Hf as (st5 & [] & H5 & Hf). injection H5 as <-. injection Hf as <- <-.
  destruct (hs_assigned_client_id h) as [id|] eqn:Hid.
  - apply assign_client_id in H2 as (Hc & Hcid & Hrt & Hlen); [|done|done].
    destruct Hc as (_ & Hwill & Hauth & _ & _ & _ & Hd & Hv & Hpc & Hpr). simpl in *.
    split_and!; try done; [|by exists t; rewrite Hrt].
    by rewrite <- Hd.
  - injection H2 as <- <-. split_and!; try done. by exists t.
Qed.

(** The CONNECT was sent and its space is reserved. *)
Lemma send_connect_ok s (i : IO) st workspace :
  hs_inv (s, i) -> send_connect (E := E) (s, i) = (st, Some (Ok workspace)) ->
  carried s (fst st) /\ connect_space s workspace /\
  connect_workspace (outbound (sdata (fst st))) = workspace.
Proof.
  intros Hs ([s1 i1] & [off p] & H1 & Hf)%abind_inv_ok. cbn [fst snd] in Hf.
  pose proof (encode_connect_ok _ _ _ _ _ Hs H1) as Hsp.
  pose proof (encode_connect_carried _ _ _ _ Hs H1) as Hc1.
  pose proof (encode_connect_spec s i Hs) as He. rewrite H1 in He. destruct He as [Hs1 _].
  apply abind_inv_ok in Hf as ([s2 i2] & [] & H2 & Hf). apply hs_io_carried in H2. simpl in H2. subst s2.
  apply abind_inv_ok in Hf as ([s3 i3] & [] & H3 & Hf). apply hs_io_carried in H3. simpl in H3. subst s3.
  apply abind_inv_ok in Hf as ([s4 i4] & [] & H4 & Hf).
  apply workspace_carried in H4 as [Hc4 Hlen]; [|done|by eapply connect_space_nonneg].
  apply abind_inv_ok in Hf as (st5 & [] & H5 & Hf). injection H5 as <-. injection Hf as <- <-.
  split_and!; [|done|done]. apply (carried_trans s s4); [by apply (carried_trans s s1)|].
  split_and!; try done. apply set_outbound_same.
Qed.

Lemma keeps_handshake : keeps hs_inv (connect_handshake (IO := IO) (E := E)).
Proof.
  apply keeps_abind; [apply keeps_aget|]. intros old_client_id.
  apply (keeps_abind_result _ (fun workspace => 0 <= workspace)); [apply keeps_send_connect| |].
  { intros [s i] st workspace Hs Hw. apply send_connect_ok in Hw as (_ & Hw & _); [|done].
    by eapply connect_space_nonneg. }
  intros workspace Hwk. apply keeps_abind; [apply keeps_hs_fill|]. intros _.
  apply (keeps_abind_result _ (fun ack => Forall received_item_ok (iter (connack_properties ack))));
    [apply keeps_hs_receive| |].
  { intros [s i] st ack Hs Hr. apply hs_receive_ok in Hr; [done|apply Hs]. }
  intros ack Hack. apply keeps_abind; [apply keeps_alift|]. intros _.
  apply keeps_abind; [destruct (session_present ack);
    [apply keeps_aret|apply keeps_map_session; by apply reset_hs]|]. intros _.
  apply keeps_abind; [apply keeps_aget|]. intros s.
  destruct (apply_properties _ _ _ _) as [h|e] eqn:Ha; [|apply keeps_hs_fail].
  apply keeps_finish with old_client_id; [done|].
  eapply apply_properties_ok; [|exact Hack|exact Ha]. apply local_settings_ok.
Qed.

(** What happens once the CONNACK arrived, on a session [s1] that still has
    everything of [s]. *)
Definition answered (s : Session) (ack : ConnAck) (h : Settings) (workspace : Z)
    (s1 : Session) (i1 : IO) : Prop :=
  hs_inv (s1, i1) /\ carried s s1 /\ connect_space s workspace /\
  connect_workspace (outbound (sdata s1)) = workspace /\
  success (connack_reason_code ack) = true /\
  Forall received_item_ok (iter (connack_properties ack)) /\
  apply_properties (client_id s) max_inflight (local_settings s)
    (iter (connack_properties ack)) = Ok h.

Definition started (resumed : bool) (s : Session) : Session :=
  if resumed then s else set_state s (session_reset (sdata s)) (sruntime s).

Lemma handshake_ok s (i : IO) st event :
  hs_inv (s, i) -> connect_handshake (E := E) (s, i) = (st, Some (Ok event)) ->
  exists ack h workspace s1 i1, answered s ack h workspace s1 i1 /\
    (exists packet, fetched s i packet i1 /\ from_buffer packet = Ok (ReceivedPacket.ConnAck ack)) /\
    finish_connect (E := E) (session_present ack) workspace h
      (started (session_present ack) s1, i1) = (st, Some (Ok event)).
Proof.
  intros Hs. unfold connect_handshake. rewrite abind_aget. cbv beta.
  intros ([s1 i1] & workspace & H1 & Hf)%abind_inv_ok.
  pose proof (keeps_send_connect (s, i) Hs) as Hs1. rewrite H1 in Hs1. pose proof H1 as H0.
  apply send_connect_ok in H1 as (Hc1 & Hsp & Hlen); [|done].
  apply abind_inv_ok in Hf as ([s2 i2] & [] & H2 & Hf).
  pose proof (keeps_hs_fill (s1, i1) Hs1) as Hs2. rewrite H2 in Hs2.
  destruct (hs_fill_ok _ _ _ (proj1 (proj2 (proj1 Hs1))) H2) as (r & i' & Hst & Hfill & Hwr & Har).
  injection Hst as -> ->.
  assert (fetched s i (received r) i') as Hgot by (by exists s1, i1, workspace, r).
  apply abind_inv_ok in Hf as ([s3 i3] & ack & H3 & Hf).
  pose proof (keeps_hs_receive (_, i') Hs2) as Hs3. rewrite H3 in Hs3.
  pose proof (hs_receive_ok (set_reader s1 r) _ _ _ Hwr H3) as Hack.
  apply hs_receive_connack in H3 as ([= -> ->] & Hb); [|done|done].
  apply abind_inv_ok in Hf as (st4 & [] & H4 & Hf). unfold alift in H4. injection H4 as <- H4.
  apply abind_inv_ok in Hf as ([s5 i5] & [] & H5 & Hf). unfold apply_connack in Hf; rewrite abind_aget in Hf. cbv beta in Hf.
  set (s3 := set_reader (set_reader s1 r) _) in *. set (i3 := i') in *.
  assert (carried s s3) as Hc3 by (by apply (carried_trans s s1), (carried_trans s1 (set_reader s1 r)); try apply carried_reader).
  assert ((s5, i5) = (started (session_present ack) s3, i3)) as [= -> ->].
  { unfold started. destruct (session_present ack); by injection H5 as <- <-. }
  assert (local_settings (fst (started (session_present ack) s3, i3)) = local_settings s) as Hls.
  { unfold local_settings, started. f_equal. transitivity (keepalive_interval (sruntime s3));
      [by destruct (session_present ack)|apply Hc3]. }
  rewrite Hls in Hf. destruct (apply_properties _ _ _ _) as [h|e] eqn:Ha; [|done].
  exists ack, h, workspace, s3, i3. split; [|split; [by exists (received r)|done]]. split_and!; try done.
  unfold as_result in H4. by destruct (success _).
Qed.

(** * Operations across the handshake *)

(** What decides the status of operations. *)
Definition footprint (d : SessionData) : Z * list (OpKind * Z) * list Z :=
  (generation d, map (fun e => (rp_kind e, rp_packet_id e)) (retained (outbound d)),
   map pr_packet_id (pending_release (outbound d))).

Lemma footprint_op_live op d d' : footprint d' = footprint d -> op_live op d -> op_live op d'.
Proof.
  unfold footprint. intros [= Hg Hr Hp] [Ho Hl]. split; [congruence|].
  destruct Hl as [(e & He & Hk & Hi)|[Hk Hid]]; [|right; by rewrite Hp].
  apply (list_elem_of_fmap_2 (fun e => (rp_kind e, rp_packet_id e))) in He. left.
  change (fmap (M := list)) with (@map RetainedPacket (OpKind * Z)) in He. rewrite <- Hr in He.
  apply list_elem_of_fmap in He as (e' & [= H1 H2] & He'). exists e'. split_and!; congruence.
Qed.

Lemma wrapping_succ_ne g : u32_wrapping_add g 1 <> g.
Proof.
  unfold u32_wrapping_add. intros He. pose proof (Z.mod_pos_bound (g + 1) (2 ^ 32) eq_refl).
  destruct (Z.eq_dec g (2 ^ 32 - 1)) as [->|Hne]; [done|]. rewrite Z.mod_small in He; lia.
Qed.

Lemma dropped_invalidated op d d' l1 l2 :
  footprint d' = (u32_wrapping_add (generation d) 1, l1, l2) -> op_generation op = generation d ->
  status d' op = Invalidated.
Proof.
  unfold footprint, status. intros [= Hg _ _] Hop. rewrite Hop, Hg.
  destruct (Z.eqb_spec (generation d) (u32_wrapping_add (generation d) 1)) as [He|]; [|done].
  by destruct (wrapping_succ_ne (generation d)).
Qed.

Lemma footprint_arm_replay d : footprint (set_outbound d (arm_replay (outbound d))) = footprint d.
Proof.
  unfold footprint, arm_replay. destruct (negb _); [done|]. simpl. by rewrite !map_map.
Qed.

Definition footprint_is f (st : Session * IO) : Prop := footprint (sdata (fst st)) = f.

Lemma footprint_fail {A} f (e : Error E) : keeps (footprint_is f) (hs_fail (A := A) e).
Proof. intros [s i] Hs. unfold footprint_is in *. simpl. by rewrite footprint_arm_replay. Qed.

Lemma footprint_io {A} f (m : Async IO (Error E) A) : keeps (footprint_is f) (hs_io m).
Proof. intros [s i] Hs. unfold hs_io. by destruct (m i). Qed.

Lemma footprint_workspace f len : keeps (footprint_is f) (hs_set_connect_workspace (E := E) len).
Proof.
  intros [s i] Hs. unfold hs_set_connect_workspace, set_connect_workspace.
  destruct (usize_checked_sub _ _); [|done]. by destruct (_ <? _).
Qed.

Lemma footprint_map f g :
  (forall s, footprint (sdata (g s)) = footprint (sdata s)) ->
  keeps (footprint_is f) (map_session (E := E) g).
Proof. intros Hg. apply keeps_amodify. intros [s i] Hs. unfold footprint_is in *. simpl in *. by rewrite Hg. Qed.

Lemma footprint_send f : keeps (footprint_is f) (send_connect (IO := IO) (E := E)).
Proof.
  apply keeps_abind.
  { intros [s i] Hs. unfold encode_connect. by destruct (encode_with_offset _ _). }
  intros [off p]. apply keeps_abind; [apply footprint_io|]. intros _.
  apply keeps_abind; [apply footprint_io|]. intros _.
  apply keeps_abind; [apply footprint_workspace|]. intros _.
  apply keeps_abind; [by apply footprint_map|]. intros _. apply keeps_aret.
Qed.

Lemma footprint_fill f : keeps (footprint_is f) (hs_fill (IO := IO) (E := E)).
Proof.
  intros [s i] Hs. unfold hs_fill. destruct (fill_packet_reader _ _) as [[r i'] [[[]|e]|]]; try done.
  by apply (footprint_fail (A := unit) f e (_, i')).
Qed.

Lemma footprint_receive f : keeps (footprint_is f) (hs_receive (IO := IO) (E := E)).
Proof.
  intros [s i] Hs. unfold hs_receive. destruct (received_packet _) as [r [packet|e]];
    [destruct packet; try done|]; by apply (footprint_fail (A := ConnAck) f _ (_, i)).
Qed.

Lemma footprint_finish f resumed workspace h :
  keeps (footprint_is f) (finish_connect (IO := IO) (E := E) resumed workspace h).
Proof.
  apply keeps_abind; [by apply footprint_map|]. intros _. apply keeps_abind.
  { destruct (hs_assigned_client_id h); [|apply keeps_aret].
    apply keeps_abind; [apply footprint_workspace|]. intros _. by apply footprint_map. }
  intros _. apply keeps_abind; [by apply footprint_map|]. intros _.
  apply keeps_abind; [apply footprint_io|]. intros t.
  apply keeps_abind; [by apply footprint_map|]. intros _. apply keeps_aret.
Qed.

(** A broker's acceptance that starts a fresh session. *)
Definition fresh_connack (packet : bytes) (ack : ConnAck) : Prop :=
  from_buffer packet = Ok (ReceivedPacket.ConnAck ack) /\
  success (connack_reason_code ack) = true /\ session_present ack = false.

(** The whole handshake keeps all operations, or drops them all because the
    broker has a fresh session. *)
Definition kept_or_dropped (d : SessionData) (s : Session) (i : IO) (d' : SessionData) : Prop :=
  footprint d' = footprint d \/
  (footprint d' = (u32_wrapping_add (generation d) 1, [], []) /\
   exists packet i' ack, fetched s i packet i' /\ fresh_connack packet ack).

Lemma footprint_after {A B} f (Q : Session * IO -> Prop) (m : HS A) (k : A -> HS (E := E) B) st :
  keeps (footprint_is f) m -> (forall st, footprint_is f st -> Q st) ->
  (forall a st', m st = (st', Some (Ok a)) -> footprint_is f st' -> Q (fst (k a st'))) ->
  footprint_is f st -> Q (fst (abind m k st)).
Proof.
  intros Hm HQ Hk Hst. specialize (Hm st Hst). specialize (fun a st' => Hk a st'). unfold abind.
  destruct (m st) as [st' [[a|e]|]]; simpl in *; [by apply Hk|by apply HQ|by apply HQ].
Qed.

Lemma apply_connack_footprint old_id workspace ack f (Q : Session * IO -> Prop) st :
  (forall st, footprint_is f st -> Q st) -> footprint_is f st ->
  Q (fst (apply_connack (E := E) old_id workspace ack st)).
Proof.
  intros Hf Hst. unfold apply_connack. rewrite abind_aget. cbv beta.
  destruct (apply_properties _ _ _ _).
  - by apply Hf, footprint_finish.
  - by apply Hf, (footprint_fail (A := ConnectEvent)).
Qed.

Lemma handshake_footprint d s (i : IO) :
  hs_inv (s, i) -> footprint (sdata s) = footprint d ->
  kept_or_dropped d s i (sdata (fst (fst (connect_handshake (IO := IO) (E := E) (s, i))))).
Proof.
  intros Hs Hd. set (Q := fun st : Session * IO => kept_or_dropped d s i (sdata (fst st))).
  change (Q (fst (connect_handshake (E := E) (s, i)))).
  assert (forall st, footprint_is (footprint d) st -> Q st) as HQ by (intros st' H'; by left).
  unfold connect_handshake. apply (footprint_after (footprint d)); [apply keeps_aget|done| |done].
  intros old_id st1 [= <- _] H1.
  apply (footprint_after (footprint d)); [apply footprint_send|done| |done].
  intros workspace [s2 i2] Hsend H2.
  pose proof (keeps_send_connect (s, i) Hs) as Hs2. rewrite Hsend in Hs2.
  apply (footprint_after (footprint d)); [apply footprint_fill|done| |done].
  intros [] st3 Hfill H3.
  destruct (hs_fill_ok _ _ _ (proj1 (proj2 (proj1 Hs2))) Hfill) as (r & i3 & -> & Hf & Hwr & Har).
  apply (footprint_after (footprint d)); [apply footprint_receive|done| |done].
  intros ack st4 [-> Hp]%hs_receive_connack H4; [|done|done].
  apply (footprint_after (footprint d)); [apply keeps_alift|done| |done].
  intros u [s5 i5] Hr H5. unfold alift, as_result in Hr.
  destruct (success (connack_reason_code ack)) eqn:Hok; [|done].
  destruct (session_present ack) eqn:Hsp.
  { by apply (apply_connack_footprint old_id workspace ack (footprint d) Q (s5, i5)). }
  apply (apply_connack_footprint old_id workspace ack
    (u32_wrapping_add (generation d) 1, [], []) Q (_, i5)).
  { intros st' H'. right. split; [done|]. exists (received r), i3, ack. split; [|by split_and!].
    by exists s2, i2, workspace, r. }
  unfold footprint_is, footprint in *. simpl in *. by injection H5 as <- _ _.
Qed.

(** The result of [connect], as the handshake on a prepared session. *)
Lemma connect_unfold s (i : IO) :
  connect (E := E) (s, i) =
  match connect_handshake (prepare_connect s, i) with
  | (st, Some (Ok event)) => (st, Some (Ok (mkConnection (fst st) (snd st) event true Clean)))
  | (st, Some (Err e)) => (st, Some (Err e))
  | (st, None) => (st, None)
  end.
Proof.
  unfold connect, abind at 1, map_session, amodify, abind at 1.
  by destruct (connect_handshake (E := E) _) as [[s1 i1] [[ev|e]|]].
Qed.

Lemma connect_footprint s (i : IO) :
  session_ok s ->
  kept_or_dropped (sdata s) (prepare_connect s) i (sdata (fst (fst (connect (E := E) (s, i))))).
Proof.
  intros Hs. rewrite connect_unfold.
  pose proof (handshake_footprint (sdata s) (prepare_connect s) i (prepare_connect_hs s i Hs)
    (footprint_arm_replay (sdata s))) as Hf.
  by destruct (connect_handshake (E := E) (prepare_connect s, i)) as [st [[ev|e]|]].
Qed.

Lemma connect_keeps s (i : IO) : session_ok s -> hs_inv (fst (connect (E := E) (s, i))).
Proof.
  intros Hs. rewrite connect_unfold.
  pose proof (keeps_handshake (prepare_connect s, i) (prepare_connect_hs s i Hs)) as Hk.
  by destruct (connect_handshake (E := E) _) as [st [[ev|e]|]].
Qed.

Lemma connect_conn_inv s (i : IO) st c :
  session_ok s -> connect (E := E) (s, i) = (st, Some (Ok c)) ->
  conn_inv c /\ st = (session c, io c) /\ live c = true.
Proof.
  intros Hs Hc. pose proof (connect_keeps s i Hs) as Hk. rewrite Hc in Hk.
  rewrite connect_unfold in Hc. destruct (connect_handshake _) as [st1 [[ev|e]|]]; try done.
  injection Hc as <- <-. destruct Hk as [(Hi & Hr & _) Hf]. split; [by split_and!|by destruct st1].
Qed.
End HandshakeProofs.

(** * What the transport delivered to the handshake *)

Section Received.
Context {IO E : Type} `{Transport IO E} {T : Time} `{!Clock IO T} `{!Delivering IO E T}.

Definition delivered (x : bytes) (st : Session * IO) : Prop := io_received (snd st) = x.

Lemma delivered_io {A} x (m : Async IO (Error E) A) :
  keeps (fun i => io_received i = x) m -> keeps (delivered x) (hs_io m).
Proof. intros Hm [s i] Hi. specialize (Hm i Hi). unfold hs_io. by destruct (m i). Qed.

Lemma delivered_map x f : keeps (delivered x) (map_session (IO := IO) (E := E) f).
Proof. apply keeps_amodify. by intros [s i]. Qed.

Lemma delivered_workspace x len : keeps (delivered x) (hs_set_connect_workspace (E := E) len).
Proof.
  intros [s i] Hs. unfold hs_set_connect_workspace. by destruct (set_connect_workspace _ len).
Qed.

Lemma delivered_fail {A} x (e : Error E) : keeps (delivered x) (hs_fail (IO := IO) (A := A) e).
Proof. by intros [s i]. Qed.

Lemma write_delivers_nothing x bs : keeps (fun i => io_received i = x) (write (IO := IO) (E := E) bs).
Proof.
  intros i Hi. pose proof (write_received i bs) as Hw. unfold write.
  destruct (io_write i bs) as [i' r]. simpl in *. congruence.
Qed.

Lemma write_all_delivers_nothing x bs :
  keeps (fun i => io_received i = x) (write_all (IO := IO) (E := E) bs).
Proof.
  unfold write_all. generalize (S (length bs)) as fuel. intros fuel. revert bs.
  induction fuel as [|fuel IH]; intros bs; [by intros i|]. simpl.
  destruct bs as [|b bs]; [apply keeps_aret|].
  apply keeps_abind; [apply write_delivers_nothing|]. intros n.
  destruct (n =? 0); [apply keeps_araise|apply IH].
Qed.

Lemma delivered_send x : keeps (delivered x) (send_connect (IO := IO) (E := E)).
Proof.
  apply keeps_abind.
  { intros [s i] Hs. unfold encode_connect. by destruct (encode_with_offset _ _). }
  intros [off p]. apply keeps_abind; [apply delivered_io, write_all_delivers_nothing|]. intros _.
  apply keeps_abind.
  { apply delivered_io. intros i Hi. pose proof (flush_received i) as Hw. unfold flush.
    destruct (io_flush i). simpl in *. congruence. }
  intros _. apply keeps_abind; [apply delivered_workspace|]. intros _.
  apply keeps_abind; [apply delivered_map|]. intros _. apply keeps_aret.
Qed.

Lemma delivered_finish x resumed workspace h :
  keeps (delivered x) (finish_connect (IO := IO) (E := E) resumed workspace h).
Proof.
  apply keeps_abind; [apply delivered_map|]. intros _. apply keeps_abind.
  { destruct (hs_assigned_client_id h); [|apply keeps_aret].
    apply keeps_abind; [apply delivered_workspace|]. intros _. apply delivered_map. }
  intros _. apply keeps_abind; [apply delivered_map|]. intros _. apply keeps_abind.
  { apply delivered_io. intros i Hi. pose proof (now_received i) as Hw. destruct (now i).
    simpl in *. congruence. }
  intros t. apply keeps_abind; [apply delivered_map|]. intros _. apply keeps_aret.
Qed.

(** What follows the CONNACK reads nothing. *)
Lemma delivered_answer x old_id workspace :
  keeps (delivered x)
    (let* ack := hs_receive in
     do* alift (map_err Error.Peer (as_result (connack_reason_code ack))) in
     do* (if session_present ack then aret tt
          else map_session (fun s => set_state s (session_reset (sdata s)) (sruntime s))) in
     apply_connack (IO := IO) (E := E) old_id workspace ack).
Proof.
  apply keeps_abind.
  { intros [s i] Hs. unfold hs_receive. destruct (received_packet _) as [r [p|e]]; [|done].
    by destruct p. }
  intros ack. apply keeps_abind; [apply keeps_alift|]. intros _.
  apply keeps_abind; [destruct (session_present ack); [apply keeps_aret|apply delivered_map]|].
  intros _. apply keeps_abind; [apply keeps_aget|]. intros s.
  destruct (apply_properties _ _ _ _); [apply delivered_finish|apply delivered_fail].
Qed.

Lemma send_connect_reader s (i : IO) :
  packet_reader (fst (fst (send_connect (E := E) (s, i)))) = packet_reader s.
Proof.
  set (P := fun st : Session * IO => packet_reader (fst st) = packet_reader s).
  assert (keeps P (send_connect (IO := IO) (E := E))) as Hk; [|by apply (Hk (s, i))].
  apply keeps_abind.
  { intros [s1 i1] Hs. unfold encode_connect. by destruct (encode_with_offset _ _). }
  intros [off p].
  assert (forall A (m : Async IO (Error E) A), keeps P (hs_io m)) as Hio
    by (intros A m [s1 i1] Hs; unfold hs_io; by destruct (m i1)).
  apply keeps_abind; [apply Hio|]. intros _. apply keeps_abind; [apply Hio|]. intros _.
  apply keeps_abind.
  { intros [s1 i1] Hs. unfold hs_set_connect_workspace. by destruct (set_connect_workspace _ _). }
  intros _. apply keeps_abind; [by apply keeps_amodify; intros [s1 i1]|]. intros _. apply keeps_aret.
Qed.

(** The packet a handshake read is all that the transport delivered to it. *)
Lemma handshake_received s (i : IO) packet i' :
  hs_inv (s, i) -> received (packet_reader s) = [] -> fetched (E := E) s i packet i' ->
  io_received (snd (fst (connect_handshake (E := E) (s, i)))) = io_received i ++ packet.
Proof.
  intros Hs Hnil (s0 & i0 & workspace & r & Hsend & Hhs & Hfill & ->).
  pose proof (send_connect_reader s i) as Hrd. pose proof (delivered_send _ (s, i) eq_refl) as Hd.
  rewrite Hsend in Hrd, Hd. unfold delivered in Hd. simpl in Hrd, Hd.
  destruct (fill_loop_received _ _ _ _ _ _ (eq_ind_r reader_wf (proj1 (proj2 (proj1 Hs))) Hrd) Hfill)
    as (more & Hmore & Hlog). rewrite Hrd, Hnil in Hmore. simpl in Hmore. subst more.
  unfold connect_handshake. rewrite abind_aget, (abind_ok _ _ _ _ _ Hsend), (abind_ok _ _ _ _ _ Hhs).
  apply delivered_answer. unfold delivered. simpl. by rewrite Hlog, Hd.
Qed.

Lemma connect_received s (i : IO) packet i' :
  session_ok s -> fetched (E := E) (prepare_connect s) i packet i' ->
  io_received (snd (fst (connect (E := E) (s, i)))) = io_received i ++ packet.
Proof.
  intros Hs Hf. rewrite connect_unfold.
  pose proof (handshake_received _ i packet i' (prepare_connect_hs s i Hs) eq_refl Hf) as Hr.
  by destruct (connect_handshake (E := E) _) as [st [[ev|e]|]].
Qed.
End Received.

(** * Theorems *)

(** C11: connecting decides about all operations in flight together. Whatever the
    outcome, an error or a dropped future included, either every operation that
    was in flight still is, or every operation of the old session reports
    [Invalidated]; and the latter happens only when the bytes the transport delivered
    to this connect are a CONNACK that reports success and no session present. *)
Theorem connect_keeps_operations {IO E} `{Transport IO E} {T : Time} `{!Clock IO T}
    `{!Delivering IO E T} (s : Session) (i : IO) :
  session_ok s ->
  let '((s', i'), _) := connect (E := E) (s, i) in
  (forall op, op_live op (sdata s) -> op_live op (sdata s')) \/
  ((forall op, op_generation op = generation (sdata s) -> status (sdata s') op = Invalidated) /\
   exists packet ack, io_received i' = io_received i ++ packet /\
     from_buffer packet = Ok (ReceivedPacket.ConnAck ack) /\
     success (connack_reason_code ack) = true /\ session_present ack = false).
Proof.
  intros Hs. pose proof (connect_footprint (E := E) s i Hs) as Hf.
  pose proof (fun packet i1 => connect_received s i packet i1 Hs) as Hrec.
  destruct (connect (E := E) (s, i)) as [[s' i'] res]. simpl in *.
  destruct Hf as [Hf|[Hf (packet & i1 & ack & Hgot & Hack)]]; [left|right; split];
    try intros op Hop.
  - by eapply footprint_op_live.
  - by eapply dropped_invalidated.
  - exists packet, ack. split; [by apply (Hrec packet i1)|done].
Qed.

(** The session after a broker accepted the CONNECT of [s] with [ack]: the quota is the
    Receive Maximum of the CONNACK, at most 8; the limits on QoS and packet size, the
    keepalive and the client identifier are those it announces, or else none, the old
    keepalive and the old identifier. *)
Definition accepted {T : Time} (s : Session) (ack : ConnAck) (s' : Session) : Prop :=
  success (connack_reason_code ack) = true /\
  session_present_flag (sdata s') = true /\
  session_resumed (sruntime s') = session_present ack /\
  ping_timeout (sruntime s') = None /\
  exists ps, iter (connack_properties ack) = map Ok ps /\ Forall (permitted (client_id s)) ps /\
    let quota := from_option (fun max => Z.min max 8) 8 (announced receive_maximum ps) in
    send_quota (sruntime s') = quota /\ max_send_quota (sruntime s') = quota /\ 1 <= quota <= 8 /\
    max_qos (sruntime s') = announced qos_limit ps /\
    maximum_packet_size (sruntime s') = announced packet_size_limit ps /\
    keepalive_interval (sruntime s') =
      default (keepalive_interval (sruntime s)) (announced server_keep_alive ps) /\
    client_id s' = default (client_id s) (announced assigned_client_id ps).

(** A resumed session sends again what it had in flight. *)
Definition resumes (d d' : SessionData) : Prop :=
  generation d' = generation d /\ packet_id d' = packet_id d /\
  pending_server_packet_ids d' = pending_server_packet_ids d /\
  view (outbound d') = map replay_entry (view (outbound d)) /\
  pending_control (outbound d') =
    map (fun p => set_pc_state p (Write 0)) (pending_control (outbound d)) /\
  pending_release (outbound d') =
    map (fun p => set_pr_state p (Write 0)) (pending_release (outbound d)).

(** A fresh session has nothing in flight. *)
Definition restarts (d d' : SessionData) : Prop :=
  generation d' = u32_wrapping_add (generation d) 1 /\ packet_id d' = 1 /\
  pending_server_packet_ids d' = [] /\ view (outbound d') = [] /\
  pending_control (outbound d') = [] /\ pending_release (outbound d') = [].

Lemma resumes_intro {T : Time} (s s1 s' : Session) :
  session_ok s -> carried (prepare_connect s) s1 ->
  set_outbound (sdata s') (outbound (sdata s1)) = mark_session_present (sdata s1) ->
  view (outbound (sdata s')) = view (outbound (sdata s1)) ->
  pending_control (outbound (sdata s')) = pending_control (outbound (sdata s1)) ->
  pending_release (outbound (sdata s')) = pending_release (outbound (sdata s1)) ->
  resumes (sdata s) (sdata s').
Proof.
  intros Hs (_ & _ & _ & _ & _ & _ & Hd1 & Hv1 & Hc1 & Hr1) Hd Hv Hc Hr.
  destruct Hs as [[((Hwf & _) & _) _] _].
  destruct (arm_replay_spec _ Hwf) as (_ & Hv0 & Hc0 & Hr0 & _).
  unfold set_outbound, mark_session_present in *. injection Hd as Hid Hg Hsv _.
  unfold prepare_connect, set_session_outbound, set_outbound in *. simpl in *.
  injection Hd1 as Hid1 Hg1 Hsv1 _. split_and!; congruence.
Qed.

Lemma restarts_intro {T : Time} (s s1 s' : Session) :
  carried (prepare_connect s) s1 ->
  set_outbound (sdata s') (outbound (session_reset (sdata s1))) =
    mark_session_present (session_reset (sdata s1)) ->
  view (outbound (sdata s')) = [] -> pending_control (outbound (sdata s')) = [] ->
  pending_release (outbound (sdata s')) = [] -> restarts (sdata s) (sdata s').
Proof.
  intros (_ & _ & _ & _ & _ & _ & Hd1 & _) Hd Hv Hc Hr.
  unfold set_outbound, mark_session_present in *. injection Hd as Hid Hg Hsv _.
  unfold prepare_connect, set_session_outbound, set_outbound in *. simpl in *.
  injection Hd1 as _ Hg1 _ _. split_and!; congruence.
Qed.

Lemma accepted_intro {T : Time} (s s1 s' : Session) ack h t :
  success (connack_reason_code ack) = true ->
  apply_properties (client_id s) max_inflight (local_settings s)
    (iter (connack_properties ack)) = Ok h ->
  settings_ok (client_id s) h -> carried (prepare_connect s) s1 ->
  client_id s' = default (client_id s1) (hs_assigned_client_id h) ->
  session_present_flag (sdata s') = true ->
  sruntime s' = set_ping_timeout
    (note_outbound_activity (activate (session_present ack) h (sruntime s1)) t) None ->
  accepted s ack s'.
Proof.
  intros Hsuc Happ (Hq & Hm & _) Hcar Hid Hpres Hrt. destruct Hcar as (Hid1 & _).
  apply apply_properties_reads in Happ as (ps & Hps & Hf & R1 & R2 & R3 & R4 & R5).
  unfold accepted. rewrite Hrt, Hid, Hid1. cbn. split_and!; try done.
  exists ps. rewrite Hm, R2, R3, R4, R5. change max_inflight with 8 in Hq.
  assert (forall A (o : option A), from_option Some None o = o) as Hsome by (by intros ? []).
  rewrite R1 in Hq |- *.
  split_and!; try done; [apply Hq|apply Hq|].
  f_equal. apply Hsome.
Qed.

(** C10: the outcome of a successful [connect]. The bytes the transport delivered to it
    are one packet, a CONNACK that reports success and carries only well-formed
    properties the client permits. The quota is the Receive Maximum it announces, cut to
    what the session can hold, hence between 1 and 8; the limits on QoS and packet size,
    the keepalive and an assigned client identifier are those it announces. If it says
    that the session is present, everything in flight is sent again from its first byte,
    publishes with the DUP flag, and the reserved inbound QoS 2 identifiers are kept;
    otherwise nothing is in flight and the generation is a new one. *)
Theorem connect_outcome {IO E} `{Transport IO E} {T : Time} `{!Clock IO T}
    `{!Delivering IO E T} (s : Session) (i : IO) st c :
  session_ok s -> connect (E := E) (s, i) = (st, Some (Ok c)) ->
  exists packet ack, io_received (io c) = io_received i ++ packet /\
    from_buffer packet = Ok (ReceivedPacket.ConnAck ack) /\
    accepted s ack (session c) /\
    if session_present ack
    then event c = ConnectEvent.Reconnected /\ resumes (sdata s) (sdata (session c))
    else event c = ConnectEvent.Connected /\ restarts (sdata s) (sdata (session c)).
Proof.
  intros Hs Hc. pose proof (fun packet i1 => connect_received s i packet i1 Hs) as Hrec.
  rewrite Hc in Hrec. rewrite connect_unfold in Hc.
  destruct (connect_handshake _) as [st1 [[ev|e]|]] eqn:Hh; try done. injection Hc as <- <-.
  pose proof (prepare_connect_hs s i Hs) as Hp.
  apply handshake_ok in Hh as (ack & h & workspace & s1 & i1 & Ha & (packet & Hgot & Hb) & Hf);
    [|done].
  destruct Ha as (Hi1 & Hcar & Hsp & Hlen & Hsuc & Hits & Happ).
  assert (settings_ok (client_id s) h) as Hset
    by (eapply apply_properties_ok; [apply local_settings_ok|exact Hits|exact Happ]).
  apply finish_connect_ok in Hf as (-> & Hid & _ & _ & Hd & Hv & Hpc & Hpr & _ & t & Hrt);
    [|eapply activate_hs; [|exact Hset]; unfold started;
      destruct (session_present ack); [done|by apply reset_hs]
     |by eapply connect_space_nonneg].
  assert (client_id (started (session_present ack) s1) = client_id s1 /\
    sruntime (started (session_present ack) s1) = sruntime s1) as [Hids Hrts]
    by (unfold started; by destruct (session_present ack)).
  rewrite Hids in Hid. rewrite Hrts in Hrt.
  exists packet, ack. split; [by apply (Hrec packet i1)|]. split; [done|]. split.
  - eapply accepted_intro; [done..|exact Hcar|exact Hid| |exact Hrt].
    apply (f_equal session_present_flag) in Hd. exact Hd.
  - simpl. destruct (session_present ack); (split; [done|]).
    + by eapply resumes_intro.
    + by eapply restarts_intro.
Qed.

(** A session with publish 7 in flight, and a broker that resumes it and allows
    three packets at a time. *)
Definition demo_offline : Session (T := Scripted.time) := session (demo_conn []).

Definition demo_broker : Scripted.IO := Scripted.mkIO [[0x20; 6; 1]; [0; 3; 33; 0; 3]] [] [] 0 1.

Lemma demo_offline_ok : session_ok demo_offline.
Proof. destruct (demo_conn_inv []) as (Hs & Hr & _). by split_and!. Qed.

(** The same broker with a log of what it delivered. *)
Definition demo_logged : Logged.Log Scripted.IO := (demo_broker, []).

Definition demo_check (r : option (result (Error unit) (Connection (Logged.Log Scripted.IO)))) : bool :=
  match r with
  | Some (Ok c) => (send_quota (conn_runtime c) =? 3) &&
      bool_decide (live_ids (conn_outbound c) = [7; 8]) &&
      bool_decide (io_received (io c) = [0x20; 6; 1; 0; 3; 33; 0; 3])
  | _ => false
  end.

Lemma demo_resumes : demo_check (snd (connect (E := unit) (demo_offline, demo_logged))) = true.
Proof. vm_compute. reflexivity. Qed.

Lemma connect_outcome_witness :
  exists st c, connect (E := unit) (demo_offline, demo_logged) = (st, Some (Ok c)) /\
    send_quota (conn_runtime c) = 3 /\ live_ids (conn_outbound c) = [7; 8] /\
    exists packet ack, io_received (io c) = [] ++ packet /\
      from_buffer packet = Ok (ReceivedPacket.ConnAck ack) /\ accepted demo_offline ack (session c).
Proof.
  pose proof demo_resumes as Hd.
  destruct (connect (E := unit) (demo_offline, demo_logged)) as [st [[c|e]|]] eqn:Hr; [|discriminate Hd|discriminate Hd].
  exists st, c. apply andb_prop in Hd as [Hd _]. apply andb_prop in Hd as [H1%Z.eqb_eq H2%bool_decide_eq_true].
  split; [reflexivity|]. split; [exact H1|]. split; [exact H2|].
  destruct (connect_outcome (E := unit) demo_offline demo_logged st c demo_offline_ok Hr)
    as (packet & ack & R1 & R2 & R3 & _).
  exists packet, ack. exact (conj R1 (conj R2 R3)).
Defined.

Lemma connect_keeps_operations_witness :
  let '((s', i'), _) := connect (E := unit) (demo_offline, demo_logged) in
  (forall op, op_live op (sdata demo_offline) -> op_live op (sdata s')) \/
  exists packet, io_received i' = [] ++ packet.
Proof.
  pose proof (connect_keeps_operations (E := unit) demo_offline demo_logged demo_offline_ok) as H.
  destruct (connect (E := unit) (demo_offline, demo_logged)) as [[s' i'] r].
  destruct H as [H|(_ & packet & ack & H & _)]; [left; exact H|right; exists packet; exact H].
Defined.
