(* ===== verification/Lifecycle.v ===== *)
(** Sessions over their whole life: created from a configuration, connected,
    used, dropped and connected again, in any order and with any outcome
    ([src/minimq/src/mqtt_client/session/mod.rs] on top of the other files). *)

From S2P Require Import Prelude Varint Types Io Wire Ser De Properties Packets Received.
From S2P Require Import PacketReader Outbound Config Session Connection Driver Operations.
From S2P Require Import Handshake.

(** * What a connection leaves alone *)

Create HintDb setup.

Section Setup.
Context {IO E : Type} `{Transport IO E} {T : Time} `{!Clock IO T}.

(** The CONNECT of a session, and the space reserved for it. *)
Definition setup (s : Session) : bytes * option Will * option Auth * Z :=
  (client_id s, will s, auth s, connect_workspace (outbound (sdata s))).

Definition setup_is x (c : Connection IO) : Prop := setup (session c) = x.

Lemma arm_replay_workspace o : connect_workspace (arm_replay o) = connect_workspace o.
Proof. unfold arm_replay. by destruct (negb _). Qed.

Lemma setup_disconnect x c : setup_is x c -> setup_is x (handle_disconnect c).
Proof.
  unfold setup_is, setup. simpl. by rewrite arm_replay_workspace.
Qed.

Lemma setup_outbound x c o :
  setup_is x c -> connect_workspace o = connect_workspace (conn_outbound c) ->
  setup_is x (set_conn_outbound c o).
Proof. unfold setup_is, setup. simpl. by intros Hc ->. Qed.

Lemma setup_with_outbound x {A} (f : Outbound -> Outbound * result (Error E) A) :
  (forall o, connect_workspace (fst (f o)) = connect_workspace o) ->
  keeps (setup_is x) (with_outbound f).
Proof.
  intros Hf c Hc. unfold with_outbound. specialize (Hf (conn_outbound c)).
  destruct (f (conn_outbound c)). by apply setup_outbound.
Qed.

Lemma setup_on_io x {A} (m : Async IO (Error E) A) : keeps (setup_is x) (on_io m).
Proof. intros c Hc. unfold on_io. by destruct (m (io c)). Qed.

Lemma setup_now x : keeps (setup_is x) (instant_now (IO := IO) (E := E)).
Proof. intros c Hc. unfold instant_now. by destruct (now (io c)). Qed.

Lemma setup_require x : keeps (setup_is x) (require_live (IO := IO) (E := E)).
Proof. by intros c Hc. Qed.

Lemma setup_fail x {A} (e : Error E) : keeps (setup_is x) (fail_disconnected (A := A) e).
Proof. intros c Hc. by apply setup_disconnect. Qed.

Lemma setup_or_disconnect x {A} (m : C IO E A) :
  keeps (setup_is x) m -> keeps (setup_is x) (or_disconnect m).
Proof.
  intros Hm c Hc. specialize (Hm c Hc). unfold or_disconnect.
  destruct (m c) as [c' [[a|e]|]]; simpl in *; [done|by apply setup_disconnect|done].
Qed.
End Setup.

#[export] Hint Resolve setup_on_io setup_now setup_require setup_fail setup_or_disconnect : setup.
#[export] Hint Extern 1 (keeps (setup_is _) (amodify _)) =>
  (apply keeps_amodify; intros ? ?; done) : setup.

(** Walk through the binds and branches of a computation. *)
Ltac setup :=
  repeat match goal with
  | |- keeps _ (abind _ _) => apply keeps_abind; [|intros ?]
  | |- keeps _ (if ?b then _ else _) => destruct b
  | |- keeps _ (match ?b with _ => _ end) => destruct b
  end; auto with async setup.

Section SetupOps.
Context {IO E : Type} `{Transport IO E} {T : Time} `{!Clock IO T}.

Lemma setup_flush_current x : keeps (setup_is x) (flush_current (IO := IO) (E := E)).
Proof. unfold flush_current. setup. Qed.

Lemma setup_written x c packet written len :
  setup_is x c -> setup_is x (set_conn_written (IO := IO) c packet written len).
Proof.
  intros Hc. apply setup_outbound; [done|]. destruct packet; simpl.
  - unfold set_control_written. by destruct (_ !! _).
  - unfold set_release_written. by destruct (update_first _ _ _).
  - unfold set_retained_written. by destruct (update_first _ _ _).
Qed.

Lemma setup_prepare x step : keeps (setup_is x) (prepare_step (IO := IO) (E := E) step).
Proof. unfold prepare_step. setup. Qed.

Lemma setup_perform x step : keeps (setup_is x) (perform_outbound_step (IO := IO) (E := E) step).
Proof.
  unfold perform_outbound_step. apply keeps_abind; [apply setup_prepare|]. intros ws. setup.
  - apply keeps_amodify. intros c Hc. by apply setup_written.
Qed.

Lemma queue_control_workspace o a :
  connect_workspace (fst (queue_control o a)) = connect_workspace o.
Proof. unfold queue_control. by destruct (vec_push _ _ _). Qed.

Lemma setup_queue_pingreq x t : keeps (setup_is x) (maybe_queue_pingreq (IO := IO) (E := E) t).
Proof.
  unfold maybe_queue_pingreq. setup. apply setup_with_outbound. intros o.
  pose proof (queue_control_workspace o ControlAction.PingReq) as Hq.
  by destruct (queue_control _ _).
Qed.

Lemma setup_service_once x t : keeps (setup_is x) (service_outbound_once (IO := IO) (E := E) t).
Proof.
  unfold service_outbound_once.
  pose proof (setup_flush_current x). pose proof (setup_perform x). pose proof (setup_queue_pingreq x t).
  setup.
Qed.

Lemma setup_flush x : keeps (setup_is x) (flush_outbound (IO := IO) (E := E)).
Proof.
  apply keeps_arun. unfold flush_outbound_turn. pose proof (setup_service_once x). setup.
Qed.

Lemma setup_service x t : keeps (setup_is x) (service (IO := IO) (E := E) t).
Proof. unfold service. pose proof (setup_service_once x t). setup. Qed.
End SetupOps.

Section SetupDrive.
Context {IO E : Type} `{Transport IO E} {T : Time} `{!Clock IO T}.

Lemma setup_read x : keeps (setup_is x) (read_packet (IO := IO) (E := E)).
Proof.
  unfold read_packet. setup. apply setup_or_disconnect. intros c Hc.
  by destruct (fill_packet_reader _ _) as [[r i] res].
Qed.

Lemma handle_packet_workspace w p :
  hp_keeps (fun d => connect_workspace (outbound d) = w) (handle_packet p).
Proof.
  apply hp_keeps_handle; intros d; simpl; intros; try done.
  - by rewrite queue_control_workspace.
  - unfold ack_packet. by destruct (position _ _).
  - unfold ack_release. by destruct (position _ _).
  - unfold queue_release. by destruct (vec_push _ _ _).
Qed.

Lemma setup_process x : keeps (setup_is x) (process_received_packet (IO := IO) (E := E)).
Proof.
  intros c Hc. unfold process_received_packet. destruct (negb _); [done|].
  destruct (take_packet _) as [r [[len packet]|e]]; [|by apply setup_disconnect].
  set (c1 := set_session c _). assert (setup_is x c1) as Hc1 by done. clearbody c1.
  pose proof (handle_packet_workspace _ packet (conn_data c1, conn_runtime c1) eq_refl) as Hp.
  destruct (handle_packet _ _) as [[d rt] res]. simpl in Hp.
  set (c2 := set_conn_state c1 d rt). assert (setup_is x c2) as Hc2
    by (unfold setup_is, setup in *; simpl in *; by rewrite Hp).
  repeat (case_match; simplify_eq); first [exact Hc2 | by apply setup_disconnect | done].
Qed.

Definition setup_pair x (s : Connection IO * bool) : Prop := setup_is x (fst s).

Lemma setup_on_conn x {A} (m : C IO E A) :
  keeps (setup_is x) m -> keeps (setup_pair x) (on_conn m).
Proof. intros Hm [c b] Hc. specialize (Hm c Hc). unfold on_conn. by destruct (m c). Qed.

Lemma setup_advance x more : keeps (setup_pair x) (advance (IO := IO) (E := E) more).
Proof. by intros [c b] Hc. Qed.

Lemma setup_process_turn x : keeps (setup_pair x) (process_turn (IO := IO) (E := E)).
Proof.
  unfold process_turn. apply keeps_abind; [apply setup_on_conn, setup_process|].
  intros []; [apply keeps_aret|]. apply keeps_abind; [apply setup_advance|]. intros. apply keeps_aret.
Qed.

Lemma setup_drive_turn x : keeps (setup_pair x) (drive_turn (IO := IO) (E := E)).
Proof.
  pose proof (setup_process_turn x). pose proof (setup_advance x).
  pose proof (fun t => setup_on_conn x _ (setup_service_once (E := E) x t)).
  pose proof (fun t => setup_on_conn x _ (setup_service (E := E) x t)).
  pose proof (setup_on_conn x _ (setup_now (E := E) x)).
  unfold drive_turn. setup.
Qed.

Lemma setup_drive_packet x : keeps (setup_is x) (drive_packet (IO := IO) (E := E)).
Proof.
  unfold drive_packet. setup. intros c Hc.
  pose proof (keeps_arun (setup_pair x) (fun s => S (drive_measure s)) drive_turn
    (setup_drive_turn x) (c, false) Hc) as Hr.
  by destruct (arun _ drive_turn (c, false)) as [[c' b] r].
Qed.

Lemma setup_decode x len : keeps (setup_is x) (decode_inbound_publish (IO := IO) (E := E) len).
Proof. by intros c Hc. Qed.

Lemma setup_wait x turns : keeps (setup_is x) (wait_for_progress (IO := IO) (E := E) turns).
Proof.
  induction turns as [|turns IH]; [by intros c Hc|]. cbn [wait_for_progress].
  apply keeps_abind; [apply setup_drive_packet|]. intros [| |len]; try apply keeps_aret.
  apply keeps_abind; [apply keeps_aget|]. intros rt. destruct (next_deadline rt) as [deadline|].
  - intros c Hc. pose proof (setup_read x c Hc) as Hr.
    destruct (read_packet c) as [c' [[[]|e]|]]; simpl in *; [by apply IH|done|].
    destruct (deadline_expired (io c') deadline) as [i []]; [by apply IH|done].
  - apply keeps_abind; [apply setup_read|]. intros _. apply IH.
Qed.

Lemma setup_drive x : keeps (setup_is x) (drive (IO := IO) (E := E)).
Proof. pose proof (setup_drive_packet x). pose proof (setup_decode x). unfold drive. setup. Qed.

Lemma setup_poll x turns : keeps (setup_is x) (poll (IO := IO) (E := E) turns).
Proof. pose proof (setup_wait x turns). pose proof (setup_decode x). unfold poll. setup. Qed.

Lemma setup_recv x turns : keeps (setup_is x) (recv (IO := IO) (E := E) turns).
Proof.
  induction turns as [|turns IH]; [by intros c Hc|]. cbn [recv].
  apply keeps_abind; [apply setup_wait|]. intros [len|]; [apply setup_decode|apply IH].
Qed.
End SetupDrive.

Section SetupCalls.
Context {IO E : Type} `{Transport IO E} {T : Time} `{!Clock IO T}.

Lemma next_packet_id_workspace d :
  connect_workspace (outbound (fst (next_packet_id d))) = connect_workspace (outbound d).
Proof.
  unfold next_packet_id. generalize (next_packet_id_fuel d) as fuel. intros fuel. revert d.
  induction fuel as [|fuel IH]; intros d; simpl; [done|].
  case_match; [done|by rewrite IH].
Qed.

Lemma setup_take_packet_id x : keeps (setup_is x) (take_packet_id (IO := IO) (E := E)).
Proof.
  intros c Hc. unfold take_packet_id. pose proof (next_packet_id_workspace (conn_data c)) as Hw.
  destruct (next_packet_id _) as [d id]. unfold setup_is, setup in *. simpl in *.
  by rewrite Hw.
Qed.

Lemma pack_encoded_workspace o offset len :
  connect_workspace (fst (pack_encoded o offset len)) = connect_workspace o.
Proof. unfold pack_encoded. repeat case_match; done. Qed.

Lemma retain_packet_workspace o kind id len :
  connect_workspace (fst (retain_packet o kind id len)) = connect_workspace o.
Proof. unfold retain_packet. by destruct (vec_push _ _ _). Qed.

Lemma encode_packet_workspace {P} `{Serialize P, ControlPacket P} o (packet : P) :
  connect_workspace (fst (encode_packet o packet)) = connect_workspace o.
Proof.
  unfold encode_packet. destruct (encode_with_offset _ _) as [slice [[offset p]|e]]; [|done].
  pose proof (pack_encoded_workspace (set_slice o (retained_bytes o) (zlen (out_buf o)) slice)
    offset (zlen p)) as Hw.
  by destruct (pack_encoded _ _ _) as [o' []].
Qed.

Lemma encode_publish_workspace {P} o header (payload : ToPayload P) :
  connect_workspace (fst (encode_publish_out (E := E) o header payload)) = connect_workspace o.
Proof.
  unfold encode_publish_out.
  destruct (encode_publish_with_offset _ _ _ _) as [slice [[offset p]|e]]; [|done].
  pose proof (pack_encoded_workspace (set_slice o (retained_bytes o) (retained_capacity o) slice)
    offset (zlen p)) as Hw.
  by destruct (pack_encoded _ _ _) as [o' []].
Qed.

Lemma setup_retain x kind id len :
  keeps (setup_is x) (with_outbound (IO := IO) (E := E) (fun o =>
    let '(o, r) := retain_packet o kind id len in (o, map_err error_of_protocol r))).
Proof.
  apply setup_with_outbound. intros o. pose proof (retain_packet_workspace o kind id len) as Hw.
  by destruct (retain_packet _ _ _ _).
Qed.

Lemma setup_enqueue x {P} `{Serialize P, ControlPacket P} kind id (packet : P) :
  keeps (setup_is x) (enqueue (IO := IO) (E := E) kind id packet).
Proof.
  unfold enqueue. setup; [|apply setup_retain]. apply setup_with_outbound. intros o.
  pose proof (encode_packet_workspace o packet) as Hw. by destruct (encode_packet _ _).
Qed.

Lemma setup_subscribe x topics ps : keeps (setup_is x) (subscribe (IO := IO) (E := E) topics ps).
Proof.
  pose proof (setup_flush (E := E) x) as Hf. pose proof (setup_take_packet_id x) as Ht.
  unfold subscribe. setup. apply setup_enqueue.
Qed.

Lemma setup_unsubscribe x topics ps :
  keeps (setup_is x) (unsubscribe (IO := IO) (E := E) topics ps).
Proof.
  pose proof (setup_flush (E := E) x) as Hf. pose proof (setup_take_packet_id x) as Ht.
  unfold unsubscribe. setup. apply setup_enqueue.
Qed.

Lemma setup_disconnect_with x d : keeps (setup_is x) (disconnect_with (IO := IO) (E := E) d).
Proof.
  intros c Hc. unfold disconnect_with. destruct (negb (live c)); [done|].
  match goal with |- setup_is x (fst (?m c)) =>
    assert (keeps (setup_is x) m) as Hm; [|by apply Hm] end.
  pose proof (setup_flush (E := E) x) as Hf. setup. intros c1 Hc1.
  pose proof (setup_on_io (E := E) x (do* write_all a in flush) c1 Hc1) as Hio.
  destruct (on_io _ c1) as [c2 [res|]]; [by apply setup_disconnect|done].
Qed.

(** ** Publish *)

Context {P : Type}.

Lemma setup_pub x {A} (m : C IO E A) : keeps (setup_is x) m -> keeps (setup_is x) (pub (P := P) m).
Proof. intros Hm c Hc. specialize (Hm c Hc). unfold pub. by destruct (m c). Qed.

Lemma setup_publish_retained x header qos (payload : ToPayload P) id :
  keeps (setup_is x) (publish_retained (IO := IO) (E := E) header qos payload id).
Proof.
  pose proof (setup_pub x _ (setup_flush (E := E) x)) as Hf.
  unfold publish_retained. apply keeps_abind.
  { intros c Hc. pose proof (encode_publish_workspace (conn_outbound c) header payload) as Hw.
    destruct (encode_publish_out _ _ _) as [o r]. simpl in *. by apply setup_outbound. }
  intros encoded. setup.
  - apply setup_pub, setup_retain.
  - apply setup_pub, keeps_amodify. done.
Qed.

Lemma setup_publish_direct x header (payload : ToPayload P) :
  keeps (setup_is x) (publish_direct (IO := IO) (E := E) header payload).
Proof.
  unfold publish_direct. apply keeps_abind; [apply setup_pub, setup_flush|]. intros _.
  apply keeps_abind.
  { intros c Hc. destruct (encode_publish _ _ _ _) as [slice r]. simpl. by apply setup_outbound. }
  intros packet. setup; apply setup_pub; auto with async setup.
Qed.

Lemma setup_publish x (publication : Publication (ToPayload P)) :
  keeps (setup_is x) (publish (IO := IO) (E := E) publication).
Proof.
  pose proof (setup_pub x _ (setup_flush (E := E) x)) as Hf.
  pose proof (setup_pub x _ (setup_take_packet_id x)) as Ht.
  pose proof (setup_pub x _ (setup_require (E := E) x)) as Hl.
  pose proof (setup_publish_direct x) as Hd. pose proof (setup_publish_retained x) as Hr.
  unfold publish. setup.
Qed.

(** No call changes the CONNECT of the session or the space reserved for it. *)
Lemma run_call_setup c (call : Call P) :
  setup (session (run_call (E := E) c call)) = setup (session c).
Proof.
  destruct call as [|n|n|topics ps|topics ps|publication|d|]; simpl.
  - by apply setup_drive.
  - by apply setup_poll.
  - by apply setup_recv.
  - by apply setup_subscribe.
  - by apply setup_unsubscribe.
  - by apply setup_publish.
  - by apply setup_disconnect_with.
  - by apply setup_disconnect.
Qed.
End SetupCalls.

(** * The space of the next CONNECT *)

Section Reconnect.
Context {T : Time}.

(** The part of the CONNECT behind the client identifier. *)
Definition connect_tail (s : Session) : enc :=
  enc_option enc_will (will s) +++ enc_option enc_auth (auth s).

Lemma enc_app_ok x y (e : enc) : Ok x +++ Ok y +++ e = Ok (x ++ y) +++ e.
Proof. destruct e; simpl; [by rewrite app_assoc|done]. Qed.

Lemma connect_properties_enc s :
  exists ps, zlen ps = 14 /\ enc_properties (connect_properties (connect_packet s)) = Ok ps.
Proof.
  unfold connect_packet. cbn [connect_properties]. unfold enc_properties, enc_property_list.
  generalize (zlen (buffer (packet_reader s)) mod 2 ^ 32) as size.
  generalize (session_expiry_interval s) as expiry. intros expiry size.
  eexists. split; [|reflexivity]. reflexivity.
Qed.

(** Up to the client identifier, every CONNECT of a session has 24 bytes. *)
Lemma connect_enc s :
  exists pre, zlen pre = 24 /\
    enc_connect (connect_packet s) = Ok pre +++ enc_field (client_id s) +++ connect_tail s.
Proof.
  destruct (connect_properties_enc s) as (ps & Hlen & Hps).
  unfold enc_connect. rewrite Hps.
  replace (enc_field MQTT_NAME) with (Ok ([0; 4] ++ MQTT_NAME) : enc) by done.
  unfold enc_u16. rewrite !enc_app_ok. eexists. split; [|done].
  rewrite !zlen_app, Hlen, zlen_to_be_bytes. done.
Qed.

(** Sessions with the same will and login need the same space, up to the
    client identifier. *)
Lemma connect_space_transfer s s' workspace :
  will s' = will s -> auth s' = auth s -> zlen (client_id s') < 2 ^ 16 ->
  connect_space s workspace ->
  connect_space s' (workspace - zlen (client_id s) + zlen (client_id s')).
Proof.
  intros Hw Ha Hid (body & Hb & ->). destruct (connect_enc s) as (pre & Hl & He).
  destruct (connect_enc s') as (pre' & Hl' & He'). rewrite Hb in He. unfold connect_space.
  rewrite He'. unfold connect_tail, enc_field in *. rewrite Hw, Ha.
  destruct (Z.ltb_spec (zlen (client_id s')) (2 ^ 16)); [|lia].
  destruct (enc_option enc_will (will s) +++ _) as [tail|e]; [|by destruct (_ <? _)].
  destruct (_ <? _) in He; [|done]. injection He as ->. eexists. split; [done|].
  rewrite !zlen_app, !zlen_to_be_bytes, !zlen_cons, zlen_app. lia.
Qed.
End Reconnect.

Section SendConnect.
Context {IO E : Type} `{Transport IO E} {T : Time} `{!Clock IO T}.

Definition transport_error (e : Error E) : Prop :=
  match e with Error.Transport _ | Error.WriteZero => True | _ => False end.

Definition fails_only_transport {A} (r : option (result (Error E) A)) : Prop :=
  match r with Some (Err e) => transport_error e | _ => True end.

Lemma flush_fails (i : IO) : fails_only_transport (snd (flush i)).
Proof. unfold flush. by destruct (io_flush i) as [i' [[]|]]. Qed.

Lemma write_all_fails bs (i : IO) : fails_only_transport (snd (write_all bs i)).
Proof.
  unfold write_all. generalize (S (length bs)) as fuel. intros fuel. revert bs i.
  induction fuel as [|fuel IH]; intros bs i; simpl; [done|]. destruct bs as [|b bs]; [done|].
  unfold abind, write. destruct (io_write i (b :: bs)) as [i' [[n|e]|]]; simpl; try done.
  destruct (n =? 0); [done|apply IH].
Qed.

Lemma encode_connect_fits s (i : IO) :
  hs_inv (s, i) -> connect_space s (connect_workspace (outbound (sdata s))) ->
  exists st off p, encode_connect (E := E) (s, i) = (st, Some (Ok (off, p))) /\
    off + zlen p = connect_workspace (outbound (sdata s)) /\
    exists o, fst st = set_session_outbound s o /\ same_tables (outbound (sdata s)) o.
Proof.
  intros Hs (body & Hb & Hw). pose proof (encode_connect_spec (E := E) s i Hs) as He.
  destruct Hs as [([((Hwf & _) & _) _] & _) _]. simpl in Hwf.
  destruct (encode_connect (E := E) (s, i)) as [st [[[off p]|e]|]] eqn:Hc;
    destruct He as (_ & Hr & slice & Hst & Hlen); [| |done].
  - destruct Hr as (body' & Hb' & Hsum & _). exists st, off, p. split; [done|].
    split; [congruence|]. eexists. split; [exact Hst|]. by apply (scratch_encoded _ slice Hwf Hlen).
  - rewrite Hb in Hr. destruct (out_wf_bounds _ Hwf) as (H0 & H1 & _).
    destruct Hwf as (_ & _ & Hfit & _). unfold scratch_space in Hr.
    rewrite zlen_zdrop in Hr by lia. lia.
Qed.

(** Once the space is reserved, sending the CONNECT fails only when the
    transport does. *)
Lemma send_connect_fails s (i : IO) :
  hs_inv (s, i) -> connect_space s (connect_workspace (outbound (sdata s))) ->
  fails_only_transport (snd (send_connect (E := E) (s, i))).
Proof.
  intros Hs Hsp. destruct (encode_connect_fits s i Hs Hsp) as ([s1 i1] & off & p & He & Hsum & o & Ho & Ht).
  simpl in Ho. subst s1. destruct Hs as [([((Hwf & _) & _) _] & _) _]. simpl in Hwf.
  unfold send_connect, abind at 1. rewrite He. cbn [fst snd]. unfold abind at 1, hs_io at 1.
  pose proof (write_all_fails p i1) as Hf1. destruct (write_all p i1) as [i2 [[[]|e]|]]; try done.
  unfold abind at 1, hs_io. pose proof (flush_fails i2) as Hf2.
  destruct (flush i2) as [i3 [[[]|e]|]]; try done.
  unfold abind at 1, hs_set_connect_workspace, set_connect_workspace, usize_checked_sub.
  simpl. rewrite Hsum. destruct Ht as (Hr & _ & _ & Hcw & Hbuf).
  destruct (out_wf_bounds _ Hwf) as (H0 & H1 & _). destruct Hwf as (_ & Hnn & Hfit & _).
  rewrite Hbuf. destruct (Z.leb_spec (connect_workspace (outbound (sdata s)))
    (zlen (out_buf (outbound (sdata s))))); [|lia].
  assert (retained_bytes o = retained_bytes (outbound (sdata s))) as -> by (unfold retained_bytes; by rewrite Hr).
  destruct (Z.ltb_spec (zlen (out_buf (outbound (sdata s))) - connect_workspace (outbound (sdata s)))
    (retained_bytes (outbound (sdata s)))); [lia|done].
Qed.
End SendConnect.

(** * The life of a session *)

Section Life.
Context {IO E : Type} `{Transport IO E} {T : Time} `{!Clock IO T} {P : Type}.

(** What the types of the builder guarantee of a configuration. *)
Definition config_ok (config : ConfigBuilder) : Prop :=
  all_u8 (rx (cfg_buffers config)) /\ zlen (tx (cfg_buffers config)) <= MQTT_VARINT_MAX /\
  will_ok (cfg_will config) /\ id_fits (cfg_client_id config).

Lemma Session_new_ok config : config_ok config -> session_ok (Session_new config).
Proof.
  intros (Hrx & Htx & Hw & Hid). split; [|split; [by apply reader_wf_new|by split]].
  split; [by apply SessionData_new_inv|done].
Qed.

(** Calls keep the session well formed. *)
Lemma used_ok c (calls : list (Call P)) :
  conn_inv c -> session_ok (session c) -> Forall call_ok calls ->
  let c' := foldl (run_call (E := E)) c calls in
  session_ok (session c') /\ setup (session c') = setup (session c).
Proof.
  intros Hc Hs Hok. revert c Hc Hs. induction Hok as [|call calls Hcall _ IH]; intros c Hc Hs; simpl.
  { done. }
  pose proof (run_call_inv (E := E) c call Hc Hcall) as Hc1.
  pose proof (run_call_setup (E := E) c call) as Hset. rewrite <- Hset. apply IH; [done|].
  destruct Hc1 as (Hi & Hr & _). destruct Hs as (_ & _ & Hw & Hid).
  unfold setup in Hset. injection Hset as Hi1 Hw1 _ _. split; [done|split; [done|]].
  by rewrite Hi1, Hw1.
Qed.

(** The sessions a program can have: created, after a [connect] of any outcome,
    or after any calls on a connection that was then dropped. *)
Inductive lifecycle : Session -> Prop :=
| life_new config : config_ok config -> lifecycle (Session_new config)
| life_connect s i : lifecycle s -> lifecycle (fst (fst (connect (E := E) (s, i))))
| life_used s i st c (calls : list (Call P)) :
    lifecycle s -> connect (E := E) (s, i) = (st, Some (Ok c)) -> Forall call_ok calls ->
    lifecycle (session (foldl (run_call (E := E)) c calls)).

Lemma connect_session_ok s (i : IO) st c :
  session_ok s -> connect (E := E) (s, i) = (st, Some (Ok c)) -> session_ok (session c).
Proof.
  intros Hs Hc. pose proof (connect_keeps (E := E) s i Hs) as Hk. rewrite Hc in Hk.
  destruct (connect_conn_inv s i st c Hs Hc) as (_ & -> & _). apply Hk.
Qed.

Lemma lifecycle_ok s : lifecycle s -> session_ok s.
Proof.
  induction 1 as [config Hc|s i _ IH|s i st c calls _ IH Hc Hok].
  - by apply Session_new_ok.
  - apply (connect_keeps (E := E) s i IH).
  - apply used_ok; [by eapply connect_conn_inv|by eapply connect_session_ok|done].
Qed.

Lemma started_setup resumed (s : Session) : setup (started resumed s) = setup s.
Proof. by destruct resumed. Qed.

(** A successful [connect] reserves the space of the next CONNECT. *)
Lemma connect_reserves s (i : IO) st c :
  session_ok s -> connect (E := E) (s, i) = (st, Some (Ok c)) ->
  connect_space (session c) (connect_workspace (conn_outbound c)).
Proof.
  intros Hs Hc. pose proof (connect_session_ok _ _ _ _ Hs Hc) as (_ & _ & _ & Hfit).
  rewrite connect_unfold in Hc.
  destruct (connect_handshake _) as [st1 [[ev|e]|]] eqn:Hh; try done. injection Hc as _ <-.
  simpl in Hfit. unfold conn_outbound, conn_data. simpl.
  apply handshake_ok in Hh as (ack & h & workspace & s1 & i1 & Ha & _ & Hf);
    [|by apply prepare_connect_hs].
  destruct Ha as (Hi1 & Hcar & Hsp & Hlen & _ & Hits & Happ).
  assert (settings_ok (client_id s) h) as Hset
    by (eapply apply_properties_ok; [apply local_settings_ok|exact Hits|exact Happ]).
  pose proof (connect_space_nonneg _ _ Hsp) as Hnn.
  apply finish_connect_ok in Hf as (_ & Hid & Hw & Hau & _ & _ & _ & _ & Hws & _);
    [|eapply activate_hs; [|exact Hset]; unfold started;
      destruct (session_present ack); [done|by apply reset_hs]|done].
  pose proof (started_setup (session_present ack) s1) as Hst. unfold setup in Hst.
  injection Hst as Hs1 Hs2 Hs3 Hs4. rewrite Hs4 in Hws.
  destruct Hcar as (Hcid & Hcw & Hca & _). rewrite Hs1, Hcid in Hid. rewrite Hs2, Hcw in Hw.
  rewrite Hs3, Hca in Hau.
  pose proof (connect_space_transfer (prepare_connect s) (fst st1) workspace Hw Hau) as Htr.
  replace (connect_workspace (outbound (sdata (fst st1)))) with
    (workspace - zlen (client_id (prepare_connect s)) + zlen (client_id (fst st1))).
  { apply Htr; [unfold id_fits, CLIENT_ID_CAPACITY in Hfit; lia|done]. }
  rewrite Hws, Hid. destruct Hset as (_ & _ & Hset).
  destruct (hs_assigned_client_id h) as [id|]; simpl.
  - destruct Hset as [-> _]. change (zlen []) with 0. lia.
  - lia.
Qed.
End Life.
Arguments lifecycle IO E {H T Clock0} P s.

(** * Theorems *)

(** C1: the invariant of a session holds over its whole life. However often it is
    connected, whatever the broker sends, whatever calls are made on the
    connections, and wherever a transport fails or a future is dropped: the
    retained packets lie inside the budget of the arena with their identifiers
    unique, at most one packet is partly written, the quota is within its maximum,
    and the receive buffer is consistent. *)
Theorem lifecycle_invariant {IO E} `{Transport IO E} {T : Time} `{!Clock IO T} {P} (s : Session) :
  lifecycle IO E P s ->
  data_inv (sdata s) /\ quota_inv (sruntime s) /\ reader_wf (packet_reader s) /\
  zlen (client_id s) <= CLIENT_ID_CAPACITY.
Proof. intros Hl. by destruct (lifecycle_ok s Hl) as ([Hd Hq] & Hr & _ & Hid). Qed.

Definition demo_config : ConfigBuilder (T := Scripted.time) :=
  ConfigBuilder_new (mkBuffers (repeat 0 32) (repeat 0 64)).

Lemma demo_config_ok : config_ok demo_config.
Proof. split_and!; [by repeat constructor|by vm_compute|done|by vm_compute]. Qed.

(** A broker that assigns the client identifier "ab". *)
Definition demo_assigning : Scripted.IO :=
  Scripted.mkIO [[0x20; 8; 0; 0; 5; 18; 0; 2; 97; 98]] [] [] 0 1.

Definition demo_connected : bool :=
  match connect (E := unit) (Session_new demo_config, demo_assigning) with
  | (_, Some (Ok c)) => bool_decide (client_id (session c) = [97; 98])
  | _ => false
  end.

Lemma lifecycle_invariant_witness :
  let s := fst (fst (connect (E := unit) (Session_new demo_config, demo_assigning))) in
  demo_connected = true /\
  data_inv (sdata s) /\ quota_inv (sruntime s) /\ reader_wf (packet_reader s) /\
  zlen (client_id s) <= CLIENT_ID_CAPACITY.
Proof.
  intros s. split; [vm_compute; reflexivity|].
  exact (lifecycle_invariant (E := unit) (P := unit) s
    (life_connect _ demo_assigning (life_new _ demo_config_ok))).
Defined.

(** C9: retained packets never lock the session out. After a [connect] succeeded,
    and whatever calls were made on the connection, the next CONNECT still fits
    the transmit arena beside everything that is retained for replay: sending it
    fails only when the transport fails. This includes the identifier the broker
    may have assigned. *)
Theorem reconnect_always_fits {IO E} `{Transport IO E} {T : Time} `{!Clock IO T} {P}
    (s : Session) (i : IO) st c (calls : list (Call P)) (i' : IO) :
  lifecycle IO E P s -> connect (E := E) (s, i) = (st, Some (Ok c)) -> Forall call_ok calls ->
  fails_only_transport
    (snd (send_connect (E := E)
       (prepare_connect (session (foldl (run_call (E := E)) c calls)), i'))).
Proof.
  intros Hl Hc Hok. pose proof (lifecycle_ok s Hl) as Hs.
  destruct (used_ok (E := E) c calls) as [Hs' Hset];
    [by eapply connect_conn_inv|by eapply connect_session_ok|done|].
  pose proof (connect_reserves s i st c Hs Hc) as Hsp.
  apply send_connect_fails; [by apply prepare_connect_hs|].
  unfold setup in Hset. injection Hset as Hid Hw Ha Hws.
  set (s' := session (foldl _ c calls)) in *. clearbody s'.
  assert (connect_workspace (outbound (sdata (prepare_connect s'))) =
    connect_workspace (conn_outbound c) - zlen (client_id (session c)) +
    zlen (client_id (prepare_connect s'))) as ->
    by (simpl; rewrite arm_replay_workspace, Hws, Hid; unfold conn_outbound, conn_data; lia).
  apply connect_space_transfer; [done|done| |done].
  destruct Hs' as (_ & _ & _ & Hfit). unfold id_fits, CLIENT_ID_CAPACITY in Hfit. simpl. lia.
Qed.

Definition demo_call : Call unit := CallPublish (demo_publication QoS.ExactlyOnce).

Lemma reconnect_always_fits_witness :
  exists st c, connect (E := unit) (Session_new demo_config, demo_assigning) = (st, Some (Ok c)) /\
  fails_only_transport (snd (send_connect (E := unit)
    (prepare_connect (session (foldl (run_call (E := unit)) c [demo_call; demo_call])), demo_broker))).
Proof.
  assert (demo_connected = true) as Hd by (vm_compute; reflexivity).
  unfold demo_connected in Hd.
  destruct (connect (E := unit) (Session_new demo_config, demo_assigning)) as [st [[c|e]|]] eqn:Hc;
    [|discriminate Hd|discriminate Hd].
  exists st, c. split; [reflexivity|].
  apply (reconnect_always_fits (E := unit) (Session_new demo_config) demo_assigning st c
    [demo_call; demo_call] demo_broker (life_new _ demo_config_ok) Hc).
  repeat constructor.
Defined.
