(* ===== verification/Qos2Spec.v ===== *)
(** * The exactly-once protocol: its abstract machine

    A sender that keeps its publications until PUBREC and its releases until PUBCOMP,
    a receiver that remembers the identifiers it has not released, and a FIFO link in
    each direction that can be lost at any time, with everything on it. The machine
    has no bytes, buffers or tables: [Duplex] and [Delivery] show that two sessions of the
    client refine it. Its theorems: what was delivered is a prefix of what was
    published, nothing twice, nothing out of order, over any interleaving and any
    number of lost connections; and without further losses every run ends with
    everything delivered.

    The proof looks at one identifier at a time ([Slot]): of the link only the
    messages with that identifier matter to it, and steps on other identifiers do not
    touch it. *)

From stdpp Require Import gmap.
From S2P Require Import Prelude.

(** * No element of one kind behind one of another *)

Section NoFollow.
Context {A : Type}.
Implicit Types (P Q : A -> Prop) (l : list A).

(** No [Q] after a [P]. *)
Fixpoint nofollow P Q l : Prop :=
  match l with
  | [] => True
  | a :: l' => (P a -> Forall (fun b => ~ Q b) l') /\ nofollow P Q l'
  end.

Lemma nofollow_none_left P Q l : Forall (fun a => ~ P a) l -> nofollow P Q l.
Proof. induction 1; simpl; [done|]. split; [tauto|done]. Qed.

Lemma nofollow_none_right P Q l : Forall (fun a => ~ Q a) l -> nofollow P Q l.
Proof. induction 1; simpl; [done|]. split; auto. Qed.

Lemma nofollow_snoc P Q l a :
  nofollow P Q l -> (Q a -> Forall (fun b => ~ P b) l) -> nofollow P Q (l ++ [a]).
Proof.
  induction l as [|b l IH]; simpl; [done|]. intros [Hb Hl] Ha. split.
  - intros HP. apply Forall_app. split; [auto|]. constructor; [|done].
    intros HQ. specialize (Ha HQ). inversion Ha; subst. tauto.
  - apply IH; [done|]. intros HQ. specialize (Ha HQ). by inversion Ha.
Qed.

Lemma nofollow_drop P Q l1 l2 : nofollow P Q (l1 ++ l2) -> nofollow P Q l2.
Proof. induction l1; simpl; tauto. Qed.

Lemma nofollow_take P Q l1 l2 : nofollow P Q (l1 ++ l2) -> nofollow P Q l1.
Proof.
  induction l1 as [|a l1 IH]; simpl; [done|]. intros [Ha Hl]. split; [|auto].
  intros HP. specialize (Ha HP). by apply Forall_app in Ha as [? _].
Qed.

(** Repeating the last element changes nothing when it is not of both kinds. *)
Lemma nofollow_repeat P Q l a :
  ~ (P a /\ Q a) -> nofollow P Q (l ++ [a]) -> nofollow P Q ((l ++ [a]) ++ [a]).
Proof.
  intros Hne Hl. apply nofollow_snoc; [done|]. intros HQ. apply Forall_app. split.
  - clear Hne. induction l as [|b l IH]; [done|]. simpl in Hl. destruct Hl as [Hb Hl].
    constructor; [|auto]. intros HP. specialize (Hb HP). apply Forall_app in Hb as [_ Hb].
    inversion Hb; subst. tauto.
  - constructor; [tauto|done].
Qed.
End NoFollow.

(** * One identifier *)

Module Slot.

(** What an identifier is used for by the sender; the flag is [true] once the packet
    is written. *)
Inductive phase : Type := Free | Publishing (sent : bool) | Releasing (sent : bool).

(** The kinds of the messages on the way, to the receiver and back. *)
Inductive down : Type := KPub | KRel.
Inductive up : Type := KRec | KComp.

#[export] Instance down_eq_dec : EqDecision down.
Proof. solve_decision. Defined.
#[export] Instance up_eq_dec : EqDecision up.
Proof. solve_decision. Defined.

(** [pending] is the acknowledgement the receiver has queued, with its written flag. *)
Record slot : Type := mkSlot {
  s_phase : phase; s_reserved : bool; s_down : list down; s_up : list up;
  s_pending : option (up * bool) }.

Definition pending_all (p : option (up * bool)) : list up :=
  match p with Some (u, _) => [u] | None => [] end.
Definition pending_new (p : option (up * bool)) : list up :=
  match p with Some (u, false) => [u] | _ => [] end.

(** Every acknowledgement the sender may still receive: those on the link and the
    pending one, which a lost connection sends again. *)
Definition acks (s : slot) : list up := s_up s ++ pending_all (s_pending s).

(** Those it will receive if no connection is lost. *)
Definition due (s : slot) : list up := s_up s ++ pending_new (s_pending s).

(** No [x] behind a [y]. *)
Definition behind {A} (x y : A) (l : list A) : Prop := nofollow (eq y) (eq x) l.

Definition inv (s : slot) : Prop :=
  match s_phase s, s_reserved s with
  | Free, true => False
  | Free, false => (KPub ∉ s_down s) /\ (KRec ∉ acks s)
  | Publishing sent, false =>
      (KRec ∉ acks s) /\ behind KRel KPub (s_down s) /\
      (sent = true -> KPub ∈ s_down s)
  | Publishing sent, true =>
      (KRel ∉ s_down s) /\ behind KComp KRec (acks s) /\
      (sent = true -> KPub ∈ s_down s \/ KRec ∈ due s)
  | Releasing sent, true =>
      (KComp ∉ acks s) /\ behind KPub KRel (s_down s) /\
      (sent = true -> KRel ∈ s_down s)
  | Releasing sent, false =>
      (KPub ∉ s_down s) /\ behind KRec KComp (acks s) /\
      (sent = true -> KRel ∈ s_down s \/ KComp ∈ due s)
  end.

Definition unwritten (p : option (up * bool)) : option (up * bool) :=
  option_map (fun '(k, _) => (k, false)) p.

(** What can happen to an identifier. *)
Inductive step : slot -> slot -> Prop :=
| publish d u p : step (mkSlot Free false d u p) (mkSlot (Publishing false) false d u p)
| send_pub r d u p :
    step (mkSlot (Publishing false) r d u p) (mkSlot (Publishing true) r (d ++ [KPub]) u p)
| send_rel r d u p :
    step (mkSlot (Releasing false) r d u p) (mkSlot (Releasing true) r (d ++ [KRel]) u p)
| recv_pub ph r d u :
    step (mkSlot ph r (KPub :: d) u None) (mkSlot ph true d u (Some (KRec, false)))
| recv_rel ph r d u :
    step (mkSlot ph r (KRel :: d) u None) (mkSlot ph false d u (Some (KComp, false)))
| write ph r d u k : step (mkSlot ph r d u (Some (k, false))) (mkSlot ph r d (u ++ [k]) (Some (k, true)))
| flush ph r d u k : step (mkSlot ph r d u (Some (k, true))) (mkSlot ph r d u None)
| recv_rec sent r d u p :
    step (mkSlot (Publishing sent) r d (KRec :: u) p) (mkSlot (Releasing false) r d u p)
| recv_rec_stale ph r d u p :
    (forall sent, ph <> Publishing sent) ->
    step (mkSlot ph r d (KRec :: u) p) (mkSlot ph r d u p)
| recv_comp sent r d u p :
    step (mkSlot (Releasing sent) r d (KComp :: u) p) (mkSlot Free r d u p)
| recv_comp_stale ph r d u p :
    (forall sent, ph <> Releasing sent) ->
    step (mkSlot ph r d (KComp :: u) p) (mkSlot ph r d u p)
| lose ph r d u p :
    step (mkSlot ph r d u p)
      (mkSlot (match ph with Free => Free | Publishing _ => Publishing false
               | Releasing _ => Releasing false end)
         r [] [] (unwritten p)).

Lemma elem_forall {A} (x : A) l : (x ∉ l) <-> Forall (fun b => ~ x = b) l.
Proof.
  rewrite Forall_forall. split; [intros ? ? ? ->; done|]. intros H Hx. by apply (H x).
Qed.

Section Behind.
Context {A : Type}.
Implicit Types (x y z : A) (l : list A).

Lemma behind_absent x y l : x ∉ l -> behind x y l.
Proof. intros H. apply nofollow_none_right. by apply elem_forall. Qed.

Lemma behind_first x y l : y ∉ l -> behind x y l.
Proof. intros H. apply nofollow_none_left. by apply elem_forall. Qed.

Lemma behind_same x y l z : z <> x -> behind x y l -> behind x y (l ++ [z]).
Proof. intros Hz Hl. apply nofollow_snoc; [done|]. intros ->. done. Qed.

Lemma behind_snoc x y l z : y ∉ l -> behind x y (l ++ [z]).
Proof.
  intros Hy. apply nofollow_snoc; [by apply behind_first|]. intros _. by apply elem_forall.
Qed.

Lemma behind_repeat x y l z : x <> y -> behind x y (l ++ [z]) -> behind x y ((l ++ [z]) ++ [z]).
Proof. intros Hxy. apply nofollow_repeat. intros [<- ?]. congruence. Qed.

Lemma behind_head x y l : behind x y (y :: l) -> x ∉ l.
Proof. intros [H _]. apply elem_forall. by apply H. Qed.

Lemma behind_tail x y z l : behind x y (z :: l) -> behind x y l.
Proof. by intros [_ H]. Qed.

Lemma behind_app_l x y l1 l2 : behind x y (l1 ++ l2) -> behind x y l1.
Proof. apply nofollow_take. Qed.

Lemma behind_app_r x y l1 l2 : behind x y (l1 ++ l2) -> behind x y l2.
Proof. apply nofollow_drop. Qed.
End Behind.

Lemma pending_unwritten p : pending_all (unwritten p) = pending_all p.
Proof. by destruct p as [[]|]. Qed.

Create HintDb slot.
#[local] Hint Resolve behind_absent behind_first behind_same behind_snoc behind_repeat
  behind_head behind_tail behind_app_l behind_app_r : slot.

(** Membership by [set_solver], order by the lemmas on [behind]. *)
Ltac slot_solve :=
  unfold inv, acks, due in *; simpl in *; rewrite ?app_nil_r, ?pending_unwritten in *;
  repeat match goal with
  | H : _ /\ _ |- _ => destruct H
  | |- _ /\ _ => split
  | H : behind ?x ?y (?y :: ?l) |- _ => pose proof (behind_head _ _ _ H); apply behind_tail in H
  | H : behind _ _ (_ :: _) |- _ => apply behind_tail in H
  end;
  try (eauto with slot; fail); try set_solver.

Lemma slot_step_inv s s' : step s s' -> inv s -> inv s'.
Proof.
  destruct 1 as [| | |ph|ph|ph r d u k|ph r d u k|sent r|ph r|sent r|ph r|ph r d u p]; intros Hi;
    try destruct ph; try destruct r; try destruct k; try (by destruct Hi); slot_solve.
Qed.

End Slot.

(** * The machine *)

Module Qos2.

Inductive down (M : Type) : Type := Pub (i : Z) (m : M) | Rel (i : Z).
Inductive up : Type := Rec (i : Z) | Comp (i : Z).
Arguments Pub {M} _ _.
Arguments Rel {M} _.

Section Machine.
Context {M : Type} (window : nat).
Implicit Types (m : M) (i : Z).

Record pub : Type := mkPub { pub_id : Z; pub_msg : M; pub_sent : bool }.

(** The sender: publications in order, releases. The receiver: the identifiers it has
    not released, the acknowledgement to send and whether it is written. The link in
    both directions. What was published and delivered, oldest first. *)
Record state : Type := mkState {
  pubs : list pub; rels : gmap Z bool;
  reserved : gset Z; pending : option (up * bool);
  to_receiver : list (down M); to_sender : list up;
  published : list M; delivered : list M }.

Definition init : state := mkState [] ∅ ∅ None [] [] [] [].

Inductive action : Type :=
| Publish (i : Z) (m : M) | SendPub | SendRel (i : Z) | RecvDown | WriteAck | FlushAck | RecvUp
| Lose.

Definition ids (l : list pub) : list Z := pub_id <$> l.

Definition resend (p : pub) : pub := mkPub (pub_id p) (pub_msg p) false.
Definition written (p : pub) : pub := mkPub (pub_id p) (pub_msg p) true.

(** The oldest publication that is not written, and the list with it written. *)
Fixpoint send_first (l : list pub) : option (pub * list pub) :=
  match l with
  | [] => None
  | p :: l' =>
      if pub_sent p then
        match send_first l' with Some (q, l'') => Some (q, p :: l'') | None => None end
      else Some (p, written p :: l')
  end.

(** The receiver takes one packet at a time, with no acknowledgement pending. *)
Definition recv_down (s : state) : option state :=
  match pending s, to_receiver s with
  | None, Pub i m :: d =>
      Some (mkState (pubs s) (rels s) ({[i]} ∪ reserved s) (Some (Rec i, false)) d (to_sender s)
              (published s)
              (if decide (i ∈ reserved s) then delivered s else delivered s ++ [m]))
  | None, Rel i :: d =>
      Some (mkState (pubs s) (rels s) (reserved s ∖ {[i]}) (Some (Comp i, false)) d (to_sender s)
              (published s) (delivered s))
  | _, _ => None
  end.

Definition recv_up (s : state) : option state :=
  match to_sender s with
  | Rec i :: u =>
      Some (if decide (i ∈ ids (pubs s)) then
              mkState (filter (fun p => pub_id p <> i) (pubs s)) (<[i := false]> (rels s))
                (reserved s) (pending s) (to_receiver s) u (published s) (delivered s)
            else
              mkState (pubs s) (rels s) (reserved s) (pending s) (to_receiver s) u
                (published s) (delivered s))
  | Comp i :: u =>
      Some (mkState (pubs s) (delete i (rels s)) (reserved s) (pending s) (to_receiver s) u
              (published s) (delivered s))
  | [] => None
  end.

Definition step (a : action) (s : state) : option state :=
  match a with
  | Publish i m =>
      if decide (i ∉ ids (pubs s) /\ rels s !! i = None /\
                 (length (pubs s) + size (rels s) < window)%nat)
      then Some (mkState (pubs s ++ [mkPub i m false]) (rels s) (reserved s) (pending s)
                   (to_receiver s) (to_sender s) (published s ++ [m]) (delivered s))
      else None
  | SendPub =>
      match send_first (pubs s) with
      | Some (p, l) =>
          Some (mkState l (rels s) (reserved s) (pending s)
                  (to_receiver s ++ [Pub (pub_id p) (pub_msg p)]) (to_sender s)
                  (published s) (delivered s))
      | None => None
      end
  | SendRel i =>
      if decide (rels s !! i = Some false) then
        Some (mkState (pubs s) (<[i := true]> (rels s)) (reserved s) (pending s)
                (to_receiver s ++ [Rel i]) (to_sender s) (published s) (delivered s))
      else None
  | RecvDown => recv_down s
  | WriteAck =>
      match pending s with
      | Some (a, false) =>
          Some (mkState (pubs s) (rels s) (reserved s) (Some (a, true)) (to_receiver s)
                  (to_sender s ++ [a]) (published s) (delivered s))
      | _ => None
      end
  | FlushAck =>
      match pending s with
      | Some (a, true) =>
          Some (mkState (pubs s) (rels s) (reserved s) None (to_receiver s) (to_sender s)
                  (published s) (delivered s))
      | _ => None
      end
  | RecvUp => recv_up s
  | Lose =>
      Some (mkState (resend <$> pubs s) ((fun _ => false) <$> rels s) (reserved s)
              (option_map (fun '(a, _) => (a, false)) (pending s)) [] []
              (published s) (delivered s))
  end.

Fixpoint run (l : list action) (s : state) : option state :=
  match l with
  | [] => Some s
  | a :: l' => match step a s with Some s' => run l' s' | None => None end
  end.

(** ** One identifier of the machine *)

Definition down_of (i : Z) (d : down M) : option Slot.down :=
  match d with
  | Pub j _ => if decide (j = i) then Some Slot.KPub else None
  | Rel j => if decide (j = i) then Some Slot.KRel else None
  end.

Definition up_of (i : Z) (u : up) : option Slot.up :=
  match u with
  | Rec j => if decide (j = i) then Some Slot.KRec else None
  | Comp j => if decide (j = i) then Some Slot.KComp else None
  end.

Definition pending_of (i : Z) (p : option (up * bool)) : option (Slot.up * bool) :=
  match p with
  | Some (u, b) => option_map (fun k => (k, b)) (up_of i u)
  | None => None
  end.

Fixpoint find_pub (i : Z) (l : list pub) : option pub :=
  match l with
  | [] => None
  | p :: l' => if decide (pub_id p = i) then Some p else find_pub i l'
  end.

Definition phase_of (i : Z) (l : list pub) (r : gmap Z bool) : Slot.phase :=
  match find_pub i l, r !! i with
  | Some p, _ => Slot.Publishing (pub_sent p)
  | None, Some b => Slot.Releasing b
  | None, None => Slot.Free
  end.

Definition slot (i : Z) (s : state) : Slot.slot :=
  Slot.mkSlot (phase_of i (pubs s) (rels s)) (bool_decide (i ∈ reserved s))
    (omap (down_of i) (to_receiver s)) (omap (up_of i) (to_sender s))
    (pending_of i (pending s)).

(** ** The invariant *)

Definition unreserved (s : state) : list pub := filter (fun p => pub_id p ∉ reserved s) (pubs s).

(** Publications on the link whose identifier the receiver does not hold. *)
Definition fresh_pub (r : gset Z) (d : down M) : option (Z * M) :=
  match d with
  | Pub i m => if decide (i ∈ r) then None else Some (i, m)
  | Rel _ => None
  end.

Definition key (p : pub) : Z * M := (pub_id p, pub_msg p).

Record inv (s : state) : Prop := mkInv {
  (** Publications have distinct identifiers, none of them in a release. *)
  inv_ids : NoDup (ids (pubs s));
  inv_disjoint : forall i, i ∈ ids (pubs s) -> rels s !! i = None;
  inv_window : (length (pubs s) + size (rels s) <= window)%nat;
  (** Publications are written in order. *)
  inv_order : exists l1 l2, pubs s = l1 ++ l2 /\ Forall (fun p => pub_sent p = true) l1 /\
                            Forall (fun p => pub_sent p = false) l2;
  (** Every message was delivered or is kept by the sender, in order. *)
  inv_delivered : published s = delivered s ++ (pub_msg <$> unreserved s);
  (** The undelivered publications on the link are the written ones, in order. *)
  inv_flight : omap (fresh_pub (reserved s)) (to_receiver s) =
               key <$> filter (fun p => pub_sent p = true) (unreserved s);
  inv_slots : forall i, Slot.inv (slot i s) }.

(** ** Lemmas on the list of publications *)

Lemma send_first_spec l p l' :
  send_first l = Some (p, l') ->
  exists l1 l2, l = l1 ++ p :: l2 /\ l' = l1 ++ written p :: l2 /\ pub_sent p = false /\
                Forall (fun p => pub_sent p = true) l1.
Proof.
  revert l'. induction l as [|q l IH]; intros l'; simpl; [done|].
  destruct (pub_sent q) eqn:Hq.
  - destruct (send_first l) as [[q' l'']|] eqn:E; [|done]. intros [= -> <-].
    destruct (IH _ eq_refl) as (l1 & l2 & -> & -> & Hp & Hl). exists (q :: l1), l2. auto.
  - intros [= -> <-]. exists [], l. auto.
Qed.

Lemma send_first_none l : send_first l = None -> Forall (fun p => pub_sent p = true) l.
Proof.
  induction l as [|q l IH]; simpl; [constructor|].
  destruct (pub_sent q) eqn:Hq; [|done].
  destruct (send_first l) as [[]|]; [done|]. auto.
Qed.

Lemma ids_app l1 l2 : ids (l1 ++ l2) = ids l1 ++ ids l2.
Proof. apply fmap_app. Qed.

Lemma find_pub_app i l1 l2 :
  find_pub i (l1 ++ l2) = match find_pub i l1 with Some p => Some p | None => find_pub i l2 end.
Proof. induction l1 as [|p l1 IH]; simpl; [done|]. by case_decide. Qed.

Lemma find_pub_none i l : find_pub i l = None <-> i ∉ ids l.
Proof.
  induction l as [|p l IH]; simpl; [set_solver|].
  rewrite not_elem_of_cons. case_decide; naive_solver.
Qed.

Lemma find_pub_elem i l p : find_pub i l = Some p -> p ∈ l /\ pub_id p = i.
Proof.
  induction l as [|q l IH]; simpl; [done|]. case_decide; [|set_solver].
  intros [= <-]. set_solver.
Qed.

Lemma find_pub_in l p : NoDup (ids l) -> p ∈ l -> find_pub (pub_id p) l = Some p.
Proof.
  intros Hn (l1 & l2 & ->)%list_elem_of_split. rewrite ids_app in Hn.
  apply NoDup_app in Hn as (_ & Hn & _). rewrite find_pub_app.
  destruct (find_pub (pub_id p) l1) as [q|] eqn:E; [|simpl; by case_decide].
  apply find_pub_elem in E as [Hq Hi]. exfalso. apply (Hn (pub_id q)); [|rewrite Hi; set_solver].
  by apply list_elem_of_fmap_2.
Qed.

Lemma find_pub_written i l1 p l2 :
  NoDup (ids (l1 ++ p :: l2)) ->
  find_pub i (l1 ++ written p :: l2) =
  if decide (pub_id p = i) then Some (written p) else find_pub i (l1 ++ p :: l2).
Proof.
  intros Hn. rewrite !find_pub_app. simpl. case_decide as Hi; [|done]. subst.
  rewrite (proj2 (find_pub_none _ l1)); [done|]. rewrite ids_app in Hn.
  apply NoDup_app in Hn as (_ & Hn & _). intros Hx. apply (Hn _ Hx). set_solver.
Qed.

Lemma find_pub_remove i j l :
  find_pub i (filter (fun p => pub_id p <> j) l) = if decide (i = j) then None else find_pub i l.
Proof.
  induction l as [|p l IH]; simpl; [by case_decide|].
  rewrite filter_cons. repeat case_decide; simpl; repeat case_decide; congruence.
Qed.

Lemma find_pub_resend i l : find_pub i (resend <$> l) = resend <$> find_pub i l.
Proof. induction l as [|p l IH]; simpl; [done|]. by case_decide. Qed.

(** ** Steps of the machine are steps of the identifiers *)

Definition moves (i : Z) (s s' : state) : Prop :=
  slot i s' = slot i s \/ Slot.step (slot i s) (slot i s').

Lemma bool_decide_union_ne i j (r : gset Z) :
  i <> j -> bool_decide (i ∈ {[j]} ∪ r) = bool_decide (i ∈ r).
Proof. intros Hij. apply bool_decide_ext. set_solver. Qed.

Lemma bool_decide_difference_ne i j (r : gset Z) :
  i <> j -> bool_decide (i ∈ r ∖ {[j]}) = bool_decide (i ∈ r).
Proof. intros Hij. apply bool_decide_ext. set_solver. Qed.

Lemma recv_down_moves i s s' : recv_down s = Some s' -> moves i s s'.
Proof.
  unfold recv_down, moves, slot. destruct (pending s); [done|].
  destruct (to_receiver s) as [|[j m|j] d]; [done| |]; intros [= <-]; simpl;
    destruct (decide (j = i)) as [->|Hij]; simpl.
  - right. rewrite (bool_decide_eq_true_2 (i ∈ {[i]} ∪ reserved s)) by set_solver. constructor.
  - left. by rewrite bool_decide_union_ne.
  - right. rewrite (bool_decide_eq_false_2 (i ∈ reserved s ∖ {[i]})) by set_solver. constructor.
  - left. by rewrite bool_decide_difference_ne.
Qed.

Lemma phase_remove i j l r :
  r !! j = None ->
  phase_of i (filter (fun p => pub_id p <> j) l) (<[j := false]> r) =
  if decide (j = i) then Slot.Releasing false else phase_of i l r.
Proof.
  intros Hj. unfold phase_of. rewrite find_pub_remove.
  destruct (decide (j = i)) as [->|Hij].
  - rewrite decide_True by done. by rewrite lookup_insert_eq.
  - rewrite decide_False by done. by rewrite lookup_insert_ne.
Qed.

Lemma recv_up_moves i s s' :
  inv s -> recv_up s = Some s' -> moves i s s'.
Proof.
  intros Hinv. unfold recv_up, moves, slot.
  destruct (to_sender s) as [|[j|j] u]; [done| |]; intros [= <-]; simpl.
  - case_decide as Hj; simpl.
    + rewrite phase_remove by by apply (inv_disjoint _ Hinv).
      destruct (decide (j = i)) as [->|Hij]; [|by left]. right. unfold phase_of.
      destruct (find_pub i (pubs s)) eqn:E; [constructor|]. by apply find_pub_none in E.
    + destruct (decide (j = i)) as [->|Hij]; [|by left]. right.
      apply Slot.recv_rec_stale. intros sent. unfold phase_of.
      rewrite (proj2 (find_pub_none i _)) by done. by case_match.
  - unfold phase_of. destruct (decide (j = i)) as [->|Hij].
    + right. rewrite lookup_delete_eq. destruct (find_pub i (pubs s)) as [q|] eqn:E.
      * by apply Slot.recv_comp_stale.
      * destruct (rels s !! i) eqn:Er; [constructor|]. by apply Slot.recv_comp_stale.
    + left. by rewrite lookup_delete_ne.
Qed.

Lemma send_pub_moves i s s' : inv s -> step SendPub s = Some s' -> moves i s s'.
Proof.
  intros Hinv. unfold moves, slot. simpl.
  destruct (send_first (pubs s)) as [[q l]|] eqn:Hs; [|done]. intros [= <-]; simpl.
  apply send_first_spec in Hs as (l1 & l2 & Hl & -> & Hq & _).
  rewrite omap_app. simpl. pose proof (inv_ids _ Hinv) as Hn. rewrite Hl in Hn |- *.
  unfold phase_of. rewrite find_pub_written by done.
  destruct (decide (pub_id q = i)) as [<-|Hij]; simpl; [|left; by rewrite app_nil_r].
  right. rewrite (find_pub_in _ q Hn) by set_solver. rewrite Hq. constructor.
Qed.

Lemma lose_moves i s s' : step Lose s = Some s' -> moves i s s'.
Proof.
  intros [= <-]. right. unfold slot. simpl.
  replace (pending_of i (option_map _ (pending s))) with (Slot.unwritten (pending_of i (pending s)))
    by (destruct (pending s) as [[u b]|]; [|done]; simpl; by destruct (up_of i u)).
  replace (phase_of i (resend <$> pubs s) _) with
    (match phase_of i (pubs s) (rels s) with Slot.Free => Slot.Free
     | Slot.Publishing _ => Slot.Publishing false | Slot.Releasing _ => Slot.Releasing false end).
  { constructor. }
  unfold phase_of. rewrite find_pub_resend, lookup_fmap.
  destruct (find_pub i (pubs s)); [done|]. by destruct (rels s !! i).
Qed.

Lemma ack_moves i s s' a : a = WriteAck \/ a = FlushAck -> step a s = Some s' -> moves i s s'.
Proof.
  intros Ha. unfold moves, slot. destruct Ha as [-> | ->]; simpl.
  all: destruct (pending s) as [[u []]|]; try done; intros [= <-]; simpl.
  - rewrite omap_app. simpl. destruct (up_of i u); simpl; [right; constructor|].
    left. by rewrite app_nil_r.
  - destruct (up_of i u); simpl; [right; constructor|by left].
Qed.

Lemma step_moves i a s s' : inv s -> step a s = Some s' -> moves i s s'.
Proof.
  intros Hinv. destruct a; eauto using recv_down_moves, recv_up_moves, send_pub_moves, lose_moves,
    ack_moves; unfold moves, slot; simpl; case_decide as Hd; try done; intros [= <-]; simpl.
  - destruct Hd as (Hi & Hr & _). unfold phase_of. rewrite find_pub_app. simpl.
    destruct (decide (i0 = i)) as [->|Hij]; [|left; by destruct (find_pub i (pubs s))].
    rewrite (proj2 (find_pub_none i _)), Hr by done.
    pose proof (inv_slots _ Hinv i) as Hs. unfold Slot.inv, slot, phase_of in Hs. simpl in Hs.
    rewrite (proj2 (find_pub_none i _)), Hr in Hs by done.
    destruct (bool_decide (i ∈ reserved s)); [done|]. right. constructor.
  - rewrite omap_app. simpl. destruct (decide (i0 = i)) as [->|Hij]; simpl.
    + right. unfold phase_of. rewrite lookup_insert_eq, Hd.
      destruct (find_pub i (pubs s)) as [q|] eqn:E; [|constructor].
      apply find_pub_elem in E as [Hq Hi].
      rewrite (inv_disjoint _ Hinv i) in Hd; [done|]. subst. by apply list_elem_of_fmap_2.
    + left. unfold phase_of. by rewrite lookup_insert_ne, app_nil_r by done.
Qed.

Lemma step_slots i a s s' : inv s -> step a s = Some s' -> Slot.inv (slot i s').
Proof.
  intros Hinv Hs. pose proof (inv_slots _ Hinv i) as Hi.
  destruct (step_moves i _ _ _ Hinv Hs) as [-> | Hm]; [done|]. by apply (Slot.slot_step_inv _ _ Hm).
Qed.

(** ** The invariant is kept *)

Lemma phase_publishing i s : i ∈ ids (pubs s) -> exists b, Slot.s_phase (slot i s) = Slot.Publishing b.
Proof.
  intros Hi. unfold slot, phase_of. simpl.
  destruct (find_pub i (pubs s)) as [q|] eqn:E; [eauto|]. by apply find_pub_none in E.
Qed.

Lemma rec_reserved i u s :
  inv s -> to_sender s = Rec i :: u -> i ∈ ids (pubs s) -> i ∈ reserved s.
Proof.
  intros Hinv Hu Hi. pose proof (inv_slots _ Hinv i) as Hs. unfold Slot.inv in Hs.
  destruct (phase_publishing i s Hi) as [b Hb]. rewrite Hb in Hs. simpl in Hs.
  destruct (bool_decide_reflect (i ∈ reserved s)) as [Hr|Hr]; [done|].
  destruct Hs as [Hs _]. unfold Slot.acks in Hs. simpl in Hs. rewrite Hu in Hs. simpl in Hs.
  rewrite decide_True in Hs by done. set_solver.
Qed.

(** A release for an identifier the receiver holds: its publication is acknowledged,
    and no copy of it follows. *)
Lemma rel_released i d s :
  inv s -> to_receiver s = Rel i :: d -> i ∈ reserved s ->
  (i ∉ ids (pubs s)) /\ forall m, Pub i m ∉ d.
Proof.
  intros Hinv Hd Hr. pose proof (inv_slots _ Hinv i) as Hs. unfold Slot.inv in Hs.
  unfold slot in Hs. simpl in Hs. rewrite bool_decide_eq_true_2, Hd in Hs by done. simpl in Hs.
  rewrite decide_True in Hs by done. split.
  - intros Hi. destruct (phase_publishing i s Hi) as [b Hb]. unfold slot in Hb. simpl in Hb.
    rewrite Hb in Hs. set_solver.
  - intros m Hm. unfold phase_of in Hs. destruct (find_pub i (pubs s)); [set_solver|].
    destruct (rels s !! i); [|done]. destruct Hs as (_ & Hs & _). apply Slot.behind_head in Hs.
    apply Hs. apply list_elem_of_omap. exists (Pub i m). simpl. by rewrite decide_True.
Qed.

Lemma filter_unsent (f : pub -> Prop) `{!forall p, Decision (f p)} l :
  Forall (fun p => pub_sent p = false) l ->
  filter (fun p => pub_sent p = true) (filter f l) = [].
Proof.
  induction 1 as [|p l Hp _ IH]; [done|]. rewrite filter_cons. case_decide; [|done].
  rewrite filter_cons_False by congruence. done.
Qed.

(** If a written publication is undelivered, the first undelivered one is written. *)
Lemma first_unreserved s i m l :
  inv s ->
  key <$> filter (fun p => pub_sent p = true) (unreserved s) = (i, m) :: l ->
  exists p ps, unreserved s = p :: ps /\ key p = (i, m) /\ pub_sent p = true.
Proof.
  intros Hinv. unfold unreserved. destruct (inv_order _ Hinv) as (l1 & l2 & -> & H1 & H2).
  rewrite filter_app.
  set (f := fun p => pub_id p ∉ reserved s).
  rewrite filter_app, (filter_unsent f l2), app_nil_r by done.
  destruct (filter f l1) as [|p ps] eqn:E; [done|].
  assert (pub_sent p = true) as Hp.
  { rewrite Forall_forall in H1. apply H1. assert (p ∈ filter f l1) as Hx by (rewrite E; set_solver).
    by apply list_elem_of_filter in Hx as [_ ?]. }
  rewrite filter_cons_True by done. simpl. intros [= Hk Hm _]. exists p, (ps ++ filter f l2).
  split_and!; auto. unfold key. congruence.
Qed.

(** *** Reserving an identifier *)

Lemma filter_reserve i (r : gset Z) (l : list pub) :
  filter (fun p => pub_id p ∉ {[i]} ∪ r) l =
  filter (fun p => pub_id p <> i) (filter (fun p => pub_id p ∉ r) l).
Proof.
  rewrite list_filter_filter. apply list_filter_iff. set_solver.
Qed.

Lemma fresh_reserve i (r : gset Z) (d : list (down M)) :
  omap (fresh_pub ({[i]} ∪ r)) d = filter (fun x => fst x <> i) (omap (fresh_pub r) d).
Proof.
  induction d as [|[j m|j] d IH]; csimpl; [done| |done].
  rewrite IH. destruct (decide (j ∈ r)); [by rewrite decide_True by set_solver|].
  rewrite filter_cons. simpl. destruct (decide (j = i)) as [->|Hij].
  - by rewrite decide_True, decide_False by set_solver.
  - by rewrite decide_False, decide_True by set_solver.
Qed.

Lemma filter_absent {A} (f : A -> Z) i (l : list A) :
  i ∉ f <$> l -> filter (fun x => f x <> i) l = l.
Proof.
  induction l as [|x l IH]; [done|]. rewrite fmap_cons, not_elem_of_cons. intros [Hx Hl].
  rewrite filter_cons_True by congruence. by rewrite IH.
Qed.

Lemma key_ids l : fst <$> (key <$> l) = ids l.
Proof. by rewrite <- list_fmap_compose. Qed.

Lemma ids_filter i (f : pub -> Prop) `{!forall p, Decision (f p)} (l : list pub) : i ∈ ids (filter f l) -> i ∈ ids l.
Proof.
  intros (p & -> & Hp)%list_elem_of_fmap_1. apply list_elem_of_filter in Hp as [_ Hp].
  by apply list_elem_of_fmap_2.
Qed.

Lemma NoDup_ids_filter (f : pub -> Prop) `{!forall p, Decision (f p)} (l : list pub) :
  NoDup (ids l) -> NoDup (ids (filter f l)).
Proof.
  induction l as [|p l IH]; [done|]. unfold ids. simpl. intros [Hp Hl]%NoDup_cons.
  rewrite filter_cons. case_decide; [|by apply IH]. simpl. apply NoDup_cons. split; [|by apply IH].
  intros Hi. apply Hp. by apply (ids_filter _ f).
Qed.

Lemma recv_fresh s i m d :
  inv s -> to_receiver s = Pub i m :: d -> i ∉ reserved s ->
  (pub_msg <$> unreserved s) =
    m :: (pub_msg <$> filter (fun p => pub_id p ∉ {[i]} ∪ reserved s) (pubs s)) /\
  omap (fresh_pub ({[i]} ∪ reserved s)) d =
    key <$> filter (fun p => pub_sent p = true)
              (filter (fun p => pub_id p ∉ {[i]} ∪ reserved s) (pubs s)).
Proof.
  intros Hinv Hd Hr. pose proof (inv_flight _ Hinv) as Hf. rewrite Hd in Hf. csimpl in Hf.
  rewrite decide_False in Hf by done.
  destruct (first_unreserved s i m _ Hinv (eq_sym Hf)) as (p & ps & Hu & Hk & Hp).
  rewrite Hu, filter_cons_True in Hf by done. csimpl in Hf. injection Hf as _ _ Hf.
  injection Hk as Hi Hm. subst i m.
  assert (pub_id p ∉ ids ps) as Hn.
  { assert (NoDup (ids (unreserved s))) as Hnd by apply NoDup_ids_filter, Hinv.
    rewrite Hu in Hnd. by apply NoDup_cons in Hnd as [? _]. }
  rewrite filter_reserve, fresh_reserve. fold (unreserved s). rewrite Hu, Hf.
  rewrite filter_cons_False by tauto. rewrite (filter_absent pub_id) by done. split; [done|].
  apply filter_absent. rewrite key_ids. intros Hx. by apply Hn, (ids_filter _ _ _ Hx).
Qed.

(** *** Releasing an identifier *)

Lemma filter_same {A} (f g : A -> Prop) `{!forall p, Decision (f p), !forall p, Decision (g p)} (l : list A) :
  (forall p, p ∈ l -> f p <-> g p) -> filter f l = filter g l.
Proof.
  induction l as [|p l IH]; intros Hfg; [done|]. rewrite !filter_cons, IH by set_solver.
  assert (f p <-> g p) as Hp by set_solver. repeat case_decide; tauto.
Qed.

Lemma fresh_release i (r : gset Z) (d : list (down M)) :
  (forall m, Pub i m ∉ d) ->
  omap (fresh_pub (r ∖ {[i]})) d = omap (fresh_pub r) d.
Proof.
  induction d as [|[j m|j] d IH]; intros Hd; csimpl; [done| |apply IH; set_solver].
  rewrite IH by set_solver.
  assert (j <> i) by (intros ->; apply (Hd m); set_solver).
  destruct (decide (j ∈ r)); [rewrite decide_True by set_solver|rewrite decide_False by set_solver];
    done.
Qed.

(** *** Every action *)

Lemma publish_inv i m s s' : inv s -> step (Publish i m) s = Some s' -> inv s'.
Proof.
  intros Hinv Hs. pose proof (fun j => step_slots j _ _ _ Hinv Hs) as Hslots.
  pose proof (Hslots i) as Hslot. revert Hs. simpl. case_decide as Hd; [|done]. intros [= <-].
  destruct Hd as (Hi & Hr & Hw). destruct Hinv as [Hn Hdis Hwin (l1 & l2 & Hl & H1 & H2) Hdel Hfl Hsl].
  assert (i ∉ reserved s) as Hres.
  { intros Hx. specialize (Hsl i). unfold Slot.inv, slot, phase_of in Hsl. simpl in Hsl.
    rewrite (proj2 (find_pub_none i _)), Hr, bool_decide_eq_true_2 in Hsl by done. done. }
  assert (filter (fun p => pub_id p ∉ reserved s) [mkPub i m false] = [mkPub i m false]) as Hone
    by (by rewrite filter_cons_True).
  constructor; simpl; try done; unfold unreserved in *; simpl.
  - rewrite ids_app. apply NoDup_app. split_and!; [done| |apply NoDup_singleton]. set_solver.
  - intros j. rewrite ids_app, elem_of_app. intros [?|Hj]; [auto|].
    by apply list_elem_of_singleton in Hj as ->.
  - rewrite length_app. simpl. lia.
  - exists l1, (l2 ++ [mkPub i m false]). rewrite Hl, app_assoc. split_and!; [done..|].
    apply Forall_app. auto.
  - rewrite filter_app, Hone, fmap_app, Hdel, app_assoc. done.
  - rewrite !filter_app, Hone, fmap_app, Hfl. simpl. by rewrite app_nil_r.
Qed.

Lemma unsent_behind l1 l2 k1 (p : pub) k2 :
  l1 ++ l2 = k1 ++ p :: k2 -> Forall (fun p => pub_sent p = true) l1 ->
  Forall (fun p => pub_sent p = false) l2 -> Forall (fun p => pub_sent p = true) k1 ->
  pub_sent p = false -> Forall (fun p => pub_sent p = false) k2.
Proof.
  intros Hl H1 H2 Hk Hp. revert k1 Hl Hk.
  induction H1 as [|q l1 Hq _ IH]; intros k1 Hl Hk; simpl in Hl.
  - rewrite Hl in H2. apply Forall_app in H2 as [_ H2]. by inversion H2.
  - destruct k1 as [|q' k1]; simpl in Hl; [congruence|]. injection Hl as _ Hl.
    inversion Hk; subst. by eapply IH.
Qed.

Lemma send_pub_inv s s' : inv s -> step SendPub s = Some s' -> inv s'.
Proof.
  intros Hinv Hs. pose proof (fun j => step_slots j _ _ _ Hinv Hs) as Hslots. revert Hs. simpl.
  destruct (send_first (pubs s)) as [[p l]|] eqn:E; [|done]. intros [= <-].
  apply send_first_spec in E as (k1 & k2 & Hk & -> & Hp & Hk1).
  destruct Hinv as [Hn Hdis Hwin (l1 & l2 & Hl & H1 & H2) Hdel Hfl Hsl].
  assert (Forall (fun p => pub_sent p = false) k2) as Hk2.
  { apply (unsent_behind l1 l2 k1 p); [congruence|done..]. }
  assert (ids (k1 ++ written p :: k2) = ids (pubs s)) as Hids by (by rewrite Hk, !ids_app).
  assert (pub_msg <$> filter (fun p => pub_id p ∉ reserved s) (k1 ++ written p :: k2) =
          pub_msg <$> unreserved s) as Hmsgs.
  { unfold unreserved. rewrite Hk, !filter_app, !filter_cons, !fmap_app. simpl.
    by destruct (decide (pub_id p ∉ reserved s)). }
  constructor; simpl; try done; unfold unreserved in *; simpl; rewrite ?Hids; auto.
  - rewrite Hk in Hwin. rewrite !length_app in *. simpl in *. lia.
  - exists (k1 ++ [written p]), k2. rewrite <- app_assoc. split_and!; [done| |done].
    apply Forall_app. auto.
  - by rewrite Hmsgs.
  - rewrite omap_app, Hfl, Hk, !filter_app, !filter_cons, !fmap_app. csimpl.
    repeat case_decide; csimpl in *; try tauto; rewrite ?filter_cons; csimpl;
      rewrite ?Hp; csimpl;
      by rewrite (filter_unsent (fun p => pub_id p ∉ reserved s) k2), ?app_nil_r by done.
Qed.

Lemma send_rel_inv i s s' : inv s -> step (SendRel i) s = Some s' -> inv s'.
Proof.
  intros Hinv Hs. pose proof (fun j => step_slots j _ _ _ Hinv Hs) as Hslots. revert Hs. simpl.
  case_decide as Hi; [|done]. intros [= <-]. destruct Hinv as [Hn Hdis Hwin Hord Hdel Hfl Hsl].
  constructor; simpl; try done.
  - intros j Hj. rewrite lookup_insert_ne; [auto|]. intros ->. by rewrite (Hdis j) in Hi.
  - by rewrite map_size_insert_Some by eauto.
  - rewrite omap_app. csimpl. by rewrite app_nil_r.
Qed.

Lemma recv_down_inv s s' : inv s -> recv_down s = Some s' -> inv s'.
Proof.
  intros Hinv Hs. pose proof (fun j => step_slots j RecvDown _ _ Hinv Hs) as Hslots. revert Hs.
  unfold recv_down. destruct (pending s) eqn:Hp; [done|].
  pose proof (fun i m d => recv_fresh s i m d Hinv) as Hfresh.
  pose proof (fun i d => rel_released i d s Hinv) as Hrel.
  destruct Hinv as [Hn Hdis Hwin Hord Hdel Hfl Hsl].
  destruct (to_receiver s) as [|[i m|i] d] eqn:Hd; [done| |]; intros [= <-];
    constructor; try done; unfold unreserved; simpl; csimpl in Hfl.
  - destruct (decide (i ∈ reserved s)) as [Hr|Hr].
    + by replace ({[i]} ∪ reserved s) with (reserved s) by set_solver.
    + destruct (Hfresh _ _ _ eq_refl Hr) as [Hm _]. rewrite Hdel, Hm, <- app_assoc. done.
  - destruct (decide (i ∈ reserved s)) as [Hr|Hr].
    + by replace ({[i]} ∪ reserved s) with (reserved s) by set_solver.
    + by destruct (Hfresh _ _ _ eq_refl Hr) as [_ ?].
  - destruct (decide (i ∈ reserved s)) as [Hr|Hr];
      [|by replace (reserved s ∖ {[i]}) with (reserved s) by set_solver].
    destruct (Hrel _ _ eq_refl Hr) as [Hi _]. rewrite Hdel. f_equal. f_equal.
    apply filter_same. intros p Hx. apply (list_elem_of_fmap_2 pub_id) in Hx. set_solver.
  - destruct (decide (i ∈ reserved s)) as [Hr|Hr];
      [|by replace (reserved s ∖ {[i]}) with (reserved s) by set_solver].
    destruct (Hrel _ _ eq_refl Hr) as [Hi Hd']. transitivity (omap (fresh_pub (reserved s)) d).
    + apply fresh_release. done.
    + rewrite Hfl. f_equal. f_equal. apply filter_same.
      intros p Hx. apply (list_elem_of_fmap_2 pub_id) in Hx. set_solver.
Qed.

Lemma Forall_filter_keep (Q f : pub -> Prop) `{!forall p, Decision (f p)} (l : list pub) :
  Forall Q l -> Forall Q (filter f l).
Proof. rewrite !Forall_forall. intros HQ p [_ Hp]%list_elem_of_filter. auto. Qed.

Lemma length_remove i (l : list pub) :
  i ∈ ids l -> (length (filter (fun p => pub_id p <> i) l) < length l)%nat.
Proof.
  intros (p & -> & Hp)%list_elem_of_fmap_1. apply length_filter_lt with (x := p); tauto.
Qed.

Lemma unreserved_remove i (r : gset Z) (l : list pub) :
  i ∈ r ->
  filter (fun p => pub_id p ∉ r) (filter (fun p => pub_id p <> i) l) =
  filter (fun p => pub_id p ∉ r) l.
Proof. intros Hi. rewrite list_filter_filter. apply list_filter_iff. set_solver. Qed.

Lemma recv_up_inv s s' : inv s -> recv_up s = Some s' -> inv s'.
Proof.
  intros Hinv Hs. pose proof (fun j => step_slots j RecvUp _ _ Hinv Hs) as Hslots. revert Hs.
  pose proof (fun i u => rec_reserved i u s Hinv) as Hrec.
  destruct Hinv as [Hn Hdis Hwin (l1 & l2 & Hl & H1 & H2) Hdel Hfl Hsl].
  unfold recv_up. destruct (to_sender s) as [|[i|i] u] eqn:Hu; [done| |]; intros [= <-].
  - case_decide as Hi; [|constructor; eauto]. specialize (Hrec _ _ eq_refl Hi).
    constructor; unfold unreserved; simpl; rewrite ?unreserved_remove by done; try done.
    + by apply NoDup_ids_filter.
    + intros j (p & -> & Hp)%list_elem_of_fmap_1. apply list_elem_of_filter in Hp as [Hp Hin].
      rewrite lookup_insert_ne by done. by apply Hdis, list_elem_of_fmap_2.
    + rewrite map_size_insert_None by auto. pose proof (length_remove i (pubs s) Hi). lia.
    + rewrite Hl, filter_app. eexists _, _. split_and!; [done|by apply Forall_filter_keep..].
  - constructor; simpl; eauto.
    + intros j Hj. rewrite lookup_delete_None. auto.
    + rewrite map_size_delete. destruct (rels s !! i); simpl; lia.
Qed.

Lemma ack_inv a s s' : a = WriteAck \/ a = FlushAck -> inv s -> step a s = Some s' -> inv s'.
Proof.
  intros Ha Hinv Hs. pose proof (fun j => step_slots j _ _ _ Hinv Hs) as Hslots. revert Hs.
  destruct Hinv. destruct Ha as [-> | ->]; simpl;
    destruct (pending s) as [[u []]|]; try done; intros [= <-]; by constructor.
Qed.

Lemma lose_inv s s' : inv s -> step Lose s = Some s' -> inv s'.
Proof.
  intros Hinv Hs. pose proof (fun j => step_slots j _ _ _ Hinv Hs) as Hslots. revert Hs.
  intros [= <-]. destruct Hinv as [Hn Hdis Hwin Hord Hdel Hfl Hsl].
  assert (ids (resend <$> pubs s) = ids (pubs s)) as Hids
    by (unfold ids; by rewrite <- list_fmap_compose).
  assert (filter (fun p => pub_id p ∉ reserved s) (resend <$> pubs s) =
          resend <$> unreserved s) as Hres.
  { unfold unreserved. clear. induction (pubs s) as [|p l IH]; [done|]. csimpl.
    rewrite !filter_cons, IH. simpl. by case_decide. }
  assert (Forall (fun p => pub_sent p = false) (resend <$> pubs s)) as Hun
    by (apply Forall_fmap, Forall_true; done).
  constructor; simpl; try done; unfold unreserved; simpl; rewrite ?Hids; auto.
  - intros i Hi. by rewrite lookup_fmap, Hdis.
  - by rewrite length_fmap, map_size_fmap.
  - exists [], (resend <$> pubs s). auto.
  - rewrite Hres, <- list_fmap_compose. done.
  - by rewrite (filter_unsent (fun p => pub_id p ∉ reserved s)).
Qed.

Lemma step_inv a s s' : inv s -> step a s = Some s' -> inv s'.
Proof.
  destruct a; [apply publish_inv|apply send_pub_inv|apply send_rel_inv|apply recv_down_inv
    |apply ack_inv; by left|apply ack_inv; by right|apply recv_up_inv|apply lose_inv].
Qed.

Lemma run_inv l s s' : inv s -> run l s = Some s' -> inv s'.
Proof.
  revert s. induction l as [|a l IH]; simpl; intros s Hs; [by intros [= <-]|].
  destruct (step a s) as [s1|] eqn:E; [|done]. apply IH. by apply (step_inv a s).
Qed.

Lemma init_inv : inv init.
Proof.
  constructor; try done; simpl; [apply NoDup_nil_2|apply Nat.le_0_l|by exists [], []|].
  intros i. unfold Slot.inv, slot, phase_of. simpl. rewrite lookup_empty.
  rewrite bool_decide_eq_false_2 by apply not_elem_of_empty.
  split; apply not_elem_of_nil.
Qed.

(** ** What the invariant says *)

Lemma inv_prefix s : inv s -> delivered s `prefix_of` published s.
Proof. intros Hinv. rewrite (inv_delivered _ Hinv). by eexists. Qed.

(** A message is undelivered only while the sender keeps its publication. *)
Lemma inv_kept s :
  inv s -> exists l, published s = delivered s ++ (pub_msg <$> l) /\ l `sublist_of` pubs s.
Proof.
  intros Hinv. exists (unreserved s). split; [apply Hinv|]. apply sublist_filter.
Qed.

Lemma reserved_live s i : inv s -> i ∈ reserved s -> i ∈ ids (pubs s) \/ is_Some (rels s !! i).
Proof.
  intros Hinv Hi. pose proof (inv_slots _ Hinv i) as Hs. unfold Slot.inv, slot, phase_of in Hs.
  simpl in Hs. rewrite bool_decide_eq_true_2 in Hs by done.
  destruct (find_pub i (pubs s)) as [q|] eqn:E.
  - left. apply find_pub_elem in E as [Hq <-]. by apply list_elem_of_fmap_2.
  - right. destruct (rels s !! i); [eauto|done].
Qed.

Lemma reserved_window s : inv s -> (size (reserved s) <= window)%nat.
Proof.
  intros Hinv. transitivity (size (list_to_set (ids (pubs s)) ∪ dom (rels s) : gset Z)).
  - apply subseteq_size. intros i Hi. rewrite elem_of_union, elem_of_list_to_set, elem_of_dom.
    by apply reserved_live.
  - rewrite size_union_alt. pose proof (inv_window _ Hinv) as Hw.
    assert (size (list_to_set (ids (pubs s)) : gset Z) <= length (pubs s))%nat.
    { rewrite size_list_to_set by apply Hinv. unfold ids. by rewrite length_fmap. }
    assert (size (dom (rels s) ∖ list_to_set (ids (pubs s))) <= size (rels s))%nat; [|lia].
    rewrite <- size_dom. apply subseteq_size. set_solver.
Qed.

(** There is room to reserve the identifier of a new publication. *)
Lemma fresh_room s i m d :
  inv s -> pending s = None -> to_receiver s = Pub i m :: d -> i ∉ reserved s ->
  (size (reserved s) < window)%nat.
Proof.
  intros Hinv Hp Hd Hi. destruct (recv_down s) as [s'|] eqn:E;
    [|unfold recv_down in E; by rewrite Hp, Hd in E].
  pose proof (reserved_window s' (recv_down_inv _ _ Hinv E)) as Hw. unfold recv_down in E.
  rewrite Hp, Hd in E. injection E as <-. simpl in Hw.
  rewrite size_union in Hw by set_solver. rewrite size_singleton in Hw. lia.
Qed.

(** ** Without losses and new messages, everything is delivered *)

Definition progresses (a : action) : bool :=
  match a with Publish _ _ | Lose => false | _ => true end.

(** Every step moves a message to a later place; each place has a smaller weight. *)
Definition pub_weight (p : pub) : nat := if pub_sent p then 0 else 10.
Definition down_weight (d : down M) : nat := match d with Pub _ _ => 9 | Rel _ => 4 end.
Definition up_weight (u : up) : nat := match u with Rec _ => 6 | Comp _ => 1 end.
Definition pending_weight (p : option (up * bool)) : nat :=
  match p with Some (_, true) => 1 | Some (u, false) => 2 + up_weight u | None => 0 end.
Definition unsent_rels (r : gmap Z bool) : gmap Z bool := filter (fun kv => snd kv = false) r.

Definition measure (s : state) : nat :=
  sum_list_with pub_weight (pubs s) + 5 * size (unsent_rels (rels s)) +
  sum_list_with down_weight (to_receiver s) + sum_list_with up_weight (to_sender s) +
  pending_weight (pending s).

Lemma unsent_sent i r : r !! i = Some false -> size (unsent_rels r) = S (size (unsent_rels (<[i := true]> r))).
Proof.
  intros Hi. unfold unsent_rels. rewrite map_filter_insert_False by done.
  rewrite map_filter_delete, map_size_delete_Some.
  - assert (size (filter (fun kv : Z * bool => snd kv = false) r) <> 0)%nat; [|lia].
    rewrite map_size_ne_0_lookup. exists i. rewrite map_lookup_filter_Some_2 with (x := false); eauto.
  - exists false. by apply map_lookup_filter_Some_2.
Qed.

Lemma unsent_new i r : (size (unsent_rels (<[i := false]> r)) <= S (size (unsent_rels r)))%nat.
Proof.
  unfold unsent_rels. rewrite map_filter_insert_True by done. rewrite map_size_insert.
  by destruct (_ !! i); simpl; lia.
Qed.

Lemma unsent_delete i r : (size (unsent_rels (delete i r)) <= size (unsent_rels r))%nat.
Proof.
  unfold unsent_rels. rewrite map_filter_delete, map_size_delete. by destruct (_ !! i); simpl; lia.
Qed.

Lemma sum_filter (f : pub -> nat) (g : pub -> Prop) `{!forall p, Decision (g p)} (l : list pub) :
  (sum_list_with f (filter g l) <= sum_list_with f l)%nat.
Proof. induction l as [|p l IH]; simpl; [done|]. rewrite filter_cons. case_decide; simpl; lia. Qed.

Lemma step_measure a s s' :
  progresses a = true -> step a s = Some s' -> (measure s' < measure s)%nat.
Proof.
  unfold measure. destruct a; try done; intros _; simpl.
  - destruct (send_first (pubs s)) as [[p l]|] eqn:E; [|done]. intros [= <-]. simpl.
    apply send_first_spec in E as (l1 & l2 & -> & -> & Hp & _).
    assert (pub_weight p = 10%nat) as Hw by (unfold pub_weight; by rewrite Hp).
    rewrite !sum_list_with_app. simpl. rewrite Hw. change (pub_weight (written p)) with 0%nat. lia.
  - case_decide as Hi; [|done]. intros [= <-]. simpl. rewrite !sum_list_with_app. simpl.
    rewrite (unsent_sent i (rels s) Hi). lia.
  - unfold recv_down. destruct (pending s); [done|].
    destruct (to_receiver s) as [|[i m|i] d]; [done| |]; intros [= <-]; simpl; lia.
  - destruct (pending s) as [[u []]|]; try done. intros [= <-]. simpl.
    rewrite !sum_list_with_app. simpl. lia.
  - destruct (pending s) as [[u []]|]; try done. intros [= <-]. simpl. lia.
  - unfold recv_up. destruct (to_sender s) as [|[i|i] u]; [done| |]; intros [= <-].
    + case_decide; simpl; [|lia]. pose proof (unsent_new i (rels s)).
      pose proof (sum_filter pub_weight (fun p => pub_id p <> i) (pubs s)). lia.
    + simpl. pose proof (unsent_delete i (rels s)). lia.
Qed.

Lemma run_bounded l s s' :
  Forall (fun a => progresses a = true) l -> run l s = Some s' -> (length l <= measure s)%nat.
Proof.
  intros Hl. revert s. induction Hl as [|a l Ha _ IH]; simpl; intros s; [lia|].
  destruct (step a s) as [s1|] eqn:E; [|done]. intros H. apply IH in H.
  pose proof (step_measure _ _ _ Ha E). lia.
Qed.

Definition stuck (s : state) : Prop := forall a, progresses a = true -> step a s = None.

Lemma stuck_links s : stuck s -> pending s = None /\ to_receiver s = [] /\ to_sender s = [].
Proof.
  intros Hs. pose proof (Hs WriteAck eq_refl) as Hw. pose proof (Hs FlushAck eq_refl) as Hf.
  pose proof (Hs RecvDown eq_refl) as Hd. pose proof (Hs RecvUp eq_refl) as Hu.
  simpl in *. unfold recv_down, recv_up in *.
  destruct (pending s) as [[? []]|]; try done. split; [done|].
  split; [by destruct (to_receiver s) as [|[]]|by destruct (to_sender s) as [|[]]].
Qed.

Lemma stuck_written s i :
  stuck s ->
  match phase_of i (pubs s) (rels s) with
  | Slot.Free => True | Slot.Publishing b => b = true | Slot.Releasing b => b = true
  end.
Proof.
  intros Hs. unfold phase_of. destruct (find_pub i (pubs s)) as [q|] eqn:E.
  - apply find_pub_elem in E as [Hq _]. pose proof (Hs SendPub eq_refl) as H. simpl in H.
    destruct (send_first (pubs s)) as [[]|] eqn:E'; [done|].
    apply send_first_none in E'. rewrite Forall_forall in E'. auto.
  - destruct (rels s !! i) as [[]|] eqn:Er; try done.
    pose proof (Hs (SendRel i) eq_refl) as H. simpl in H. by rewrite Er in H.
Qed.

Lemma stuck_free s i : inv s -> stuck s -> phase_of i (pubs s) (rels s) = Slot.Free.
Proof.
  intros Hinv Hs. pose proof (stuck_written s i Hs) as Hw.
  destruct (stuck_links s Hs) as (Hp & Hd & Hu).
  pose proof (inv_slots _ Hinv i) as Hi. unfold Slot.inv, Slot.due, slot in Hi. simpl in Hi.
  rewrite Hd, Hu, Hp in Hi. simpl in Hi.
  destruct (phase_of i (pubs s) (rels s)); [done| |]; subst; destruct (bool_decide _); set_solver.
Qed.

(** If no step but a loss or a new message is possible, there is nothing left to do. *)
Lemma stuck_done s :
  inv s -> stuck s -> delivered s = published s /\ pubs s = [] /\ rels s = ∅.
Proof.
  intros Hinv Hs. pose proof (fun i => stuck_free s i Hinv Hs) as Hfree. unfold phase_of in Hfree.
  assert (pubs s = []) as Hpubs.
  { destruct (pubs s) as [|p l]; [done|]. specialize (Hfree (pub_id p)). simpl in Hfree.
    by rewrite decide_True in Hfree. }
  split_and!; [|done|].
  - rewrite (inv_delivered _ Hinv). unfold unreserved. rewrite Hpubs. simpl. by rewrite app_nil_r.
  - apply map_empty. intros i. specialize (Hfree i). rewrite Hpubs in Hfree. simpl in Hfree.
    by destruct (rels s !! i).
Qed.

End Machine.
End Qos2.
