(* ===== verification/Qos1Spec.v ===== *)
(** * The at-least-once protocol: its abstract machine

    A sender that keeps its publications until PUBACK, a receiver that hands out every
    publication it reads and acknowledges it, and a FIFO link in each direction that can
    be lost at any time. The machine has no bytes, buffers or tables; [Duplex] and
    [Delivery] show that two sessions of the client refine it. Its theorems: leaving out
    the repetitions, what was delivered is a prefix of what was published, and whatever is
    missing is still kept by the sender; and where nothing but a loss or a new message is
    possible, everything is delivered.

    A publication takes an identifier of which nothing is on the way any more: an
    identifier acknowledged twice must not be in use again when the second
    acknowledgement arrives. *)

From stdpp Require Import gmap.
From S2P Require Import Prelude Qos2Spec.

(** * First occurrences *)

Section Once.
Context {A : Type} `{!EqDecision A}.
Implicit Types (l : list A) (a : A).

(** The list without repetitions, in the order of the first occurrences. *)
Definition once l : list A :=
  foldl (fun acc a => if decide (a ∈ acc) then acc else acc ++ [a]) [] l.

Lemma once_snoc l a : once (l ++ [a]) = if decide (a ∈ once l) then once l else once l ++ [a].
Proof. unfold once. by rewrite foldl_app. Qed.

Lemma elem_of_once l a : a ∈ once l <-> a ∈ l.
Proof.
  induction l as [|b l IH] using rev_ind; [done|]. rewrite once_snoc.
  case_decide; set_solver.
Qed.

Lemma once_new l a : a ∉ l -> once (l ++ [a]) = once l ++ [a].
Proof. intros Ha. rewrite once_snoc, decide_False; [done|]. by rewrite elem_of_once. Qed.

Lemma once_again l a : a ∈ l -> once (l ++ [a]) = once l.
Proof. intros Ha. rewrite once_snoc, decide_True; [done|]. by rewrite elem_of_once. Qed.
End Once.

(** [redelivers l d n]: [d] delivers the first [n] elements of [l] in order, each for the
    first time when those before it were delivered, and repeats delivered ones at will. *)
Inductive redelivers {A} (l : list A) : list A -> nat -> Prop :=
| redelivers_nil : redelivers l [] 0
| redelivers_next d n a : redelivers l d n -> l !! n = Some a -> redelivers l (d ++ [a]) (S n)
| redelivers_again d n k a :
    redelivers l d n -> (k < n)%nat -> l !! k = Some a -> redelivers l (d ++ [a]) n.

Lemma redelivers_once {A} `{!EqDecision A} (d rest : list A) :
  redelivers (once d ++ rest) d (length (once d)).
Proof.
  revert rest. induction d as [|a d IH] using rev_ind; intros rest; [constructor|].
  destruct (decide (a ∈ d)) as [Ha|Ha].
  - rewrite once_again by done. apply elem_of_once, list_elem_of_lookup in Ha as [k Hk].
    apply redelivers_again with k; [apply IH|by eapply lookup_lt_Some|].
    by apply lookup_app_l_Some.
  - rewrite once_new by done. rewrite <- app_assoc, length_app, Nat.add_1_r.
    constructor; [apply IH|]. by apply list_lookup_middle.
Qed.

Lemma redelivers_fmap {A B} (f : A -> B) l d n :
  redelivers l d n -> redelivers (f <$> l) (f <$> d) n.
Proof.
  induction 1 as [|d n a _ IH Ha|d n k a _ IH Hk Ha]; [constructor|..]; rewrite fmap_app.
  - constructor; [done|]. by rewrite list_lookup_fmap, Ha.
  - apply redelivers_again with k; [done..|]. by rewrite list_lookup_fmap, Ha.
Qed.

Lemma filter_every {A} (f : A -> Prop) `{!forall a, Decision (f a)} (l : list A) :
  (forall a, a ∈ l -> f a) -> filter f l = l.
Proof.
  induction l as [|a l IH]; [done|]. intros Hl. rewrite filter_cons_True by set_solver.
  by rewrite IH by set_solver.
Qed.

(** * The machine *)

Module Qos1.

Section Machine.
Context {M : Type} `{!EqDecision M}.
Implicit Types (m : M) (i : Z).

Abbreviation pub := (Qos2.pub (M := M)).

(** As in [Qos2]: the sender's publications, the acknowledgement the receiver has to send
    and whether it is written, the link, what was published and delivered. *)
Record state : Type := mkState {
  pubs : list pub; pending : option (Z * bool);
  to_receiver : list (Z * M); to_sender : list Z;
  published : list M; delivered : list M }.

Definition init : state := mkState [] None [] [] [] [].

Inductive action : Type :=
| Publish (i : Z) (m : M) | SendPub | RecvDown | WriteAck | FlushAck | RecvUp | Lose.

Definition pending_all (p : option (Z * bool)) : list Z :=
  match p with Some (i, _) => [i] | None => [] end.
Definition pending_new (p : option (Z * bool)) : list Z :=
  match p with Some (i, false) => [i] | _ => [] end.

(** Every acknowledgement the sender may still receive, and those it will receive if no
    connection is lost. *)
Definition acks (s : state) : list Z := to_sender s ++ pending_all (pending s).
Definition due (s : state) : list Z := to_sender s ++ pending_new (pending s).

(** The identifiers of which something is on the way. *)
Definition under_way (s : state) : list Z := (to_receiver s).*1 ++ acks s.

Definition step (a : action) (s : state) : option state :=
  match a with
  | Publish i m =>
      if decide (i ∉ Qos2.ids (pubs s) /\ i ∉ under_way s /\ m ∉ published s)
      then Some (mkState (pubs s ++ [Qos2.mkPub i m false]) (pending s) (to_receiver s)
                   (to_sender s) (published s ++ [m]) (delivered s))
      else None
  | SendPub =>
      match Qos2.send_first (pubs s) with
      | Some (p, l) =>
          Some (mkState l (pending s) (to_receiver s ++ [Qos2.key p]) (to_sender s)
                  (published s) (delivered s))
      | None => None
      end
  | RecvDown =>
      match pending s, to_receiver s with
      | None, (i, m) :: d =>
          Some (mkState (pubs s) (Some (i, false)) d (to_sender s) (published s)
                  (delivered s ++ [m]))
      | _, _ => None
      end
  | WriteAck =>
      match pending s with
      | Some (i, false) =>
          Some (mkState (pubs s) (Some (i, true)) (to_receiver s) (to_sender s ++ [i])
                  (published s) (delivered s))
      | _ => None
      end
  | FlushAck =>
      match pending s with
      | Some (_, true) =>
          Some (mkState (pubs s) None (to_receiver s) (to_sender s) (published s) (delivered s))
      | _ => None
      end
  | RecvUp =>
      match to_sender s with
      | i :: u =>
          Some (mkState (filter (fun p => Qos2.pub_id p <> i) (pubs s)) (pending s)
                  (to_receiver s) u (published s) (delivered s))
      | [] => None
      end
  | Lose =>
      Some (mkState (Qos2.resend <$> pubs s) (option_map (fun '(i, _) => (i, false)) (pending s))
              [] [] (published s) (delivered s))
  end.

(** ** The invariant *)

(** The publications not delivered yet. *)
Definition missing (d : list M) (l : list pub) : list pub := filter (fun p => Qos2.pub_msg p ∉ d) l.

Record inv (s : state) : Prop := mkInv {
  inv_ids : NoDup (Qos2.ids (pubs s));
  inv_published : NoDup (published s);
  (** Publications are written in order. *)
  inv_order : exists l1 l2, pubs s = l1 ++ l2 /\ Forall (fun p => Qos2.pub_sent p = true) l1 /\
                            Forall (fun p => Qos2.pub_sent p = false) l2;
  (** Every message was delivered or is kept by the sender, in order. *)
  inv_delivered : published s = once (delivered s) ++ (Qos2.pub_msg <$> missing (delivered s) (pubs s));
  (** The undelivered publications on the link are the written ones, in order. *)
  inv_flight : filter (fun x => x.2 ∉ delivered s) (to_receiver s) =
               Qos2.key <$> filter (fun p => Qos2.pub_sent p = true) (missing (delivered s) (pubs s));
  (** An identifier names one message; if it is acknowledged, that message is delivered. *)
  inv_names : forall i m p, (i, m) ∈ to_receiver s -> p ∈ pubs s -> Qos2.pub_id p = i ->
                            Qos2.pub_msg p = m;
  inv_acked : forall p, p ∈ pubs s -> Qos2.pub_id p ∈ acks s -> Qos2.pub_msg p ∈ delivered s;
  (** A written publication, or its acknowledgement, is on the way. *)
  inv_sent : forall p, p ∈ pubs s -> Qos2.pub_sent p = true ->
                       Qos2.pub_id p ∈ (to_receiver s).*1 \/ Qos2.pub_id p ∈ due s }.

(** ** Lemmas *)

Lemma same_pub (l : list pub) p q :
  NoDup (Qos2.ids l) -> p ∈ l -> q ∈ l -> Qos2.pub_id p = Qos2.pub_id q -> p = q.
Proof.
  intros Hn Hp Hq Heq. apply (Qos2.find_pub_in _ _ Hn) in Hp, Hq. congruence.
Qed.

Lemma delivered_published s m : inv s -> m ∈ delivered s -> m ∈ published s.
Proof. intros Hinv Hm. rewrite (inv_delivered _ Hinv), elem_of_app, elem_of_once. by left. Qed.

Lemma missing_same d d' l : (forall m, m ∈ d <-> m ∈ d') -> missing d l = missing d' l.
Proof. intros Hd. apply list_filter_iff. intros p. by rewrite Hd. Qed.

Lemma missing_again d m l : m ∈ d -> missing (d ++ [m]) l = missing d l.
Proof. intros Hm. apply missing_same. set_solver. Qed.

Lemma missing_new d m l :
  missing (d ++ [m]) l = filter (fun p => Qos2.pub_msg p <> m) (missing d l).
Proof. unfold missing. rewrite list_filter_filter. apply list_filter_iff. set_solver. Qed.

Lemma filter_other m (l : list pub) :
  m ∉ Qos2.pub_msg <$> l -> filter (fun p => Qos2.pub_msg p <> m) l = l.
Proof.
  intros Hm. apply filter_every. intros p Hp <-. by apply Hm, list_elem_of_fmap_2.
Qed.

(** If a written publication is missing, the first missing one is written. *)
Lemma first_missing s x l :
  inv s -> filter (fun x => x.2 ∉ delivered s) (to_receiver s) = x :: l ->
  exists p ps, missing (delivered s) (pubs s) = p :: ps /\ Qos2.key p = x /\
    Qos2.pub_msg p ∉ Qos2.pub_msg <$> ps /\ Qos2.key <$> filter (fun p => Qos2.pub_sent p = true) ps = l.
Proof.
  intros Hinv Hx. rewrite (inv_flight _ Hinv) in Hx.
  assert (NoDup (Qos2.pub_msg <$> missing (delivered s) (pubs s))) as Hn.
  { pose proof (inv_published _ Hinv) as Hn. rewrite (inv_delivered _ Hinv) in Hn.
    by apply NoDup_app in Hn as (_ & _ & ?). }
  destruct (inv_order _ Hinv) as (l1 & l2 & Hl & H1 & H2). unfold missing in *.
  rewrite Hl, filter_app in *. destruct (filter (fun p => Qos2.pub_msg p ∉ delivered s) l1)
    as [|p ps] eqn:E.
  - rewrite filter_app, (Qos2.filter_unsent _ l2) in Hx by done. done.
  - assert (Qos2.pub_sent p = true) as Hp.
    { rewrite Forall_forall in H1. apply H1.
      assert (p ∈ p :: ps) as Hin by set_solver. rewrite <- E in Hin.
      by apply list_elem_of_filter in Hin as [_ ?]. }
    simpl in *. rewrite filter_cons_True in Hx by done. apply NoDup_cons in Hn as [Hn _].
    injection Hx as Hx1 Hx2. eexists p, _. by split_and!.
Qed.

(** ** The invariant is kept *)

Lemma qos1_init_inv : inv init.
Proof.
  constructor; simpl; try done; try set_solver; try apply NoDup_nil_2. by exists [], [].
Qed.

Lemma qos1_publish_inv i m s s' : inv s -> step (Publish i m) s = Some s' -> inv s'.
Proof.
  intros Hinv. simpl. case_decide as Hd; [|done]. intros [= <-]. destruct Hd as (Hi & Hu & Hm).
  assert (m ∉ delivered s) as Hmd by (intros Hx; by apply Hm, delivered_published).
  destruct Hinv as [Hn Hp (l1 & l2 & Hl & H1 & H2) Hdel Hfl Hnm Hack Hsent].
  assert (missing (delivered s) (pubs s ++ [Qos2.mkPub i m false]) =
          missing (delivered s) (pubs s) ++ [Qos2.mkPub i m false]) as Hmis.
  { unfold missing. rewrite filter_app. f_equal. by rewrite filter_cons_True. }
  constructor; simpl; rewrite ?Hmis.
  - rewrite Qos2.ids_app. apply NoDup_app. split_and!; [done| |apply NoDup_singleton]. set_solver.
  - apply NoDup_app. split_and!; [done| |apply NoDup_singleton]. set_solver.
  - exists l1, (l2 ++ [Qos2.mkPub i m false]). rewrite Hl, app_assoc. split_and!; [done..|].
    apply Forall_app. auto.
  - rewrite Hdel at 1. rewrite fmap_app, app_assoc. done.
  - rewrite filter_app, fmap_app, Hfl. simpl. by rewrite app_nil_r.
  - intros j m' p Hj [Hp'| ->%list_elem_of_singleton]%elem_of_app; [by apply Hnm|].
    simpl. intros ->. destruct Hu. unfold under_way. apply elem_of_app. left.
    by apply (list_elem_of_fmap_2 fst) in Hj.
  - intros p [Hp'| ->%list_elem_of_singleton]%elem_of_app; [by apply Hack|].
    intros Hx. destruct Hu. apply elem_of_app. by right.
  - intros p [Hp'| ->%list_elem_of_singleton]%elem_of_app; [by apply Hsent|done].
Qed.

Lemma qos1_send_pub_inv s s' : inv s -> step SendPub s = Some s' -> inv s'.
Proof.
  intros Hinv. simpl. destruct (Qos2.send_first (pubs s)) as [[p l]|] eqn:E; [|done]. intros [= <-].
  apply Qos2.send_first_spec in E as (k1 & k2 & Hk & -> & Hp & Hk1).
  destruct Hinv as [Hn Hpub (l1 & l2 & Hl & H1 & H2) Hdel Hfl Hnm Hack Hsent].
  assert (Forall (fun p => Qos2.pub_sent p = false) k2) as Hk2.
  { apply (Qos2.unsent_behind l1 l2 k1 p); [congruence|done..]. }
  (* An element of the new list is one of the old, up to the flag. *)
  assert (forall q, q ∈ k1 ++ Qos2.written p :: k2 ->
    q = Qos2.written p \/ q ∈ pubs s /\ (q ∈ k1 \/ q ∈ k2)) as Hold by (rewrite Hk; set_solver).
  assert (p ∈ pubs s) as Hin by (rewrite Hk; set_solver).
  constructor; simpl; try done.
  - rewrite Hk in Hn. rewrite Qos2.ids_app in *. done.
  - exists (k1 ++ [Qos2.written p]), k2. rewrite <- app_assoc. split_and!; [done| |done].
    apply Forall_app. auto.
  - rewrite Hdel, Hk. unfold missing. rewrite !filter_app, !filter_cons, !fmap_app. simpl.
    by destruct (decide (Qos2.pub_msg p ∉ delivered s)).
  - rewrite filter_app, Hfl, Hk. unfold missing. rewrite !filter_app, !filter_cons, !fmap_app. simpl.
    rewrite filter_nil. repeat case_decide; try done; simpl;
      rewrite ?filter_cons; simpl; rewrite ?Hp; simpl;
      by rewrite (Qos2.filter_unsent _ k2), ?app_nil_r by done.
  - intros i m q Hi Hq Hid. apply elem_of_app in Hi.
    assert (exists q', q' ∈ pubs s /\ Qos2.key q' = Qos2.key q) as (q' & Hq' & [= Hq1 Hq2]).
    { apply Hold in Hq as [-> |[Hq _]]; [by exists p|by exists q]. }
    rewrite <- Hq2. destruct Hi as [Hi|Hi%list_elem_of_singleton]; [apply (Hnm i); [done..|congruence]|].
    unfold Qos2.key in Hi. injection Hi as -> ->. f_equal. by apply (same_pub (pubs s)); [done..|congruence].
  - intros q Hq Ha. apply Hold in Hq as [-> |[Hq _]]; [|by apply Hack]. by apply (Hack p).
  - intros q Hq Hs. rewrite fmap_app. apply Hold in Hq as [-> |[Hq _]]; [left; set_solver|].
    destruct (Hsent q Hq Hs) as [?|?]; [left; set_solver|by right].
Qed.

Lemma qos1_recv_down_inv s s' : inv s -> step RecvDown s = Some s' -> inv s'.
Proof.
  intros Hinv. simpl. destruct (pending s) eqn:Hpd; [done|].
  destruct (to_receiver s) as [|[i m] d] eqn:Hto; [done|]. intros [= <-].
  pose proof (first_missing s (i, m)) as Hfirst.
  destruct Hinv as [Hn Hpub Hord Hdel Hfl Hnm Hack Hsent] eqn:Heq. clear Heq.
  assert (forall p, p ∈ pubs s -> Qos2.pub_id p ∈ to_sender s ++ [i] ->
    Qos2.pub_msg p ∈ delivered s ++ [m]) as Hack'.
  { intros p Hp [Hx|Hx%list_elem_of_singleton]%elem_of_app; apply elem_of_app.
    - left. apply Hack; [done|]. apply elem_of_app. by left.
    - right. apply list_elem_of_singleton. apply (Hnm i); [rewrite Hto; set_solver|done..]. }
  assert (forall p, p ∈ pubs s -> Qos2.pub_sent p = true ->
    Qos2.pub_id p ∈ d.*1 \/ Qos2.pub_id p ∈ to_sender s ++ [i]) as Hsent'.
  { intros p Hp Hs. destruct (Hsent p Hp Hs) as [Hx|Hx].
    - rewrite Hto in Hx. csimpl in Hx. set_solver.
    - unfold due in Hx. rewrite Hpd in Hx. set_solver. }
  assert (m ∉ delivered s -> filter (fun x => x.2 ∉ delivered s) (to_receiver s) =
    (i, m) :: filter (fun x => x.2 ∉ delivered s) d) as Hhead
    by (intros Hm; by rewrite Hto, filter_cons_True).
  assert (forall j m' p, (j, m') ∈ d -> p ∈ pubs s -> Qos2.pub_id p = j -> Qos2.pub_msg p = m')
    as Hnm' by (intros j m' p Hj; apply Hnm; rewrite Hto; set_solver).
  destruct (decide (m ∈ delivered s)) as [Hm|Hm];
    [|specialize (Hhead Hm)]; constructor; simpl; try done.
  - by rewrite once_again, missing_again.
  - rewrite missing_again, <- Hfl, Hto, filter_cons_False by naive_solver.
    apply list_filter_iff. set_solver.
  - destruct (Hfirst _ Hinv Hhead) as (p & ps & Hmis & [= _ <-] & Hnp & _).
    rewrite once_new, missing_new, Hdel, Hmis, filter_cons_False, <- app_assoc by naive_solver.
    simpl. by rewrite (filter_other _ _ Hnp).
  - destruct (Hfirst _ Hinv Hhead) as (p & ps & Hmis & [= _ <-] & Hnp & Hrest).
    rewrite missing_new, Hmis, filter_cons_False, (filter_other _ _ Hnp), Hrest by naive_solver.
    transitivity (filter (fun x => x.2 <> Qos2.pub_msg p) (filter (fun x => x.2 ∉ delivered s) d)).
    { rewrite list_filter_filter. apply list_filter_iff. set_solver. }
    apply filter_every. intros x Hx. rewrite <- Hrest in Hx.
    apply list_elem_of_fmap in Hx as (q & -> & [_ Hq]%list_elem_of_filter). simpl. intros Hx.
    apply Hnp. rewrite <- Hx. by apply list_elem_of_fmap_2.
Qed.

Lemma qos1_recv_up_inv s s' : inv s -> step RecvUp s = Some s' -> inv s'.
Proof.
  intros Hinv. simpl. destruct (to_sender s) as [|i u] eqn:Hto; [done|]. intros [= <-].
  destruct Hinv as [Hn Hpub (l1 & l2 & Hl & H1 & H2) Hdel Hfl Hnm Hack Hsent].
  assert (missing (delivered s) (filter (fun p => Qos2.pub_id p <> i) (pubs s)) =
          missing (delivered s) (pubs s)) as Hmis.
  { unfold missing. rewrite list_filter_filter. apply Qos2.filter_same. intros p Hp.
    split; [tauto|]. intros Hd. split; [done|]. intros <-. apply Hd, Hack; [done|].
    unfold acks. rewrite Hto. set_solver. }
  constructor; simpl; rewrite ?Hmis; try done.
  - by apply Qos2.NoDup_ids_filter.
  - rewrite Hl, filter_app. eexists _, _. split_and!; [done|by apply Qos2.Forall_filter_keep..].
  - intros j m p Hj [_ Hp]%list_elem_of_filter. by apply Hnm.
  - intros p [_ Hp]%list_elem_of_filter Ha. apply Hack; [done|]. unfold acks in *. rewrite Hto.
    set_solver.
  - intros p [Hi Hp]%list_elem_of_filter Hs. destruct (Hsent p Hp Hs) as [?|Hd]; [by left|right].
    unfold due in *. rewrite Hto in Hd. set_solver.
Qed.

Lemma qos1_ack_inv a s s' : a = WriteAck \/ a = FlushAck -> inv s -> step a s = Some s' -> inv s'.
Proof.
  intros Ha Hinv. destruct Hinv as [Hn Hpub Hord Hdel Hfl Hnm Hack Hsent]. unfold acks, due in *.
  destruct Ha as [-> | ->]; simpl; destruct (pending s) as [[i []]|]; try done; intros [= <-];
    constructor; unfold acks, due; simpl in *; try done.
  - intros p Hp Hx. apply Hack; [done|]. set_solver.
  - intros p Hp Hs. destruct (Hsent p Hp Hs) as [?|?]; [by left|right; set_solver].
  - intros p Hp Hx. apply Hack; [done|]. set_solver.
Qed.

Lemma qos1_lose_inv s s' : inv s -> step Lose s = Some s' -> inv s'.
Proof.
  intros Hinv [= <-]. destruct Hinv as [Hn Hpub Hord Hdel Hfl Hnm Hack Hsent].
  assert (missing (delivered s) (Qos2.resend <$> pubs s) =
          Qos2.resend <$> missing (delivered s) (pubs s)) as Hmis.
  { unfold missing. clear. induction (pubs s) as [|p l IH]; [done|]. csimpl.
    rewrite !filter_cons, IH. simpl. by case_decide. }
  assert (Forall (fun p => Qos2.pub_sent p = false) (Qos2.resend <$> pubs s)) as Hun
    by (apply Forall_fmap, Forall_true; done).
  constructor; simpl; try done.
  - unfold Qos2.ids. by rewrite <- list_fmap_compose.
  - exists [], (Qos2.resend <$> pubs s). auto.
  - by rewrite Hmis, <- list_fmap_compose.
  - unfold missing. by rewrite (Qos2.filter_unsent _ _ Hun).
  - intros i m p Hx. by apply not_elem_of_nil in Hx.
  - intros p (q & -> & Hq)%list_elem_of_fmap Ha. apply (Hack q); [done|]. unfold acks in *. simpl in *.
    destruct (pending s) as [[]|]; set_solver.
  - intros p (q & -> & Hq)%list_elem_of_fmap. done.
Qed.

Lemma qos1_step_inv a s s' : inv s -> step a s = Some s' -> inv s'.
Proof.
  destruct a; [apply qos1_publish_inv|apply qos1_send_pub_inv|apply qos1_recv_down_inv
    |apply qos1_ack_inv; by left|apply qos1_ack_inv; by right|apply qos1_recv_up_inv|apply qos1_lose_inv].
Qed.

(** ** What the invariant says *)

(** What was published is delivered in order, with repetitions; the rest is kept. *)
Lemma inv_redelivers s :
  inv s -> exists n, redelivers (published s) (delivered s) n /\
                     (length (published s) <= n + length (pubs s))%nat.
Proof.
  intros Hinv. exists (length (once (delivered s))). rewrite (inv_delivered _ Hinv).
  split; [apply redelivers_once|]. rewrite length_app, length_fmap.
  apply Nat.add_le_mono_l, length_filter.
Qed.

(** ** Without losses and new messages, everything is delivered *)

Definition progresses (a : action) : bool :=
  match a with Publish _ _ | Lose => false | _ => true end.

Definition stuck (s : state) : Prop := forall a, progresses a = true -> step a s = None.

Lemma qos1_stuck_done s : inv s -> stuck s -> once (delivered s) = published s /\ pubs s = [].
Proof.
  intros Hinv Hs. pose proof (Hs WriteAck eq_refl) as Hw. pose proof (Hs FlushAck eq_refl) as Hf.
  pose proof (Hs RecvDown eq_refl) as Hd. pose proof (Hs RecvUp eq_refl) as Hu.
  pose proof (Hs SendPub eq_refl) as Hp. simpl in *.
  destruct (pending s) as [[? []]|] eqn:Hpd; try done.
  destruct (to_receiver s) as [|[]] eqn:Hto; [|done]. destruct (to_sender s) eqn:Hts; [|done].
  destruct (Qos2.send_first (pubs s)) as [[]|] eqn:E; [done|]. apply Qos2.send_first_none in E.
  assert (pubs s = []) as Hpubs.
  { destruct (pubs s) as [|p l] eqn:Hl; [done|]. inversion E; subst.
    destruct (inv_sent _ Hinv p) as [Hx|Hx]; [rewrite Hl; set_solver|done|..].
    - rewrite Hto in Hx. set_solver.
    - unfold due in Hx. rewrite Hts, Hpd in Hx. set_solver. }
  split; [|done]. rewrite (inv_delivered _ Hinv), Hpubs. simpl. by rewrite app_nil_r.
Qed.

End Machine.
End Qos1.
