(* ===== verification/Duplex.v ===== *)
(** * Two-way delivery: the abstract machine

    Two sides that both publish, at every quality of service, over one link with a FIFO
    queue in each direction that can be lost at any time. Each side keeps its publications
    of QoS 1 and 2 and its releases, remembers the identifiers of QoS 2 it received, and
    has at most one acknowledgement to send, with which it does not read further.

    Seen from one side to the other, the packets of QoS 2 follow the exactly-once machine
    [Qos2], those of QoS 1 the at-least-once machine [Qos1], and those of QoS 0 a queue
    that may lose its contents ([flow2], [flow1], [flow_inv]): the machine is a
    simulation of all of them in both directions, so that their theorems hold of it. *)

From stdpp Require Import gmap.
From S2P Require Import Prelude Qos2Spec Qos1Spec.

Module Duplex.

Section Machine.
(** The messages of QoS 1 and 2; [exactly] tells those of QoS 2. [window] bounds the QoS 2
    publications of a side that are not complete. *)
Context {M : Type} `{!EqDecision M} (exactly : M -> bool) (window : nat).
Implicit Types (i : Z) (b : bool).

(** A message with its place among those published on its side. *)
Abbreviation tagged := (nat * M)%type.
Abbreviation pub := (Qos2.pub (M := tagged)).

Inductive ack : Type := Ack (i : Z) | Rec (i : Z) | Comp (i : Z).

(** [Pub0] is a publication of QoS 0. *)
Inductive packet : Type := Pub (i : Z) (m : tagged) | Pub0 (m : M) | Rel (i : Z) | Reply (a : ack).

(** What a side sends and receives, and what its application published and was handed. *)
Record side : Type := mkSide {
  pubs : list pub; rels : gmap Z bool;
  reserved : gset Z; pending : option (ack * bool);
  published : list tagged; published0 : list M;
  delivered : list tagged; delivered0 : list M }.

Definition side_init : side := mkSide [] ∅ ∅ None [] [] [] [].

Record state : Type := mkState {
  near : side; far : side; outgoing : list packet; incoming : list packet }.

Definition init : state := mkState side_init side_init [] [].

Definition swap (s : state) : state := mkState (far s) (near s) (incoming s) (outgoing s).

(** ** The flow from the near to the far side *)

Definition pubs_of b (l : list pub) : list pub :=
  filter (fun p => exactly (Qos2.pub_msg p).2 = b) l.
Definition msgs_of b (l : list tagged) : list tagged := filter (fun t => exactly t.2 = b) l.

Definition down2 (d : packet) : option (Qos2.down tagged) :=
  match d with
  | Pub i m => if exactly m.2 then Some (Qos2.Pub i m) else None
  | Rel i => Some (Qos2.Rel i)
  | _ => None
  end.
Definition ack2 (a : ack) : option Qos2.up :=
  match a with Rec i => Some (Qos2.Rec i) | Comp i => Some (Qos2.Comp i) | Ack _ => None end.
Definition up2 (d : packet) : option Qos2.up := match d with Reply a => ack2 a | _ => None end.

Definition down1 (d : packet) : option (Z * tagged) :=
  match d with Pub i m => if exactly m.2 then None else Some (i, m) | _ => None end.
Definition ack1 (a : ack) : option Z := match a with Ack i => Some i | _ => None end.
Definition up1 (d : packet) : option Z := match d with Reply a => ack1 a | _ => None end.

Definition down0 (d : packet) : option M := match d with Pub0 m => Some m | _ => None end.

Definition pending_by {U} (f : ack -> option U) (p : option (ack * bool)) : option (U * bool) :=
  match p with Some (a, w) => option_map (fun u => (u, w)) (f a) | None => None end.

Definition flow2 (s : state) : Qos2.state (M := tagged) :=
  Qos2.mkState (pubs_of true (pubs (near s))) (rels (near s)) (reserved (far s))
    (pending_by ack2 (pending (far s))) (omap down2 (outgoing s)) (omap up2 (incoming s))
    (msgs_of true (published (near s))) (msgs_of true (delivered (far s))).

Definition flow1 (s : state) : Qos1.state (M := tagged) :=
  Qos1.mkState (pubs_of false (pubs (near s))) (pending_by ack1 (pending (far s)))
    (omap down1 (outgoing s)) (omap up1 (incoming s))
    (msgs_of false (published (near s))) (msgs_of false (delivered (far s))).

(** ** The moves of the near side *)

Definition set_pubs (e : side) (l : list pub) : side :=
  mkSide l (rels e) (reserved e) (pending e) (published e) (published0 e) (delivered e)
    (delivered0 e).
Definition set_rels (e : side) (r : gmap Z bool) : side :=
  mkSide (pubs e) r (reserved e) (pending e) (published e) (published0 e) (delivered e)
    (delivered0 e).
Definition set_reserved (e : side) (r : gset Z) : side :=
  mkSide (pubs e) (rels e) r (pending e) (published e) (published0 e) (delivered e)
    (delivered0 e).
Definition set_pending (e : side) (p : option (ack * bool)) : side :=
  mkSide (pubs e) (rels e) (reserved e) p (published e) (published0 e) (delivered e)
    (delivered0 e).
Definition log_published (e : side) (m : tagged) : side :=
  mkSide (pubs e) (rels e) (reserved e) (pending e) (published e ++ [m]) (published0 e)
    (delivered e) (delivered0 e).
Definition log_published0 (e : side) (m : M) : side :=
  mkSide (pubs e) (rels e) (reserved e) (pending e) (published e) (published0 e ++ [m])
    (delivered e) (delivered0 e).
Definition deliver (e : side) (m : tagged) : side :=
  mkSide (pubs e) (rels e) (reserved e) (pending e) (published e) (published0 e)
    (delivered e ++ [m]) (delivered0 e).
Definition deliver0 (e : side) (m : M) : side :=
  mkSide (pubs e) (rels e) (reserved e) (pending e) (published e) (published0 e)
    (delivered e) (delivered0 e ++ [m]).

Inductive move : Type :=
| Publish (i : Z) (m : M) | Publish0 (m : M) | SendPub | SendRel (i : Z) | WriteAck | FlushAck
| Read.

Definition next_tag (e : side) (m : M) : tagged := (length (published e), m).

(** The identifier is free; a QoS 2 publication has room in the window, and of a QoS 1
    publication nothing with its identifier is on the way. *)
Definition may_publish (s : state) (i : Z) (m : M) : bool :=
  bool_decide (i ∉ Qos2.ids (pubs (near s))) && bool_decide (rels (near s) !! i = None) &&
  if exactly m
  then bool_decide (length (pubs_of true (pubs (near s))) + size (rels (near s)) < window)%nat
  else bool_decide (i ∉ Qos1.under_way (flow1 s)).

(** Without the publication with identifier [i] and the given kind. *)
Definition settle b i (l : list pub) : list pub :=
  filter (fun p => ~ (Qos2.pub_id p = i /\ exactly (Qos2.pub_msg p).2 = b)) l.

(** What a received packet does to a side without an acknowledgement to send. *)
Definition take (d : packet) (e : side) : side :=
  match d with
  | Pub i m =>
      if exactly m.2 then
        let e' := if decide (i ∈ reserved e) then e else deliver e m in
        set_pending (set_reserved e' ({[i]} ∪ reserved e)) (Some (Rec i, false))
      else set_pending (deliver e m) (Some (Ack i, false))
  | Pub0 m => deliver0 e m
  | Rel i => set_pending (set_reserved e (reserved e ∖ {[i]})) (Some (Comp i, false))
  | Reply (Ack i) => set_pubs e (settle false i (pubs e))
  | Reply (Rec i) =>
      if decide (i ∈ Qos2.ids (pubs_of true (pubs e)))
      then set_rels (set_pubs e (settle true i (pubs e))) (<[i := false]> (rels e))
      else e
  | Reply (Comp i) => set_rels e (delete i (rels e))
  end.

Definition near_step (a : move) (s : state) : option state :=
  let e := near s in
  match a with
  | Publish i m =>
      if may_publish s i m then
        Some (mkState (log_published (set_pubs e (pubs e ++ [Qos2.mkPub i (next_tag e m) false]))
                         (next_tag e m))
                (far s) (outgoing s) (incoming s))
      else None
  | Publish0 m =>
      Some (mkState (log_published0 e m) (far s) (outgoing s ++ [Pub0 m]) (incoming s))
  | SendPub =>
      match Qos2.send_first (pubs e) with
      | Some (p, l) =>
          Some (mkState (set_pubs e l) (far s)
                  (outgoing s ++ [Pub (Qos2.pub_id p) (Qos2.pub_msg p)]) (incoming s))
      | None => None
      end
  | SendRel i =>
      if decide (rels e !! i = Some false) then
        Some (mkState (set_rels e (<[i := true]> (rels e))) (far s) (outgoing s ++ [Rel i])
                (incoming s))
      else None
  | WriteAck =>
      match pending e with
      | Some (a, false) =>
          Some (mkState (set_pending e (Some (a, true))) (far s) (outgoing s ++ [Reply a])
                  (incoming s))
      | _ => None
      end
  | FlushAck =>
      match pending e with
      | Some (a, true) => Some (mkState (set_pending e None) (far s) (outgoing s) (incoming s))
      | _ => None
      end
  | Read =>
      match pending e, incoming s with
      | None, d :: l => Some (mkState (take d e) (far s) (outgoing s) l)
      | _, _ => None
      end
  end.

(** A side whose connection was lost: everything is to be sent again. *)
Definition resend (e : side) : side :=
  mkSide (Qos2.resend <$> pubs e) ((fun _ => false) <$> rels e) (reserved e)
    (option_map (fun '(a, _) => (a, false)) (pending e)) (published e) (published0 e)
    (delivered e) (delivered0 e).

Definition lose (s : state) : state := mkState (resend (near s)) (resend (far s)) [] [].

Inductive action : Type := Near (a : move) | Far (a : move) | Lose.

Definition step (a : action) (s : state) : option state :=
  match a with
  | Near a => near_step a s
  | Far a => option_map swap (near_step a (swap s))
  | Lose => Some (lose s)
  end.

Fixpoint run (l : list action) (s : state) : option state :=
  match l with
  | [] => Some s
  | a :: l' => match step a s with Some s' => run l' s' | None => None end
  end.

Lemma run_snoc l a s : run (l ++ [a]) s = match run l s with Some s' => step a s' | None => None end.
Proof.
  revert s. induction l as [|b l IH]; intros s; simpl; [by destruct (step a s)|].
  by destruct (step b s).
Qed.

(** ** The flows are followed *)

Definition follows2 (s s' : state) : Prop :=
  flow2 s' = flow2 s \/ exists a, Qos2.step window a (flow2 s) = Some (flow2 s').
Definition follows1 (s s' : state) : Prop :=
  flow1 s' = flow1 s \/ exists a, Qos1.step a (flow1 s) = Some (flow1 s').

Lemma msgs_of_snoc b l m :
  msgs_of b (l ++ [m]) = msgs_of b l ++ (if decide (exactly m.2 = b) then [m] else []).
Proof. unfold msgs_of. by rewrite filter_app, filter_singleton. Qed.

Lemma pubs_of_snoc b l p :
  pubs_of b (l ++ [p]) =
  pubs_of b l ++ (if decide (exactly (Qos2.pub_msg p).2 = b) then [p] else []).
Proof. unfold pubs_of. by rewrite filter_app, filter_singleton. Qed.

Lemma ids_of b l i : i ∈ Qos2.ids (pubs_of b l) -> i ∈ Qos2.ids l.
Proof. apply Qos2.ids_filter. Qed.

Lemma send_first_of b l p l' :
  Qos2.send_first l = Some (p, l') ->
  if decide (exactly (Qos2.pub_msg p).2 = b)
  then Qos2.send_first (pubs_of b l) = Some (p, pubs_of b l')
  else pubs_of b l' = pubs_of b l.
Proof.
  revert l'. induction l as [|q l IH]; intros l'; simpl; [done|]. unfold pubs_of in *.
  destruct (Qos2.pub_sent q) eqn:Hq.
  - destruct (Qos2.send_first l) as [[q' l'']|] eqn:E; [|done]. intros [= -> <-].
    specialize (IH _ eq_refl). rewrite !filter_cons.
    repeat case_decide; simpl; try rewrite Hq, IH; try done; by rewrite IH.
  - intros [= -> <-]. rewrite !filter_cons. simpl. case_decide; simpl; [by rewrite Hq|done].
Qed.

Lemma settle_same b i l :
  pubs_of b (settle b i l) = filter (fun p => Qos2.pub_id p <> i) (pubs_of b l).
Proof.
  unfold pubs_of, settle. rewrite !list_filter_filter. apply list_filter_iff. tauto.
Qed.

Lemma settle_other b b' i l : b <> b' -> pubs_of b (settle b' i l) = pubs_of b l.
Proof.
  intros Hb. unfold pubs_of, settle. rewrite list_filter_filter. apply list_filter_iff.
  intros p. split; [tauto|]. intros Hp. split; [done|]. intros [_ Hx]. congruence.
Qed.

Lemma pubs_of_resend b l : pubs_of b (Qos2.resend <$> l) = Qos2.resend <$> pubs_of b l.
Proof.
  unfold pubs_of. induction l as [|p l IH]; [done|]. csimpl. rewrite !filter_cons, IH.
  simpl. by case_decide.
Qed.

Lemma pending_by_lost {U} (f : ack -> option U) p :
  pending_by f (option_map (fun '(a, _) => (a, false)) p) =
  option_map (fun '(u, _) => (u, false)) (pending_by f p).
Proof. destruct p as [[a w]|]; [|done]. simpl. by destruct (f a). Qed.

(** Appending or consuming a packet of another flow. *)
Lemma omap_snoc {A B} (f : A -> option B) l x :
  omap f (l ++ [x]) = omap f l ++ (match f x with Some y => [y] | None => [] end).
Proof. rewrite omap_app. simpl. by destruct (f x). Qed.

Ltac flows := unfold flow1, flow2; simpl;
  rewrite ?omap_snoc, ?msgs_of_snoc, ?pubs_of_snoc; simpl.

Lemma near_follows2 a s s' : near_step a s = Some s' -> follows2 s s'.
Proof.
  unfold follows2. destruct a as [i m|m| |i| | |]; simpl.
  - unfold may_publish. destruct (bool_decide_reflect (i ∉ Qos2.ids (pubs (near s)))) as [Hi|]; [|done].
    destruct (bool_decide_reflect (rels (near s) !! i = None)) as [Hr|]; [|done]. simpl.
    destruct (exactly m) eqn:Hm.
    + case_bool_decide as Hw; [|done]. intros [= <-]. right. exists (Qos2.Publish i (next_tag (near s) m)).
      flows. rewrite Hm. simpl. rewrite decide_True; [done|]. split_and!; [|done..].
      intros Hx. by apply Hi, (ids_of true).
    + case_bool_decide; [|done]. intros [= <-]. left. flows. rewrite Hm. simpl. by rewrite !app_nil_r.
  - intros [= <-]. left. flows. by rewrite app_nil_r.
  - destruct (Qos2.send_first (pubs (near s))) as [[p l]|] eqn:E; [|done]. intros [= <-].
    apply (send_first_of true) in E. flows. case_decide as Hp.
    + right. exists Qos2.SendPub. simpl. by rewrite E, Hp.
    + left. apply not_true_is_false in Hp. by rewrite E, Hp, app_nil_r.
  - case_decide as Hi; [|done]. intros [= <-]. right. exists (Qos2.SendRel i). flows.
    by rewrite decide_True.
  - destruct (pending (near s)) as [[a []]|]; try done. intros [= <-]. left. flows. by rewrite app_nil_r.
  - destruct (pending (near s)) as [[a []]|]; try done. intros [= <-]. by left.
  - destruct (pending (near s)); [done|]. destruct (incoming s) as [|d l] eqn:Hd; [done|].
    intros [= <-]. flows. rewrite Hd. destruct d as [i m|m|i|[i|i|i]]; simpl.
    + left. by destruct (exactly m.2), (decide (i ∈ reserved (near s))).
    + by left.
    + by left.
    + left. by rewrite settle_other.
    + right. exists Qos2.RecvUp. simpl. unfold Qos2.recv_up. simpl.
      destruct (decide _); simpl; [by rewrite settle_same|done].
    + right. by exists Qos2.RecvUp.
Qed.

Lemma near_follows1 a s s' :
  Forall (fun t => t.1 < length (published (near s)))%nat (published (near s)) ->
  near_step a s = Some s' -> follows1 s s'.
Proof.
  intros Htags. unfold follows1. destruct a as [i m|m| |i| | |]; simpl.
  - unfold may_publish. destruct (bool_decide_reflect (i ∉ Qos2.ids (pubs (near s)))) as [Hi|]; [|done].
    destruct (bool_decide_reflect (rels (near s) !! i = None)) as [Hr|]; [|done]. simpl.
    destruct (exactly m) eqn:Hm.
    + case_bool_decide; [|done]. intros [= <-]. left. flows. rewrite Hm. simpl. by rewrite !app_nil_r.
    + case_bool_decide as Hw; [|done]. intros [= <-]. right. exists (Qos1.Publish i (next_tag (near s) m)).
      flows. rewrite Hm. simpl. rewrite decide_True; [done|]. split_and!; [|done|].
      * intros Hx. by apply Hi, (ids_of false).
      * intros [_ Hx]%list_elem_of_filter. rewrite Forall_forall in Htags.
        specialize (Htags _ Hx). simpl in Htags. lia.
  - intros [= <-]. left. flows. by rewrite app_nil_r.
  - destruct (Qos2.send_first (pubs (near s))) as [[p l]|] eqn:E; [|done]. intros [= <-].
    apply (send_first_of false) in E. flows. case_decide as Hp.
    + right. exists Qos1.SendPub. simpl. by rewrite E, Hp.
    + left. apply not_false_is_true in Hp. by rewrite E, Hp, app_nil_r.
  - case_decide as Hi; [|done]. intros [= <-]. left. flows. by rewrite app_nil_r.
  - destruct (pending (near s)) as [[a []]|]; try done. intros [= <-]. left. flows. by rewrite app_nil_r.
  - destruct (pending (near s)) as [[a []]|]; try done. intros [= <-]. by left.
  - destruct (pending (near s)); [done|]. destruct (incoming s) as [|d l] eqn:Hd; [done|].
    intros [= <-]. flows. rewrite Hd. destruct d as [i m|m|i|[i|i|i]]; simpl.
    + left. by destruct (exactly m.2), (decide (i ∈ reserved (near s))).
    + by left.
    + by left.
    + right. exists Qos1.RecvUp. simpl. by rewrite settle_same.
    + left. destruct (decide _); simpl; [by rewrite settle_other|done].
    + by left.
Qed.

(** The moves of the far side, as it sees them. *)
Lemma far_follows2 a s s' : near_step a (swap s) = Some s' -> follows2 s (swap s').
Proof.
  unfold follows2. destruct a as [i m|m| |i| | |]; simpl.
  - case_match; [|done]. intros [= <-]. by left.
  - intros [= <-]. left. flows. by rewrite app_nil_r.
  - destruct (Qos2.send_first _) as [[p l]|]; [|done]. intros [= <-]. left. flows. by rewrite app_nil_r.
  - case_decide; [|done]. intros [= <-]. left. flows. by rewrite app_nil_r.
  - destruct (pending (far s)) as [[a []]|] eqn:Hp; try done. intros [= <-]. flows. rewrite Hp. simpl.
    destruct (ack2 a); simpl; [|left; by rewrite app_nil_r]. right. by exists Qos2.WriteAck.
  - destruct (pending (far s)) as [[a []]|] eqn:Hp; try done. intros [= <-]. flows. rewrite Hp. simpl.
    destruct (ack2 a); simpl; [|by left]. right. by exists Qos2.FlushAck.
  - destruct (pending (far s)) eqn:Hp; [done|]. destruct (outgoing s) as [|d l] eqn:Hd; [done|].
    intros [= <-]. flows. rewrite Hd, Hp. destruct d as [i m|m|i|[i|i|i]]; simpl.
    + destruct (exactly m.2) eqn:Hm; simpl.
      * right. exists Qos2.RecvDown. simpl. unfold Qos2.recv_down. simpl.
        destruct (decide (i ∈ reserved (far s))); simpl; [done|].
        by rewrite msgs_of_snoc, decide_True.
      * left. by rewrite msgs_of_snoc, decide_False, app_nil_r by congruence.
    + by left; rewrite Hp.
    + right. by exists Qos2.RecvDown.
    + by left; rewrite Hp.
    + left. by case_decide; simpl; rewrite Hp.
    + by left; rewrite Hp.
Qed.

Lemma far_follows1 a s s' : near_step a (swap s) = Some s' -> follows1 s (swap s').
Proof.
  unfold follows1. destruct a as [i m|m| |i| | |]; simpl.
  - case_match; [|done]. intros [= <-]. by left.
  - intros [= <-]. left. flows. by rewrite app_nil_r.
  - destruct (Qos2.send_first _) as [[p l]|]; [|done]. intros [= <-]. left. flows. by rewrite app_nil_r.
  - case_decide; [|done]. intros [= <-]. left. flows. by rewrite app_nil_r.
  - destruct (pending (far s)) as [[a []]|] eqn:Hp; try done. intros [= <-]. flows. rewrite Hp. simpl.
    destruct (ack1 a); simpl; [|left; by rewrite app_nil_r]. right. by exists Qos1.WriteAck.
  - destruct (pending (far s)) as [[a []]|] eqn:Hp; try done. intros [= <-]. flows. rewrite Hp. simpl.
    destruct (ack1 a); simpl; [|by left]. right. by exists Qos1.FlushAck.
  - destruct (pending (far s)) eqn:Hp; [done|]. destruct (outgoing s) as [|d l] eqn:Hd; [done|].
    intros [= <-]. flows. rewrite Hd, Hp. destruct d as [i m|m|i|[i|i|i]]; simpl.
    + destruct (exactly m.2) eqn:Hm; simpl.
      * left. destruct (decide (i ∈ reserved (far s))); simpl; [done|].
        by rewrite msgs_of_snoc, decide_False, app_nil_r by congruence.
      * right. exists Qos1.RecvDown. simpl. by rewrite msgs_of_snoc, decide_True.
    + by left; rewrite Hp.
    + by left.
    + by left; rewrite Hp.
    + left. by case_decide; simpl; rewrite Hp.
    + by left; rewrite Hp.
Qed.

Lemma lose_follows s :
  Qos2.step window Qos2.Lose (flow2 s) = Some (flow2 (lose s)) /\
  Qos1.step Qos1.Lose (flow1 s) = Some (flow1 (lose s)).
Proof. unfold flow1, flow2. simpl. by rewrite !pubs_of_resend, !pending_by_lost. Qed.

(** ** The invariant *)

(** What holds of the flow from the near to the far side. The tags are places, and the
    QoS 0 messages delivered and on the way are some of those published, in order. *)
Record flow_inv (s : state) : Prop := mkFlowInv {
  flow_inv2 : Qos2.inv window (flow2 s);
  flow_inv1 : Qos1.inv (flow1 s);
  flow_inv_tags : Forall (fun t => t.1 < length (published (near s)))%nat (published (near s));
  flow_inv0 : (delivered0 (far s) ++ omap down0 (outgoing s)) `sublist_of` published0 (near s) }.

Definition inv (s : state) : Prop := flow_inv s /\ flow_inv (swap s).

Lemma follows2_inv s s' : Qos2.inv window (flow2 s) -> follows2 s s' -> Qos2.inv window (flow2 s').
Proof. intros Hs [-> |[b Hb]]; [done|]. by eapply Qos2.step_inv. Qed.

Lemma follows1_inv s s' : Qos1.inv (flow1 s) -> follows1 s s' -> Qos1.inv (flow1 s').
Proof. intros Hs [-> |[b Hb]]; [done|]. by eapply Qos1.qos1_step_inv. Qed.

Lemma take_published d (e : side) :
  published (take d e) = published e /\ published0 (take d e) = published0 e.
Proof. destruct d as [i m|m|i|[i|i|i]]; simpl; repeat case_match; done. Qed.

Lemma near_published a s s' :
  near_step a s = Some s' ->
  published (near s') = published (near s) \/
  exists m, published (near s') = published (near s) ++ [next_tag (near s) m].
Proof.
  destruct a; simpl; repeat case_match; intros [= <-]; simpl; eauto. left. apply take_published.
Qed.

Lemma near_queue0 a s s' :
  near_step a s = Some s' -> far s' = far s /\
  ((omap down0 (outgoing s') = omap down0 (outgoing s) /\ published0 (near s') = published0 (near s)) \/
   exists m, omap down0 (outgoing s') = omap down0 (outgoing s) ++ [m] /\
             published0 (near s') = published0 (near s) ++ [m]).
Proof.
  destruct a; simpl; repeat case_match; intros [= <-]; simpl; rewrite ?omap_snoc; simpl;
    rewrite ?app_nil_r; (split; [done|]); eauto. left. by split; [|apply take_published].
Qed.

Lemma far_queue0 a s s' :
  near_step a (swap s) = Some s' -> near (swap s') = near s /\
  delivered0 (far (swap s')) ++ omap down0 (outgoing (swap s')) =
  delivered0 (far s) ++ omap down0 (outgoing s).
Proof.
  destruct a; simpl; repeat case_match; intros [= <-]; (split; [done|]); simpl; try done.
  destruct p as [i m|m|i|[i|i|i]]; csimpl; repeat case_match; csimpl; try done.
  by rewrite <- app_assoc.
Qed.

Lemma near_flow_inv a s s' : flow_inv s -> near_step a s = Some s' -> flow_inv s'.
Proof.
  intros [H2 H1 Ht H0] Hs. constructor.
  - eapply follows2_inv; [done|]. by eapply near_follows2.
  - eapply follows1_inv; [done|]. by eapply near_follows1.
  - destruct (near_published _ _ _ Hs) as [-> |[m ->]]; [done|].
    rewrite length_app. simpl. apply Forall_app. split; [|repeat constructor; simpl; lia].
    eapply Forall_impl; [done|]. simpl. lia.
  - destruct (near_queue0 _ _ _ Hs) as [-> [[-> ->]|(m & -> & ->)]]; [done|].
    rewrite app_assoc. by apply sublist_app.
Qed.

Lemma far_flow_inv a s s' : flow_inv s -> near_step a (swap s) = Some s' -> flow_inv (swap s').
Proof.
  intros [H2 H1 Ht H0] Hs. destruct (far_queue0 _ _ _ Hs) as [Hn Hq]. constructor.
  - eapply follows2_inv; [done|]. by eapply far_follows2.
  - eapply follows1_inv; [done|]. by eapply far_follows1.
  - by rewrite Hn.
  - by rewrite Hn, Hq.
Qed.

Lemma lose_flow_inv s : flow_inv s -> flow_inv (lose s).
Proof.
  intros [H2 H1 Ht H0]. destruct (lose_follows s) as [L2 L1]. constructor; simpl; [| |done|].
  - by eapply Qos2.step_inv.
  - by eapply Qos1.qos1_step_inv.
  - rewrite app_nil_r. etransitivity; [|done]. by apply sublist_inserts_r.
Qed.

Lemma duplex_init_inv : inv init.
Proof.
  assert (flow_inv init); [|done]. constructor; simpl; try done.
  - apply Qos2.init_inv.
  - apply Qos1.qos1_init_inv.
Qed.

Lemma swap_swap s : swap (swap s) = s.
Proof. by destruct s. Qed.

Lemma near_inv a s s' : inv s -> near_step a s = Some s' -> inv s'.
Proof.
  intros [Hn Hf] Hs. split; [exact (near_flow_inv _ _ _ Hn Hs)|].
  apply (far_flow_inv a (swap s)); [done|]. by rewrite swap_swap.
Qed.

Lemma swap_inv s : inv s -> inv (swap s).
Proof. intros [Hn Hf]. split; [done|]. by rewrite swap_swap. Qed.

Lemma duplex_step_inv a s s' : inv s -> step a s = Some s' -> inv s'.
Proof.
  intros Hinv. destruct a as [a|a|]; simpl.
  - by apply near_inv.
  - destruct (near_step a (swap s)) as [s1|] eqn:E; [|done]. intros [= <-].
    eapply swap_inv, near_inv; [|done]. by apply swap_inv.
  - intros [= <-]. destruct Hinv as [Hn Hf].
    split; [by apply lose_flow_inv|by apply (lose_flow_inv (swap s))].
Qed.

Lemma duplex_run_inv l s s' : inv s -> run l s = Some s' -> inv s'.
Proof.
  revert s. induction l as [|a l IH]; simpl; intros s Hs; [by intros [= <-]|].
  destruct (step a s) as [s1|] eqn:E; [|done]. apply IH. by apply (duplex_step_inv a s).
Qed.

(** ** Without losses and new messages, everything is delivered *)

Definition progresses (a : move) : bool :=
  match a with Publish _ _ | Publish0 _ => false | _ => true end.

(** Every step moves a message to a later place; each place has a smaller weight. *)
Definition ack_weight (a : ack) : nat := match a with Rec _ => 6 | Ack _ | Comp _ => 1 end.
Definition packet_weight (d : packet) : nat :=
  match d with Pub _ _ => 9 | Rel _ => 4 | Pub0 _ => 1 | Reply a => ack_weight a end.
Definition pending_weight (p : option (ack * bool)) : nat :=
  match p with Some (_, true) => 1 | Some (a, false) => 2 + ack_weight a | None => 0 end.
Definition side_weight (e : side) : nat :=
  sum_list_with Qos2.pub_weight (pubs e) + 5 * size (Qos2.unsent_rels (rels e)) +
  pending_weight (pending e).
Definition measure (s : state) : nat :=
  side_weight (near s) + side_weight (far s) +
  sum_list_with packet_weight (outgoing s) + sum_list_with packet_weight (incoming s).

Lemma take_weight d (e : side) :
  pending e = None -> (side_weight (take d e) < side_weight e + packet_weight d)%nat.
Proof.
  intros Hp. unfold side_weight. destruct d as [i m|m|i|[i|i|i]]; simpl.
  - destruct (exactly m.2); [destruct (decide _)|]; simpl; rewrite Hp; simpl; lia.
  - lia.
  - rewrite Hp. simpl. lia.
  - pose proof (Qos2.sum_filter Qos2.pub_weight
      (fun p => ~ (Qos2.pub_id p = i /\ exactly (Qos2.pub_msg p).2 = false)) (pubs e)).
    unfold settle. lia.
  - case_decide; simpl; [|lia]. pose proof (Qos2.unsent_new i (rels e)).
    pose proof (Qos2.sum_filter Qos2.pub_weight
      (fun p => ~ (Qos2.pub_id p = i /\ exactly (Qos2.pub_msg p).2 = true)) (pubs e)).
    unfold settle. lia.
  - pose proof (Qos2.unsent_delete i (rels e)). lia.
Qed.

Lemma near_step_measure a s s' :
  progresses a = true -> near_step a s = Some s' -> (measure s' < measure s)%nat.
Proof.
  unfold measure. destruct a; try done; intros _; simpl.
  - destruct (Qos2.send_first (pubs (near s))) as [[p l]|] eqn:E; [|done]. intros [= <-]. simpl.
    apply Qos2.send_first_spec in E as (l1 & l2 & E & -> & Hp & _). unfold side_weight. simpl.
    assert (Qos2.pub_weight p = 10%nat) as Hw by (unfold Qos2.pub_weight; by rewrite Hp).
    rewrite E, !sum_list_with_app. simpl. rewrite Hw.
    change (Qos2.pub_weight (Qos2.written p)) with 0%nat. lia.
  - case_decide as Hi; [|done]. intros [= <-]. unfold side_weight. simpl.
    rewrite !sum_list_with_app. simpl. rewrite (Qos2.unsent_sent i _ Hi). lia.
  - destruct (pending (near s)) as [[a []]|] eqn:Hp; try done. intros [= <-]. unfold side_weight. simpl.
    rewrite Hp, !sum_list_with_app. simpl. lia.
  - destruct (pending (near s)) as [[a []]|] eqn:Hp; try done. intros [= <-]. unfold side_weight. simpl.
    rewrite Hp. simpl. lia.
  - destruct (pending (near s)) eqn:Hp; [done|]. destruct (incoming s) as [|d l]; [done|].
    intros [= <-]. simpl. pose proof (take_weight d _ Hp). lia.
Qed.

Lemma measure_swap s : measure (swap s) = measure s.
Proof. unfold measure. simpl. lia. Qed.

(** The near side can do nothing. *)
Definition idle (s : state) : Prop := forall a, progresses a = true -> near_step a s = None.

Lemma idle_side s :
  idle s -> pending (near s) = None /\ incoming s = [] /\ Qos2.send_first (pubs (near s)) = None /\
  forall i, rels (near s) !! i <> Some false.
Proof.
  intros Hs. pose proof (Hs WriteAck eq_refl) as Hw. pose proof (Hs FlushAck eq_refl) as Hf.
  pose proof (Hs Read eq_refl) as Hr. pose proof (Hs SendPub eq_refl) as Hp. simpl in *.
  destruct (pending (near s)) as [[? []]|]; try done.
  destruct (incoming s); [|done]. destruct (Qos2.send_first _) as [[]|]; [done|].
  split_and!; try done. intros i Hi. specialize (Hs (SendRel i) eq_refl). simpl in Hs.
  by rewrite decide_True in Hs.
Qed.

Lemma send_first_filtered b l : Qos2.send_first l = None -> Qos2.send_first (pubs_of b l) = None.
Proof.
  intros Hl. apply Qos2.send_first_none in Hl.
  destruct (Qos2.send_first (pubs_of b l)) as [[p l']|] eqn:E; [|done].
  apply Qos2.send_first_spec in E as (l1 & l2 & E & _ & Hp & _).
  assert (p ∈ pubs_of b l) as [_ Hin]%list_elem_of_filter by (rewrite E; set_solver).
  rewrite Forall_forall in Hl. rewrite (Hl _ Hin) in Hp. done.
Qed.

(** Where neither side can do anything, the flow is complete. *)
Lemma idle_flow s :
  inv s -> idle s -> idle (swap s) ->
  msgs_of true (delivered (far s)) = msgs_of true (published (near s)) /\
  once (msgs_of false (delivered (far s))) = msgs_of false (published (near s)) /\
  pubs (near s) = [] /\ rels (near s) = ∅.
Proof.
  intros [[H2 H1 _ _] _] Hn Hf. destruct (idle_side _ Hn) as (Hpn & Hin & Hsn & Hrn).
  destruct (idle_side _ Hf) as (Hpf & Hout & Hsf & Hrf). simpl in *.
  assert (Qos2.stuck window (flow2 s)) as S2.
  { intros [i m| |i| | | | |] Hp; try done; unfold flow2; simpl; unfold Qos2.recv_down, Qos2.recv_up;
      simpl; rewrite ?Hpf, ?Hout, ?Hin; try done.
    - by rewrite send_first_filtered.
    - by rewrite decide_False. }
  assert (Qos1.stuck (flow1 s)) as S1.
  { intros [i m| | | | | |] Hp; try done; unfold flow1; simpl; rewrite ?Hpf, ?Hout, ?Hin; try done.
    by rewrite send_first_filtered. }
  destruct (Qos2.stuck_done _ _ H2 S2) as (D2 & P2 & R2).
  destruct (Qos1.qos1_stuck_done _ H1 S1) as (D1 & P1). simpl in *. split_and!; try done.
  destruct (pubs (near s)) as [|p l]; [done|]. unfold pubs_of in *. rewrite filter_cons in P1, P2.
  by destruct (exactly (Qos2.pub_msg p).2).
Qed.

End Machine.
End Duplex.
