(* ===== verification/Link.v ===== *)
(** * Two sessions over a link

    Two sessions of the client, each its state with its own handlers, tables and
    encoders, joined by a link that carries packets as bytes in both directions. The moves
    of a session are what the driver does with it: publish a message of any quality of
    service, write the packet [next_step] selects, complete a flush, hand a received packet
    to [handle_packet]; and the connection can be lost, after which both sessions replay.
    The second part ties each move to the operation of the connection it stands for.
    [Delivery] shows what the link guarantees.

    A packet enters the link when its last byte is written ([Outbound.wire_is_framed]:
    packets are never interleaved), and a session takes a packet only with its
    acknowledgements sent, as [Connection.wait_for_progress] does. *)

From stdpp Require Import gmap.
From S2P Require Import Prelude Varint Types Io Wire Ser De Properties Packets Received PacketReader Outbound Config Session Connection Driver Operations.

(** * The link *)

Record Message : Type := mkMessage {
  msg_topic : bytes; msg_payload : bytes; msg_properties : Properties; msg_retain : Retain;
  msg_qos : QoS }.

#[export] Instance Property_eq_dec : EqDecision Property.
Proof. solve_decision. Defined.
#[export] Instance Properties_eq_dec : EqDecision Properties.
Proof. solve_decision. Defined.
#[export] Instance Message_eq_dec : EqDecision Message.
Proof. solve_decision. Defined.

(** The header [publish] builds for a message. *)
Definition msg_header (m : Message) (packet_id : option Z) (dup : bool) : PublishHeader :=
  mkPublishHeader (msg_topic m) packet_id (msg_properties m) (msg_retain m) (msg_qos m) dup.

(** What the receiving application gets. *)
Definition msg_inbound (m : Message) : InboundPublish :=
  mkInboundPublish (msg_topic m) (msg_payload m) (received_properties (msg_properties m))
    (msg_retain m) (msg_qos m).

Definition message_ok (m : Message) : Prop :=
  str_wf (msg_topic m) /\ sendable (msg_properties m) /\ all_u8 (msg_payload m).

(** The publish [decode_inbound_publish] hands out. *)
Definition inbound_of (p : Publish) : InboundPublish :=
  mkInboundPublish (publish_topic p) (publish_payload p) (publish_properties p)
    (publish_retain_flag p) (publish_qos_level p).

Section Link.
Context {T : Time}.

Definition Peer : Type := SessionData * RuntimeState.

Definition peer_out (p : Peer) : Outbound := outbound (fst p).
Definition set_peer_out (p : Peer) (o : Outbound) : Peer := (set_outbound (fst p) o, snd p).

(** [publish] for QoS 1 and 2, from the packet identifier to the retained packet; on an
    error the message is not accepted. *)
Definition accept (p : Peer) (m : Message) : Peer * bool :=
  let '(d, rt) := p in
  let '(d, packet_id) := next_packet_id d in
  if retained_full (outbound d) then ((d, rt), false) else
  if negb (negb (send_quota rt =? 0) && can_retain (outbound d)) then ((d, rt), false) else
  let '(o, r) := encode_publish_out (P := unit) (E := unit) (outbound d)
                   (msg_header m (Some packet_id) false) (bytes_payload (msg_payload m)) in
  let d := set_outbound d o in
  match r with
  | Err _ => ((d, rt), false)
  | Ok len =>
      match require_packet_size (E := unit) rt len with
      | Err _ => ((d, rt), false)
      | Ok _ =>
          let '(o, r) := retain_packet (outbound d) (publish_kind (msg_qos m)) packet_id len in
          let d := set_outbound d o in
          match r with
          | Err _ => ((d, rt), false)
          | Ok _ => ((d, set_send_quota rt (u16_saturating_sub (send_quota rt) 1)), true)
          end
      end
  end.

(** [publish] for QoS 0 with everything queued flushed: the packet for the link, encoded
    behind the retained packets, or nothing on an error. *)
Definition send_direct (p : Peer) (m : Message) : Peer * option bytes :=
  if negb (MAX_FIXED_HEADER_SIZE <=? scratch_len (peer_out p)) then (p, None) else
  let header := msg_header m None false in
  let '(slice, r) := encode_publish (scratch_space (peer_out p)) (serialize header)
                       (publish_header_fixed_header header)
                       (bytes_payload (msg_payload m) : ToPayload unit) in
  let p := set_peer_out p (set_scratch_space (peer_out p) slice) in
  match r with
  | Err _ => (p, None)
  | Ok packet =>
      match require_packet_size (E := unit) (snd p) (zlen packet) with
      | Err _ => (p, None)
      | Ok _ => (p, Some packet)
      end
  end.

(** One packet written completely: the step, its bytes and the progress recorded. *)
Definition transmit (p : Peer) : option (Peer * bytes) :=
  match next_step (peer_out p) with
  | None => None
  | Some s =>
      let packet := step_packet (peer_out p) s in
      if exceeds (maximum_packet_size (snd p)) (zlen packet) then None
      else Some (set_peer_out p (record_write (peer_out p) s (zlen packet)), packet)
  end.

Definition is_flush (s : SendState) : bool := bool_decide (s = Flush).

(** Something is written and not yet flushed. *)
Definition dirty (o : Outbound) : bool :=
  existsb (fun c => is_flush (pc_state c)) (pending_control o) ||
  existsb (fun r => is_flush (pr_state r)) (pending_release o) ||
  existsb (fun e => is_flush (rp_state e)) (retained o).

Definition flush_peer (p : Peer) : option Peer :=
  if dirty (peer_out p) then Some (set_peer_out p (complete_flush (peer_out p))) else None.

(** A received packet: the new state, and the publish handed to the application. *)
Definition receive (p : Peer) (packet : bytes) : option (Peer * option InboundPublish) :=
  match from_buffer packet with
  | Err _ => None
  | Ok packet =>
      let '(p', r) := handle_packet packet p in
      Some (p', match packet, r with
                | ReceivedPacket.Publish info, Ok true => Some (inbound_of info)
                | _, _ => None
                end)
  end.

(** A session that lost its connection and resumed on another, which leaves new
    runtime values. *)
Definition resume (p : Peer) (rt : RuntimeState) : Peer :=
  (set_outbound (fst p) (arm_replay (peer_out p)), rt).

(** Nothing is left to write or to flush, as behind [flush_outbound]. *)
Definition outbound_idle (o : Outbound) : bool :=
  match next_step o with Some _ => false | None => negb (dirty o) end.

(** A session with what its application published and was handed. *)
Record Endpoint : Type := mkEndpoint {
  e_peer : Peer; e_published : list Message; e_received : list InboundPublish }.

Record Link : Type := mkLink {
  l_near : Endpoint; l_far : Endpoint; l_out : list bytes; l_in : list bytes }.

Definition swap (k : Link) : Link := mkLink (l_far k) (l_near k) (l_in k) (l_out k).

(** The retained publications of a kind, and the QoS 2 publications not complete. *)
Definition retained_of (kind : OpKind) (p : Peer) : list RetainedPacket :=
  filter (fun e => rp_kind e = kind) (retained (peer_out p)).
Definition incomplete (p : Peer) : nat :=
  (length (retained_of OpKind.PublishExactlyOnce p) + length (pending_release (peer_out p)))%nat.

(** A QoS 1 publish or its acknowledgement with identifier [i]. *)
Definition is_publish1 (i : Z) (b : bytes) : bool :=
  match from_buffer b with
  | Ok (ReceivedPacket.Publish p) =>
      bool_decide (publish_qos_level p = QoS.AtLeastOnce) &&
      bool_decide (publish_packet_id p = Some i)
  | _ => false
  end.
Definition is_puback (i : Z) (b : bytes) : bool :=
  match from_buffer b with
  | Ok (ReceivedPacket.PubAck a) => puback_packet_id a =? i
  | _ => false
  end.
Definition queues_puback (i : Z) (c : PendingControl) : bool :=
  match pc_action c with ControlAction.PubAck j _ => j =? i | _ => false end.

(** Something of an earlier QoS 1 publication with identifier [i] is on the way. *)
Definition under_way (k : Link) (i : Z) : bool :=
  existsb (is_publish1 i) (l_out k) || existsb (is_puback i) (l_in k) ||
  existsb (queues_puback i) (pending_control (peer_out (e_peer (l_far k)))).

Inductive PeerAction : Type := DoPublish (m : Message) | DoWrite | DoFlush | DoRead.

Definition publish_near (m : Message) (k : Link) : option Link :=
  let e := l_near k in
  if bool_decide (msg_qos m = QoS.AtMostOnce) then
    if outbound_idle (peer_out (e_peer e)) then
      Some (match send_direct (e_peer e) m with
            | (p, Some packet) =>
                mkLink (mkEndpoint p (e_published e ++ [m]) (e_received e)) (l_far k)
                  (l_out k ++ [packet]) (l_in k)
            | (p, None) =>
                mkLink (mkEndpoint p (e_published e) (e_received e)) (l_far k) (l_out k) (l_in k)
            end)
    else None
  else
    let '(p, accepted) := accept (e_peer e) m in
    Some (mkLink (mkEndpoint p (if accepted then e_published e ++ [m] else e_published e)
                    (e_received e)) (l_far k) (l_out k) (l_in k)).

Definition near_step (a : PeerAction) (k : Link) : option Link :=
  let e := l_near k in
  match a with
  | DoPublish m => publish_near m k
  | DoWrite =>
      match transmit (e_peer e) with
      | Some (p, packet) =>
          Some (mkLink (mkEndpoint p (e_published e) (e_received e)) (l_far k)
                  (l_out k ++ [packet]) (l_in k))
      | None => None
      end
  | DoFlush =>
      match flush_peer (e_peer e) with
      | Some p =>
          Some (mkLink (mkEndpoint p (e_published e) (e_received e)) (l_far k) (l_out k) (l_in k))
      | None => None
      end
  | DoRead =>
      if is_empty (pending_control (peer_out (e_peer e))) then
        match l_in k with
        | packet :: rest =>
            match receive (e_peer e) packet with
            | Some (p, publish) =>
                Some (mkLink (mkEndpoint p (e_published e) (e_received e ++ option_list publish))
                        (l_far k) (l_out k) rest)
            | None => None
            end
        | [] => None
        end
      else None
  end.

Inductive LinkAction : Type :=
| Near (a : PeerAction) | Far (a : PeerAction) | DoLose (near_rt far_rt : RuntimeState).

Definition resume_endpoint (e : Endpoint) (rt : RuntimeState) : Endpoint :=
  mkEndpoint (resume (e_peer e) rt) (e_published e) (e_received e).

Definition link_step (a : LinkAction) (k : Link) : option Link :=
  match a with
  | Near a => near_step a k
  | Far a => option_map swap (near_step a (swap k))
  | DoLose nrt frt =>
      Some (mkLink (resume_endpoint (l_near k) nrt) (resume_endpoint (l_far k) frt) [] [])
  end.

(** ** Orderly publications

    The sessions accept a publication whenever they have an identifier, a slot and room
    for it. The guarantees of [Delivery] are about runs whose publications meet two more
    conditions, which the code does not check: a QoS 2 message is published with fewer
    than [MAX_RETAINED] QoS 2 publications of that side incomplete (a PUBREC that finds
    the release table full is dropped, [Session.pubrec_without_release_slot]), and a QoS 1
    message is not published with an identifier of which packets are still on the way
    ([Delivery.wrapped_identifier_loses_message]). *)
Definition may_publish (k : Link) (m : Message) : bool :=
  match msg_qos m with
  | QoS.AtMostOnce => true
  | QoS.AtLeastOnce => negb (under_way k (snd (next_packet_id (fst (e_peer (l_near k))))))
  | QoS.ExactlyOnce => (incomplete (e_peer (l_near k)) <? MAX_RETAINED)%nat
  end.

Definition orderly (k : Link) (a : LinkAction) : bool :=
  match a with
  | Near (DoPublish m) => may_publish k m
  | Far (DoPublish m) => may_publish (swap k) m
  | _ => true
  end.

Fixpoint link_run (l : list LinkAction) (k : Link) : option Link :=
  match l with
  | [] => Some k
  | a :: l' => match link_step a k with Some k' => link_run l' k' | None => None end
  end.

(** Two fresh sessions with their own arenas. *)
Definition link_init (near_buf far_buf : bytes) (near_rt far_rt : RuntimeState) : Link :=
  mkLink (mkEndpoint (SessionData_new near_buf, near_rt) [] [])
    (mkEndpoint (SessionData_new far_buf, far_rt) [] []) [] [].

End Link.

(** The driver reads only with every acknowledgement sent: [wait_for_progress] calls
    [read_packet] after an idle [drive_packet], and then no control packet is pending. *)
Lemma idle_controls_gone {IO E} `{Transport IO E} {T : Time} `{!Clock IO T} (c c' : Connection IO) :
  conn_inv c -> drive_packet (E := E) c = (c', Some (Ok Progress.Idle)) ->
  pending_control (conn_outbound c') = [].
Proof.
  intros Hc Hd. destruct (drive_packet_spec c c' _ Hc Hd) as [(_ & _ & ?)|(_ & Hc' & _ & Hn & Hf & _)];
    [done|]. by apply controls_gone.
Qed.

(** * The moves of the link are those of the connection

    [accept] and [send_direct], [transmit], [flush_peer], [receive] and [resume] are what
    [publish], [perform_outbound_step], [flush_current], [process_received_packet] and
    [handle_disconnect] do to the two halves of a session's state. *)

Section Moves.
Context {IO E : Type} `{Transport IO E} {T : Time} `{!Clock IO T}.
Implicit Types c : Connection IO.

Definition peer_of (c : Connection IO) : Peer := (conn_data c, conn_runtime c).
Definition set_peer (c : Connection IO) (p : Peer) : Connection IO := set_conn_state c (fst p) (snd p).

Definition msg_publication (m : Message) : Publication (ToPayload unit) :=
  mkPublication (msg_topic m) (msg_properties m) (msg_qos m) (bytes_payload (msg_payload m))
    (msg_retain m).

(** The parts of an accepted publish. *)
Lemma accept_inv p m p' :
  accept p m = (p', true) ->
  let '(d, i) := next_packet_id (fst p) in
  retained_full (outbound d) = false /\ (send_quota (snd p) =? 0) = false /\
  can_retain (outbound d) = true /\
  exists o len o', encode_publish_out (P := unit) (E := E) (outbound d) (msg_header m (Some i) false)
      (bytes_payload (msg_payload m)) = (o, Ok len) /\
    exceeds (maximum_packet_size (snd p)) len = false /\
    retain_packet o (publish_kind (msg_qos m)) i len = (o', Ok tt) /\
    p' = (set_outbound (set_outbound d o) o',
          set_send_quota (snd p) (u16_saturating_sub (send_quota (snd p)) 1)).
Proof.
  destruct p as [d0 rt]. unfold accept. cbn [fst snd].
  destruct (next_packet_id d0) as [d i]. destruct (retained_full (outbound d)); [done|].
  destruct (send_quota rt =? 0); [done|]. destruct (can_retain (outbound d)); [|done].
  cbn [negb andb]. unfold encode_publish_out.
  destruct (encode_publish_with_offset _ _ _ _) as [slice [[off b]|e]]; [|done].
  destruct (pack_encoded _ _ _) as [o [[]|e]]; [|done].
  unfold require_packet_size. destruct (exceeds _ _) eqn:Hx; [done|].
  destruct (retain_packet _ _ _ _) as [o' [[]|e]] eqn:Hr; [|done]. intros [= <-].
  split_and!; try done. by exists o, (zlen b), o'.
Qed.

(** [publish] accepts a message of QoS 1 or 2 when [accept] does, and then sends from that
    state. *)
Lemma publish_accepts c m p :
  live c = true -> valid_for (msg_properties m) PropertyContext.Publish = true ->
  msg_qos m <> QoS.AtMostOnce -> effective_qos (E := E) c (msg_qos m) = Ok (msg_qos m) ->
  accept (peer_of c) m = (p, true) ->
  publish (E := E) (msg_publication m) c =
    (do* pub flush_outbound in
     let* d := aget conn_data in
     aret (Some (mkOp (publish_kind (msg_qos m)) (snd (next_packet_id (conn_data c)))
                   (generation d))))
    (set_peer c p).
Proof.
  intros Hl Hv Hq0 Hq Ha. pose proof (accept_inv _ _ _ Ha) as Hp. cbn [peer_of fst snd] in Hp.
  unfold publish. rewrite (abind_ok _ _ _ c tt) by (unfold pub, require_live; by rewrite Hl).
  change (pub_properties (msg_publication m)) with (msg_properties m). rewrite Hv. cbn [negb].
  rewrite abind_aget. change (id c) with c. change (pub_qos (msg_publication m)) with (msg_qos m).
  rewrite (abind_ok _ _ _ c (msg_qos m)) by (unfold pub, alift; by rewrite Hq).
  destruct (next_packet_id (conn_data c)) as [d i] eqn:Hn. cbn [snd].
  destruct Hp as (Hf & Hs & Hc & o & len & o' & He & Hx & Hr & ->).
  set (c1 := set_conn_state c d (conn_runtime c)).
  assert (qos_gt (msg_qos m) QoS.AtMostOnce = true) as -> by (by destruct (msg_qos m)).
  rewrite (abind_ok _ _ _ c1 (Some i))
    by (unfold abind, pub, take_packet_id; by rewrite Hn).
  rewrite abind_aget. unfold require_retained_slot. change (conn_outbound (id c1)) with (outbound d).
  rewrite Hf, abind_aget. unfold can_publish, session_can_publish.
  change (live (id c1)) with (live c). change (send_quota (sruntime (session (id c1))))
    with (send_quota (conn_runtime c)). change (outbound (sdata (session (id c1)))) with (outbound d).
  rewrite Hl, Hs, Hc, bool_decide_false by done. cbn [andb negb]. unfold publish_retained.
  rewrite (abind_ok _ _ _ (set_conn_outbound c1 o) (Ok len)).
  2: { change (conn_outbound c1) with (outbound d).
       change (mkPublishHeader _ _ _ _ _ _) with (msg_header m (Some i) false).
       change (pub_payload (msg_publication m)) with (bytes_payload (msg_payload m)).
       rewrite He. unfold require_packet_size.
       change (maximum_packet_size (conn_runtime (set_conn_outbound c1 o)))
         with (maximum_packet_size (conn_runtime c)). by rewrite Hx. }
  fold (publish_kind (msg_qos m)).
  rewrite (abind_ok _ _ _ (set_conn_outbound (set_conn_outbound c1 o) o') tt).
  2: { unfold pub, with_outbound. change (conn_outbound (set_conn_outbound c1 o)) with o.
       by rewrite Hr. }
  done.
Qed.

(** [publish] at QoS 0 flushes, and then writes and flushes the packet of [send_direct]. *)
Lemma publish_sends c m c1 p packet :
  live c = true -> valid_for (msg_properties m) PropertyContext.Publish = true ->
  msg_qos m = QoS.AtMostOnce -> MAX_FIXED_HEADER_SIZE <= scratch_len (conn_outbound c) ->
  flush_outbound (E := E) c = (c1, Some (Ok tt)) -> live c1 = true ->
  send_direct (peer_of c1) m = (p, Some packet) ->
  publish (E := E) (msg_publication m) c =
    (do* pub (or_disconnect (on_io (write_all packet))) in
     do* pub (or_disconnect (on_io flush)) in
     let* t := pub instant_now in
     do* pub (amodify (fun c => set_conn_runtime c (note_outbound_activity (conn_runtime c) t))) in
     aret None)
    (set_peer c1 p).
Proof.
  intros Hl Hv Hq Hroom%Z.leb_le Hf Hl1 Hs. unfold publish.
  rewrite (abind_ok _ _ _ c tt) by (unfold pub, require_live; by rewrite Hl).
  change (pub_properties (msg_publication m)) with (msg_properties m). rewrite Hv. cbn [negb].
  rewrite abind_aget. change (id c) with c. change (pub_qos (msg_publication m)) with (msg_qos m).
  rewrite (abind_ok _ _ _ c QoS.AtMostOnce)
    by (unfold pub, alift, effective_qos; rewrite Hq; by destruct (max_qos _) as [[]|]).
  rewrite (abind_ok _ _ _ c None) by done. rewrite abind_aget, abind_aget.
  unfold can_publish, session_can_publish. change (live (id c)) with (live c).
  change (outbound (sdata (session (id c)))) with (conn_outbound c). rewrite Hl, Hroom.
  simpl (bool_decide _). cbn [negb andb]. unfold publish_direct.
  rewrite (abind_ok _ _ _ c1 tt) by (unfold pub; by rewrite Hf).
  unfold send_direct in Hs. case_match; [done|]. cbn [peer_of fst snd] in Hs.
  assert (msg_header m None false = mkPublishHeader (pub_topic (msg_publication m)) None
    (msg_properties m) (pub_retain (msg_publication m)) QoS.AtMostOnce false) as Hh
    by (unfold msg_header; by rewrite Hq).
  rewrite Hh in Hs. change (peer_out (peer_of c1)) with (conn_outbound c1) in Hs.
  change (bytes_payload (msg_payload m)) with (pub_payload (msg_publication m)) in Hs.
  destruct (encode_publish _ _ _ _) as [slice [bs|e]] eqn:He; [|done].
  set (c2 := set_conn_outbound c1 (set_scratch_space (conn_outbound c1) slice)).
  rewrite (abind_ok _ _ _ c2 bs) by (by rewrite He).
  rewrite abind_aget. unfold require_packet_size in *.
  change (maximum_packet_size (conn_runtime c2)) with (maximum_packet_size (conn_runtime c1)).
  change (maximum_packet_size (snd _)) with (maximum_packet_size (conn_runtime c1)) in Hs.
  destruct (exceeds _ _); [done|]. injection Hs as <- <-.
  rewrite (abind_ok _ _ _ c2 tt) by done.
  rewrite (abind_ok _ _ _ c2 tt)
    by (unfold pub, require_live; change (live c2) with (live c1); by rewrite Hl1).
  done.
Qed.

(** Behind a flush of the queue nothing is left to write or to flush. *)
Lemma flush_idle c c' u :
  conn_inv c -> live c = true -> flush_outbound (E := E) c = (c', Some (Ok u)) ->
  live c' = true /\ outbound_idle (conn_outbound c') = true.
Proof.
  intros Hc Hl Hf. pose proof (flush_outbound_rule (E := E) (fun _ => True) c) as Hr. rewrite Hf in Hr.
  destruct Hr as (Hc' & _ & Hl' & Hn & Hfs); try done. split; [done|].
  destruct Hc' as (_ & _ & _ & Hclean). destruct (Hclean Hfs) as (H1 & H2 & H3).
  unfold outbound_idle, dirty. rewrite Hn. apply negb_true_iff.
  apply orb_false_intro; [apply orb_false_intro|]; apply not_true_is_false;
    intros (x & Hx%list_elem_of_In & Hs)%existsb_exists; apply bool_decide_eq_true in Hs.
  - rewrite Forall_forall in H1. by apply (H1 x).
  - rewrite Forall_forall in H2. by apply (H2 x).
  - rewrite Forall_forall in H3. by apply (H3 x).
Qed.

(** A write that takes the rest of a packet is [transmit]. *)
Lemma transmit_performs c s c' p packet :
  conn_inv c -> live c = true -> next_step (conn_outbound c) = Some s ->
  perform_outbound_step (E := E) s c = (c', Some (Ok true)) ->
  transmit (peer_of c) = Some (p, packet) ->
  packet = step_packet (conn_outbound c) s /\
  exists n i0, 0 < n <= zlen packet - step_written s /\
    io_write (io c) (zdrop (step_written s) packet) = (i0, Some (Ok n)) /\
    (step_written s + n = zlen packet -> conn_data c' = fst p) /\
    (conn_runtime c' = snd p \/ exists t, conn_runtime c' = set_ping_timeout (snd p) (Some t)).
Proof.
  intros Hc Hl Hs Hp Ht. pose proof (perform_spec c s c' _ Hc Hl Hs Hp) as Ho.
  unfold transmit, peer_of, peer_out in Ht. cbn [fst snd] in Ht.
  change (outbound (conn_data c)) with (conn_outbound c) in Ht. rewrite Hs in Ht.
  destruct (exceeds _ _); [done|]. injection Ht as <- <-. split; [done|].
  destruct Ho as (_ & n & i0 & i & rt & Hn & Hio & _ & -> & Hrt). exists n, i0.
  split_and!; [lia|lia|done|by intros ->|]. destruct Hrt as [[-> _]|[t ->]]; [by left|].
  right. by exists t.
Qed.

(** A completed flush is [flush_peer], apart from the time of the next ping. *)
Lemma flush_peer_flushes c i i' t :
  live c = true -> io_flush (io c) = (i, Some (Ok tt)) -> dirty (conn_outbound c) = true ->
  now i = (i', t) ->
  exists c' p, flush_current (E := E) c = (c', Some (Ok tt)) /\ flush_peer (peer_of c) = Some p /\
    conn_data c' = fst p /\ conn_runtime c' = note_outbound_activity (snd p) t.
Proof.
  intros Hl Hf Hd Hn. unfold flush_peer, peer_of, peer_out. cbn [fst snd].
  change (outbound (conn_data c)) with (conn_outbound c). rewrite Hd.
  eexists _, _. split_and!; [|done|..].
  - unfold flush_current. rewrite (abind_ok _ _ _ c tt) by (unfold require_live; by rewrite Hl).
    rewrite abind_amodify. unfold abind at 1, or_disconnect, on_io, flush.
    change (io (set_flush_state c Flushing)) with (io c). rewrite Hf. simpl.
    unfold abind, instant_now. simpl. rewrite Hn. done.
  - done.
  - done.
Qed.

(** A packet in the reader that is handled without an error is [receive]: the state of the
    session is that of [receive], and the publish it reports is the one
    [decode_inbound_publish] hands out. *)
Lemma receive_processes c c' o p publish :
  reader_wf (conn_reader c) -> packet_available (conn_reader c) = true ->
  process_received_packet (E := E) c = (c', Some (Ok o)) ->
  receive (peer_of c) (received (conn_reader c)) = Some (p, publish) ->
  peer_of c' = p /\
  match o with
  | Some len => exists info, publish = Some info /\
      decode_inbound_publish (E := E) len c' = (c', Some (Ok info))
  | None => publish = None
  end.
Proof.
  intros Hw Ha. destruct (take_packet_received _ Hw Ha) as [Ht _].
  pose proof (zlen_received _ Hw) as Hz. pose proof Hw as (Hi & _).
  unfold process_received_packet, receive. rewrite Ha, Ht. cbn [negb].
  destruct (from_buffer (received (conn_reader c))) as [packet|e] eqn:Hb; [|done].
  set (c1 := set_session c _). change (conn_data c1, conn_runtime c1) with (peer_of c).
  destruct (handle_packet packet (peer_of c)) as [[d rt] res] eqn:Hh.
  intros Hp [= <- <-]. destruct res as [[|]|[| | |[]|[]|[]|]]; try done; injection Hp as <- <-.
  - split; [done|]. destruct (handle_true_publish _ _ _ Hh) as [info ->].
    exists (inbound_of info). split; [done|]. unfold decode_inbound_publish.
    change (buffer (conn_reader (set_conn_state c1 d rt))) with (buffer (conn_reader c)).
    rewrite (proj2 (Z.ltb_ge _ _)) by lia.
    change (ztake (read_bytes (conn_reader c)) (buffer (conn_reader c))) with (received (conn_reader c)).
    by rewrite Hb.
  - split; [done|]. by destruct packet.
Qed.

(** Losing the connection is [resume] with the runtime values [handle_disconnect] leaves. *)
Lemma resume_disconnects c :
  peer_of (handle_disconnect c) = resume (peer_of c) (reset_transport (conn_runtime c)).
Proof. done. Qed.
End Moves.
