(* ===== verification/Peers.v ===== *)
(** * A session as a side of the two-way machine

    The relation between the state of a session and a side of [Duplex]: its retained
    packets are the publications, its release table the releases, the identifiers it
    remembers those the side has reserved, and its control table holds the acknowledgement
    to send. Every move of [Link] keeps it, as the corresponding step of the machine. *)

From stdpp Require Import gmap.
From S2P Require Import Prelude Varint Types Io Wire Ser De Properties Packets Received PacketReader Outbound Config Session Connection Driver Operations Qos2Spec Qos1Spec Duplex Link.

(** Which messages are QoS 2. *)
Definition exactly (m : Message) : bool := bool_decide (msg_qos m = QoS.ExactlyOnce).

Abbreviation pub := (Qos2.pub (M := nat * Message)).
Abbreviation side := (Duplex.side (M := Message)).
Abbreviation packet := (Duplex.packet (M := Message)).

(** * Packets on the link *)

(** [b] is the PUBLISH packet of [m] with the given identifier, with either DUP flag. *)
Definition carries (b : bytes) (id : option Z) (m : Message) : Prop :=
  exists dup hb,
    publish_id_wf (msg_header m id false) /\ message_ok m /\
    enc_publish_header (msg_header m id false) = Ok hb /\
    zlen hb + zlen (msg_payload m) <= MQTT_VARINT_MAX /\
    b = packet_bytes (publish_header_fixed_header (msg_header m id dup)) (hb ++ msg_payload m).

Lemma carries_decodes b id m :
  carries b id m ->
  exists p, from_buffer b = Ok (ReceivedPacket.Publish p) /\ publish_packet_id p = id /\
    publish_qos_level p = msg_qos m /\ inbound_of p = msg_inbound m.
Proof.
  intros (dup & hb & Hi & (Ht & Hp & Hd) & He & Hm & ->).
  destruct (publish_decodes (msg_header m id dup) (msg_payload m) hb) as (_ & Hb & _); try done.
  eexists. by split_and!.
Qed.

Lemma carries_mark b id m : carries b id m -> carries (mark_first b) id m.
Proof.
  intros (dup & hb & Hi & Hm & He & Hl & ->). exists true, hb. split_and!; try done.
  unfold packet_bytes, mark_first. f_equal. apply mark_duplicate_publish.
Qed.

Lemma carries_id b i m : carries b (Some i) m -> is_u16 i /\ msg_qos m <> QoS.AtMostOnce.
Proof. by intros (_ & _ & Hi & _). Qed.

(** The acknowledgements with a reason code and no properties. *)
Lemma ack_decodes i c :
  is_u16 i ->
  from_buffer (release_packet i c) = Ok (ReceivedPacket.PubRel (mkPubRel i (reason_from c))) /\
  from_buffer (control_packet (ControlAction.PubAck i c)) =
    Ok (ReceivedPacket.PubAck (mkPubAck i (reason_from c))) /\
  from_buffer (control_packet (ControlAction.PubRec i c)) =
    Ok (ReceivedPacket.PubRec (mkPubRec i (reason_from c))) /\
  from_buffer (control_packet (ControlAction.PubComp i c)) =
    Ok (ReceivedPacket.PubComp (mkPubComp i (reason_from c))).
Proof.
  intros Hi. set (body := to_be_bytes 2 i ++ [reason_code_u8 c]).
  destruct (ack_roundtrip_of mkPubRel ReceivedPacket.PubRel i (reason_from c) control_workspace body)
    as (b1 & w1 & He1 & Hw1); try done.
  destruct (ack_roundtrip_of mkPubRec ReceivedPacket.PubRec i (reason_from c) control_workspace body)
    as (b2 & w2 & He2 & Hw2); try done.
  destruct (ack_roundtrip_of mkPubComp ReceivedPacket.PubComp i (reason_from c) control_workspace body)
    as (b3 & w3 & He3 & Hw3); try done.
  destruct (ack_roundtrip_of mkPubAck ReceivedPacket.PubAck i (reason_from c) control_workspace body)
    as (b4 & w4 & He4 & Hw4); try done.
  unfold release_packet, encode_pubrel, control_packet, encode_control_packet.
  by rewrite He1, He2, He3, He4.
Qed.

(** What an acknowledgement of the machine is in the control table. *)
Definition action_rel (act : ControlAction) (a : Duplex.ack) : Prop :=
  match a with
  | Duplex.Ack i => (exists c, act = ControlAction.PubAck i c) /\ is_u16 i
  | Duplex.Rec i => act = ControlAction.PubRec i ReasonCode.Success /\ is_u16 i
  | Duplex.Comp i => (exists c, act = ControlAction.PubComp i c) /\ is_u16 i
  end.

Definition wire_rel (b : bytes) (d : packet) : Prop :=
  match d with
  | Duplex.Pub i m => carries b (Some i) m.2
  | Duplex.Pub0 m => carries b None m
  | Duplex.Rel i => b = release_packet i ReasonCode.Success /\ is_u16 i
  | Duplex.Reply a => exists act, b = control_packet act /\ action_rel act a
  end.

Definition pending_rel (l : list PendingControl) (p : option (Duplex.ack * bool)) : Prop :=
  match p with
  | None => l = []
  | Some (a, b) =>
      exists act, l = [mkPendingControl act (if b then Flush else Write 0)] /\ action_rel act a
  end.

Definition sentb (s : SendState) : bool := match s with Write _ => false | _ => true end.
(** No packet is partly written. *)
Definition whole (s : SendState) : Prop := match s with Write w => w = 0 | _ => True end.

(** * The relation *)

Section Peers.
Context {T : Time}.

(** The five bytes of an acknowledgement are not too long for the peer. *)
Definition acks_fit (rt : RuntimeState) : Prop := exceeds (maximum_packet_size rt) 5 = false.

Definition pub_rel (e : Entry) (p : pub) : Prop :=
  let m := (Qos2.pub_msg p).2 in
  entry_kind e = publish_kind (msg_qos m) /\ entry_id e = Qos2.pub_id p /\
  carries (entry_bytes e) (Some (Qos2.pub_id p)) m /\
  whole (entry_state e) /\ sentb (entry_state e) = Qos2.pub_sent p.

Definition release_ok (r : PendingRelease) : Prop :=
  pr_reason r = ReasonCode.Success /\ is_u16 (pr_packet_id r) /\ whole (pr_state r).

Definition release_key (r : PendingRelease) : Z * bool := (pr_packet_id r, sentb (pr_state r)).

Definition releases (l : list PendingRelease) : gmap Z bool := list_to_map (release_key <$> l).

Record peer_rel (p : Peer) (e : side) : Prop := mkPeerRel {
  pr_inv : session_inv p;
  pr_acks : acks_fit (snd p);
  pr_pubs : Forall2 pub_rel (view (peer_out p)) (Duplex.pubs e);
  pr_release : Forall release_ok (pending_release (peer_out p));
  pr_rels : releases (pending_release (peer_out p)) = Duplex.rels e;
  pr_reserved : list_to_set (pending_server_packet_ids (fst p)) = Duplex.reserved e;
  pr_pending : pending_rel (pending_control (peer_out p)) (Duplex.pending e) }.

Lemma pub_rel_ids v l : Forall2 pub_rel v l -> map entry_id v = Qos2.ids l.
Proof.
  induction 1 as [|e p v l (_ & He & _) _ IH]; [done|]. unfold Qos2.ids in *. simpl.
  by rewrite He, IH.
Qed.

Lemma peer_live p e : peer_rel p e -> live_inv (peer_out p).
Proof. intros H. apply (pr_inv _ _ H). Qed.

Lemma peer_ids p e :
  peer_rel p e -> map rp_packet_id (retained (peer_out p)) = Qos2.ids (Duplex.pubs e).
Proof. intros H. rewrite <- view_ids. apply pub_rel_ids, H. Qed.

Lemma release_ids l : (release_key <$> l).*1 = map pr_packet_id l.
Proof. by rewrite <- list_fmap_compose. Qed.

Lemma releases_lookup l i b :
  NoDup (map pr_packet_id l) ->
  releases l !! i = Some b <-> exists r, r ∈ l /\ pr_packet_id r = i /\ sentb (pr_state r) = b.
Proof.
  intros Hn. rewrite <- release_ids in Hn. unfold releases.
  rewrite <- elem_of_list_to_map by done. rewrite list_elem_of_fmap.
  split; intros (r & H); exists r; unfold release_key in *; naive_solver.
Qed.

Lemma releases_none l i : releases l !! i = None <-> i ∉ map pr_packet_id l.
Proof.
  unfold releases. rewrite <- release_ids. symmetry. apply not_elem_of_list_to_map.
Qed.

Lemma releases_size l : NoDup (map pr_packet_id l) -> size (releases l) = length l.
Proof.
  intros Hn. unfold releases. rewrite map_size_list_to_map by by rewrite release_ids.
  apply length_fmap.
Qed.

Lemma releases_perm l l' : NoDup (map pr_packet_id l) -> l ≡ₚ l' -> releases l = releases l'.
Proof.
  intros Hn Hp. unfold releases. apply list_to_map_proper; [by rewrite release_ids|].
  by apply fmap_Permutation.
Qed.

Lemma peer_unique p e :
  peer_rel p e ->
  NoDup (map rp_packet_id (retained (peer_out p))) /\
  NoDup (map pr_packet_id (pending_release (peer_out p))).
Proof. intros H. apply live_inv_out; by eapply peer_live. Qed.

Lemma peer_ids_unique p e : peer_rel p e -> NoDup (Qos2.ids (Duplex.pubs e)).
Proof. intros H. rewrite <- (peer_ids _ _ H). apply (peer_unique _ _ H). Qed.

(** An identifier is in use exactly when it is live. *)
Lemma peer_live_ids p e i :
  peer_rel p e ->
  (i ∉ live_ids (peer_out p)) <->
  (i ∉ Qos2.ids (Duplex.pubs e)) /\ Duplex.rels e !! i = None.
Proof.
  intros H. unfold live_ids. rewrite not_elem_of_app, (peer_ids _ _ H).
  by rewrite <- (pr_rels _ _ H), releases_none.
Qed.

(** The kind of the retained packets of QoS 2, or of QoS 1. *)
Definition kind_of (b : bool) : OpKind :=
  if b then OpKind.PublishExactlyOnce else OpKind.PublishAtLeastOnce.

Lemma kind_exactly (m : Message) b : publish_kind (msg_qos m) = kind_of b <-> exactly m = b.
Proof. unfold publish_kind, exactly, kind_of. by destruct (msg_qos m), b. Qed.

Lemma peer_retained p e b :
  peer_rel p e ->
  length (retained_of (kind_of b) p) = length (Duplex.pubs_of exactly b (Duplex.pubs e)).
Proof.
  intros H. pose proof (pr_pubs _ _ H) as Hp. revert Hp. unfold view, Duplex.pubs_of, retained_of.
  generalize 0 (Duplex.pubs e). induction (retained (peer_out p)) as [|x l IH]; intros off pubs Hp;
    [by apply Forall2_nil_inv_l in Hp as ->|].
  apply Forall2_cons_inv_l in Hp as (q & k & (Hk & _) & Hp & ->). specialize (IH _ _ Hp).
  simpl in Hk. pose proof (kind_exactly (Qos2.pub_msg q).2 b) as Hx. rewrite <- Hk in Hx.
  rewrite !filter_cons. repeat case_decide; simpl; [lia|tauto|tauto|lia].
Qed.

Lemma peer_incomplete p e :
  peer_rel p e ->
  incomplete p = (length (Duplex.pubs_of exactly true (Duplex.pubs e)) + size (Duplex.rels e))%nat.
Proof.
  intros H. unfold incomplete. rewrite <- (pr_rels _ _ H), releases_size by apply (peer_unique _ _ H).
  f_equal. by apply (peer_retained p e true).
Qed.

(** A change of the arena's free bytes, the counters and the quota is not seen. *)
Lemma peer_frame p p' e :
  peer_rel p e -> session_inv p' -> acks_fit (snd p') ->
  view (peer_out p') = view (peer_out p) ->
  pending_control (peer_out p') = pending_control (peer_out p) ->
  pending_release (peer_out p') = pending_release (peer_out p) ->
  pending_server_packet_ids (fst p') = pending_server_packet_ids (fst p) ->
  peer_rel p' e.
Proof. intros [] Hi Hm Hv Hc Hr Hs. constructor; congruence. Qed.

(** ** Publishing *)

Lemma payload_taken data room slice n :
  to_payload (bytes_payload data) room = (slice, Ok n) -> ztake n slice = data.
Proof.
  change (to_payload (bytes_payload data) room) with (slice_payload data room).
  unfold slice_payload. destruct (Z.ltb_spec (zlen room) (zlen data)); [done|]. intros [= <- <-].
  pose proof (ztake_zwrite_through room 0 data) as Ht. rewrite Z.add_0_l, ztake_0 in Ht.
  apply Ht; zlia.
Qed.

(** The packet of an accepted message. *)
Lemma encoded_carries m id o o1 len :
  out_wf o -> publish_id_wf (msg_header m id false) -> message_ok m ->
  encode_publish_out (P := unit) (E := unit) o (msg_header m id false) (bytes_payload (msg_payload m))
    = (o1, Ok len) ->
  exists b, carries b id m /\ len = zlen b /\ b <> [] /\ encoded_out o o1 (Some b).
Proof.
  intros Hw Hi Hm He. pose proof Hm as (_ & [Hp _] & _).
  pose proof (encode_publish_out_spec (E := unit) o (msg_header m id false)
    (bytes_payload (msg_payload m)) Hw (properties_wf_ok _ Hp)) as Hs. rewrite He in Hs.
  destruct Hs as (hb & slice & n & Hh & Hpay & -> & Henc). apply payload_taken in Hpay.
  rewrite Hpay in Henc |- *. eexists. split_and!; [|done|done|exact Henc].
  exists false, hb. split_and!; try done. destruct Henc as (Hw1 & _ & _ & Hfit & _).
  destruct (out_wf_bounds o Hw) as (H0 & H1 & H2). destruct Hw as (_ & Hcw & _ & _ & _ & _ & Hmax).
  unfold packet_bytes, retained_capacity in Hfit. rewrite zlen_cons, zlen_app in Hfit.
  pose proof (zlen_nonneg (varint_bytes (zlen (hb ++ msg_payload m)))).
  rewrite !zlen_app in *. lia.
Qed.

Lemma data_inv_outbound d o : data_inv d -> live_inv o -> data_inv (set_outbound d o).
Proof. by intros (_ & H) Ho. Qed.

(** An encoder leaves the packets and queues as they were. *)
Lemma peer_encoded d rt e o r :
  peer_rel (d, rt) e -> encoded_out (outbound d) o r -> peer_rel (set_outbound d o, rt) e.
Proof.
  intros Hr Hs. pose proof (encoded_live _ _ _ (peer_live _ _ Hr) Hs) as Hl.
  destruct Hs as (_ & (_ & Hc & Hrl & _) & Hv & _). destruct (pr_inv _ _ Hr) as [Hd Hq].
  apply (peer_frame _ _ _ Hr); try done; [|apply Hr].
  split; [by apply data_inv_outbound|done].
Qed.

Lemma peer_next_id d rt e d' i :
  peer_rel (d, rt) e -> next_packet_id d = (d', i) ->
  outbound d' = outbound d /\ is_u16 i /\ (i ∉ live_ids (outbound d)) /\ peer_rel (d', rt) e.
Proof.
  intros Hr He. pose proof (peer_live _ _ Hr) as Hl.
  destruct (pr_inv _ _ Hr) as [Hd Hq]. simpl in Hd, Hq.
  pose proof (next_packet_id_spec d (proj1 Hl) (proj1 (proj2 Hd))) as Hn. rewrite He in Hn.
  destruct Hn as (Hi & Hu & Hp & ->). split_and!; try done; [unfold is_u16; lia..|].
  apply (peer_frame _ _ _ Hr); try done; [|apply Hr].
  split; [|done]. destruct Hd as (H1 & _ & H2). exact (conj H1 (conj Hp H2)).
Qed.

(** An accepted message is a new publication with a free identifier. *)
Lemma accept_rel p e m p' accepted tag :
  peer_rel p e -> message_ok m -> msg_qos m <> QoS.AtMostOnce -> accept p m = (p', accepted) ->
  let i := snd (next_packet_id (fst p)) in
  if accepted then
    (i ∉ Qos2.ids (Duplex.pubs e)) /\ Duplex.rels e !! i = None /\
    peer_rel p' (Duplex.set_pubs e (Duplex.pubs e ++ [Qos2.mkPub i (tag, m) false]))
  else peer_rel p' e.
Proof.
  intros Hr0 Hm Hq0. destruct p as [d0 rt]. unfold accept. cbn [fst].
  destruct (next_packet_id d0) as [d i] eqn:Hid. cbn [snd].
  destruct (peer_next_id _ _ _ _ _ Hr0 Hid) as (Ho & Hu & Hi & Hr). rewrite <- Ho in Hi.
  clear Hr0 Hid Ho d0. pose proof (peer_live _ _ Hr) as Hl. pose proof Hm as (_ & [Hp _] & _).
  destruct (retained_full _); [by intros [= <- <-]|].
  destruct (negb _); [by intros [= <- <-]|].
  destruct (encode_publish_out _ _ _) as [o [len|er]] eqn:He.
  2: { pose proof (encode_publish_out_spec (E := unit) (outbound d) (msg_header m (Some i) false)
         (bytes_payload (msg_payload m)) (proj1 Hl) (properties_wf_ok _ Hp)) as Hs.
       rewrite He in Hs. intros [= <- <-]. by eapply peer_encoded. }
  destruct (encoded_carries m (Some i) _ _ _ (proj1 Hl) (conj Hu Hq0) Hm He)
    as (b & Hb & -> & Hne & Henc).
  pose proof (peer_encoded _ _ _ _ _ Hr Henc) as Hr2.
  unfold require_packet_size. destruct (exceeds (maximum_packet_size rt) (zlen b)) eqn:Hx;
    [by intros [= <- <-]|]. change (outbound (set_outbound d o)) with o.
  pose proof (retain_packet_spec (outbound d) o (publish_kind (msg_qos m)) i b Henc Hne) as Hs.
  destruct (retain_packet o (publish_kind (msg_qos m)) i (zlen b)) as [o2 [[]|er]] eqn:Hret;
    intros [= <- <-]; [|by destruct Hs as (-> & _)].
  destruct Hs as (_ & Hv2 & Hc2 & Hrl2 & _).
  destruct (retained_live _ _ _ _ _ _ Hl Henc Hne Hi Hret) as (Hl2 & _).
  split_and!; [by apply (peer_live_ids _ _ i Hr)..|].
  destruct (pr_inv _ _ Hr2) as [Hd Hq].
  constructor; unfold peer_out; simpl; rewrite ?Hc2, ?Hrl2; try apply Hr.
  - split; [exact (data_inv_outbound _ _ Hd Hl2)|by apply quota_spent].
  - rewrite Hv2. apply Forall2_app; [apply Hr|].
    constructor; [|constructor]. unfold pub_rel. simpl. by split_and!.
Qed.

(** A message sent directly leaves nothing behind. *)
Lemma send_direct_rel p e m p' sent :
  peer_rel p e -> message_ok m -> msg_qos m = QoS.AtMostOnce -> send_direct p m = (p', sent) ->
  peer_rel p' e /\ match sent with Some b => carries b None m | None => True end.
Proof.
  intros Hr Hm Hq. destruct p as [d rt]. unfold send_direct. case_match; [by intros [= <- <-]|].
  pose proof Hm as (_ & [Hp _] & _). pose proof (properties_wf_ok _ Hp) as Hok.
  pose proof (peer_live _ _ Hr) as [Hw _]. unfold peer_out in *. cbn [fst snd] in *.
  set (header := msg_header m None false).
  assert (zlen (scratch_space (outbound d)) <= MQTT_VARINT_MAX) as Hmax.
  { destruct (out_wf_bounds _ Hw) as (H0 & H1 & H2). destruct Hw as (_ & _ & _ & _ & _ & _ & Hmax).
    unfold scratch_space. rewrite zlen_zdrop by lia. lia. }
  pose proof (encode_publish_cases (scratch_space (outbound d)) _ _ (publish_header_fixed_header header)
    (bytes_payload (msg_payload m) : ToPayload unit) (implements_publish_header header Hok)
    (enc_publish_header_pos header) Hmax) as Hc.
  unfold encode_publish.
  destruct (encode_publish_with_offset _ _ _ _) as [slice r]. destruct Hc as [Hlen Hc].
  pose proof (peer_encoded _ _ _ _ _ Hr (scratch_encoded _ slice Hw Hlen)) as Hr'.
  destruct r as [[off b]|er]; [|by intros [= <- <-]].
  destruct Hc as (hb & sl & n & Hh & _ & Hpay%payload_taken & Hb & Hoff & Hend & _).
  cbv zeta. destruct (require_packet_size _ _); intros [= <- <-]; [|done]. split; [done|].
  rewrite Hpay in Hb. exists false, hb. split_and!; try done.
  rewrite Hb in Hend. unfold packet_bytes in Hend. rewrite zlen_cons, zlen_app in Hend.
  pose proof (zlen_nonneg (varint_bytes (zlen (hb ++ msg_payload m)))).
  rewrite !zlen_app in *. lia.
Qed.

(** ** Writing *)

Lemma writable_whole b x : whole (snd x) -> writable b x = negb b && negb (sentb (snd x)).
Proof. unfold writable. destruct x as [bs [w| |]], b; simpl; try done; by intros ->. Qed.

Lemma view_alter buf off l i e st :
  l !! i = Some e ->
  view_from buf off (<[i := set_rp_state e st]> l) =
  alter (fun x => mkEntry (entry_kind x) (entry_id x) (entry_bytes x) st) i (view_from buf off l).
Proof.
  revert off i. induction l as [|x l IH]; intros off [|i] Hi; simpl in *; try done.
  - by injection Hi as ->.
  - change (alter ?f (S i) (?y :: ?k)) with (y :: alter f i k). by rewrite (IH _ i Hi).
Qed.

Lemma send_first_at (l : list pub) i q :
  l !! i = Some q -> Qos2.pub_sent q = false ->
  Forall (fun p => Qos2.pub_sent p = true) (take i l) ->
  Qos2.send_first l = Some (q, alter Qos2.written i l).
Proof.
  revert i. induction l as [|p l IH]; intros [|i] Hi Hq Hl; simpl in *; try done.
  - injection Hi as ->. by rewrite Hq.
  - inversion Hl; subst. by rewrite H1, (IH i).
Qed.

Lemma releases_write l i x st :
  NoDup (map pr_packet_id l) -> l !! i = Some x ->
  releases (<[i := set_pr_state x st]> l) = <[pr_packet_id x := sentb st]> (releases l).
Proof.
  intros Hn Hi. pose proof (take_drop_middle _ _ _ Hi) as Hl.
  pose proof (lookup_lt_Some _ _ _ Hi) as Hlt.
  rewrite insert_take_drop by done. set (l1 := take i l) in *. set (l2 := drop (S i) l) in *.
  assert (l ≡ₚ x :: l1 ++ l2) as Hp by (rewrite Permutation_middle; by rewrite Hl).
  rewrite (releases_perm l _ Hn Hp).
  rewrite (releases_perm (l1 ++ set_pr_state x st :: l2) (set_pr_state x st :: l1 ++ l2)).
  - unfold releases. simpl. by rewrite insert_insert_eq.
  - rewrite <- Hl, map_app in Hn. by rewrite map_app.
  - by rewrite Permutation_middle.
Qed.

Lemma release_unsent_written p e x i :
  peer_rel p e -> pending_release (peer_out p) !! i = Some x -> sentb (pr_state x) = false ->
  x = mkPendingRelease (pr_packet_id x) ReasonCode.Success (Write 0) /\
  is_u16 (pr_packet_id x) /\ Duplex.rels e !! pr_packet_id x = Some false.
Proof.
  intros Hr Hi Hs. pose proof (pr_release _ _ Hr) as Hok.
  rewrite Forall_lookup in Hok. destruct (Hok _ _ Hi) as (Hreason & Hu & Hw).
  split_and!; try done.
  - destruct x as [id c [w| |]]; simpl in *; [|done..]. by subst.
  - rewrite <- (pr_rels _ _ Hr). apply releases_lookup; [apply (peer_unique _ _ Hr)|].
    exists x. split_and!; try done. by apply list_elem_of_lookup_2 in Hi.
Qed.

(** Nothing is in progress: a scan finds the acknowledgement if it is not written, or else
    the first unwritten release, or else the first unwritten publication. *)
Lemma peer_next_step p e :
  peer_rel p e ->
  next_step (peer_out p) =
  match Duplex.pending e, pending_control (peer_out p) with
  | Some (_, false), c :: _ => Some (ControlOut (mkControlStep 0 (pc_action c) 0))
  | _, _ =>
      match next_release false (pending_release (peer_out p)) with
      | Some s => Some (ReleaseOut s)
      | None => option_map RetainedOut (next_retained false 0 (retained (peer_out p)))
      end
  end.
Proof.
  intros Hr. unfold next_step, next_step_pass.
  assert (next_release true (pending_release (peer_out p)) = None) as H1.
  { pose proof (next_release_spec true (pending_release (peer_out p))) as H1.
    destruct (next_release true _) as [s|]; [|done]. destruct H1 as (i & Hi & Hw & _).
    pose proof (pr_release _ _ Hr) as Hok. rewrite Forall_lookup in Hok.
    destruct (Hok _ _ Hi) as (_ & _ & Hz). simpl in Hz. by rewrite Hz in Hw. }
  assert (next_retained true 0 (retained (peer_out p)) = None) as H2.
  { pose proof (next_retained_spec true (out_buf (peer_out p)) 0 (retained (peer_out p))) as H2.
    destruct (next_retained true 0 _) as [s|]; [|done].
    destruct H2 as (i & x & _ & _ & _ & Hst & _ & Hw & _ & Hv).
    destruct (Forall2_lookup_l _ _ _ _ _ (pr_pubs _ _ Hr) Hv) as (q & _ & _ & _ & _ & Hz & _).
    simpl in Hz. rewrite Hst in Hz. simpl in Hz. by rewrite Hz in Hw. }
  rewrite H1, H2. pose proof (pr_pending _ _ Hr) as Hp.
  destruct (Duplex.pending e) as [[a []]|]; [destruct Hp as (act & -> & _)..|]; [|done|];
    [|simpl in Hp; rewrite Hp]; simpl;
    destruct (next_release false _); try done; by destruct (next_retained false 0 _).
Qed.

Lemma set_written_all (b : bytes) : set_written (zlen b) (zlen b) = Flush.
Proof. unfold set_written. by rewrite Z.leb_refl. Qed.

Lemma session_inv_out p o : session_inv p -> live_inv o -> session_inv (set_peer_out p o).
Proof. intros [Hd Hq] Ho. split; [by apply data_inv_outbound|done]. Qed.

(** The invariant after a packet was written completely. *)
Lemma written_inv p s :
  session_inv p -> next_step (peer_out p) = Some s ->
  session_inv (set_peer_out p (record_write (peer_out p) s (zlen (step_packet (peer_out p) s)))).
Proof.
  intros Hp Hs. apply session_inv_out; [done|]. destruct Hp as [(Hl & _) _]. fold (peer_out p) in Hl.
  destruct (next_step_split _ _ (proj1 Hl) (proj2 (proj2 Hl)) Hs) as (_ & _ & _ & _ & _ & Hw & _).
  apply record_write_live; [done|done|lia].
Qed.

(** The acknowledgement is written. *)
Lemma write_ack_rel p e a act :
  peer_rel p e -> Duplex.pending e = Some (a, false) ->
  pending_control (peer_out p) = [mkPendingControl act (Write 0)] -> action_rel act a ->
  let s := ControlOut (mkControlStep 0 act 0) in
  next_step (peer_out p) = Some s ->
  peer_rel (set_peer_out p (record_write (peer_out p) s (zlen (step_packet (peer_out p) s))))
    (Duplex.set_pending e (Some (a, true))).
Proof.
  intros Hr Hpd Hc Ha s Hn. pose proof (written_inv _ _ (pr_inv _ _ Hr) Hn) as Hinv. revert Hinv.
  unfold record_write, set_control_written, s. cbn [step_packet cs_action cs_index].
  rewrite Hc. simpl. rewrite set_written_all. intros Hinv.
  constructor; try done; try apply Hr. by exists act.
Qed.

Lemma write_release_rel p e s :
  peer_rel p e -> next_step (peer_out p) = Some (ReleaseOut s) ->
  next_release false (pending_release (peer_out p)) = Some s ->
  exists i, Duplex.rels e !! i = Some false /\ is_u16 i /\
    step_packet (peer_out p) (ReleaseOut s) = release_packet i ReasonCode.Success /\
    peer_rel (set_peer_out p (record_write (peer_out p) (ReleaseOut s)
      (zlen (step_packet (peer_out p) (ReleaseOut s)))))
      (Duplex.set_rels e (<[i := true]> (Duplex.rels e))).
Proof.
  intros Hr Hs Hn. pose proof (written_inv _ _ (pr_inv _ _ Hr) Hs) as Hinv.
  pose proof (next_release_spec false (pending_release (peer_out p))) as H1. rewrite Hn in H1.
  destruct H1 as (k & Hk & _ & _).
  destruct (release_unsent_written _ _ _ _ Hr Hk eq_refl) as (Hx & Hu & Hf). simpl in Hx, Hu, Hf.
  injection Hx as Hc Hw. exists (ls_packet_id s). split_and!; try done; [simpl; by rewrite Hc|].
  destruct (peer_unique _ _ Hr) as [_ Hnd]. revert Hinv. unfold record_write.
  cbn [step_packet]. unfold set_release_written. rewrite set_written_all.
  pose proof (update_first_unique pr_packet_id (fun e => set_pr_state e Flush) _ _ _ Hnd Hk) as Hup.
  simpl in Hup. rewrite Hup. simpl. intros Hinv.
  constructor; try done; try apply Hr; unfold peer_out; simpl; fold (peer_out p).
  - apply Forall_insert; [apply Hr|]. by split_and!.
  - rewrite <- (pr_rels _ _ Hr). rewrite (releases_write _ _ _ _ Hnd Hk). done.
Qed.

(** Publications with nothing to write are written. *)
Lemma idle_sent v l :
  Forall2 pub_rel v l -> Forall (fun e => writable false (entry_item e) = false) v ->
  Forall (fun p => Qos2.pub_sent p = true) l.
Proof.
  induction 1 as [|e q v l (_ & _ & _ & Hw & Hs) _ IH]; [constructor|].
  intros [He Hv]%Forall_cons. constructor; [|auto].
  rewrite (writable_whole false (entry_item e) Hw) in He. simpl in He. rewrite <- Hs.
  by apply negb_false_iff in He.
Qed.

Lemma write_pub_rel p e s :
  peer_rel p e -> next_step (peer_out p) = Some (RetainedOut s) ->
  next_retained false 0 (retained (peer_out p)) = Some s ->
  exists q l, Qos2.send_first (Duplex.pubs e) = Some (q, l) /\
    carries (step_packet (peer_out p) (RetainedOut s)) (Some (Qos2.pub_id q)) (Qos2.pub_msg q).2 /\
    peer_rel (set_peer_out p (record_write (peer_out p) (RetainedOut s)
      (zlen (step_packet (peer_out p) (RetainedOut s))))) (Duplex.set_pubs e l).
Proof.
  intros Hr Hs Hn. pose proof (written_inv _ _ (pr_inv _ _ Hr) Hs) as Hinv.
  pose proof (next_retained_spec false (out_buf (peer_out p)) 0 (retained (peer_out p))) as H1.
  rewrite Hn in H1. fold (view (peer_out p)) in H1.
  destruct H1 as (k & x & Hk & Hid & Hlen & Hst & Hoff & _ & Hbefore & Hv).
  destruct (Forall2_lookup_l _ _ _ _ _ (pr_pubs _ _ Hr) Hv) as (q & Hq & Hrel).
  pose proof Hrel as (_ & _ & Hb & Hw & Hsent). simpl in Hb, Hw, Hsent.
  rewrite Hst in Hw, Hsent. simpl in Hsent.
  exists q, (alter Qos2.written k (Duplex.pubs e)). split_and!; try done.
  - apply send_first_at; try done.
    apply (idle_sent (take k (view (peer_out p)))); [apply Forall2_take, Hr|done].
  - destruct (peer_unique _ _ Hr) as [Hnd _]. revert Hinv. unfold record_write.
    unfold set_retained_written. rewrite set_written_all, <- Hid.
    pose proof (update_first_unique rp_packet_id (fun e => set_rp_state e Flush) _ _ _ Hnd Hk) as Hup.
    rewrite Hup. simpl. intros Hinv.
    constructor; try done; try apply Hr. unfold peer_out, view. simpl. fold (peer_out p).
    rewrite (view_alter _ _ _ _ _ _ Hk). fold (view (peer_out p)).
    apply Forall2_alter; [apply Hr|]. intros y z _ _ (H1 & H2 & H3 & H4 & H5).
    unfold pub_rel. simpl. by split_and!.
Qed.

(** An acknowledgement fits the peer. *)
Lemma action_fits rt act a :
  acks_fit rt -> action_rel act a ->
  exceeds (maximum_packet_size rt) (zlen (control_packet act)) = false.
Proof.
  intros Hfit Ha. destruct (control_packet_ok act) as [_ ->].
  destruct a; destruct Ha as [Ha _]; [destruct Ha as [c Ha]| |destruct Ha as [c Ha]]; by subst.
Qed.

(** A scan that finds no release and no publication: all are written. *)
Lemma nothing_to_write p e :
  peer_rel p e -> next_release false (pending_release (peer_out p)) = None ->
  next_retained false 0 (retained (peer_out p)) = None ->
  (forall i, Duplex.rels e !! i <> Some false) /\ Qos2.send_first (Duplex.pubs e) = None.
Proof.
  intros Hr Hrel Hret. pose proof (next_release_spec false (pending_release (peer_out p))) as H1.
  pose proof (next_retained_spec false (out_buf (peer_out p)) 0 (retained (peer_out p))) as H2.
  rewrite Hrel in H1. rewrite Hret in H2. fold (view (peer_out p)) in H2.
  pose proof (idle_sent _ _ (pr_pubs _ _ Hr) H2) as Hsent. split.
  - intros i Hi. rewrite <- (pr_rels _ _ Hr) in Hi.
    apply releases_lookup in Hi as (x & Hx & _ & Hs); [|apply (peer_unique _ _ Hr)].
    rewrite Forall_forall in H1. specialize (H1 _ Hx). pose proof (pr_release _ _ Hr) as Hok.
    rewrite Forall_forall in Hok. destruct (Hok _ Hx) as (_ & _ & Hw).
    rewrite (writable_whole false (release_item x) Hw) in H1. simpl in H1. by rewrite Hs in H1.
  - destruct (Qos2.send_first (Duplex.pubs e)) as [[q l]|] eqn:E; [|done].
    apply Qos2.send_first_spec in E as (l1 & l2 & E & _ & Hq & _). rewrite E in Hsent.
    apply Forall_app in Hsent as [_ Hsent]. inversion Hsent; congruence.
Qed.

(** Every retained packet fits the peer's maximum packet size. *)
Definition fits (limit : option Z) (d : SessionData) : Prop :=
  Forall (fun e => exceeds limit (rp_len e) = false) (retained (outbound d)).
Definition replays_fit (p : Peer) : Prop := fits (maximum_packet_size (snd p)) (fst p).

Lemma replay_fits p e s :
  peer_rel p e -> replays_fit p -> next_retained false 0 (retained (peer_out p)) = Some s ->
  exceeds (maximum_packet_size (snd p)) (zlen (step_packet (peer_out p) (RetainedOut s))) = false.
Proof.
  intros Hr Hall Hs. pose proof (next_retained_spec false (out_buf (peer_out p)) 0 (retained (peer_out p))) as H1.
  rewrite Hs in H1. destruct H1 as (i & x & Hi & _ & Hlen & _).
  pose proof (proj1 (proj1 (peer_live _ _ Hr))) as Hpos. unfold replays_fit, fits in Hall.
  rewrite Forall_lookup in Hpos, Hall. specialize (Hpos _ _ Hi). specialize (Hall _ _ Hi).
  simpl in Hpos, Hall. unfold exceeds in *. destruct (maximum_packet_size _) as [limit|]; [|done].
  rewrite Z.ltb_ge in *. cbn [step_packet]. unfold retained_packet, zslice, ztake.
  unfold zlen. rewrite length_take. lia.
Qed.

(** Writing, flushing and receiving retain no new packet and leave the peer's limit. *)
Lemma record_write_fits limit d s w :
  fits limit d -> fits limit (set_outbound d (record_write (outbound d) s w)).
Proof.
  unfold fits. intros Hd. cbn [outbound set_outbound].
  destruct (record_write_frame (outbound d) s w) as (_ & Hl & _).
  apply (List.Forall_map rp_len (fun n => exceeds limit n = false)). rewrite Hl.
  by apply List.Forall_map.
Qed.

Lemma complete_flush_fits limit d :
  fits limit d -> fits limit (set_outbound d (complete_flush (outbound d))).
Proof. unfold fits. intros Hd. simpl. apply List.Forall_map. by eapply Forall_impl. Qed.

Lemma handle_fits limit packet p p' r :
  fits limit (fst p) -> handle_packet packet p = (p', r) -> fits limit (fst p').
Proof.
  intros Hp He. pose proof (fun h1 h2 h3 h4 h5 => hp_keeps_handle (fits limit) h1 h2 h3 h4 h5 packet p Hp) as Hk.
  rewrite He in Hk. apply Hk; clear; unfold fits; intros d.
  - intros a Hd. unfold queue_control. by destruct (vec_push _ _ _).
  - done.
  - intros kind id Hd. unfold ack_packet. destruct (position _ _); [|done]. simpl. by apply Forall_delete.
  - intros id Hd. unfold ack_release. by destruct (position _ _).
  - intros id c Hd. unfold queue_release. by destruct (vec_push _ _ _).
Qed.

Definition keeps_limit {A} (m : HP A) : Prop :=
  forall p, maximum_packet_size (snd (fst (m p))) = maximum_packet_size (snd p).

Lemma keeps_limit_bind {A B} (m : HP A) (k : A -> HP B) :
  keeps_limit m -> (forall a, keeps_limit (k a)) -> keeps_limit (bind m k).
Proof.
  intros Hm Hk p. specialize (Hm p). unfold bind. destruct (m p) as [p' [a|er]]; [|done].
  simpl in *. by rewrite Hk.
Qed.

Lemma keeps_limit_codes codes : keeps_limit (check_codes codes).
Proof. induction codes as [|c codes IH]; [done|]. by apply keeps_limit_bind. Qed.

Lemma keeps_limit_outbound {A} f g :
  keeps_limit (on_outbound (A := A) f) /\ keeps_limit (try_outbound g).
Proof. split; intros [d rt]; unfold on_outbound, try_outbound; [by destruct (f _)|by destruct (g _)]. Qed.

Lemma keeps_limit_restore {A} (m : HP A) :
  keeps_limit m -> keeps_limit (let! rt := runtime in do! set_runtime (restore_quota rt) in m).
Proof. intros Hm p. unfold bind, runtime, set_runtime. simpl. by rewrite Hm. Qed.

Lemma keeps_limit_action {A} action (m : HP A) :
  keeps_limit m ->
  keeps_limit (let! rt := runtime in
               do! try (check_control_packet_size (maximum_packet_size rt) action) in
               do! try_outbound (fun o => queue_control o action) in m).
Proof.
  intros Hm. apply keeps_limit_bind; [done|]. intros rt. apply keeps_limit_bind; [done|]. intros _.
  apply keeps_limit_bind; [|done]. apply (keeps_limit_outbound (A := unit) (fun o => (o, tt))).
Qed.

Lemma keeps_limit_on {A B} (f : Outbound -> Outbound * A) (k : A -> HP B) :
  (forall a, keeps_limit (k a)) -> keeps_limit (bind (on_outbound f) k).
Proof. apply keeps_limit_bind, (keeps_limit_outbound f (fun o => (o, Ok tt))). Qed.

Lemma finish_keeps_limit rec b : keeps_limit (finish_pubrec rec b).
Proof.
  apply keeps_limit_bind; [done|]. intros _. destruct b; [|done].
  apply keeps_limit_bind; [done|]. intros rt. apply keeps_limit_bind; [done|]. intros _.
  apply keeps_limit_bind; [|done]. apply (keeps_limit_outbound (A := unit) (fun o => (o, tt))).
Qed.

Lemma publish_keeps_limit info : keeps_limit (handle_publish info).
Proof.
  unfold handle_publish. destruct (publish_qos_level info); [done|..];
    (apply keeps_limit_bind; [done|]; intros id; apply keeps_limit_bind; [done|]; intros d).
  - by apply keeps_limit_action.
  - apply keeps_limit_bind; [by destruct (negb _); [destruct (vec_push _ _ _)|]|]. intros r.
    apply keeps_limit_action. by destruct (_ || _).
Qed.

Lemma handle_keeps_limit packet : keeps_limit (handle_packet packet).
Proof.
  destruct packet as [p|info|ack|ack|ack|rel|rec|comp|p|]; simpl; try done.
  - apply publish_keeps_limit.
  - apply keeps_limit_on. intros []; [|done]. by apply keeps_limit_restore, keeps_limit_bind.
  - apply keeps_limit_on. intros []; [|done]. by apply keeps_limit_bind; [apply keeps_limit_codes|].
  - apply keeps_limit_on. intros []; [|done]. by apply keeps_limit_bind; [apply keeps_limit_codes|].
  - apply keeps_limit_bind; [done|]. intros d. apply keeps_limit_bind; [by destruct (position _ _)|].
    intros r. by apply keeps_limit_action.
  - apply keeps_limit_on. intros [].
    + apply keeps_limit_restore, finish_keeps_limit.
    + apply keeps_limit_bind; [done|]. intros d.
      destruct (has_pending_release _ _); [apply finish_keeps_limit|done].
  - apply keeps_limit_on. intros []; [|done]. by apply keeps_limit_bind.
Qed.


(** What a session writes is what a side of the machine sends; it writes nothing where
    nothing is to be written, or where the next packet is too long for the peer. *)
Lemma transmit_rel p e :
  peer_rel p e ->
  match transmit p with
  | Some (p', b) =>
      (exists a, Duplex.pending e = Some (a, false) /\ wire_rel b (Duplex.Reply a) /\
         peer_rel p' (Duplex.set_pending e (Some (a, true)))) \/
      (exists i, Duplex.rels e !! i = Some false /\ wire_rel b (Duplex.Rel i) /\
         peer_rel p' (Duplex.set_rels e (<[i := true]> (Duplex.rels e)))) \/
      (exists q l, Qos2.send_first (Duplex.pubs e) = Some (q, l) /\
         wire_rel b (Duplex.Pub (Qos2.pub_id q) (Qos2.pub_msg q)) /\
         peer_rel p' (Duplex.set_pubs e l))
  | None =>
      replays_fit p ->
      (forall a, Duplex.pending e <> Some (a, false)) /\
      (forall i, Duplex.rels e !! i <> Some false) /\ Qos2.send_first (Duplex.pubs e) = None
  end.
Proof.
  intros Hr. unfold transmit. pose proof (peer_next_step _ _ Hr) as Hn.
  pose proof (pr_acks _ _ Hr) as Hfit.
  pose proof (pr_pending _ _ Hr) as Hp.
  assert ((exists a, Duplex.pending e = Some (a, false)) \/
          forall a, Duplex.pending e <> Some (a, false)) as [[a Ha]|Hnone]
    by (destruct (Duplex.pending e) as [[a []]|]; naive_solver).
  { rewrite Ha in Hp, Hn. destruct Hp as (act & Hc & Hact). rewrite Hc in Hn. rewrite Hn.
    cbv zeta. cbn [step_packet cs_action pc_action]. rewrite (action_fits _ _ _ Hfit Hact). left.
    exists a. split_and!; [done|by exists act|]. by apply (write_ack_rel p e a act). }
  assert (next_step (peer_out p) =
    match next_release false (pending_release (peer_out p)) with
    | Some s => Some (ReleaseOut s)
    | None => option_map RetainedOut (next_retained false 0 (retained (peer_out p)))
    end) as Hn'.
  { rewrite Hn. destruct (Duplex.pending e) as [[a []]|]; try done. by destruct (Hnone a). }
  clear Hn. destruct (next_release false _) as [r|] eqn:Hrel.
  - destruct (write_release_rel _ _ _ Hr Hn' Hrel) as (i & Hi & Hu & Hb & Hr').
    rewrite Hn'. cbv zeta. rewrite Hb in *. destruct (release_packet_ok i ReasonCode.Success) as [_ ->].
    rewrite Hfit. right. left. exists i. by split_and!.
  - destruct (next_retained false 0 _) as [r|] eqn:Hret; rewrite Hn'; simpl option_map; cbv iota zeta.
    + destruct (write_pub_rel _ _ _ Hr Hn' Hret) as (q & l & Hq & Hb & Hr').
      destruct (exceeds _ _) eqn:Hx; [|right; right; by exists q, l].
      intros Hall. by rewrite (replay_fits p e _ Hr Hall Hret) in Hx.
    + intros _. split; [done|]. by apply (nothing_to_write p).
Qed.

(** ** Flushing and replay *)

Lemma flushed_same st : whole st -> whole (flushed st) /\ sentb (flushed st) = sentb st.
Proof. by destruct st. Qed.

(** A flush completes the acknowledgement if it is written. *)
Definition flushed_ack (p : option (Duplex.ack * bool)) : option (Duplex.ack * bool) :=
  match p with Some (_, true) => None | _ => p end.

Lemma flush_rel p e :
  peer_rel p e ->
  peer_rel (set_peer_out p (complete_flush (peer_out p)))
    (Duplex.set_pending e (flushed_ack (Duplex.pending e))).
Proof.
  intros Hr. pose proof (peer_live _ _ Hr) as Hl.
  destruct (complete_flush_live _ Hl) as [Hl' _].
  pose proof (session_inv_out _ _ (pr_inv _ _ Hr) Hl') as Hinv.
  constructor; try done; try apply Hr; unfold peer_out in *; simpl.
  - unfold view. simpl. rewrite (view_set_state _ _ _ flushed). fold (view (outbound (fst p))).
    apply Forall2_fmap_l. eapply Forall2_impl; [apply Hr|].
    intros x q (H1 & H2 & H3 & H4 & H5). destruct (flushed_same _ H4).
    unfold pub_rel. simpl. split_and!; try done. congruence.
  - apply List.Forall_map. eapply Forall_impl; [apply Hr|]. intros r (H1 & H2 & H3).
    destruct (flushed_same _ H3). by split_and!.
  - rewrite <- (pr_rels _ _ Hr). unfold releases. f_equal. fold (peer_out p).
    change (map ?f ?l) with (f <$> l). rewrite <- list_fmap_compose. apply list_fmap_ext.
    intros k x _. unfold release_key. simpl. by destruct (pr_state x).
  - fold (peer_out p). pose proof (pr_pending _ _ Hr) as Hp.
    destruct (Duplex.pending e) as [[a []]|]; [destruct Hp as (act & -> & Ha)..|]; simpl.
    + done.
    + by exists act.
    + simpl in Hp. by rewrite Hp.
Qed.

(** Without something to flush no written acknowledgement is pending. *)
Lemma clean_ack p e a : peer_rel p e -> dirty (peer_out p) = false -> Duplex.pending e <> Some (a, true).
Proof.
  intros Hr Hd Ha. pose proof (pr_pending _ _ Hr) as Hp. rewrite Ha in Hp.
  destruct Hp as (act & Hc & _). unfold dirty in Hd. rewrite Hc in Hd. done.
Qed.

(** A replayed publish is marked as a duplicate. *)
Lemma replay_publish x qos :
  entry_kind x = publish_kind qos ->
  replay_entry x = mkEntry (entry_kind x) (entry_id x) (mark_first (entry_bytes x)) (Write 0).
Proof.
  intros Hk. unfold replay_entry, mark_entry. rewrite Hk. unfold publish_kind. by case_bool_decide.
Qed.

Lemma resume_rel p e rt :
  peer_rel p e -> quota_inv rt -> acks_fit rt ->
  peer_rel (resume p rt) (Duplex.resend e).
Proof.
  intros Hr Hq Hm. pose proof (peer_live _ _ Hr) as Hl.
  destruct (arm_replay_live _ Hl) as [Hl' _].
  destruct (arm_replay_spec _ (proj1 Hl)) as (_ & Hv & Hc & Hrl & _).
  destruct (pr_inv _ _ Hr) as [Hd _].
  constructor; try done; unfold resume, peer_out in *; simpl in *; try apply Hr.
  - split; [by apply data_inv_outbound|done].
  - rewrite Hv. apply Forall2_fmap. eapply Forall2_impl; [apply Hr|].
    intros x q (H1 & H2 & H3 & H4 & H5). rewrite (replay_publish _ _ H1). unfold pub_rel. simpl.
    split_and!; try done. by apply carries_mark.
  - rewrite Hrl. apply List.Forall_map. eapply Forall_impl; [apply Hr|].
    intros r (H1 & H2 & H3). by split_and!.
  - rewrite Hrl, <- (pr_rels _ _ Hr). unfold releases. rewrite <- list_to_map_fmap. f_equal.
    fold (peer_out p). change (map ?f ?l) with (f <$> l). rewrite <- !list_fmap_compose. done.
  - rewrite Hc. fold (peer_out p). pose proof (pr_pending _ _ Hr) as Hp.
    destruct (Duplex.pending e) as [[a b]|]; simpl in *; [|by rewrite Hp].
    destruct Hp as (act & -> & Ha). by exists act.
Qed.

(** ** Acknowledgements *)

Lemma handled_inv p packet p' r :
  session_inv p -> handle_packet packet p = (p', r) -> session_inv p'.
Proof. intros Hp He. pose proof (hp_safe_handle_packet packet p Hp) as Hs. rewrite He in Hs. apply Hs. Qed.

(** The entry an acknowledgement names, on both sides. *)
Lemma ack_position v l i k b :
  Forall2 pub_rel v l -> NoDup (Qos2.ids l) -> position (is_entry (kind_of b) i) v = Some k ->
  i ∈ Qos2.ids (Duplex.pubs_of exactly b l) /\
  Forall2 pub_rel (delete k v) (Duplex.settle exactly b i l).
Proof.
  intros Hv Hn Hp. apply position_some in Hp as (v1 & e & v2 & -> & <- & He & _).
  apply Forall2_app_inv_l in Hv as (l1 & l2' & H1 & H2 & ->).
  apply Forall2_cons_inv_l in H2 as (q & l2 & Hq & H2 & ->).
  apply andb_prop in He as [Hk%bool_decide_eq_true He%Z.eqb_eq].
  destruct Hq as (Hkind & Hid & _).
  assert (i = Qos2.pub_id q) as -> by congruence.
  assert (exactly (Qos2.pub_msg q).2 = b) as Hb.
  { apply kind_exactly. congruence. }
  rewrite Qos2.ids_app in Hn. apply NoDup_app in Hn as (_ & Hn1 & Hn2).
  apply NoDup_cons in Hn2 as [Hn2 _]. split.
  - unfold Duplex.pubs_of. rewrite filter_app, filter_cons_True by done. rewrite Qos2.ids_app. set_solver.
  - unfold Duplex.settle. rewrite delete_middle, filter_app, filter_cons_False by tauto.
    rewrite !filter_every; [by apply Forall2_app|..]; intros x Hx%(list_elem_of_fmap_2 Qos2.pub_id) [Hi _].
    + apply Hn2. by rewrite <- Hi.
    + apply (Hn1 (Qos2.pub_id x)); [done|]. rewrite Hi. set_solver.
Qed.

Lemma ack_no_position v l i b :
  Forall2 pub_rel v l -> position (is_entry (kind_of b) i) v = None ->
  (i ∉ Qos2.ids (Duplex.pubs_of exactly b l)) /\ Duplex.settle exactly b i l = l.
Proof.
  intros Hv Hp. apply position_none in Hp. rewrite Forall_forall in Hp.
  assert (forall q, q ∈ l -> ~ (Qos2.pub_id q = i /\ exactly (Qos2.pub_msg q).2 = b)) as Hno.
  { intros q [k Hq]%list_elem_of_lookup [<- <-].
    destruct (Forall2_lookup_r _ _ _ _ _ Hv Hq) as (e & He & Hk & Hi & _).
    apply list_elem_of_lookup_2, Hp in He. unfold is_entry in He.
    rewrite (proj2 (kind_exactly _ _) eq_refl) in Hk.
    by rewrite Hk, Hi, bool_decide_true, Z.eqb_refl in He. }
  split; [|by apply filter_every].
  intros (q & -> & [Hq1 Hq2]%list_elem_of_filter)%list_elem_of_fmap. by apply (Hno q).
Qed.

(** Removing the acknowledged packet, or nothing if there is none. *)
Lemma ack_rel d rt e b i o found :
  peer_rel (d, rt) e -> ack_packet (outbound d) (kind_of b) i = (o, found) ->
  found = bool_decide (i ∈ Qos2.ids (Duplex.pubs_of exactly b (Duplex.pubs e))) /\
  Forall2 pub_rel (view o) (Duplex.settle exactly b i (Duplex.pubs e)) /\
  pending_control o = pending_control (outbound d) /\
  pending_release o = pending_release (outbound d) /\
  (found = true -> live_inv o /\ i ∉ live_ids o) /\ (found = false -> o = outbound d).
Proof.
  intros Hr Ha. pose proof (peer_live _ _ Hr) as Hl. unfold peer_out in Hl. simpl in Hl.
  pose proof (ack_packet_view (outbound d) (kind_of b) i (proj1 Hl)) as Hv.
  destruct (position _ (view (outbound d))) as [k|] eqn:Hk.
  - destruct Hv as (o' & Ha' & _ & Hv & _ & _ & Hc & Hrl & _). rewrite Ha in Ha'.
    injection Ha' as <- ->.
    destruct (ack_position _ _ _ _ _ (pr_pubs _ _ Hr) (peer_ids_unique _ _ Hr) Hk) as [Hi Hp].
    destruct (ack_packet_inv _ _ _ _ _ Hl Ha) as (Hlo & _ & _ & Hids & _).
    destruct (Hids eq_refl) as [_ Hperm].
    split_and!; try done; [by rewrite bool_decide_true|by rewrite Hv|]. intros _. split; [done|].
    pose proof (proj1 (proj2 Hl)) as Hn. rewrite Hperm in Hn. by apply NoDup_cons in Hn as [? _].
  - destruct (ack_no_position _ _ _ _ (pr_pubs _ _ Hr) Hk) as [Hi Hsame].
    rewrite Ha in Hv. injection Hv as -> ->.
    split_and!; try done; [by rewrite bool_decide_false|]. rewrite Hsame. apply Hr.
Qed.

Lemma releases_snoc l i c :
  NoDup (map pr_packet_id l) -> i ∉ map pr_packet_id l ->
  releases (l ++ [mkPendingRelease i c (Write 0)]) = <[i := false]> (releases l).
Proof.
  intros Hn Hi. rewrite (releases_perm _ (mkPendingRelease i c (Write 0) :: l));
    [done| |by rewrite Permutation_app_comm].
  rewrite map_app. apply NoDup_app. split_and!; [done| |apply NoDup_singleton].
  by intros x Hx ->%list_elem_of_singleton.
Qed.

Lemma size_ok rt i :
  acks_fit rt -> check_pubrel_size (maximum_packet_size rt) i ReasonCode.Success = Ok tt.
Proof.
  intros Hfit. unfold check_pubrel_size. destruct (release_packet_ok i ReasonCode.Success) as [He Hz].
  rewrite He. unfold require_packet_size_of. by rewrite Hz, Hfit.
Qed.

(** A PUBACK, whatever its reason, settles the QoS 1 publication it names. *)
Lemma receive_ack p e i c :
  peer_rel p e -> is_u16 i ->
  exists p', receive p (control_packet (ControlAction.PubAck i c)) = Some (p', None) /\
    peer_rel p' (Duplex.take exactly (Duplex.Reply (Duplex.Ack i)) e).
Proof.
  intros Hr Hu. unfold receive. destruct (ack_decodes i c Hu) as (_ & -> & _ & _).
  destruct (handle_packet _ p) as [p' r] eqn:Hh. exists p'. split; [by destruct r|].
  pose proof (handled_inv _ _ _ _ (pr_inv _ _ Hr) Hh) as Hinv. destruct p as [d rt].
  unfold handle_packet, handle_puback, bind, on_outbound, runtime, set_runtime, try_peer, lift in Hh.
  simpl in Hh. destruct (ack_packet _ _ _) as [o found] eqn:Ha.
  destruct (ack_rel _ _ _ false _ _ _ Hr Ha) as (_ & Hv & Hc & Hrl & _).
  assert (fst p' = set_outbound d o /\ acks_fit (snd p')) as [Hd Hm].
  { pose proof (pr_acks _ _ Hr). destruct found; simpl in Hh; [|by injection Hh as <- _].
    destruct (map_err _ _); by injection Hh as <- _. }
  constructor; unfold peer_out in *; rewrite ?Hd; simpl; rewrite ?Hc, ?Hrl; try done; apply Hr.
Qed.

(** A PUBREC turns the QoS 2 publication it names into a release; any other is ignored. *)
Lemma receive_rec p e i :
  peer_rel p e -> is_u16 i ->
  (i ∈ Qos2.ids (Duplex.pubs_of exactly true (Duplex.pubs e)) ->
   (size (Duplex.rels e) < MAX_PENDING_RELEASE)%nat) ->
  exists p', receive p (control_packet (ControlAction.PubRec i ReasonCode.Success)) = Some (p', None) /\
    peer_rel p' (Duplex.take exactly (Duplex.Reply (Duplex.Rec i)) e).
Proof.
  intros Hr Hu Hsize. unfold receive. destruct (ack_decodes i ReasonCode.Success Hu) as (_ & _ & -> & _).
  destruct (handle_packet _ p) as [p' r] eqn:Hh. pose proof (handled_inv _ _ _ _ (pr_inv _ _ Hr) Hh) as Hinv.
  exists p'. split; [by destruct r|]. destruct p as [d rt].
  unfold handle_packet in Hh. rewrite handle_pubrec_eq in Hh. cbn [pubrec_packet_id] in Hh.
  destruct (ack_packet _ _ _) as [o found] eqn:Ha.
  destruct (ack_rel _ _ _ true _ _ _ Hr Ha) as (Hfound & Hv & Hc & Hrl & Hlive & Hsame).
  simpl. destruct (decide _) as [Hi|Hi].
  2: { rewrite bool_decide_false in Hfound by done. rewrite Hfound in Hh. rewrite (Hsame Hfound) in Hh.
       rewrite set_outbound_same in Hh. by destruct (has_pending_release _ _); injection Hh as <- _. }
  rewrite bool_decide_true in Hfound by done. rewrite Hfound in Hh. destruct (Hlive Hfound) as [Hlo Hfree].
  rewrite finish_pubrec_success in Hh; [|done|by apply size_ok, (pr_acks _ _ Hr)].
  cbn [outbound set_outbound pubrec_packet_id] in Hh.
  destruct (queue_release o i ReasonCode.Success) as [o2 r2] eqn:Hq.
  destruct (queue_release_inv _ _ _ _ _ Hlo Hfree Hq) as (_ & Hc2 & Hret2 & Hcase).
  destruct (peer_unique _ _ Hr) as [_ Hn]. unfold peer_out in Hn. simpl in Hn.
  assert (length (pending_release o) = size (Duplex.rels e)) as Hlen
    by (rewrite Hrl, <- (pr_rels _ _ Hr); by rewrite releases_size).
  destruct r2 as [[]|er]; [|exfalso; destruct Hcase as (_ & _ & Hfull); specialize (Hsize Hi); lia].
  injection Hh as <- _.
  assert (view o2 = view o) as Hv2.
  { unfold queue_release in Hq. destruct (vec_push _ _ _); [|done]. by injection Hq as <-. }
  constructor; try done; unfold peer_out; simpl; rewrite ?Hc2, ?Hc, ?Hcase, ?Hrl, ?Hv2; try done;
    try apply Hr.
  - apply Forall_app. split; [apply Hr|]. constructor; [by split_and!|constructor].
  - rewrite <- (pr_rels _ _ Hr). apply releases_snoc; [done|].
    intros Hx. apply Hfree. unfold live_ids. rewrite Hrl. apply elem_of_app. by right.
Qed.

Lemma receive_comp p e i c :
  peer_rel p e -> is_u16 i ->
  exists p', receive p (control_packet (ControlAction.PubComp i c)) = Some (p', None) /\
    peer_rel p' (Duplex.take exactly (Duplex.Reply (Duplex.Comp i)) e).
Proof.
  intros Hr Hu. unfold receive. destruct (ack_decodes i c Hu) as (_ & _ & _ & ->).
  destruct (handle_packet _ p) as [p' r] eqn:Hh.
  pose proof (handled_inv _ _ _ _ (pr_inv _ _ Hr) Hh) as Hinv.
  exists p'. split; [by destruct r|]. destruct p as [d rt].
  unfold handle_packet in Hh. rewrite handle_pubcomp_eq in Hh. cbn [pubcomp_packet_id] in Hh.
  destruct (peer_unique _ _ Hr) as [_ Hn]. unfold peer_out in Hn. simpl in Hn.
  unfold ack_release in Hh.
  destruct (position _ (pending_release (outbound d))) as [k|] eqn:Hk; injection Hh as <- _.
  - apply swap_remove_position in Hk as (x & Hx%Z.eqb_eq & Hperm).
    constructor; try done; try apply Hr; unfold peer_out; simpl.
    + pose proof (pr_release _ _ Hr) as Hok. unfold peer_out in Hok. simpl in Hok.
      rewrite Hperm in Hok. by apply Forall_cons in Hok as [_ ?].
    + rewrite <- (pr_rels _ _ Hr). unfold peer_out. simpl. rewrite (releases_perm _ _ Hn Hperm).
      unfold releases at 2. simpl. rewrite Hx. rewrite delete_insert_id; [done|].
      apply releases_none. rewrite Hperm in Hn. simpl in Hn. rewrite Hx in Hn.
      by apply NoDup_cons in Hn as [? _].
  - assert (Duplex.rels e !! i = None) as Hnone.
    { rewrite <- (pr_rels _ _ Hr). apply releases_none. apply position_none in Hk.
      rewrite Forall_forall in Hk. intros (x & -> & Hx)%list_elem_of_fmap.
      specialize (Hk _ Hx). simpl in Hk. lia. }
    revert Hinv. rewrite set_outbound_same. intros Hinv.
    constructor; try done; try apply Hr. simpl. rewrite delete_id by done. apply Hr.
Qed.

(** ** Publications and releases *)

Lemma action_size rt act a :
  acks_fit rt -> action_rel act a ->
  check_control_packet_size (maximum_packet_size rt) act = Ok tt.
Proof.
  intros Hfit Ha. unfold check_control_packet_size. destruct (control_packet_ok act) as [-> _].
  unfold require_packet_size_of. by rewrite (action_fits _ _ _ Hfit Ha).
Qed.

(** Queueing an acknowledgement in the empty table. *)
Lemma queue_pending o act :
  pending_control o = [] ->
  queue_control o act = (set_pending_control o [mkPendingControl act (Write 0)], Ok tt).
Proof. intros Hc. unfold queue_control. by rewrite Hc. Qed.

(** The acknowledgement that a handler queues last, and the identifiers it leaves. *)
Definition acked (d : SessionData) (ids : list Z) (act : ControlAction) : SessionData :=
  let d := set_pending_server_packet_ids d ids in
  set_outbound d (set_pending_control (outbound d) [mkPendingControl act (Write 0)]).

Lemma same_packet_ids d : set_pending_server_packet_ids d (pending_server_packet_ids d) = d.
Proof. by destruct d. Qed.

Lemma handle_publish2_eq info i d rt :
  publish_qos_level info = QoS.ExactlyOnce -> publish_packet_id info = Some i -> is_u16 i ->
  pending_control (outbound d) = [] -> acks_fit rt ->
  i ∈ pending_server_packet_ids d \/ (length (pending_server_packet_ids d) < MAX_INBOUND_QOS2)%nat ->
  handle_publish info (d, rt) =
  let ids := pending_server_packet_ids d in
  let act := ControlAction.PubRec i ReasonCode.Success in
  if contains ids i then ((acked d ids act, rt), Ok false)
  else ((acked d (ids ++ [i]) act, rt), Ok true).
Proof.
  intros Hq Hid Hu Hc Hm Hroom. unfold handle_publish. rewrite Hq, Hid.
  pose proof (action_size _ _ (Duplex.Rec i) Hm (conj eq_refl Hu)) as Hsz.
  unfold bind, try, lift, data, runtime, set_data, try_outbound, acked. simpl.
  destruct (contains (pending_server_packet_ids d) i) eqn:Hin; simpl.
  - unfold ret. rewrite Hsz, same_packet_ids. simpl. by rewrite queue_pending by done.
  - unfold vec_push. destruct (Nat.ltb_spec (length (pending_server_packet_ids d)) MAX_INBOUND_QOS2).
    + simpl. unfold ret. rewrite Hsz. simpl. by rewrite queue_pending by done.
    + exfalso. destruct Hroom as [Hx|?]; [|lia]. apply contains_elem in Hx. congruence.
Qed.

Definition puback_reason_for (d : SessionData) (i : Z) : ReasonCode :=
  if contains (pending_server_packet_ids d) i then ReasonCode.PacketIdInUse else ReasonCode.Success.

Lemma handle_publish1_eq info i d rt :
  publish_qos_level info = QoS.AtLeastOnce -> publish_packet_id info = Some i -> is_u16 i ->
  pending_control (outbound d) = [] -> acks_fit rt ->
  handle_publish info (d, rt) =
    ((acked d (pending_server_packet_ids d) (ControlAction.PubAck i (puback_reason_for d i)), rt),
     Ok true).
Proof.
  intros Hq Hid Hu Hc Hm. unfold handle_publish. rewrite Hq, Hid.
  unfold bind, try, lift, data, runtime, try_outbound, acked, ret. simpl. rewrite same_packet_ids.
  fold (puback_reason_for d i).
  rewrite (action_size _ _ (Duplex.Ack i) Hm) by (split; [by eexists|done]). simpl.
  by rewrite queue_pending by done.
Qed.

Lemma handle_pubrel_eq rel d rt :
  is_u16 (pubrel_packet_id rel) -> pending_control (outbound d) = [] -> acks_fit rt ->
  exists c, handle_pubrel rel (d, rt) =
    ((acked d (match position (fun id => id =? pubrel_packet_id rel) (pending_server_packet_ids d) with
               | Some k => swap_remove (pending_server_packet_ids d) k
               | None => pending_server_packet_ids d
               end) (ControlAction.PubComp (pubrel_packet_id rel) c), rt), Ok false).
Proof.
  intros Hu Hc Hm. unfold handle_pubrel, bind, try, lift, data, runtime, set_data, try_outbound, acked.
  simpl.
  assert (forall c, check_control_packet_size (maximum_packet_size rt) (ControlAction.PubComp (pubrel_packet_id rel) c) = Ok tt)
    as Hsz by (intros c; apply (action_size _ _ (Duplex.Comp (pubrel_packet_id rel)) Hm); split; eauto).
  destruct (position _ _) as [k|]; unfold ret; simpl; rewrite Hsz, ?same_packet_ids; simpl;
    rewrite queue_pending by done; by eexists.
Qed.

Lemma peer_acked d rt e e' ids act a :
  peer_rel (d, rt) e -> session_inv (acked d ids act, rt) -> action_rel act a ->
  Duplex.pubs e' = Duplex.pubs e -> Duplex.rels e' = Duplex.rels e ->
  Duplex.reserved e' = list_to_set ids -> Duplex.pending e' = Some (a, false) ->
  peer_rel (acked d ids act, rt) e'.
Proof.
  intros Hr Hinv Ha Hp Hrl Hs Hpd. constructor; rewrite ?Hp, ?Hrl, ?Hs, ?Hpd; try done; try apply Hr.
  by exists act.
Qed.

Lemma reserved_elem p e i : peer_rel p e -> i ∈ Duplex.reserved e <-> i ∈ pending_server_packet_ids (fst p).
Proof. intros H. rewrite <- (pr_reserved _ _ H). apply elem_of_list_to_set. Qed.

Lemma reserved_size p e :
  peer_rel p e -> size (Duplex.reserved e) = length (pending_server_packet_ids (fst p)).
Proof.
  intros H. rewrite <- (pr_reserved _ _ H). apply size_list_to_set.
  destruct (pr_inv _ _ H) as [(_ & _ & Hn & _) _]. done.
Qed.

(** What the application is handed. *)
Definition handed (d : packet) (e : side) : option InboundPublish :=
  match d with
  | Duplex.Pub i m =>
      if exactly m.2 && bool_decide (i ∈ Duplex.reserved e) then None else Some (msg_inbound m.2)
  | Duplex.Pub0 m => Some (msg_inbound m)
  | _ => None
  end.

(** A PUBLISH, decoded and handled. *)
Lemma receive_publish p e b id m p' r :
  peer_rel p e -> carries b id m ->
  (forall info, publish_qos_level info = msg_qos m -> publish_packet_id info = id ->
     handle_publish info p = (p', Ok r)) ->
  receive p b = Some (p', if r then Some (msg_inbound m) else None) /\ session_inv p'.
Proof.
  intros Hr Hb Hh. destruct (carries_decodes _ _ _ Hb) as (info & Hd & Hid & Hq & Hin).
  specialize (Hh info Hq Hid). unfold receive. rewrite Hd.
  assert (handle_packet (ReceivedPacket.Publish info) p = (p', Ok r)) as Hp by exact Hh.
  pose proof (handled_inv _ _ _ _ (pr_inv _ _ Hr) Hp) as Hinv. rewrite Hp.
  split; [|done]. by destruct r; rewrite ?Hin.
Qed.

Lemma receive_pub2 p e i m b :
  peer_rel p e -> Duplex.pending e = None -> carries b (Some i) m.2 -> exactly m.2 = true ->
  i ∈ Duplex.reserved e \/ (size (Duplex.reserved e) < MAX_INBOUND_QOS2)%nat ->
  exists p', receive p b = Some (p', handed (Duplex.Pub i m) e) /\
    peer_rel p' (Duplex.take exactly (Duplex.Pub i m) e).
Proof.
  intros Hr Hpd Hb Hx Hroom. destruct (carries_id _ _ _ Hb) as [Hu _]. destruct p as [d rt].
  pose proof (pr_pending _ _ Hr) as Hc. rewrite Hpd in Hc. simpl in Hc.
  pose proof (pr_acks _ _ Hr) as Hm. pose proof (reserved_elem _ _ i Hr) as Hin.
  pose proof (pr_reserved _ _ Hr) as HR.
  rewrite (reserved_size _ _ Hr), Hin in Hroom. unfold handed. simpl in *. rewrite Hx. simpl.
  assert (msg_qos m.2 = QoS.ExactlyOnce) as Hq by (by apply bool_decide_eq_true in Hx).
  set (ids := pending_server_packet_ids d) in *.
  set (ids' := if contains ids i then ids else ids ++ [i]).
  destruct (receive_publish _ e b (Some i) m.2
    (acked d ids' (ControlAction.PubRec i ReasonCode.Success), rt) (negb (contains ids i)) Hr Hb)
    as [Hrec Hinv].
  { intros info Hqi Hii. rewrite (handle_publish2_eq info i) by (congruence || auto). cbv zeta.
    fold ids. unfold ids'. by destruct (contains ids i). }
  eexists. split.
  - rewrite Hrec. destruct (bool_decide_reflect (i ∈ Duplex.reserved e)) as [Hi|Hi];
      rewrite Hin, <- contains_elem in Hi; [by rewrite Hi|].
    apply not_true_is_false in Hi. by rewrite Hi.
  - apply (peer_acked _ _ e _ _ _ (Duplex.Rec i)); try done; simpl; try by case_decide.
    unfold ids'. destruct (contains ids i) eqn:Hci; [apply contains_elem in Hci; set_solver|].
    rewrite list_to_set_app_L, HR. simpl. set_solver.
Qed.

Lemma receive_pub1 p e i m b :
  peer_rel p e -> Duplex.pending e = None -> carries b (Some i) m.2 -> exactly m.2 = false ->
  exists p', receive p b = Some (p', handed (Duplex.Pub i m) e) /\
    peer_rel p' (Duplex.take exactly (Duplex.Pub i m) e).
Proof.
  intros Hr Hpd Hb Hx. destruct (carries_id _ _ _ Hb) as [Hu Hq0]. destruct p as [d rt].
  pose proof (pr_pending _ _ Hr) as Hc. rewrite Hpd in Hc.
  assert (msg_qos m.2 = QoS.AtLeastOnce) as Hq
    by (apply bool_decide_eq_false in Hx; by destruct (msg_qos m.2)).
  unfold handed. simpl. rewrite Hx. simpl.
  destruct (receive_publish _ e b (Some i) m.2
    (acked d (pending_server_packet_ids d) (ControlAction.PubAck i (puback_reason_for d i)), rt) true
    Hr Hb) as [Hrec Hinv].
  { intros info Hqi Hii. apply handle_publish1_eq; try done; [congruence|apply (pr_acks _ _ Hr)]. }
  eexists. split; [exact Hrec|]. apply (peer_acked _ _ e _ _ _ (Duplex.Ack i)); try done.
  - split; [by eexists|done].
  - simpl. by rewrite <- (pr_reserved _ _ Hr).
Qed.

Lemma receive_pub0 p e m b :
  peer_rel p e -> carries b None m ->
  exists p', receive p b = Some (p', Some (msg_inbound m)) /\ peer_rel p' (Duplex.deliver0 e m).
Proof.
  intros Hr Hb. pose proof Hb as (_ & _ & Hq & _). change (msg_qos m = QoS.AtMostOnce) in Hq.
  destruct (receive_publish _ e b None m p true Hr Hb) as [Hrec _].
  { intros info Hqi Hii. unfold handle_publish. by rewrite Hqi, Hq. }
  exists p. split; [exact Hrec|]. by destruct Hr.
Qed.

Lemma receive_release p e i :
  peer_rel p e -> Duplex.pending e = None -> is_u16 i ->
  exists p', receive p (release_packet i ReasonCode.Success) = Some (p', None) /\
    peer_rel p' (Duplex.take exactly (Duplex.Rel i) e).
Proof.
  intros Hr Hpd Hu. unfold receive. destruct (ack_decodes i ReasonCode.Success Hu) as (-> & _).
  destruct (handle_packet _ p) as [p' r] eqn:Hh.
  pose proof (handled_inv _ _ _ _ (pr_inv _ _ Hr) Hh) as Hinv. exists p'. split; [by destruct r|].
  destruct p as [d rt]. pose proof (pr_pending _ _ Hr) as Hc. rewrite Hpd in Hc.
  pose proof (pr_reserved _ _ Hr) as HR. pose proof (reserved_elem _ _ i Hr) as Hin. simpl in HR, Hin.
  edestruct (handle_pubrel_eq (mkPubRel i (reason_from ReasonCode.Success)) d rt) as [c Hhc];
    [done|done|apply (pr_acks _ _ Hr)|].
  rewrite (Hhc : handle_packet (ReceivedPacket.PubRel _) _ = _) in Hh. injection Hh as <- _.
  apply (peer_acked _ _ e _ _ _ (Duplex.Comp i)); try done; [simpl; eauto|]. simpl.
  destruct (pr_inv _ _ Hr) as [(_ & _ & Hn & _) _]. simpl in Hn.
  destruct (position _ _) as [k|] eqn:Hk.
  - apply swap_remove_position in Hk as (x & ->%Z.eqb_eq & Hperm). rewrite <- HR.
    rewrite (list_to_set_perm_L _ _ Hperm). rewrite Hperm in Hn. apply NoDup_cons in Hn as [Hn _].
    simpl. set_solver.
  - apply position_none in Hk. assert (i ∉ Duplex.reserved e); [|set_solver].
    rewrite Hin. intros Hx. rewrite Forall_forall in Hk. specialize (Hk _ Hx). simpl in Hk. lia.
Qed.

(** There is room for what a packet may add. *)
Definition has_room (d : packet) (e : side) : Prop :=
  match d with
  | Duplex.Pub i m =>
      exactly m.2 = true ->
      i ∈ Duplex.reserved e \/ (size (Duplex.reserved e) < MAX_INBOUND_QOS2)%nat
  | Duplex.Reply (Duplex.Rec i) =>
      i ∈ Qos2.ids (Duplex.pubs_of exactly true (Duplex.pubs e)) ->
      (size (Duplex.rels e) < MAX_PENDING_RELEASE)%nat
  | _ => True
  end.

(** Every packet of the machine is received as the machine takes it. *)
Lemma receive_rel p e d b :
  peer_rel p e -> Duplex.pending e = None -> wire_rel b d -> has_room d e ->
  exists p', receive p b = Some (p', handed d e) /\ peer_rel p' (Duplex.take exactly d e).
Proof.
  intros Hr Hpd Hb Hroom. destruct d as [i m|m|i|[i|i|i]]; simpl in Hb, Hroom.
  - destruct (exactly m.2) eqn:Hx; [apply receive_pub2; auto|by apply receive_pub1].
  - by apply receive_pub0.
  - destruct Hb as [-> Hu]. by apply receive_release.
  - destruct Hb as (act & -> & [c ->] & Hu). by apply receive_ack.
  - destruct Hb as (act & -> & -> & Hu). by apply receive_rec.
  - destruct Hb as (act & -> & [c ->] & Hu). by apply receive_comp.
Qed.

End Peers.
