(* ===== verification/Delivery.v ===== *)
(** * What the link delivers

    The states of two sessions over a link refine the two-way machine [Duplex], from which
    the guarantees follow in both directions at once, for any interleaving of the moves of
    the two sessions and any number of lost connections: QoS 2 messages are handed to the
    receiving application exactly once and in order, QoS 1 messages at least once and, up
    to repetitions, in order, QoS 0 messages at most once and in order; and when no
    connection is lost any more, everything is delivered after finitely many moves.

    The runs are those of [reachable]: messages are valid and connections resume both
    sessions, each with runtime values of its own on which an acknowledgement of five
    bytes is not too long; and the publications are [orderly], fewer than [MAX_RETAINED]
    of QoS 2 incomplete at a side and no QoS 1 identifier used again with its packets on
    the way. That everything is delivered also needs every retained packet to fit the
    maximum packet size of the connection ([link_fits]). The code ensures none of the last
    three; the deviations at the end show what happens without them. *)

From stdpp Require Import gmap.
From S2P Require Import Prelude Varint Types Io Wire Ser De Properties Packets Received PacketReader Outbound Config Session Connection Driver Operations Qos2Spec Qos1Spec Duplex Link Peers.

(** * The link refines the machine *)

Section Refinement.
Context {T : Time}.

Abbreviation state := (Duplex.state (M := Message)).
Abbreviation anear := (Duplex.near_step exactly MAX_RETAINED).
Abbreviation astep := (Duplex.step exactly MAX_RETAINED).
Abbreviation ainv := (Duplex.inv exactly MAX_RETAINED).

(** A session and what its application published and was handed. *)
Record endpoint_rel (ep : Endpoint) (e : side) : Prop := mkEndpointRel {
  er_peer : peer_rel (e_peer ep) e;
  er_published : filter (fun m => msg_qos m <> QoS.AtMostOnce) (e_published ep) = (Duplex.published e).*2;
  er_published0 : filter (fun m => msg_qos m = QoS.AtMostOnce) (e_published ep) =
                  Duplex.published0 e;
  er_received : filter (fun r => ip_qos r <> QoS.AtMostOnce) (e_received ep) =
                msg_inbound <$> (Duplex.delivered e).*2;
  er_received0 : filter (fun r => ip_qos r = QoS.AtMostOnce) (e_received ep) =
                 msg_inbound <$> Duplex.delivered0 e }.

Record refines (k : Link) (s : state) : Prop := mkRefines {
  ref_near : endpoint_rel (l_near k) (Duplex.near s);
  ref_far : endpoint_rel (l_far k) (Duplex.far s);
  ref_out : Forall2 wire_rel (l_out k) (Duplex.outgoing s);
  ref_in : Forall2 wire_rel (l_in k) (Duplex.incoming s) }.

Lemma refines_swap k s : refines k s -> refines (swap k) (Duplex.swap s).
Proof. by intros []. Qed.

(** Valid messages, and connections on which an acknowledgement of five bytes is not too
    long; every connection may have its own maximum packet size in each direction. *)
Definition runtime_ok (rt : RuntimeState) : Prop := quota_inv rt /\ acks_fit rt.
Definition peer_action_ok (a : PeerAction) : Prop :=
  match a with DoPublish m => message_ok m | _ => True end.
Definition action_ok (a : LinkAction) : Prop :=
  match a with
  | Near a | Far a => peer_action_ok a
  | DoLose nrt frt => runtime_ok nrt /\ runtime_ok frt
  end.

(** A session that only changes its own state. *)
Lemma endpoint_peer ep e p' e' :
  endpoint_rel ep e -> peer_rel p' e' ->
  Duplex.published e' = Duplex.published e -> Duplex.published0 e' = Duplex.published0 e ->
  Duplex.delivered e' = Duplex.delivered e -> Duplex.delivered0 e' = Duplex.delivered0 e ->
  endpoint_rel (mkEndpoint p' (e_published ep) (e_received ep)) e'.
Proof. intros [] Hp H1 H2 H3 H4. by constructor; simpl; rewrite ?H1, ?H2, ?H3, ?H4. Qed.

(** ** Publishing *)

(** What is on the way in the machine is on the way on the link. *)
Lemma under_way_sound k s i :
  refines k s -> i ∈ Qos1.under_way (Duplex.flow1 exactly s) -> under_way k i = true.
Proof.
  intros [_ Hf Ho Hi] Hu. unfold under_way. unfold Qos1.under_way, Qos1.acks in Hu. simpl in Hu.
  rewrite !elem_of_app in Hu. destruct Hu as [Hu|[Hu|Hu]].
  - apply list_elem_of_fmap in Hu as ([j m] & -> & (d & Hd & He)%list_elem_of_omap).
    destruct d as [j' m'|m'|j'|a]; try done. simpl in He. destruct (exactly m'.2) eqn:Hx; [done|].
    injection He as -> ->. apply list_elem_of_lookup in Hd as [n Hd].
    destruct (Forall2_lookup_r _ _ _ _ _ Ho Hd) as (b & Hb & Hc). simpl in Hc.
    rewrite (proj2 (existsb_exists (is_publish1 j) _)); [done|]. exists b.
    split; [by apply list_elem_of_lookup_2, list_elem_of_In in Hb|]. unfold is_publish1.
    destruct (carries_id _ _ _ Hc) as [_ Hq]. destruct (carries_decodes _ _ _ Hc) as (p & -> & -> & -> & _).
    apply bool_decide_eq_false in Hx. simpl. rewrite !bool_decide_true; [done|done|].
    by destruct (msg_qos m.2).
  - apply list_elem_of_omap in Hu as (d & Hd & He). destruct d as [j m|m|j|[j|j|j]]; try done.
    injection He as ->. apply list_elem_of_lookup in Hd as [n Hd].
    destruct (Forall2_lookup_r _ _ _ _ _ Hi Hd) as (b & Hb & (act & -> & [c ->] & Hj)).
    rewrite (proj2 (existsb_exists (is_puback i) _)); [by rewrite orb_true_r|]. eexists.
    split; [by apply list_elem_of_lookup_2, list_elem_of_In in Hb|]. unfold is_puback.
    destruct (ack_decodes i c Hj) as (_ & -> & _). by apply Z.eqb_eq.
  - pose proof (pr_pending _ _ (er_peer _ _ Hf)) as Hp.
    destruct (Duplex.pending (Duplex.far s)) as [[a w]|]; [|by apply not_elem_of_nil in Hu].
    destruct Hp as (act & Hc & Ha). destruct a as [j|j|j]; try by apply not_elem_of_nil in Hu.
    destruct Ha as [[c ->] _]. apply list_elem_of_singleton in Hu as ->. rewrite Hc. simpl.
    unfold queues_puback. simpl. by rewrite Z.eqb_refl, !orb_true_r.
Qed.

(** A published message enters the logs on both levels. *)
Lemma log_published_rel ep e p' l m tag :
  endpoint_rel ep e -> peer_rel p' (Duplex.set_pubs e l) -> msg_qos m <> QoS.AtMostOnce ->
  endpoint_rel (mkEndpoint p' (e_published ep ++ [m]) (e_received ep))
    (Duplex.log_published (Duplex.set_pubs e l) (tag, m)).
Proof.
  intros [_ Hp Hp0 Hr Hr0] Hpr Hq. constructor; simpl; try done.
  - by destruct Hpr.
  - rewrite filter_app, fmap_app, Hp, filter_cons_True by done. done.
  - by rewrite filter_app, Hp0, filter_cons_False, app_nil_r by done.
Qed.

Lemma log_published0_rel ep e p' m :
  endpoint_rel ep e -> peer_rel p' e -> msg_qos m = QoS.AtMostOnce ->
  endpoint_rel (mkEndpoint p' (e_published ep ++ [m]) (e_received ep)) (Duplex.log_published0 e m).
Proof.
  intros [_ Hp Hp0 Hr Hr0] Hpr Hq. constructor; simpl; try done.
  - by destruct Hpr.
  - by rewrite filter_app, Hp, filter_cons_False, app_nil_r by (by intros []).
  - rewrite filter_app, Hp0, filter_cons_True by done. done.
Qed.

(** The machine may publish where the link does. *)
Lemma may_publish_sound k s m :
  refines k s -> msg_qos m <> QoS.AtMostOnce -> may_publish k m = true ->
  let i := snd (next_packet_id (fst (e_peer (l_near k)))) in
  (i ∉ Qos2.ids (Duplex.pubs (Duplex.near s))) -> Duplex.rels (Duplex.near s) !! i = None ->
  Duplex.may_publish exactly MAX_RETAINED s i m = true.
Proof.
  intros Hk Hq Hg i Hi Hr. unfold Duplex.may_publish. rewrite !bool_decide_true by done. simpl.
  unfold may_publish in Hg. fold i in Hg. destruct (exactly m) eqn:Hx;
    unfold exactly in Hx; destruct (msg_qos m); try done.
  - apply Nat.ltb_lt in Hg. apply bool_decide_eq_true.
    by rewrite <- (peer_incomplete _ _ (er_peer _ _ (ref_near _ _ Hk))).
  - apply negb_true_iff in Hg. apply bool_decide_eq_true. intros Hu.
    by rewrite (under_way_sound k s i) in Hg.
Qed.

Lemma publish_sim k s m k' :
  refines k s -> message_ok m -> may_publish k m = true -> publish_near m k = Some k' ->
  exists s', (s' = s \/ exists b, anear b s = Some s') /\ refines k' s'.
Proof.
  intros Hk Hm Hg Hs. pose proof Hk as [Hn Hf Ho Hi]. pose proof (er_peer _ _ Hn) as Hp.
  unfold publish_near in Hs. destruct (bool_decide_reflect (msg_qos m = QoS.AtMostOnce)) as [Hq|Hq].
  - destruct (outbound_idle _); [|done].
    destruct (send_direct (e_peer (l_near k)) m) as [p' sent] eqn:Hsd.
    destruct (send_direct_rel _ _ _ _ _ Hp Hm Hq Hsd) as [Hp' Hsent].
    destruct sent as [b|]; injection Hs as <-; eexists.
    + split; [right; by exists (Duplex.Publish0 m)|]. constructor; simpl; try done.
      * by apply log_published0_rel.
      * by apply Forall2_app; [|constructor].
    + split; [by left|]. constructor; simpl; try done. by eapply endpoint_peer.
  - destruct (accept _ m) as [p' acc] eqn:Ha. injection Hs as <-.
    pose proof (accept_rel _ _ _ _ _ (length (Duplex.published (Duplex.near s))) Hp Hm Hq Ha) as Hacc.
    destruct acc.
    + destruct Hacc as (Hi1 & Hi2 & Hp'). eexists. split.
      * right. eexists (Duplex.Publish _ m). simpl.
        by rewrite (may_publish_sound k s m Hk Hq Hg Hi1 Hi2).
      * constructor; simpl; try done. by apply log_published_rel with (1 := Hn).
    + exists s. split; [by left|]. constructor; simpl; try done. by eapply endpoint_peer.
Qed.

(** ** The other moves *)

Lemma write_sim k s k' :
  refines k s -> near_step DoWrite k = Some k' ->
  exists b s', Duplex.progresses b = true /\ anear b s = Some s' /\ refines k' s'.
Proof.
  intros [Hn Hf Ho Hi]. unfold near_step. pose proof (transmit_rel _ _ (er_peer _ _ Hn)) as Ht.
  destruct (transmit (e_peer (l_near k))) as [[p packet]|]; [|done]. intros [= <-].
  destruct Ht as [(a & Ha & Hb & Hp)|[(i & Hr & Hb & Hp)|(q & l & Hq & Hb & Hp)]].
  - exists Duplex.WriteAck. eexists. split_and!; [done|simpl; by rewrite Ha|].
    constructor; simpl; try done; [by eapply endpoint_peer|]. by apply Forall2_app; [|constructor].
  - exists (Duplex.SendRel i). eexists. split_and!; [done|simpl; by rewrite decide_True|].
    constructor; simpl; try done; [by eapply endpoint_peer|]. by apply Forall2_app; [|constructor].
  - exists Duplex.SendPub. eexists. split_and!; [done|simpl; by rewrite Hq|].
    constructor; simpl; try done; [by eapply endpoint_peer|]. by apply Forall2_app; [|constructor].
Qed.

Lemma flush_sim k s k' :
  refines k s -> near_step DoFlush k = Some k' ->
  exists s', (s' = s \/ anear Duplex.FlushAck s = Some s') /\ refines k' s'.
Proof.
  intros [Hn Hf Ho Hi]. unfold near_step, flush_peer. destruct (dirty _); [|done]. intros [= <-].
  pose proof (flush_rel _ _ (er_peer _ _ Hn)) as Hp. simpl.
  destruct (Duplex.pending (Duplex.near s)) as [[a []]|] eqn:Hpd; simpl in Hp.
  - eexists. split; [by right|]. constructor; simpl; try done. by eapply endpoint_peer.
  - exists s. split; [by left|]. constructor; simpl; try done. eapply endpoint_peer; try done.
    destruct Hp. constructor; try done. by rewrite Hpd.
  - exists s. split; [by left|]. constructor; simpl; try done. eapply endpoint_peer; try done.
    destruct Hp. constructor; try done. by rewrite Hpd.
Qed.

(** The window leaves room for what is on the way. *)
Lemma read_room d l s :
  ainv s -> Duplex.pending (Duplex.near s) = None -> Duplex.incoming s = d :: l ->
  has_room d (Duplex.near s).
Proof.
  intros [Hn Hf] Hpd Hd. destruct d as [i m|m|i|[i|i|i]]; simpl; try done.
  - intros Hx. destruct (decide (i ∈ Duplex.reserved (Duplex.near s))); [by left|right].
    apply (Qos2.fresh_room MAX_RETAINED (Duplex.flow2 exactly (Duplex.swap s)) i m
             (omap (Duplex.down2 exactly) l)); try done.
    + apply Hf.
    + simpl. by rewrite Hpd.
    + simpl. rewrite Hd. simpl. by rewrite Hx.
  - intros Hi. pose proof (Qos2.inv_window _ _ (Duplex.flow_inv2 _ _ _ Hn)) as Hw. simpl in Hw.
    apply Qos2.length_remove in Hi. unfold MAX_RETAINED, MAX_PENDING_RELEASE in *. lia.
Qed.

(** What is handed out enters the logs on both levels. *)
Definition packet_ok (d : packet) : Prop :=
  match d with
  | Duplex.Pub _ m => msg_qos m.2 <> QoS.AtMostOnce
  | Duplex.Pub0 m => msg_qos m = QoS.AtMostOnce
  | _ => True
  end.

Lemma wire_ok b d : wire_rel b d -> packet_ok d.
Proof. destruct d; simpl; try done; [by intros [_ ?]%carries_id|]. by intros (_ & _ & ? & _). Qed.

Lemma handed_logs d (e : side) :
  packet_ok d ->
  (msg_inbound <$> (Duplex.delivered (Duplex.take exactly d e)).*2) =
    (msg_inbound <$> (Duplex.delivered e).*2) ++
    filter (fun r => ip_qos r <> QoS.AtMostOnce) (option_list (handed d e)) /\
  (msg_inbound <$> Duplex.delivered0 (Duplex.take exactly d e)) =
    (msg_inbound <$> Duplex.delivered0 e) ++
    filter (fun r => ip_qos r = QoS.AtMostOnce) (option_list (handed d e)).
Proof.
  intros Hq. destruct d as [i m|m|i|[i|i|i]]; simpl in *; rewrite ?app_nil_r; try done.
  - rewrite bool_decide_decide.
    destruct (exactly m.2), (decide (i ∈ Duplex.reserved e)); simpl; rewrite ?app_nil_r; try done;
      (split; [by rewrite !fmap_app, filter_cons_True|by rewrite filter_cons_False, app_nil_r]).
  - split; [|by rewrite fmap_app, filter_cons_True].
    rewrite filter_cons_False, app_nil_r; [done|]. by intros [].
  - by case_decide.
Qed.

Lemma read_sim k s k' :
  ainv s -> refines k s -> near_step DoRead k = Some k' ->
  exists s', anear Duplex.Read s = Some s' /\ refines k' s'.
Proof.
  intros Hinv [Hn Hf Ho Hi]. pose proof (er_peer _ _ Hn) as Hp. unfold near_step. simpl.
  pose proof (pr_pending _ _ Hp) as Hc.
  destruct (Duplex.pending (Duplex.near s)) as [[a w]|] eqn:Hpd; [by destruct Hc as (act & -> & _)|].
  simpl in Hc. rewrite Hc. simpl. destruct (Duplex.incoming s) as [|d l] eqn:Hd.
  { by apply Forall2_nil_inv_r in Hi as ->. }
  apply Forall2_cons_inv_r in Hi as (b & rest & Hb & Hi & ->).
  destruct (receive_rel _ _ _ _ Hp Hpd Hb (read_room _ _ _ Hinv Hpd Hd)) as (p' & -> & Hp').
  intros [= <-]. eexists. split; [done|]. destruct Hn as [_ H1 H2 H3 H4].
  destruct (handed_logs d (Duplex.near s) (wire_ok _ _ Hb)) as [L1 L2].
  destruct (Duplex.take_published exactly d (Duplex.near s)) as [T1 T2].
  constructor; simpl; try done. constructor; simpl; rewrite ?T1, ?T2; try done; rewrite filter_app.
  - by rewrite H3, L1.
  - by rewrite H4, L2.
Qed.

(** ** All actions *)

(** What an action of a session is in the machine: a step, or nothing for a message that
    is not accepted and a flush that completes no acknowledgement. *)
Definition silent (a : PeerAction) : bool := match a with DoPublish _ | DoFlush => true | _ => false end.
Definition progresses (a : PeerAction) : bool := match a with DoPublish _ => false | _ => true end.

Definition abstracts (a : PeerAction) (s s' : state) : Prop :=
  (s' = s /\ silent a = true) \/
  exists b, anear b s = Some s' /\ (progresses a = true -> Duplex.progresses b = true).

Lemma near_sim a k s k' :
  ainv s -> refines k s -> peer_action_ok a -> orderly k (Near a) = true ->
  near_step a k = Some k' ->
  exists s', abstracts a s s' /\ refines k' s'.
Proof.
  intros Hinv Hr Ha Hg Hs. unfold abstracts. destruct a as [m| | |].
  - destruct (publish_sim _ _ _ _ Hr Ha Hg Hs) as (s' & [-> |[b Hb]] & Hr'); eexists;
      (split; [|exact Hr']); [by left|]. right. by exists b.
  - destruct (write_sim _ _ _ Hr Hs) as (b & s' & Hb & Hs' & Hr'). exists s'. split; [|done].
    right. by exists b.
  - destruct (flush_sim _ _ _ Hr Hs) as (s' & [-> |Hb] & Hr'); eexists;
      (split; [|exact Hr']); [by left|]. right. by exists Duplex.FlushAck.
  - destruct (read_sim _ _ _ Hinv Hr Hs) as (s' & Hs' & Hr'). exists s'. split; [|done].
    right. by exists Duplex.Read.
Qed.

Lemma lose_sim k s nrt frt :
  refines k s -> runtime_ok nrt -> runtime_ok frt ->
  refines (mkLink (resume_endpoint (l_near k) nrt) (resume_endpoint (l_far k) frt) [] [])
    (Duplex.lose s).
Proof.
  intros [Hn Hf _ _] [Hq1 Hm1] [Hq2 Hm2]. constructor; simpl; try done.
  - eapply endpoint_peer; try done. by apply resume_rel; [apply Hn|..].
  - eapply endpoint_peer; try done. by apply resume_rel; [apply Hf|..].
Qed.

(** The machine follows every action. *)
Lemma link_sim a k s k' :
  ainv s -> refines k s -> action_ok a -> orderly k a = true -> link_step a k = Some k' ->
  exists s', (s' = s \/ exists b, astep b s = Some s') /\ refines k' s'.
Proof.
  intros Hinv Hr Ha Hg Hs. destruct a as [a|a|nrt frt]; cbn [link_step] in Hs.
  - destruct (near_sim _ _ _ _ Hinv Hr Ha Hg Hs) as (s' & [[-> _]|(b & Hb & _)] & Hr'); [by eauto|].
    exists s'. split; [|done]. right. by exists (Duplex.Near b).
  - destruct (near_step a (swap k)) as [k1|] eqn:E; [|done]. injection Hs as <-.
    destruct (near_sim _ _ _ _ (Duplex.swap_inv _ _ _ Hinv) (refines_swap _ _ Hr) Ha Hg E)
      as (s' & Hab & Hr'). exists (Duplex.swap s'). split; [|by apply refines_swap].
    destruct Hab as [[-> _]|(b & Hb & _)].
    + left. apply Duplex.swap_swap.
    + right. exists (Duplex.Far b). simpl. by rewrite Hb.
  - destruct Ha as [H1 H2]. injection Hs as <-. exists (Duplex.lose s).
    split; [right; by exists Duplex.Lose|by apply lose_sim].
Qed.

Lemma init_refines nbuf fbuf nrt frt :
  zlen nbuf <= MQTT_VARINT_MAX -> zlen fbuf <= MQTT_VARINT_MAX -> runtime_ok nrt -> runtime_ok frt ->
  refines (link_init nbuf fbuf nrt frt) Duplex.init.
Proof.
  intros H1 H2 [Hq1 Hm1] [Hq2 Hm2].
  constructor; simpl; try done; constructor; try done; constructor; try done; split; try done;
    by apply SessionData_new_inv.
Qed.

(** ** Progress *)

Definition action_progresses (a : LinkAction) : bool :=
  match a with Near a | Far a => progresses a | DoLose _ _ => false end.

Definition near_stuck (k : Link) : Prop := forall a, progresses a = true -> near_step a k = None.

(** Everything but a new message and a lost connection is impossible. *)
Definition link_stuck (k : Link) : Prop :=
  forall a, action_progresses a = true -> link_step a k = None.

Lemma link_stuck_sides k : link_stuck k -> near_stuck k /\ near_stuck (swap k).
Proof.
  intros Hk. split; intros a Ha; [by apply (Hk (Near a))|].
  specialize (Hk (Far a) Ha). simpl in Hk. by destruct (near_step a (swap k)).
Qed.

Lemma stuck_idle k s :
  ainv s -> refines k s -> replays_fit (e_peer (l_near k)) -> near_stuck k ->
  Duplex.idle exactly MAX_RETAINED s.
Proof.
  intros Hinv Hk Hfit Hst. pose proof Hk as [Hn Hf Ho Hi]. pose proof (er_peer _ _ Hn) as Hp.
  pose proof (transmit_rel _ _ Hp) as Ht. pose proof (Hst DoWrite eq_refl) as Hw.
  pose proof (Hst DoFlush eq_refl) as Hfl. pose proof (Hst DoRead eq_refl) as Hrd. simpl in Hw, Hfl, Hrd.
  destruct (transmit (e_peer (l_near k))) as [[]|]; [done|]. destruct (Ht Hfit) as (Hna & Hnr & Hnp).
  assert (dirty (peer_out (e_peer (l_near k))) = false) as Hd
    by (unfold flush_peer in Hfl; by destruct (dirty _)).
  pose proof (fun a => clean_ack _ _ a Hp Hd) as Hnf.
  intros [i m|m| |i| | |] Ha; try done; simpl.
  - by rewrite Hnp.
  - by rewrite decide_False.
  - destruct (Duplex.pending _) as [[a []]|]; try done. by destruct (Hna a).
  - destruct (Duplex.pending _) as [[a []]|]; try done. by destruct (Hnf a).
  - destruct (Duplex.pending (Duplex.near s)) as [|] eqn:Hpd; [done|].
    destruct (Duplex.incoming s) as [|d l] eqn:Hin; [done|]. exfalso.
    pose proof (pr_pending _ _ Hp) as Hc. rewrite Hpd in Hc. simpl in Hc. rewrite Hc in Hrd.
    apply Forall2_cons_inv_r in Hi as (b & rest & Hb & _ & Hl). rewrite Hl in Hrd. simpl in Hrd.
    destruct (receive_rel _ _ _ _ Hp Hpd Hb (read_room _ _ _ Hinv Hpd Hin)) as (p' & Hrec & _).
    by rewrite Hrec in Hrd.
Qed.

Lemma flushed_clean o : dirty (complete_flush o) = false.
Proof.
  unfold dirty, is_flush. simpl. apply orb_false_intro; [apply orb_false_intro|];
    apply not_true_is_false; intros (x & Hx & Hs)%existsb_exists; apply bool_decide_eq_true in Hs.
  - by apply list_elem_of_In, list_elem_of_filter in Hx as [Hx _].
  - apply in_map_iff in Hx as (y & <- & _). simpl in Hs. by destruct (pr_state y).
  - apply in_map_iff in Hx as (y & <- & _). simpl in Hs. by destruct (rp_state y).
Qed.

(** The steps left: each action that progresses makes it smaller. *)
Definition dirt (ep : Endpoint) : nat := if dirty (peer_out (e_peer ep)) then 1 else 0.
Definition link_measure (k : Link) (s : state) : nat :=
  2 * Duplex.measure s + dirt (l_near k) + dirt (l_far k).

Lemma near_frame a k k' :
  progresses a = true -> near_step a k = Some k' ->
  l_far k' = l_far k /\ e_published (l_near k') = e_published (l_near k).
Proof.
  intros Ha. destruct a; try done; simpl; repeat case_match; try done; by intros [= <-].
Qed.

(** Every retained packet fits the maximum packet size of its connection. *)
Definition link_fits (k : Link) : Prop :=
  replays_fit (e_peer (l_near k)) /\ replays_fit (e_peer (l_far k)).

Lemma link_fits_swap k : link_fits k -> link_fits (swap k).
Proof. by intros []. Qed.

Lemma near_fits a k k' :
  progresses a = true -> near_step a k = Some k' -> link_fits k -> link_fits k'.
Proof.
  intros Ha Hs [Hn Hf]. destruct (near_frame _ _ _ Ha Hs) as [Hfar _]. split; [|by rewrite Hfar].
  clear Hf Hfar. destruct a as [m| | |]; [done|..]; unfold near_step in Hs.
  - unfold transmit in Hs. destruct (next_step _) as [st|]; [|done]. cbv zeta in Hs.
    destruct (exceeds _ _); [done|]. injection Hs as <-. by apply record_write_fits.
  - unfold flush_peer in Hs. destruct (dirty _); [|done]. injection Hs as <-.
    by apply complete_flush_fits.
  - destruct (is_empty _), (l_in k) as [|b rest]; try done. unfold receive in Hs.
    destruct (from_buffer b) as [packet|]; [|done].
    destruct (handle_packet packet _) as [p' r] eqn:Hh. injection Hs as <-.
    unfold replays_fit. simpl. pose proof (handle_keeps_limit packet (e_peer (l_near k))) as Hlim.
    rewrite Hh in Hlim. simpl in Hlim. rewrite Hlim. by eapply handle_fits.
Qed.

Lemma near_measure a k s k' s' :
  progresses a = true -> near_step a k = Some k' -> abstracts a s s' ->
  (link_measure k' s' < link_measure k s)%nat.
Proof.
  intros Hp Hs Ha. destruct (near_frame _ _ _ Hp Hs) as [Hf _]. unfold link_measure. rewrite Hf.
  destruct Ha as [[-> Hsil]|(b & Hb & Hpb)].
  - destruct a; try done. simpl in Hs. unfold flush_peer in Hs.
    destruct (dirty (peer_out (e_peer (l_near k)))) eqn:Hd; [|done]. injection Hs as <-.
    unfold dirt. simpl. unfold peer_out at 1. simpl. rewrite flushed_clean, Hd. lia.
  - pose proof (Duplex.near_step_measure _ _ _ _ _ (Hpb Hp) Hb).
    unfold dirt. destruct (dirty (peer_out (e_peer (l_near k)))), (dirty _), (dirty _); lia.
Qed.

Lemma link_progress a k s k' :
  ainv s -> refines k s -> action_progresses a = true -> link_step a k = Some k' ->
  exists s', ainv s' /\ refines k' s' /\ (link_measure k' s' < link_measure k s)%nat /\
    e_published (l_near k') = e_published (l_near k) /\
    e_published (l_far k') = e_published (l_far k) /\ (link_fits k -> link_fits k').
Proof.
  intros Hinv Hr Ha Hs. assert (forall a, progresses a = true -> peer_action_ok a /\ orderly k (Near a) = true) as Hok
    by (by intros []).
  assert (forall b s s', abstracts b s s' -> ainv s -> ainv s') as Hkeep.
  { intros b s1 s2 [[-> _]|(c & Hc & _)] H1; [done|]. exact (Duplex.near_inv _ _ _ _ _ H1 Hc). }
  destruct a as [a|a|nrt frt]; [..|done]; simpl in Ha, Hs; destruct (Hok _ Ha) as [Hpa Ho].
  - destruct (near_sim _ _ _ _ Hinv Hr Hpa Ho Hs) as (s' & Hab & Hr').
    destruct (near_frame _ _ _ Ha Hs) as [Hf Hp]. exists s'.
    split_and!; [by eapply Hkeep|done|by eapply near_measure|done|by rewrite Hf|by eapply near_fits].
  - destruct (near_step a (swap k)) as [k1|] eqn:E; [|done]. injection Hs as <-.
    pose proof (Duplex.swap_inv _ _ _ Hinv) as Hinv'.
    assert (orderly (swap k) (Near a) = true) as Ho' by (by destruct a).
    destruct (near_sim _ _ _ _ Hinv' (refines_swap _ _ Hr) Hpa Ho' E) as (s' & Hab & Hr').
    destruct (near_frame _ _ _ Ha E) as [Hf Hp]. exists (Duplex.swap s').
    split_and!; [by eapply Duplex.swap_inv, Hkeep|by apply refines_swap| |simpl; by rewrite Hf|done|].
    2: { intros Hfit. by eapply link_fits_swap, near_fits, link_fits_swap. }
    pose proof (near_measure _ _ _ _ _ Ha E Hab) as Hm. unfold link_measure in *.
    rewrite !Duplex.measure_swap in *. simpl in *. lia.
Qed.

Lemma link_run_bounded l k s k' :
  ainv s -> refines k s -> Forall (fun a => action_progresses a = true) l -> link_run l k = Some k' ->
  (length l <= link_measure k s)%nat /\
  e_published (l_near k') = e_published (l_near k) /\
  e_published (l_far k') = e_published (l_far k) /\ (link_fits k -> link_fits k') /\
  exists s', ainv s' /\ refines k' s'.
Proof.
  intros Hinv Hr Hl. revert k s Hinv Hr.
  induction Hl as [|a l Ha _ IH]; simpl; intros k s Hinv Hr.
  - intros [= <-]. split_and!; [lia|done|done|done|eauto].
  - destruct (link_step a k) as [k1|] eqn:E; [|done]. intros Hrun.
    destruct (link_progress _ _ _ _ Hinv Hr Ha E) as (s1 & Hinv1 & Hr1 & Hm & Hp1 & Hp2 & Hf).
    destruct (IH _ _ Hinv1 Hr1 Hrun) as (Hlen & -> & -> & Hf' & Hex). split_and!; [lia|done|done|auto|done].
Qed.

(** The states two fresh sessions can reach: with valid messages, orderly publications and
    connections that resume both sessions, each with its own runtime values. *)
Inductive reachable : Link -> Prop :=
| reachable_init nbuf fbuf nrt frt :
    zlen nbuf <= MQTT_VARINT_MAX -> zlen fbuf <= MQTT_VARINT_MAX ->
    runtime_ok nrt -> runtime_ok frt -> reachable (link_init nbuf fbuf nrt frt)
| reachable_next a k k' :
    reachable k -> action_ok a -> orderly k a = true -> link_step a k = Some k' -> reachable k'.

Lemma reachable_refines k :
  reachable k ->
  exists l s, Duplex.run exactly MAX_RETAINED l Duplex.init = Some s /\ refines k s /\ ainv s.
Proof.
  induction 1 as [nbuf fbuf nrt frt H1 H2 H3 H4|a k k' _ (l & s & Hl & Hr & Hinv) Ha Hg Hs].
  - exists [], Duplex.init. split_and!; [done|by apply init_refines|apply Duplex.duplex_init_inv].
  - destruct (link_sim _ _ _ _ Hinv Hr Ha Hg Hs) as (s' & [-> |[b Hb]] & Hr'); [by exists l, s|].
    exists (l ++ [b]), s'. split_and!; [|done|by eapply Duplex.duplex_step_inv].
    by rewrite Duplex.run_snoc, Hl.
Qed.
(** A run of which every action is orderly. *)
Fixpoint orderly_run (l : list LinkAction) (k : Link) : option Link :=
  match l with
  | [] => Some k
  | a :: l' =>
      if orderly k a then
        match link_step a k with Some k' => orderly_run l' k' | None => None end
      else None
  end.

Lemma orderly_run_reachable l k k' :
  reachable k -> Forall action_ok l -> orderly_run l k = Some k' -> reachable k'.
Proof.
  intros Hk Hl. revert k Hk. induction Hl as [|a l Ha _ IH]; simpl; intros k Hk.
  - by intros [= <-].
  - destruct (orderly k a) eqn:Ho; [|done]. destruct (link_step a k) as [k1|] eqn:Hs; [|done].
    apply IH. by eapply reachable_next.
Qed.

End Refinement.

(** * Both directions *)

Section Directions.
Context {T : Time}.

(** The two directions of a link. *)
Definition opposite (k : Link) (from to : Endpoint) : Prop :=
  (from = l_near k /\ to = l_far k) \/ (from = l_far k /\ to = l_near k).

(** The messages of one quality of service. *)
Definition published_at (q : QoS) (e : Endpoint) : list Message :=
  filter (fun m => msg_qos m = q) (e_published e).
Definition received_at (q : QoS) (e : Endpoint) : list InboundPublish :=
  filter (fun r => ip_qos r = q) (e_received e).
(** The publications of QoS 1 or 2 that are not acknowledged. *)
Definition unacknowledged (q : QoS) (e : Endpoint) : list RetainedPacket :=
  retained_of (publish_kind q) (e_peer e).

Lemma direction k s from to :
  refines k s -> Duplex.inv exactly MAX_RETAINED s -> opposite k from to ->
  exists s', Duplex.inv exactly MAX_RETAINED s' /\ endpoint_rel from (Duplex.near s') /\
    endpoint_rel to (Duplex.far s') /\ (s' = s \/ s' = Duplex.swap s).
Proof.
  intros [Hn Hf _ _] Hinv [[-> ->]|[-> ->]].
  - exists s. auto.
  - exists (Duplex.swap s). split_and!; try done; [by apply Duplex.swap_inv|by right].
Qed.

Lemma filter_fmap {A B} (f : A -> B) (P : B -> Prop) (Q : A -> Prop)
    `{!forall x, Decision (P x), !forall x, Decision (Q x)} (l : list A) :
  (forall x, P (f x) <-> Q x) -> filter P (f <$> l) = f <$> filter Q l.
Proof.
  intros HPQ. induction l as [|a l IH]; [done|]. csimpl. rewrite !filter_cons, IH.
  specialize (HPQ a). repeat case_decide; tauto || done.
Qed.

Lemma sublist_fmap {A B} (f : A -> B) (l k : list A) :
  l `sublist_of` k -> (f <$> l) `sublist_of` (f <$> k).
Proof. induction 1; by constructor. Qed.

Definition qos_of (b : bool) : QoS := if b then QoS.ExactlyOnce else QoS.AtLeastOnce.

Lemma exactly_qos m b : exactly m = b /\ msg_qos m <> QoS.AtMostOnce <-> msg_qos m = qos_of b.
Proof. unfold exactly. destruct (msg_qos m), b; simpl; naive_solver. Qed.

Lemma published_flow ep e b :
  endpoint_rel ep e ->
  published_at (qos_of b) ep = (Duplex.msgs_of exactly b (Duplex.published e)).*2.
Proof.
  intros Hr. unfold Duplex.msgs_of.
  rewrite <- (filter_fmap snd (fun m => exactly m = b) (fun t => exactly t.2 = b)) by done.
  rewrite <- (er_published _ _ Hr), list_filter_filter. apply list_filter_iff.
  intros m. by rewrite exactly_qos.
Qed.

Lemma received_flow ep e b :
  endpoint_rel ep e ->
  received_at (qos_of b) ep = msg_inbound <$> (Duplex.msgs_of exactly b (Duplex.delivered e)).*2.
Proof.
  intros Hr. pose proof (er_received _ _ Hr) as Hd. unfold Duplex.msgs_of.
  rewrite <- (filter_fmap snd (fun m => exactly m = b) (fun t => exactly t.2 = b)) by done.
  transitivity (filter (fun r => ip_qos r = qos_of b)
    (filter (fun r => ip_qos r <> QoS.AtMostOnce) (e_received ep))).
  { rewrite list_filter_filter. apply list_filter_iff. intros r. destruct (ip_qos r), b; simpl; naive_solver. }
  rewrite Hd, (filter_fmap msg_inbound _ (fun m => msg_qos m = qos_of b)) by done. f_equal.
  apply Qos2.filter_same. intros m Hm. rewrite <- exactly_qos. split; [tauto|].
  intros Hx. split; [done|]. apply (list_elem_of_fmap_2 msg_inbound) in Hm. rewrite <- Hd in Hm.
  by apply list_elem_of_filter in Hm as [? _].
Qed.

Lemma retained_flow ep e b :
  endpoint_rel ep e ->
  length (unacknowledged (qos_of b) ep) =
  length (Duplex.pubs_of exactly b (Duplex.pubs e)).
Proof.
  intros Hr. rewrite <- (peer_retained _ _ b (er_peer _ _ Hr)). by destruct b.
Qed.

Lemma flow0 ep e :
  endpoint_rel ep e ->
  published_at QoS.AtMostOnce ep = Duplex.published0 e /\
  received_at QoS.AtMostOnce ep = msg_inbound <$> Duplex.delivered0 e.
Proof. by intros []. Qed.

Lemma endpoint_quiescent ep e :
  endpoint_rel ep e -> Duplex.pubs e = [] -> Duplex.rels e = ∅ -> Duplex.pending e = None ->
  is_quiescent (peer_out (e_peer ep)) = true.
Proof.
  intros [Hp _ _ _ _] H1 H2 H3. pose proof (peer_ids _ _ Hp) as Hids. rewrite H1 in Hids.
  pose proof (pr_rels _ _ Hp) as Hr. rewrite H2 in Hr. pose proof (pr_pending _ _ Hp) as Hc.
  rewrite H3 in Hc. simpl in Hc. unfold is_quiescent, has_pending_state. rewrite Hc.
  destruct (retained _); [|done].
  assert (length (pending_release (peer_out (e_peer ep))) = 0%nat) as Hl.
  { rewrite <- releases_size by apply (peer_unique _ _ Hp). by rewrite Hr. }
  by destruct (pending_release _).
Qed.
End Directions.

(** A stuck link, seen in either direction, is idle on both sides. *)
Lemma stuck_direction {T : Time} (k : Link) s from to :
  refines k s -> Duplex.inv exactly MAX_RETAINED s -> link_fits k -> link_stuck k ->
  opposite k from to ->
  exists s', Duplex.inv exactly MAX_RETAINED s' /\ endpoint_rel from (Duplex.near s') /\
    endpoint_rel to (Duplex.far s') /\ Duplex.idle exactly MAX_RETAINED s' /\
    Duplex.idle exactly MAX_RETAINED (Duplex.swap s').
Proof.
  intros Hr Hinv [Hfn Hff] Hst Hd. destruct (link_stuck_sides _ Hst) as [Hn Hf].
  pose proof (stuck_idle _ _ Hinv Hr Hfn Hn) as H1.
  pose proof (stuck_idle _ _ (Duplex.swap_inv _ _ _ Hinv) (refines_swap _ _ Hr) Hff Hf) as H2.
  destruct (direction _ _ _ _ Hr Hinv Hd) as (s' & Hinv' & Hfrom & Hto & [-> | ->]).
  - by exists s.
  - exists (Duplex.swap s). by rewrite Duplex.swap_swap.
Qed.

(** * Claims *)

(** C5: the two sessions implement the abstract protocol. Two fresh
    sessions of the client publish valid messages at every QoS, write, flush and receive
    packets in any order and in both directions, lose the connection and resume on others
    of any maximum packet size of at least five bytes, any number of times. Provided that a
    side publishes a QoS 2 message only with fewer than eight of its QoS 2 publications
    incomplete, and a QoS 1 message only with an identifier of which no packet is on the
    way (two conditions the code does not check), the tables of both sessions, the packets
    on the way, and the messages published and received are always those of a state the
    abstract two-way machine reaches. *)
Theorem link_refines_machine {T : Time} (k : Link) :
  reachable k ->
  exists l s, Duplex.run exactly MAX_RETAINED l Duplex.init = Some s /\ refines k s.
Proof.
  intros Hk. destruct (reachable_refines _ Hk) as (l & s & Hl & Hr & _). by exists l, s.
Qed.

(** C2: QoS 2 messages arrive exactly once and in order. In every reachable state of the
    link and in both directions, the QoS 2 messages handed to the receiving application
    are the first ones that were published, each once, in the order of publication; and
    no more are outstanding than QoS 2 packets the sender still retains, so that once it
    retains none, everything published was received.
    Reachable: fresh sessions, valid messages, connections that resume both sessions and
    admit packets of five bytes, and orderly publications (of QoS 2 with fewer than eight
    incomplete at that side, of QoS 1 with an identifier of which no packet is on the
    way). *)
Theorem exactly_once {T : Time} (k : Link) from to :
  reachable k -> opposite k from to ->
  exists rest, msg_inbound <$> published_at QoS.ExactlyOnce from =
      received_at QoS.ExactlyOnce to ++ rest /\
    (length rest <= length (unacknowledged QoS.ExactlyOnce from))%nat.
Proof.
  intros Hk Hd. destruct (reachable_refines _ Hk) as (_ & s & _ & Hr & Hinv).
  destruct (direction _ _ _ _ Hr Hinv Hd) as (s' & [Hf _] & Hfrom & Hto & _).
  destruct (Qos2.inv_kept _ _ (Duplex.flow_inv2 _ _ _ Hf)) as (l & Hpub & Hsub). simpl in Hpub, Hsub.
  pose proof (published_flow _ _ true Hfrom) as Hp. pose proof (received_flow _ _ true Hto) as Hv.
  pose proof (retained_flow _ _ true Hfrom) as Hl. simpl in Hp, Hv, Hl.
  exists (msg_inbound <$> (Qos2.pub_msg <$> l).*2). rewrite Hp, Hv, Hl, Hpub, !fmap_app.
  split; [done|]. rewrite !length_fmap. by apply sublist_length.
Qed.

(** C3: QoS 1 messages arrive at least once and in order. In every reachable state of the
    link and in both directions, the QoS 1 messages handed to the receiving application
    are the first ones that were published, each for the first time in the order of
    publication and then possibly again; and no more are outstanding than QoS 1 packets
    the sender still retains.
    Reachable: fresh sessions, valid messages, connections that resume both sessions and
    admit packets of five bytes, and orderly publications (of QoS 2 with fewer than eight
    incomplete at that side, of QoS 1 with an identifier of which no packet is on the
    way). *)
Theorem at_least_once {T : Time} (k : Link) from to :
  reachable k -> opposite k from to ->
  exists n, redelivers (msg_inbound <$> published_at QoS.AtLeastOnce from)
              (received_at QoS.AtLeastOnce to) n /\
    (length (published_at QoS.AtLeastOnce from) <=
     n + length (unacknowledged QoS.AtLeastOnce from))%nat.
Proof.
  intros Hk Hd. destruct (reachable_refines _ Hk) as (_ & s & _ & Hr & Hinv).
  destruct (direction _ _ _ _ Hr Hinv Hd) as (s' & [Hf _] & Hfrom & Hto & _).
  destruct (Qos1.inv_redelivers _ (Duplex.flow_inv1 _ _ _ Hf)) as (n & Hn & Hlen). simpl in Hn, Hlen.
  pose proof (published_flow _ _ false Hfrom) as Hp. pose proof (received_flow _ _ false Hto) as Hv.
  pose proof (retained_flow _ _ false Hfrom) as Hl. simpl in Hp, Hv, Hl.
  exists n. rewrite Hp, Hv, Hl, length_fmap. split; [|done]. by do 2 apply redelivers_fmap.
Qed.

(** C22: QoS 0 messages arrive at most once and in order: in every reachable state of the link
    and in both directions, those handed to the receiving application are some of those
    published, in the order of publication.
    Reachable: fresh sessions, valid messages, connections that resume both sessions and
    admit packets of five bytes, and orderly publications (of QoS 2 with fewer than eight
    incomplete at that side, of QoS 1 with an identifier of which no packet is on the
    way). *)
Theorem at_most_once {T : Time} (k : Link) from to :
  reachable k -> opposite k from to ->
  received_at QoS.AtMostOnce to `sublist_of` (msg_inbound <$> published_at QoS.AtMostOnce from).
Proof.
  intros Hk Hd. destruct (reachable_refines _ Hk) as (_ & s & _ & Hr & Hinv).
  destruct (direction _ _ _ _ Hr Hinv Hd) as (s' & [Hf _] & Hfrom & Hto & _).
  destruct (flow0 _ _ Hfrom) as [-> _]. destruct (flow0 _ _ Hto) as [_ ->].
  apply sublist_fmap. etransitivity; [|apply (Duplex.flow_inv0 _ _ _ Hf)]. by apply sublist_inserts_r.
Qed.

(** C4: delivery completes. From every reachable state, when no connection is lost any
    more, only a bounded number of actions of the two sessions is possible before a new
    message is published, whatever their order. If every packet that is retained fits the
    maximum packet size of its current connection (which the code does not ensure for
    packets accepted on an earlier one), then where no further action is possible, in both directions every QoS 2 message published has been received, every QoS 1
    message has been received at least once, and both sessions hold nothing: all
    operations are complete.
    Reachable: fresh sessions, valid messages, connections that resume both sessions and
    admit packets of five bytes, and orderly publications (of QoS 2 with fewer than eight
    incomplete at that side, of QoS 1 with an identifier of which no packet is on the
    way). *)
Theorem delivery_completes {T : Time} (k : Link) :
  reachable k ->
  exists n, forall l k',
    Forall (fun a => action_progresses a = true) l -> link_run l k = Some k' ->
    (length l <= n)%nat /\
    e_published (l_near k') = e_published (l_near k) /\
    e_published (l_far k') = e_published (l_far k) /\
    (link_fits k -> link_stuck k' ->
       forall from to, opposite k' from to ->
         received_at QoS.ExactlyOnce to = msg_inbound <$> published_at QoS.ExactlyOnce from /\
         redelivers (msg_inbound <$> published_at QoS.AtLeastOnce from)
           (received_at QoS.AtLeastOnce to) (length (published_at QoS.AtLeastOnce from)) /\
         is_quiescent (peer_out (e_peer from)) = true).
Proof.
  intros Hk. destruct (reachable_refines _ Hk) as (_ & s & _ & Hr & Hinv).
  exists (link_measure k s). intros l k' Hl Hrun.
  destruct (link_run_bounded _ _ _ _ Hinv Hr Hl Hrun) as (Hlen & Hp1 & Hp2 & Hfits & s' & Hinv' & Hr').
  split_and!; try done. intros Hfit Hst from to Hd.
  destruct (stuck_direction _ _ _ _ Hr' Hinv' (Hfits Hfit) Hst Hd) as (s1 & Hinv1 & Hfrom & Hto & Hn & Hf).
  destruct (Duplex.idle_flow _ _ _ Hinv1 Hn Hf) as (D2 & D1 & Hpubs & Hrels).
  pose proof (published_flow _ _ true Hfrom) as P2. pose proof (received_flow _ _ true Hto) as R2.
  pose proof (published_flow _ _ false Hfrom) as P1. pose proof (received_flow _ _ false Hto) as R1.
  simpl in P1, P2, R1, R2. split_and!.
  - by rewrite R2, P2, D2.
  - rewrite R1, P1, length_fmap. do 2 apply redelivers_fmap. rewrite <- D1.
    rewrite <- (app_nil_r (once _)) at 1. apply redelivers_once.
  - eapply endpoint_quiescent; [done..|]. by destruct (Duplex.idle_side _ _ _ Hn).
Qed.

(** * Witnesses *)

Definition demo_message (q : QoS) (b : Z) : Message :=
  mkMessage [116] [b] (Slice [Property.ContentType [99]]) Retain.NotRetained q.

Definition demo_runtime : RuntimeState (T := Scripted.time) := snd demo_session.

(** The same with a maximum packet size. *)
Definition demo_limit (n : option Z) : RuntimeState (T := Scripted.time) :=
  mkRuntime false (keepalive_interval demo_runtime) 10 10 n None None None.

Definition demo_buf : bytes := repeat 0 64.

Definition demo_start : Link (T := Scripted.time) :=
  link_init demo_buf demo_buf demo_runtime demo_runtime.

(** A message of every QoS from the near side and one from the far side; the connection is
    lost with the QoS 2 message received and its PUBREC not sent, and the QoS 1 messages on
    the way. *)
Definition demo_actions : list (LinkAction (T := Scripted.time)) :=
  [Near (DoPublish (demo_message QoS.AtMostOnce 0)); Far DoRead;
   Near (DoPublish (demo_message QoS.ExactlyOnce 1));
   Near (DoPublish (demo_message QoS.AtLeastOnce 2));
   Far (DoPublish (demo_message QoS.AtLeastOnce 3));
   Near DoWrite; Near DoWrite; Far DoWrite; Far DoRead; Near DoRead;
   DoLose (demo_limit (Some 20)) (demo_limit (Some 30));
   Far DoWrite; Near DoWrite; Near DoFlush; Far DoFlush; Far DoWrite; Near DoRead; Near DoRead].

Definition demo_link : Link (T := Scripted.time) :=
  default demo_start (orderly_run demo_actions demo_start).

(** The rest of the exchange, without a loss. *)
Definition demo_rest : list (LinkAction (T := Scripted.time)) :=
  [Near DoWrite; Near DoWrite; Near DoWrite; Near DoFlush; Far DoRead; Far DoRead; Far DoRead;
   Far DoWrite; Near DoRead; Far DoFlush; Far DoRead; Far DoWrite; Near DoRead; Far DoFlush].

Definition demo_done : Link (T := Scripted.time) :=
  default demo_start (link_run demo_rest demo_link).

Lemma demo_runtime_ok : runtime_ok demo_runtime.
Proof. by vm_compute. Qed.

Lemma demo_limit_ok n : 5 <= n -> runtime_ok (demo_limit (Some n)).
Proof. intros Hn. split; [by vm_compute|]. by apply Z.ltb_ge. Qed.

Lemma demo_message_ok q b : is_u8 b -> message_ok (demo_message q b).
Proof.
  intros Hb. split; [by vm_compute|]. split; [|by apply Forall_singleton].
  split; [|by vm_compute]. apply Forall_singleton. by vm_compute.
Qed.

Lemma demo_actions_ok : Forall action_ok demo_actions.
Proof.
  pose proof (demo_limit_ok 20 ltac:(lia)). pose proof (demo_limit_ok 30 ltac:(lia)).
  unfold demo_actions.
  repeat (apply Forall_cons; split; [try done; apply demo_message_ok; unfold is_u8; lia|]). done.
Qed.

Lemma default_some {A} (d : A) o :
  match o with Some _ => true | None => false end = true -> o = Some (default d o).
Proof. by destruct o. Qed.

Lemma demo_reachable : reachable demo_link.
Proof.
  apply (orderly_run_reachable demo_actions demo_start).
  - apply reachable_init; [by vm_compute..|exact demo_runtime_ok|exact demo_runtime_ok].
  - exact demo_actions_ok.
  - apply default_some. by vm_compute.
Qed.

Lemma demo_done_run : link_run demo_rest demo_link = Some demo_done.
Proof. apply default_some. by vm_compute. Qed.

Lemma demo_forth : opposite demo_link (l_near demo_link) (l_far demo_link).
Proof. by left. Qed.

Lemma demo_back : opposite demo_link (l_far demo_link) (l_near demo_link).
Proof. by right. Qed.

Lemma demo_rest_progress : Forall (fun a => action_progresses a = true) demo_rest.
Proof. by repeat constructor. Qed.

Lemma demo_link_fits : link_fits demo_link.
Proof. split; vm_compute; repeat constructor. Qed.

Lemma demo_done_stuck : link_stuck demo_done.
Proof. intros [[]|[]|] Ha; try done; by vm_compute. Qed.

Lemma link_refines_machine_witness :
  exists l s, Duplex.run exactly MAX_RETAINED l Duplex.init = Some s /\ refines demo_link s.
Proof. apply (link_refines_machine demo_link demo_reachable). Defined.

Lemma exactly_once_witness :
  exists rest, [msg_inbound (demo_message QoS.ExactlyOnce 1)] =
    received_at QoS.ExactlyOnce (l_far demo_link) ++ rest.
Proof.
  destruct (exactly_once demo_link _ _ demo_reachable demo_forth) as (rest & H1 & _).
  exists rest. rewrite <- H1. by vm_compute.
Defined.

(** The far side's message arrived twice. *)
Lemma at_least_once_witness :
  let m := msg_inbound (demo_message QoS.AtLeastOnce 3) in
  received_at QoS.AtLeastOnce (l_near demo_link) = [m; m] /\ exists n, redelivers [m] [m; m] n.
Proof.
  destruct (at_least_once demo_link _ _ demo_reachable demo_back) as (n & H1 & _).
  split; [by vm_compute|]. exists n. exact H1.
Defined.

Lemma at_most_once_witness :
  received_at QoS.AtMostOnce (l_far demo_link) `sublist_of`
    [msg_inbound (demo_message QoS.AtMostOnce 0)].
Proof. apply (at_most_once demo_link _ _ demo_reachable demo_forth). Defined.

Lemma delivery_completes_witness :
  received_at QoS.ExactlyOnce (l_far demo_done) = [msg_inbound (demo_message QoS.ExactlyOnce 1)].
Proof.
  destruct (delivery_completes demo_link demo_reachable) as [n Hn].
  destruct (Hn demo_rest demo_done demo_rest_progress demo_done_run) as (_ & _ & _ & Hd).
  destruct (Hd demo_link_fits demo_done_stuck (l_near demo_done) (l_far demo_done) (or_introl (conj eq_refl eq_refl)))
    as [Hr _].
  rewrite Hr. by vm_compute.
Defined.

(** * Deviations *)

(** A PUBCOMP is lost after the receiver released the identifier. *)
Definition demo_lost_pubcomp : list (LinkAction (T := Scripted.time)) :=
  [Near (DoPublish (demo_message QoS.ExactlyOnce 1)); Near DoWrite; Far DoRead; Far DoWrite;
   Far DoFlush; Near DoRead; Near DoWrite; Far DoRead; Far DoWrite; Far DoFlush;
   DoLose demo_runtime demo_runtime; Near DoWrite; Far DoRead; Far DoWrite; Far DoFlush].

(** What the sender's application sees of the PUBCOMP that follows. *)
Definition demo_lost_result : option (result (Error Empty_set) bool * OpStatus) :=
  match link_run demo_lost_pubcomp demo_start with
  | Some k =>
      match l_in k with
      | packet :: _ =>
          match from_buffer packet with
          | Ok p => let '(s, r) := handle_packet p (e_peer (l_near k)) in
                    Some (r, status (fst s) (mkOp OpKind.PublishExactlyOnce 1 (generation (fst s))))
          | Err _ => None
          end
      | [] => None
      end
  | None => None
  end.

(** A recovery that MQTT calls no error is reported as one: the connection is lost with
    the PUBCOMP on the way, the replayed PUBREL finds no identifier and is answered
    [PacketIdNotFound], and the sender reports the message as rejected although it was
    received and its operation is complete. *)
Theorem lost_pubcomp_reported_rejected :
  demo_lost_result =
  Some (Err (Error.Peer (PeerError.Rejected ReasonCode.PacketIdNotFound)), Complete).
Proof. by vm_compute. Qed.

(** A sender whose peer accepts one unacknowledged publication at a time. *)
Definition demo_receive_maximum (n : Z) : RuntimeState (T := Scripted.time) :=
  mkRuntime false (keepalive_interval demo_runtime) n n None None None None.

(** The send quota comes back with the PUBREC, not with the PUBCOMP: with a receive
    maximum of one, a second QoS 2 publication is accepted and written while the first is
    not complete. *)
Theorem receive_maximum_exceeded :
  option_map (fun k => (incomplete (e_peer (l_near k)), length (e_published (l_near k)),
                        length (l_out k)))
    (link_run [Near (DoPublish (demo_message QoS.ExactlyOnce 1)); Near DoWrite; Far DoRead;
               Far DoWrite; Near DoRead; Near (DoPublish (demo_message QoS.ExactlyOnce 2));
               Near DoWrite; Near DoWrite]
       (link_init demo_buf demo_buf (demo_receive_maximum 1) demo_runtime)) =
  Some (2%nat, 2%nat, 2%nat).
Proof. by vm_compute. Qed.

(** A QoS 2 publish whose PUBREC exceeds the peer's maximum packet size is reserved
    before it is refused: delivered again on a connection with a larger limit, it counts
    as a duplicate and is never handed to the application. *)
Theorem refused_publish_is_lost :
  let p := ReceivedPacket.Publish (demo_qos2 5) in
  let '(s, r) := handle_packet p (fst demo_session, demo_limit (Some 4)) in
  r = Err (Error.Resource ResourceError.PacketTooLarge) /\
  snd (handle_packet p (fst s, demo_limit None)) = Ok false.
Proof. by vm_compute. Qed.

(** A PUBACK queued on a connection that is lost is sent on the next one, ahead of the
    redelivered publish, which is acknowledged as well: one PUBLISH of the new connection
    is answered by two PUBACKs with its identifier. The outcomes are the packets written
    on the second connection. *)
Definition demo_qos1_packet (dup : bool) : bytes :=
  packet_bytes (publish_fixed_header QoS.AtLeastOnce Retain.NotRetained dup) [0; 1; 116; 0; 5; 0; 7].

Definition demo_second_connection : option (list bytes) :=
  match receive demo_session (demo_qos1_packet false) with
  | Some (p, _) =>
      match transmit (resume p demo_runtime) with
      | Some (p, first) =>
          match flush_peer p with
          | Some p =>
              match receive p (demo_qos1_packet true) with
              | Some (p, _) => option_map (fun '(_, second) => [first; second]) (transmit p)
              | None => None
              end
          | None => None
          end
      | None => None
      end
  | None => None
  end.

Theorem puback_of_lost_connection_sent :
  let puback := control_packet (ControlAction.PubAck 5 ReasonCode.Success) in
  demo_second_connection = Some [puback; puback].
Proof. by vm_compute. Qed.

(** The second PUBACK of a message is on the way to the near side, which has received the
    first. A publication that fails takes an identifier as well: after 65534 of them the
    counter is back where the next one takes the identifier of that message. *)
Definition demo_two_pubacks : list (LinkAction (T := Scripted.time)) :=
  [Near (DoPublish (demo_message QoS.AtLeastOnce 1)); Near DoWrite; Far DoRead;
   DoLose demo_runtime demo_runtime; Near DoWrite; Far DoWrite; Far DoFlush; Far DoRead;
   Far DoWrite; Far DoFlush; Near DoRead].

Definition demo_wrapped : option (bool * bool * nat * nat * OpStatus) :=
  match link_run demo_two_pubacks demo_start with
  | Some k =>
      let p := (set_packet_id (fst (e_peer (l_near k))) 1, snd (e_peer (l_near k))) in
      let '(d, packet_id) := next_packet_id (fst p) in
      let '(p, accepted) := accept p (demo_message QoS.AtLeastOnce 2) in
      match l_in k with
      | packet :: _ =>
          match receive p packet with
          | Some (p, _) =>
              Some (under_way k packet_id, accepted, length (retained (peer_out p)),
                    length (e_received (l_far k)),
                    status (fst p) (mkOp OpKind.PublishAtLeastOnce packet_id (generation (fst p))))
          | None => None
          end
      | [] => None
      end
  | None => None
  end.

(** Why an identifier must not come back with its packets on the way: the second PUBACK of
    the first message completes the operation of the second, which was not even written;
    the far side has received only the first message, twice. *)
Theorem wrapped_identifier_loses_message :
  demo_wrapped = Some (true, true, 0%nat, 2%nat, Complete).
Proof. by vm_compute. Qed.

(** ** Conditions of the claims that the code does not ensure *)

(** A publication of QoS 1 is accepted, and the session resumes on a connection whose
    CONNACK announces a maximum packet size of five bytes. *)
Definition demo_lowered : list (LinkAction (T := Scripted.time)) :=
  [Near (DoPublish (demo_message QoS.AtLeastOnce 1)); DoLose (demo_limit (Some 5)) demo_runtime].

Definition demo_blocked : Link (T := Scripted.time) :=
  default demo_start (orderly_run demo_lowered demo_start).

(** Without [link_fits] delivery does not complete: a packet fits the connection it was accepted
    on, but not every later one. In a reachable state, on
    a link that carries nothing, neither session can do anything, and the message that was
    accepted is retained and not delivered. *)
Theorem lowered_limit_blocks_replay :
  reachable demo_blocked /\ link_stuck demo_blocked /\
  published_at QoS.AtLeastOnce (l_near demo_blocked) = [demo_message QoS.AtLeastOnce 1] /\
  e_received (l_far demo_blocked) = [] /\
  length (unacknowledged QoS.AtLeastOnce (l_near demo_blocked)) = 1%nat.
Proof.
  split.
  - apply (orderly_run_reachable demo_lowered demo_start).
    + apply reachable_init; [by vm_compute..|exact demo_runtime_ok|exact demo_runtime_ok].
    + pose proof demo_runtime_ok. pose proof (demo_limit_ok 5 ltac:(lia)).
      apply Forall_cons. split; [apply demo_message_ok; unfold is_u8; lia|]. by constructor.
    + apply default_some. by vm_compute.
  - split; [intros [[]|[]|] Ha; try done; by vm_compute|by vm_compute].
Qed.

(** Eight QoS 2 messages are released, a ninth is accepted and received while their PUBCOMPs
    are on the way, and the connection is lost. *)
Definition demo_rounds (n : nat) (l : list (LinkAction (T := Scripted.time))) : list LinkAction :=
  concat (repeat l n).

Definition demo_overflow : list (LinkAction (T := Scripted.time)) :=
  demo_rounds 8 [Near (DoPublish (demo_message QoS.ExactlyOnce 1)); Near DoWrite] ++
  demo_rounds 8 [Far DoRead; Far DoWrite; Far DoFlush; Near DoRead] ++
  [Near (DoPublish (demo_message QoS.ExactlyOnce 2))] ++
  demo_rounds 9 [Near DoWrite] ++ demo_rounds 8 [Far DoRead; Far DoWrite; Far DoFlush] ++
  [Far DoRead; DoLose demo_runtime demo_runtime; Far DoWrite; Far DoFlush; Near DoRead] ++
  demo_rounds 8 [Near DoWrite; Far DoRead; Far DoWrite; Far DoFlush; Near DoRead].

(** Why no ninth QoS 2 message is published with eight incomplete: its PUBREC, sent again on
    the next connection ahead of the PUBCOMPs, finds the release table full and is dropped.
    The sender is quiescent, no PUBREL follows, and the receiver keeps the identifier, so
    that a later message with it is taken for a duplicate. *)
Theorem release_overflow_keeps_identifier :
  option_map (fun k => (length (e_published (l_near k)), length (e_received (l_far k)),
                        is_quiescent (peer_out (e_peer (l_near k))), is_empty (l_out k),
                        pending_server_packet_ids (fst (e_peer (l_far k)))))
    (link_run demo_overflow
       (link_init (repeat 0 256) (repeat 0 256) demo_runtime demo_runtime)) =
  Some (9%nat, 9%nat, true, true, [9]).
Proof. by vm_compute. Qed.
