(* ===== verification/Rpc.v ===== *)
(** Requests and responses: the crate [src/mqtt-rpc/src/lib.rs].

    The service holds the topic of its tree and the state of its subscription;
    the connection is the one of [Connection.v]. A step of the service passes
    both states; its future may be dropped like any other. *)

From Stdlib Require Import String.
From S2P Require Import Prelude Types Io Text Wire Ser Properties Packets Outbound Session.
From S2P Require Import Connection Driver Operations.

Local Open Scope Z_scope.
Local Open Scope list_scope.

Definition MAX_TOPIC_LENGTH : Z := 128.
Definition MAX_CORRELATION_LENGTH : Z := 32.
Definition RESPONSE_EXPIRY_SECS : Z := 30.
Definition RESPONSE_CODE_PROPERTY : bytes := str "code".
Definition SUCCESS_CODE : bytes := str "Ok".
Definition RPC_SUFFIX : bytes := str "/rpc".
Definition RPC_FILTER_SUFFIX : bytes := str "/#".

Inductive RpcConfigError : Type := TopicTooLong.

Module RejectReason.
Inductive RejectReason : Type :=
| Retained | MissingResponseTopic | ResponseTargetTooLong | EmptyMethod.
End RejectReason.
Abbreviation RejectReason := RejectReason.RejectReason.

Definition reject_code (r : RejectReason) : bytes :=
  match r with
  | RejectReason.Retained => str "Retained"
  | RejectReason.MissingResponseTopic => str "MissingResponseTopic"
  | RejectReason.ResponseTargetTooLong => str "ResponseTargetTooLong"
  | RejectReason.EmptyMethod => str "EmptyMethod"
  end.

Record Request : Type := mkRequest {
  request_method : bytes;
  request_payload : bytes;
  request_response : ResponseTarget
}.

Record Rejected : Type := mkRejected {
  rejected_reason : RejectReason;
  rejected_response : option ResponseTarget
}.

(** [Handle]. *)
Inductive RpcHandle : Type :=
| RpcUnhandled
| RpcRejected (r : Rejected)
| RpcRequest (r : Request).

Record RpcService : Type := mkRpcService {
  rpc_topic : bytes;
  rpc_subscribe : option Op;
  rpc_ready : bool
}.

(** [Service::new]. *)
Definition rpc_new (device_prefix : bytes) : result RpcConfigError RpcService :=
  if MAX_TOPIC_LENGTH <? zlen device_prefix + zlen RPC_SUFFIX + zlen RPC_FILTER_SUFFIX
  then Err TopicTooLong else
  let? topic := ok_or TopicTooLong (push_str MAX_TOPIC_LENGTH [] device_prefix) in
  let? topic := ok_or TopicTooLong (push_str MAX_TOPIC_LENGTH topic RPC_SUFFIX) in
  Ok (mkRpcService topic None false).

(** [Service::begin_connection]. *)
Definition begin_connection (s : RpcService) (event : ConnectEvent) : RpcService :=
  mkRpcService (rpc_topic s) None
    (rpc_ready s && match event with ConnectEvent.Reconnected => true | _ => false end).

(** [Service::method]. *)
Definition rpc_method (s : RpcService) (topic : bytes) : option bytes :=
  match strip_prefix (rpc_topic s) topic with
  | None => None
  | Some [] => Some []
  | Some suffix => strip_prefix (str "/") suffix
  end.

(** [Service::handle]. *)
Definition rpc_handle (s : RpcService) (inbound : InboundPublish) : RpcHandle :=
  match rpc_method s (ip_topic inbound) with
  | None => RpcUnhandled
  | Some method =>
      let response := reply_owned MAX_TOPIC_LENGTH MAX_CORRELATION_LENGTH inbound in
      if ip_retained inbound then
        RpcRejected (mkRejected RejectReason.Retained
          match response with Ok (Some target) => Some target | _ => None end)
      else
        match response with
        | Err _ => RpcRejected (mkRejected RejectReason.ResponseTargetTooLong None)
        | Ok None => RpcRejected (mkRejected RejectReason.MissingResponseTopic None)
        | Ok (Some response) =>
            match method with
            | [] => RpcRejected (mkRejected RejectReason.EmptyMethod (Some response))
            | _ => RpcRequest (mkRequest method (ip_payload inbound) response)
            end
        end
  end.

(** The options both helper services subscribe with. *)
Definition rpc_options : SubscriptionOptions :=
  ignore_local_messages (retain_as_published
    (retain_behavior (maximum_qos SubscriptionOptions_default QoS.AtLeastOnce)
       RetainHandling.Never)).

Section RpcStep.
Context {IO E : Type} `{Transport IO E} {T : Time} `{!Clock IO T}.

Definition set_rpc (s : RpcService) (subscribe : option Op) (ready : bool) : RpcService :=
  mkRpcService (rpc_topic s) subscribe ready.

(** [Service::step]. *)
Definition rpc_step : Async (RpcService * Connection IO) (Error E) bool :=
  fun '(s, c) =>
    if rpc_ready s then ((s, c), Some (Ok true)) else
    match rpc_subscribe s with
    | Some op =>
        if is_pending (session c) op then ((s, c), Some (Ok false)) else
        if is_complete (session c) op then ((set_rpc s None true, c), Some (Ok true)) else
        ((set_rpc s None (rpc_ready s), c), Some (Err Error.Disconnected))
    | None =>
        match push_str MAX_TOPIC_LENGTH (rpc_topic s) RPC_FILTER_SUFFIX with
        | None => ((s, c), Some (Err (Error.Resource ResourceError.BufferTooSmall)))
        | Some rpc_filter =>
            let '(c, r) := subscribe [TopicFilter_options (TopicFilter_new rpc_filter) rpc_options] [] c in
            match r with
            | Some (Ok op) => ((set_rpc s (Some op) (rpc_ready s), c), Some (Ok false))
            | Some (Err Error.NotReady)
            | Some (Err (Error.Resource ResourceError.InflightExhausted)) => ((s, c), Some (Ok false))
            | Some (Err (Error.Resource ResourceError.BufferTooSmall)) =>
                if negb (is_publish_quiescent (session c)) then ((s, c), Some (Ok false))
                else ((s, c), Some (Err (Error.Resource ResourceError.BufferTooSmall)))
            | Some (Err err) => ((s, c), Some (Err err))
            | None => ((s, c), None)
            end
        end
    end.

(** The publication of [respond]. *)
Definition response_publication {P} (target : ResponseTarget) (code : bytes) (payload : P)
  : Publication P :=
  Publication_qos
    (Publication_properties (target_publication target payload)
       [Property.MessageExpiryInterval RESPONSE_EXPIRY_SECS;
        Property.UserProperty RESPONSE_CODE_PROPERTY code])
    QoS.AtLeastOnce.

Definition respond {P} (target : ResponseTarget) (code : bytes) (payload : ToPayload P)
  : Async (Connection IO) (PubError P E) (option Op) :=
  let* op := publish (response_publication target code payload) in
  alift (match op with
         | Some op => Ok (Some op)
         | None => Err (PubError.Session Error.InvalidRequest)
         end).
End RpcStep.

(** * Lemmas *)

Lemma rpc_method_some s topic method :
  rpc_method s topic = Some method <->
  (topic = rpc_topic s /\ method = []) \/ topic = rpc_topic s ++ str "/" ++ method.
Proof.
  unfold rpc_method. destruct (strip_prefix (rpc_topic s) topic) as [suffix|] eqn:Hs.
  - apply strip_prefix_some in Hs as ->. destruct suffix as [|x suffix].
    + rewrite app_nil_r. split; [intros [= <-]; by left|]. intros [[_ ->]|He]; [done|].
      rewrite <- (app_nil_r (rpc_topic s)) in He at 1. by apply app_inv_head in He.
    + rewrite strip_prefix_some. split; [intros ->; by right|]. intros [[He _]|He].
      * rewrite <- (app_nil_r (rpc_topic s)) in He at 2. by apply app_inv_head in He.
      * by apply app_inv_head in He.
  - split; [done|]. intros [[-> _]| ->].
    + rewrite <- (app_nil_r (rpc_topic s)) in Hs at 2. by rewrite strip_prefix_app in Hs.
    + by rewrite strip_prefix_app in Hs.
Qed.

(** A target that can be kept: both parts fit, and they are the request's. *)
Definition kept_target (p : InboundPublish) (t : ResponseTarget) : Prop :=
  ip_response_topic p = Some (target_topic t) /\ zlen (target_topic t) <= MAX_TOPIC_LENGTH /\
  target_correlation_data t = ip_correlation_data p /\
  forall data, ip_correlation_data p = Some data -> zlen data <= MAX_CORRELATION_LENGTH.

Lemma reply_owned_some p t :
  reply_owned MAX_TOPIC_LENGTH MAX_CORRELATION_LENGTH p = Ok (Some t) <-> kept_target p t.
Proof.
  unfold reply_owned, response_target, kept_target, target_to_owned, string_try_from.
  destruct (ip_response_topic p) as [topic|]; simpl; [|split; [done|by intros (? & _)]].
  destruct (Z.ltb_spec MAX_TOPIC_LENGTH (zlen topic)); simpl.
  { split; [done|]. intros ([= ->] & ? & _). lia. }
  destruct (ip_correlation_data p) as [data|]; simpl.
  - destruct (Z.ltb_spec MAX_CORRELATION_LENGTH (zlen data)); simpl.
    + split; [done|]. intros (_ & _ & _ & Hd). specialize (Hd data eq_refl). lia.
    + split; [intros [= <-]; split_and!; try done; by intros d [= <-]|].
      intros ([= Ht] & _ & Hc & _). destruct t. simpl in *. by subst.
  - split; [intros [= <-]; by split_and!|].
    intros ([= Ht] & _ & Hc & _). destruct t. simpl in *. by subst.
Qed.

Lemma rpc_handle_request s p r :
  rpc_handle s p = RpcRequest r <->
  ip_topic p = rpc_topic s ++ str "/" ++ request_method r /\ request_method r <> [] /\
  ip_retained p = false /\ request_payload r = ip_payload p /\ kept_target p (request_response r).
Proof.
  rewrite <- reply_owned_some. unfold rpc_handle.
  destruct (rpc_method s (ip_topic p)) as [method|] eqn:Hm.
  - apply rpc_method_some in Hm. destruct (ip_retained p).
    { split; [done|]. by intros (_ & _ & ? & _). }
    destruct (reply_owned _ _ p) as [[t|]|e];
      [|by split; [|intros (_ & _ & _ & _ & ?)]|by split; [|intros (_ & _ & _ & _ & ?)]].
    destruct Hm as [[Ht ->]|Ht].
    + split; [done|]. intros (He & Hne & _). rewrite Ht in He.
      rewrite <- (app_nil_r (rpc_topic s)) in He at 1. by apply app_inv_head in He.
    + assert (forall l : bytes, ip_topic p = rpc_topic s ++ str "/" ++ l -> l = method) as Huniq.
      { intros l Hl. rewrite Ht in Hl. apply app_inv_head in Hl. simpl in Hl. congruence. }
      destruct method as [|x method].
      * split; [done|]. intros (He & Hne & _). by apply Huniq in He.
      * split; [intros [= <-]; by split_and!|]. intros (He & _ & _ & Hp & Hr).
        apply Huniq in He. destruct r. simpl in *. by simplify_eq.
  - split; [done|]. intros (He & _). assert (rpc_method s (ip_topic p) = Some (request_method r)) as Hs
      by (apply rpc_method_some; by right). congruence.
Qed.

Lemma rpc_handle_unhandled s p :
  rpc_handle s p = RpcUnhandled <->
  ip_topic p <> rpc_topic s /\ forall method, ip_topic p <> rpc_topic s ++ str "/" ++ method.
Proof.
  unfold rpc_handle. destruct (rpc_method s (ip_topic p)) as [method|] eqn:Hm.
  - split; [by repeat case_match|]. intros [H1 H2].
    apply rpc_method_some in Hm as [[? _]|Ht]; [done|by apply H2 in Ht].
  - split; [|done]. intros _. split; [intros He|intros method He];
      assert (exists m, rpc_method s (ip_topic p) = Some m) as [m Hs]; try congruence.
    + exists []. apply rpc_method_some. by left.
    + exists method. apply rpc_method_some. by right.
Qed.

Lemma response_iter {P} t code (payload : P) :
  iter (pub_properties (response_publication t code payload)) =
  match target_correlation_data t with Some d => [Ok (Property.CorrelationData d)] | None => [] end ++
  [Ok (Property.MessageExpiryInterval RESPONSE_EXPIRY_SECS);
   Ok (Property.UserProperty RESPONSE_CODE_PROPERTY code)].
Proof. by destruct t as [topic [d|]]. Qed.

Lemma rpc_options_ok : properties_ok (Slice []).
Proof. by constructor. Qed.

(** * Theorems *)

(** C27: which publications become requests, exactly. The service hands out a
    request if and only if the topic lies below its tree with a non-empty method,
    the message is not a retained one, and the response topic is present and fits
    together with the correlation data; method, payload and response target are
    those of the message. A publication is left to others if and only if its
    topic is neither the root of the tree nor below it. *)
Theorem rpc_routes_requests s p :
  (forall r, rpc_handle s p = RpcRequest r <->
     ip_topic p = rpc_topic s ++ str "/" ++ request_method r /\ request_method r <> [] /\
     ip_retained p = false /\ request_payload r = ip_payload p /\
     kept_target p (request_response r)) /\
  (rpc_handle s p = RpcUnhandled <->
     ip_topic p <> rpc_topic s /\ forall method, ip_topic p <> rpc_topic s ++ str "/" ++ method).
Proof. split; [apply rpc_handle_request|apply rpc_handle_unhandled]. Qed.

(** C28: a response answers its request. For every request the service hands out,
    whatever the application answers, the response goes to the response topic the
    requester named with exactly its correlation data (none if it sent none), at
    QoS 1, not retained, with the expiry and one response code; its properties are
    valid for a PUBLISH. *)
Theorem rpc_response_correlates {P} s p r code (payload : P) :
  rpc_handle s p = RpcRequest r ->
  let answer := response_publication (request_response r) code payload in
  ip_response_topic p = Some (pub_topic answer) /\
  correlation_data (pub_properties answer) = ip_correlation_data p /\
  pub_qos answer = QoS.AtLeastOnce /\ pub_retain answer = Retain.NotRetained /\
  pub_payload answer = payload /\
  Ok (Property.MessageExpiryInterval RESPONSE_EXPIRY_SECS) ∈ iter (pub_properties answer) /\
  Ok (Property.UserProperty RESPONSE_CODE_PROPERTY code) ∈ iter (pub_properties answer) /\
  valid_for (pub_properties answer) PropertyContext.Publish = true.
Proof.
  intros (_ & _ & _ & _ & Ht & _ & Hc & _)%rpc_handle_request. cbv zeta.
  unfold correlation_data, valid_for. rewrite response_iter.
  destruct (request_response r) as [topic [d|]]; simpl in *; rewrite <- Hc;
    split_and!; try done; set_solver.
Qed.

Definition demo_rpc : RpcService := mkRpcService (str "d/rpc") None true.
Definition demo_request : InboundPublish :=
  mkInboundPublish (str "d/rpc/ping") [1]
    (Slice [Property.ResponseTopic (str "r"); Property.CorrelationData [7; 8]])
    Retain.NotRetained QoS.AtLeastOnce.

Lemma rpc_response_correlates_witness :
  let r := mkRequest (str "ping") [1] (mkResponseTarget (str "r") (Some [7; 8])) in
  rpc_handle demo_rpc demo_request = RpcRequest r /\
  correlation_data (pub_properties (response_publication (request_response r) SUCCESS_CODE tt)) =
    ip_correlation_data demo_request.
Proof.
  split; [vm_compute; reflexivity|].
  apply (rpc_response_correlates demo_rpc demo_request _ SUCCESS_CODE tt).
  vm_compute. reflexivity.
Defined.

(** A service as [rpc_new] makes it, and as the other operations leave it: the
    filter fits. *)
Definition rpc_wf (s : RpcService) : Prop :=
  zlen (rpc_topic s) + zlen RPC_FILTER_SUFFIX <= MAX_TOPIC_LENGTH.

Lemma rpc_new_wf prefix s : rpc_new prefix = Ok s -> rpc_wf s /\ rpc_topic s = prefix ++ RPC_SUFFIX.
Proof.
  unfold rpc_new. destruct (Z.ltb_spec MAX_TOPIC_LENGTH (zlen prefix + zlen RPC_SUFFIX + zlen RPC_FILTER_SUFFIX)); [done|].
  destruct (push_str _ [] prefix) as [t1|] eqn:H1; [|done]. apply push_str_some in H1 as [_ ->]. simpl.
  destruct (push_str _ _ RPC_SUFFIX) as [t2|] eqn:H2; [|done]. apply push_str_some in H2 as [_ ->]. simpl.
  intros [= <-]. unfold rpc_wf. simpl. split; [|done]. rewrite zlen_app. lia.
Qed.

(** What a step of the RPC service does. It keeps the connection's invariant.
    It reports readiness exactly when it leaves the service ready; it becomes
    ready only when the SUBSCRIBE it issued before was acknowledged; it issues a
    SUBSCRIBE only when none is outstanding, and that one is then pending; while
    one is pending the step changes nothing; and when the session that held it is
    gone, the step reports the disconnection and forgets it. *)
Theorem rpc_step_subscribes_once {IO E} `{Transport IO E} {T : Time} `{!Clock IO T}
    s (c : Connection IO) :
  rpc_wf s -> conn_inv c ->
  let '((s', c'), r) := rpc_step (E := E) (s, c) in
  conn_inv c' /\ rpc_wf s' /\ (r = Some (Ok true) <-> rpc_ready s' = true) /\
  (rpc_ready s' = true -> rpc_ready s = true \/
     exists op, rpc_subscribe s = Some op /\ status (conn_data c) op = Complete) /\
  (forall op, rpc_ready s = false -> rpc_subscribe s = Some op ->
     c' = c /\
     match status (conn_data c) op with
     | Pending => s' = s /\ r = Some (Ok false)
     | Complete => r = Some (Ok true)
     | Invalidated => rpc_subscribe s' = None /\ r = Some (Err Error.Disconnected)
     end) /\
  (forall op, rpc_subscribe s = None -> rpc_subscribe s' = Some op ->
     op_kind op = OpKind.Subscribe /\ status (conn_data c') op = Pending).
Proof.
  intros Hw Hc. unfold rpc_step. destruct (rpc_ready s) eqn:Hr.
  { split_and!; try done; [by left|congruence]. }
  destruct (rpc_subscribe s) as [op|] eqn:Hs.
  - unfold is_pending, is_complete. fold (conn_data c).
    destruct (status (conn_data c) op) eqn:Hst; cbn -[status];
      (split; [done|split; [done|split; [by rewrite ?Hr|split;
        [|split; [intros op' _ [= <-]; by rewrite Hst|done]]]]]); [congruence| |by simpl; rewrite ?Hr].
    intros _. right. by exists op.
  - destruct (push_str _ _ _) as [f|] eqn:Hp.
    2: { unfold push_str, rpc_wf in *. destruct (Z.ltb_spec MAX_TOPIC_LENGTH
           (zlen (rpc_topic s) + zlen RPC_FILTER_SUFFIX)); [lia|done]. }
    destruct (subscribe _ _ c) as [c1 r1] eqn:Hsub.
    apply subscribe_spec in Hsub as [Hc1 Hop]; [|done|apply rpc_options_ok].
    repeat case_match; simplify_eq/=;
      (split; [done|split; [done|split; [by rewrite ?Hr|split;
        [by rewrite ?Hr|split; [done|]]]]]); intros; simplify_eq.
    destruct Hop as (Hk & Hl & _). split; [done|]. by apply op_live_pending.
Qed.

Definition demo_starting : RpcService := mkRpcService (str "d/rpc") None false.

Lemma demo_starting_subscribes :
  match rpc_step (E := unit) (demo_starting, demo_conn []) with
  | ((s', _), Some (Ok false)) => match rpc_subscribe s' with Some _ => true | None => false end
  | _ => false
  end = true.
Proof. vm_compute. reflexivity. Qed.

Lemma demo_starting_wf : rpc_wf demo_starting.
Proof. unfold rpc_wf. vm_compute. discriminate. Qed.

Lemma rpc_step_subscribes_once_witness :
  let '((s', c'), r) := rpc_step (E := unit) (demo_starting, demo_conn []) in
  conn_inv c' /\ r = Some (Ok false) /\
  exists op, rpc_subscribe s' = Some op /\ status (conn_data c') op = Pending.
Proof.
  pose proof (rpc_step_subscribes_once (E := unit) demo_starting (demo_conn []) demo_starting_wf
    (demo_conn_inv [])) as Hs.
  pose proof demo_starting_subscribes as Hd.
  destruct (rpc_step (E := unit) (demo_starting, demo_conn [])) as [[s' c'] r].
  destruct Hs as (Hc & _ & _ & _ & _ & Hop). split; [exact Hc|].
  destruct r as [[[]|]|]; [discriminate Hd| |discriminate Hd|discriminate Hd].
  split; [reflexivity|]. destruct (rpc_subscribe s') as [op|]; [|discriminate Hd].
  exists op. split; [reflexivity|]. apply Hop; reflexivity.
Defined.
