(* ===== verification/Staging.v ===== *)
(** Staging of one object into application-owned storage: the crate
    [src/mqtt-staging/src/lib.rs].

    The service is a state machine: publications of the host and completions of
    the storage backend go in, storage requests come out, and status reports are
    queued for the connection of [Connection.v]. JSON ([serde_json_core]) and
    decimal formatting ([itoa]) come from other crates; they are the class
    [Formats], with what their documentation states as laws. *)

From Stdlib Require Import String.
From S2P Require Import Prelude Varint Types Io Text Wire Ser Properties Packets Outbound Session.
From S2P Require Import Connection Driver Operations.

Local Open Scope Z_scope.
Local Open Scope list_scope.

Definition MAX_STAGING_TOPIC : Z := 128.
Definition MAX_TRANSFER_ID_BYTES : Z := 48.
Definition MAX_STATUS_BYTES : Z := 256.
Definition MANIFEST_SUFFIX : bytes := str "/manifest".
Definition STATUS_SUFFIX : bytes := str "/status".
Definition CHUNK_SUFFIX : bytes := str "/chunk".

Record Transfer : Type := mkTransfer {
  transfer_id : bytes;
  transfer_size : Z;
  transfer_next_offset : Z;
  transfer_fnv1a64 : Z
}.

Record Manifest : Type := mkManifest {
  manifest_id : bytes;
  manifest_size : Z;
  manifest_fnv1a64 : Z
}.

Inductive Step : Type := Quiescent | StepPending.

Inductive CreateError : Type := CreateTopic (e : ResourceError) | InvalidChunkSize.

Record StagingConfig : Type := mkStagingConfig {
  config_capacity : Z;
  config_max_chunk_size : Z;
  config_write_size : Z
}.

Module State.
Inductive State : Type := Idle | Preparing | Ready | Writing | Complete | Error.
End State.
Abbreviation State := State.State.

Module StatusCode.
Inductive StatusCode : Type :=
| Idle | Accepted | Duplicate | Offset | Oversize | Mtu | Unaligned | Storage | Complete | Error.
End StatusCode.
Abbreviation StatusCode := StatusCode.StatusCode.

#[export] Instance State_eq_dec : EqDecision State.
Proof. solve_decision. Defined.
#[export] Instance StatusCode_eq_dec : EqDecision StatusCode.
Proof. solve_decision. Defined.

Record Status : Type := mkStatus {
  status_state : State;
  status_code : StatusCode;
  status_id : bytes;
  status_next_offset : Z;
  status_size : Z;
  status_mtu : Z;
  status_write_size : Z
}.

Module Action.
Inductive Action : Type := Publish (code : StatusCode) | Subscribe.
End Action.
Abbreviation Action := Action.Action.

#[export] Instance Action_eq_dec : EqDecision Action.
Proof. solve_decision. Defined.

Module ChunkError.
Inductive ChunkError : Type := Queue (code : StatusCode) | Fail (code : StatusCode).
End ChunkError.
Abbreviation ChunkError := ChunkError.ChunkError.

Record InFlightAction : Type := mkInFlight { inflight_action : Action; inflight_op : Op }.

Module PendingRequest.
Inductive PendingRequest : Type := Prepare | Write (next_offset : Z) (final_chunk : bool).
End PendingRequest.
Abbreviation PendingRequest := PendingRequest.PendingRequest.

Record StagingWrite : Type := mkStagingWrite {
  sw_offset : Z;
  sw_payload : bytes;
  sw_size : Z;
  sw_fnv1a64 : option Z
}.

Module StagingRequest.
Inductive StagingRequest : Type := Prepare (size : Z) | Write (w : StagingWrite).
End StagingRequest.
Abbreviation StagingRequest := StagingRequest.StagingRequest.

(** [Handle]. *)
Inductive StagingHandle : Type :=
| StagingUnhandled
| StagingConsumed
| StagingRequested (r : StagingRequest).

(** * Other crates *)

(** [serde_json_core] for the manifest and the status, [itoa] for the offset.
    [from_slice] returns the value and how many bytes of the input it used. *)
Class Formats : Type := {
  from_slice : bytes -> option (Manifest * Z);
  to_slice : Status -> option bytes;
  itoa : Z -> bytes;
  (** the values have their Rust types, and no more is used than is there *)
  from_slice_ok : forall payload m used, from_slice payload = Some (m, used) ->
    is_u32 (manifest_size m) /\ 0 <= manifest_fnv1a64 m < 2 ^ 64 /\ 0 <= used <= zlen payload;
  (** decimal digits, without leading zeros *)
  itoa_decimal : forall n, is_u32 n -> itoa n = decimal n
}.

Section Service.
Context `{Formats}.

Record StagingService : Type := mkStaging {
  stg_prefix : bytes;
  stg_inflight : option InFlightAction;
  stg_pending : option Action;
  stg_startup_publish : option StatusCode;
  stg_subscribed : bool;
  stg_state : State;
  stg_transfer : option Transfer;
  stg_request : option PendingRequest;
  stg_capacity : Z;
  stg_max_chunk_size : Z;
  stg_max_rx_packet_size : Z;
  stg_write_size : Z
}.

(** Field updates. *)
Definition set_mqtt (s : StagingService) (inflight : option InFlightAction) (pending : option Action)
    (startup : option StatusCode) (subscribed : bool) : StagingService :=
  mkStaging (stg_prefix s) inflight pending startup subscribed (stg_state s) (stg_transfer s)
    (stg_request s) (stg_capacity s) (stg_max_chunk_size s) (stg_max_rx_packet_size s)
    (stg_write_size s).
Definition set_transfer (s : StagingService) (state : State) (transfer : option Transfer)
    (request : option PendingRequest) : StagingService :=
  mkStaging (stg_prefix s) (stg_inflight s) (stg_pending s) (stg_startup_publish s)
    (stg_subscribed s) state transfer request (stg_capacity s) (stg_max_chunk_size s)
    (stg_max_rx_packet_size s) (stg_write_size s).
Definition set_max_rx (s : StagingService) (n : Z) : StagingService :=
  mkStaging (stg_prefix s) (stg_inflight s) (stg_pending s) (stg_startup_publish s)
    (stg_subscribed s) (stg_state s) (stg_transfer s) (stg_request s) (stg_capacity s)
    (stg_max_chunk_size s) n (stg_write_size s).

(** [topic]. *)
Definition staging_topic (prefix suffix : bytes) : result ResourceError bytes :=
  ok_or ResourceError.BufferTooSmall (push_str MAX_STAGING_TOPIC prefix suffix).

(** [Service::new]. *)
Definition staging_new (prefix : bytes) (config : StagingConfig) : result CreateError StagingService :=
  if (config_write_size config =? 0) || (config_max_chunk_size config =? 0) ||
     negb (config_max_chunk_size config mod config_write_size config =? 0)
  then Err InvalidChunkSize else
  let? prefix := ok_or (CreateTopic ResourceError.BufferTooSmall)
                   (string_try_from MAX_STAGING_TOPIC prefix) in
  let? _ := map_err CreateTopic (staging_topic prefix MANIFEST_SUFFIX) in
  let? _ := map_err CreateTopic (staging_topic prefix STATUS_SUFFIX) in
  let? _ := map_err CreateTopic (staging_topic prefix CHUNK_SUFFIX) in
  Ok (mkStaging prefix None None None false State.Idle None None (config_capacity config)
        (config_max_chunk_size config) 0 (config_write_size config)).

(** The derived topics; the source unwraps them, since [new] checked that they
    fit. *)
Definition topic_or_panic (prefix suffix : bytes) : bytes :=
  match staging_topic prefix suffix with Ok t => t | Err _ => [] end.
Definition manifest_topic (s : StagingService) : bytes := topic_or_panic (stg_prefix s) MANIFEST_SUFFIX.
Definition status_topic (s : StagingService) : bytes := topic_or_panic (stg_prefix s) STATUS_SUFFIX.
Definition chunk_topic (s : StagingService) : bytes := topic_or_panic (stg_prefix s) CHUNK_SUFFIX.

Definition current_code (s : StagingService) : StatusCode :=
  match stg_state s with
  | State.Idle => StatusCode.Idle
  | State.Preparing | State.Ready | State.Writing => StatusCode.Accepted
  | State.Complete => StatusCode.Complete
  | State.Error => StatusCode.Error
  end.

Definition status_with (s : StagingService) (code : StatusCode) : Status :=
  mkStatus (stg_state s) code
    (match stg_transfer s with Some t => transfer_id t | None => [] end)
    (match stg_transfer s with Some t => transfer_next_offset t | None => 0 end)
    (match stg_transfer s with Some t => transfer_size t | None => 0 end)
    (stg_max_chunk_size s) (stg_write_size s).

(** [Service::status]. *)
Definition staging_status (s : StagingService) : Status := status_with s (current_code s).

Definition is_some {A} (o : option A) : bool := match o with Some _ => true | None => false end.

(** [Service::is_complete]. *)
Definition staging_is_complete (s : StagingService) : bool :=
  bool_decide (stg_state s = State.Complete) && negb (is_some (stg_request s)) &&
  negb (is_some (stg_pending s)) && negb (is_some (stg_inflight s)) &&
  negb (is_some (stg_startup_publish s)).

Definition replay_status (s : StagingService) : option StatusCode :=
  if bool_decide (stg_state s = State.Idle) then None else Some (current_code s).

(** [Service::queue]. *)
Definition queue_action (s : StagingService) (action : Action) : StagingService :=
  if bool_decide (stg_pending s = Some Action.Subscribe) ||
     match stg_inflight s with
     | Some inflight => bool_decide (inflight_action inflight = Action.Subscribe)
     | None => false
     end
  then
    match action with
    | Action.Publish code =>
        set_mqtt s (stg_inflight s) (stg_pending s) (Some code) (stg_subscribed s)
    | Action.Subscribe => s
    end
  else set_mqtt s (stg_inflight s) (Some action) (stg_startup_publish s) (stg_subscribed s).

(** [Service::begin_startup]. *)
Definition begin_startup (s : StagingService) (event : ConnectEvent) : StagingService :=
  let replay := replay_status s in
  let s := match event with
           | ConnectEvent.Connected =>
               set_mqtt s None (stg_pending s) (stg_startup_publish s) false
           | ConnectEvent.Reconnected => s
           end in
  if stg_subscribed s then
    let s := set_mqtt s (stg_inflight s) (stg_pending s) None (stg_subscribed s) in
    match replay with
    | Some code => queue_action s (Action.Publish code)
    | None => s
    end
  else
    let s := set_mqtt s (stg_inflight s) (stg_pending s) replay (stg_subscribed s) in
    queue_action s Action.Subscribe.

(** [Service::abort]. *)
Definition abort (s : StagingService) : StagingService * bool :=
  match stg_state s with
  | State.Preparing | State.Ready | State.Writing =>
      let s := set_transfer s State.Error (stg_transfer s) None in
      (queue_action s (Action.Publish StatusCode.Error), true)
  | _ => (s, false)
  end.

(** [Service::complete_request]. *)
Definition complete_request (s : StagingService) (success : bool) : StagingService :=
  match stg_request s with
  | None => s
  | Some request =>
      let s := set_transfer s (stg_state s) (stg_transfer s) None in
      match stg_transfer s with
      | None =>
          queue_action (set_transfer s State.Error None None) (Action.Publish StatusCode.Error)
      | Some transfer =>
          if negb success then
            queue_action (set_transfer s State.Error (Some transfer) None)
              (Action.Publish StatusCode.Storage)
          else
            match request with
            | PendingRequest.Prepare =>
                queue_action (set_transfer s State.Ready (Some transfer) None)
                  (Action.Publish StatusCode.Accepted)
            | PendingRequest.Write next_offset final_chunk =>
                if final_chunk then
                  let transfer := mkTransfer (transfer_id transfer) (transfer_size transfer)
                                    (transfer_size transfer) (transfer_fnv1a64 transfer) in
                  queue_action (set_transfer s State.Complete (Some transfer) None)
                    (Action.Publish StatusCode.Complete)
                else
                  let transfer := mkTransfer (transfer_id transfer) (transfer_size transfer)
                                    next_offset (transfer_fnv1a64 transfer) in
                  queue_action (set_transfer s State.Ready (Some transfer) None)
                    (Action.Publish StatusCode.Accepted)
            end
      end
  end.

(** * Chunks and manifests *)

Definition is_multiple_of (n m : Z) : bool := if m =? 0 then n =? 0 else n mod m =? 0.

Definition payload_padding (payload : bytes) (object_bytes : Z) : option bytes :=
  if object_bytes <? zlen payload then Some (zdrop object_bytes payload) else None.

(** [payload.len() as u32] keeps the low 32 bits; [transfer.size - offset] is a
    [u32] subtraction, written with its wrap-around. *)
Definition validate_chunk (transfer : Transfer) (offset : Z) (payload : bytes)
    (capacity max_chunk_size write_size : Z) : result ChunkError Z :=
  if offset <? transfer_next_offset transfer then Err (ChunkError.Queue StatusCode.Duplicate) else
  if negb (offset =? transfer_next_offset transfer) then Err (ChunkError.Queue StatusCode.Offset) else
  if (zlen payload =? 0) || (max_chunk_size <? zlen payload)
  then Err (ChunkError.Fail StatusCode.Mtu) else
  if negb (is_multiple_of (zlen payload) write_size)
  then Err (ChunkError.Fail StatusCode.Unaligned) else
  match u32_checked_add offset (zlen payload mod 2 ^ 32) with
  | None => Err (ChunkError.Fail StatusCode.Oversize)
  | Some end_ =>
      if capacity <? end_ then Err (ChunkError.Fail StatusCode.Oversize) else
      if end_ <=? transfer_size transfer then Ok end_ else
      match payload_padding payload ((transfer_size transfer - offset) mod 2 ^ 32) with
      | None => Err (ChunkError.Fail StatusCode.Oversize)
      | Some padding =>
          if negb (forallb (fun byte => byte =? 0xff) padding)
          then Err (ChunkError.Fail StatusCode.Oversize)
          else Ok (transfer_size transfer)
      end
  end.

Definition valid_id (id : bytes) : bool :=
  negb (is_empty id) && (zlen id <=? MAX_TRANSFER_ID_BYTES) &&
  forallb (fun byte => is_ascii_alphanumeric byte || contains (str "-._") byte) id.

Definition parse_manifest (payload : bytes) : result unit Transfer :=
  match from_slice payload with
  | None => Err tt
  | Some (manifest, used) =>
      if negb (valid_id (manifest_id manifest)) ||
         negb (forallb is_ascii_whitespace (zdrop used payload))
      then Err tt else
      let? id := ok_or tt (string_try_from MAX_TRANSFER_ID_BYTES (manifest_id manifest)) in
      Ok (mkTransfer id (manifest_size manifest) 0 (manifest_fnv1a64 manifest))
  end.

Record ChunkProperties : Type := mkChunkProperties { chunk_id : bytes; chunk_offset : Z }.

Definition chunk_properties (properties : Properties) : option ChunkProperties :=
  match correlation_data properties with
  | None => None
  | Some id =>
      let offset := foldl (fun offset property =>
        match property with
        | Ok (Property.UserProperty key value) =>
            if bool_decide (key = str "offset") then parse_u32 value else offset
        | _ => offset
        end) None (iter properties) in
      option_map (mkChunkProperties id) offset
  end.

(** The loop divides by 128: one round per bit of the value is more than
    enough. *)
Fixpoint mqtt_varint_len_loop (fuel : nat) (value len : Z) : Z :=
  match fuel with
  | O => len
  | S fuel' => if 128 <=? value then mqtt_varint_len_loop fuel' (value / 128) (len + 1) else len
  end.
Definition mqtt_varint_len (value : Z) : Z :=
  mqtt_varint_len_loop (S (Z.to_nat (Z.log2 value))) value 1.

(** The fixed header, the remaining length, and what it counts: topic, packet
    identifier, property length, properties with the longest offset, payload. *)
Definition required_rx_bytes (topic id : bytes) (payload_size : Z) : Z :=
  let properties := 2 + 1 + 2 + zlen id + 1 + 2 + zlen (str "offset") + 2 + 10 in
  let remaining :=
    2 + zlen topic + 2 + mqtt_varint_len properties + properties + payload_size in
  1 + mqtt_varint_len remaining + remaining.

(** * Handling publications *)

(** [Service::handle_manifest]. *)
Definition handle_manifest (s : StagingService) (payload : bytes) : StagingService * StagingHandle :=
  match parse_manifest payload with
  | Err _ =>
      (if bool_decide (stg_state s = State.Idle)
       then queue_action s (Action.Publish StatusCode.Error) else s, StagingConsumed)
  | Ok manifest =>
      if negb (bool_decide (stg_state s = State.Idle)) then
        if match stg_transfer s with
           | Some transfer =>
               bool_decide (transfer_id transfer = transfer_id manifest) &&
               (transfer_size transfer =? transfer_size manifest) &&
               (transfer_fnv1a64 transfer =? transfer_fnv1a64 manifest)
           | None => false
           end
        then (queue_action s (Action.Publish (current_code s)), StagingConsumed)
        else (s, StagingConsumed)
      else
      if transfer_size manifest =? 0 then
        (queue_action s (Action.Publish StatusCode.Error), StagingConsumed) else
      if stg_capacity s <? transfer_size manifest then
        (queue_action s (Action.Publish StatusCode.Oversize), StagingConsumed) else
      if stg_max_rx_packet_size s <?
         required_rx_bytes (chunk_topic s) (transfer_id manifest) (stg_max_chunk_size s)
      then (queue_action s (Action.Publish StatusCode.Mtu), StagingConsumed) else
      let size := transfer_size manifest in
      let s := set_transfer s State.Preparing (Some manifest) (stg_request s) in
      let s := queue_action s (Action.Publish StatusCode.Accepted) in
      let s := set_transfer s (stg_state s) (stg_transfer s) (Some PendingRequest.Prepare) in
      (s, StagingRequested (StagingRequest.Prepare size))
  end.

(** [Service::handle_chunk]. *)
Definition handle_chunk (s : StagingService) (id : bytes) (offset : Z) (payload : bytes)
  : StagingService * StagingHandle :=
  match stg_transfer s with
  | None => (queue_action s (Action.Publish StatusCode.Idle), StagingConsumed)
  | Some transfer =>
      if negb (bool_decide (id = transfer_id transfer)) then (s, StagingConsumed) else
      match stg_state s with
      | State.Preparing => (s, StagingConsumed)
      | State.Complete | State.Error =>
          (queue_action s (Action.Publish (current_code s)), StagingConsumed)
      | State.Writing => (s, StagingConsumed)
      | State.Idle => (queue_action s (Action.Publish StatusCode.Idle), StagingConsumed)
      | State.Ready =>
          match validate_chunk transfer offset payload (stg_capacity s) (stg_max_chunk_size s)
                  (stg_write_size s) with
          | Err (ChunkError.Queue code) =>
              (queue_action s (Action.Publish code), StagingConsumed)
          | Err (ChunkError.Fail code) =>
              (queue_action (set_transfer s State.Error (stg_transfer s) (stg_request s))
                 (Action.Publish code), StagingConsumed)
          | Ok next_offset =>
              let final_chunk := next_offset =? transfer_size transfer in
              let fnv1a64 := if final_chunk then Some (transfer_fnv1a64 transfer) else None in
              (set_transfer s State.Writing (stg_transfer s)
                 (Some (PendingRequest.Write next_offset final_chunk)),
               StagingRequested (StagingRequest.Write
                 (mkStagingWrite offset payload (transfer_size transfer) fnv1a64)))
          end
      end
  end.

Definition handle_publish_with_properties (s : StagingService) (topic payload : bytes)
    (properties : Properties) (retained : bool) : StagingService * StagingHandle :=
  let suffix := strip_prefix (stg_prefix s) topic in
  if negb (bool_decide (suffix = Some MANIFEST_SUFFIX) || bool_decide (suffix = Some CHUNK_SUFFIX))
  then (s, StagingUnhandled) else
  if retained then (s, StagingConsumed) else
  if bool_decide (suffix = Some MANIFEST_SUFFIX) then handle_manifest s payload else
  match chunk_properties properties with
  | None => (s, StagingConsumed)
  | Some chunk => handle_chunk s (chunk_id chunk) (chunk_offset chunk) payload
  end.

(** [Service::handle]. *)
Definition staging_handle (s : StagingService) (inbound : InboundPublish)
  : StagingService * StagingHandle :=
  handle_publish_with_properties s (ip_topic inbound) (ip_payload inbound) (ip_properties inbound)
    (ip_retained inbound).

(** * Driving the connection *)

Section StagingStep.
Context {IO E : Type} `{Transport IO E} {T : Time} `{!Clock IO T}.

(** The options of both filters. *)
Definition staging_options : SubscriptionOptions :=
  ignore_local_messages (retain_as_published
    (retain_behavior (maximum_qos SubscriptionOptions_default QoS.AtLeastOnce)
       RetainHandling.Never)).

(** The publication of [publish_status], given the serialised status. *)
Definition status_publication (s : StagingService) (payload : bytes)
  : Publication (ToPayload unit) :=
  Publication_qos
    (Publication_properties (Publication_new (status_topic s) (bytes_payload payload))
       [Property.PayloadFormatIndicator 1;
        Property.ResponseTopic (chunk_topic s);
        Property.CorrelationData
          match stg_transfer s with Some transfer => transfer_id transfer | None => [] end;
        Property.UserProperty (str "offset")
          (itoa (match stg_transfer s with Some t => transfer_next_offset t | None => 0 end))])
    QoS.AtLeastOnce.

(** The level of a status message: [log_status] and [should_log_chunk_progress]. [None]
    stands for the panic of a division by zero. *)
Inductive LogLevel : Type := LogDebug | LogInfo | LogWarn.

Definition INFO_CHUNK_STRIDE : Z := 128.

Definition should_log_chunk_progress (next_offset size chunk_size : Z) : option bool :=
  if next_offset =? 0 then Some true else
  let chunk := if chunk_size <? 2 ^ 32 then chunk_size else 2 ^ 32 - 1 in
  if size <=? Z.min (next_offset + chunk) (2 ^ 32 - 1) then Some true else
  if chunk_size =? 0 then None
  else Some (is_multiple_of (next_offset / chunk_size) INFO_CHUNK_STRIDE).

Definition log_status (code : StatusCode) (status : Status) : option LogLevel :=
  match code with
  | StatusCode.Accepted =>
      match should_log_chunk_progress (status_next_offset status) (status_size status)
              (status_mtu status) with
      | Some true => Some LogInfo
      | Some false => Some LogDebug
      | None => None
      end
  | StatusCode.Complete => Some LogInfo
  | StatusCode.Idle | StatusCode.Duplicate => Some LogDebug
  | StatusCode.Offset | StatusCode.Oversize | StatusCode.Mtu | StatusCode.Unaligned
  | StatusCode.Storage | StatusCode.Error => Some LogWarn
  end.

(** [Service::publish_status]. *)
Definition publish_status (s : StagingService) (code : StatusCode) : C IO E Op :=
  fun c =>
    match to_slice (status_with s code) with
    | None => (c, Some (Err (Error.Resource ResourceError.BufferTooSmall)))
    | Some payload =>
        let '(c, r) := publish (status_publication s payload) c in
        (c, match r with
            | Some (Ok (Some op)) => Some (Ok op)
            | Some (Ok None) => Some (Err Error.InvalidRequest)
            | Some (Err (PubError.Payload _)) =>
                Some (Err (Error.Resource ResourceError.BufferTooSmall))
            | Some (Err (PubError.Session err)) => Some (Err err)
            | None => None
            end)
    end.

(** [Service::start_action]. *)
Definition start_action (s : StagingService) (action : Action) : C IO E Op :=
  match action with
  | Action.Subscribe =>
      subscribe [TopicFilter_options (TopicFilter_new (manifest_topic s)) staging_options;
                 TopicFilter_options (TopicFilter_new (chunk_topic s)) staging_options] []
  | Action.Publish code => publish_status s code
  end.

(** The tail of [Service::step]: start the pending action. *)
Definition start_pending : Async (StagingService * Connection IO) (Error E) Step :=
  fun '(s, c) =>
    match stg_pending s with
    | None => ((s, c), Some (Ok Quiescent))
    | Some action =>
        let '(c, r) := start_action s action c in
        match r with
        | Some (Ok op) =>
            ((set_mqtt s (Some (mkInFlight action op)) None (stg_startup_publish s)
                (stg_subscribed s), c), Some (Ok StepPending))
        | Some (Err Error.NotReady)
        | Some (Err (Error.Resource ResourceError.InflightExhausted)) =>
            ((s, c), Some (Ok StepPending))
        | Some (Err (Error.Resource ResourceError.BufferTooSmall)) =>
            if negb (is_publish_quiescent (session c)) then ((s, c), Some (Ok StepPending))
            else ((s, c), Some (Err (Error.Resource ResourceError.BufferTooSmall)))
        | Some (Err err) => ((s, c), Some (Err err))
        | None => ((s, c), None)
        end
    end.

(** The action in flight was acknowledged. *)
Definition action_done (s : StagingService) (action : Action) : StagingService :=
  match action with
  | Action.Subscribe =>
      let s' := set_mqtt s (stg_inflight s) (stg_pending s) None true in
      match stg_startup_publish s with
      | Some code => queue_action s' (Action.Publish code)
      | None => s'
      end
  | Action.Publish _ => s
  end.

(** [Service::step]. *)
Definition staging_step : Async (StagingService * Connection IO) (Error E) Step :=
  fun '(s, c) =>
    let s := set_max_rx s (max_rx_packet_size (session c)) in
    match stg_inflight s with
    | Some inflight =>
        if is_pending (session c) (inflight_op inflight) then ((s, c), Some (Ok StepPending)) else
        let s := set_mqtt s None (stg_pending s) (stg_startup_publish s) (stg_subscribed s) in
        if is_invalidated (session c) (inflight_op inflight) then
          ((queue_action s (inflight_action inflight), c), Some (Err Error.Disconnected))
        else start_pending (action_done s (inflight_action inflight), c)
    | None => start_pending (s, c)
    end.
End StagingStep.
End Service.
