(* ===== verification/Transfers.v ===== *)
(** What the staging service of [Staging.v] guarantees: the object that ends up
    in storage and the path of a transfer.

    The service is put together with the storage of the application as its
    interface describes it: [Prepare] erases the area, [Write] programs a chunk,
    and success is reported after the checksum of the final chunk was verified.
    [dev_step] has one constructor per thing that can happen to such a device, in
    any order; the theorems are about every state it can reach. *)

From Stdlib Require Import String.
From S2P Require Import Prelude Varint Types Io Text Wire Ser Properties Packets Outbound Session.
From S2P Require Import PacketReader Connection Driver Operations Staging.

Local Open Scope Z_scope.
Local Open Scope list_scope.

(** * Chunks *)

Definition erased (n : Z) : bytes := replicate (Z.to_nat n) 0xff.

Definition divides (m n : Z) : Prop := exists k, n = k * m.

Lemma is_multiple_of_divides n m : 0 < m -> is_multiple_of n m = true <-> divides m n.
Proof.
  intros Hm. unfold is_multiple_of, divides. destruct (Z.eqb_spec m 0); [lia|].
  rewrite Z.eqb_eq, Z.mod_divide by lia. done.
Qed.

Lemma divides_add m a b : divides m a -> divides m b -> divides m (a + b).
Proof. intros [x ->] [y ->]. exists (x + y). lia. Qed.

Definition is_erased (l : bytes) : Prop := Forall (fun byte => byte = 0xff) l.

Lemma forallb_erased l : forallb (fun byte => byte =? 0xff) l = true <-> is_erased l.
Proof.
  unfold is_erased. induction l as [|x l IH]; simpl; [by split|].
  rewrite andb_true_iff, IH, Z.eqb_eq, Forall_cons. done.
Qed.

Lemma is_erased_eq l : is_erased l -> l = erased (zlen l).
Proof.
  unfold erased, zlen. rewrite Nat2Z.id. induction 1 as [|x l -> _ IH]; simpl; [done|by f_equal].
Qed.

Lemma erased_app a b : 0 <= a -> 0 <= b -> erased a ++ erased b = erased (a + b).
Proof. intros. unfold erased. rewrite <- replicate_add. f_equal. lia. Qed.

Lemma zlen_erased n : 0 <= n -> zlen (erased n) = n.
Proof. intros. unfold erased. rewrite zlen_replicate. lia. Qed.

Lemma zdrop_erased a n : 0 <= a <= n -> zdrop a (erased n) = erased (n - a).
Proof. intros. unfold zdrop, erased. rewrite drop_replicate. f_equal. lia. Qed.

(** An active transfer of a service: its size is within the capacity, and a
    position that is not the end is aligned. *)
Definition transfer_ok (s : StagingService) (t : Transfer) : Prop :=
  0 < transfer_size t <= stg_capacity s /\ 0 <= transfer_next_offset t < transfer_size t /\
  divides (stg_write_size s) (transfer_next_offset t).

(** What a chunk has to be: at the requested position, not empty, within the
    limits, aligned, and erased bytes only past the end of the object. *)
Definition chunk_ok (s : StagingService) (t : Transfer) (offset : Z) (payload : bytes) : Prop :=
  offset = transfer_next_offset t /\ 0 < zlen payload <= stg_max_chunk_size s /\
  divides (stg_write_size s) (zlen payload) /\ offset + zlen payload <= stg_capacity s /\
  is_erased (zdrop (transfer_size t - offset) payload).

Lemma validate_chunk_ok s t offset payload next :
  0 < stg_write_size s -> is_u32 (stg_capacity s) -> transfer_ok s t -> zlen payload < 2 ^ 32 ->
  validate_chunk t offset payload (stg_capacity s) (stg_max_chunk_size s) (stg_write_size s) = Ok next
  <-> chunk_ok s t offset payload /\ next = Z.min (offset + zlen payload) (transfer_size t).
Proof.
  intros Hws Hcap (Hsize & Hnext & _) Hlen. unfold is_u32 in Hcap. unfold validate_chunk, chunk_ok.
  rewrite Z.mod_small by zlia.
  destruct (Z.ltb_spec offset (transfer_next_offset t)); [by split; [|lia]|].
  destruct (Z.eqb_spec offset (transfer_next_offset t)) as [->|]; cbn [negb]; [|by split; [|lia]].
  destruct (Z.eqb_spec (zlen payload) 0); cbn [orb]; [by split; [|lia]|].
  destruct (Z.ltb_spec (stg_max_chunk_size s) (zlen payload)); [by split; [|lia]|].
  rewrite <- (is_multiple_of_divides _ _ Hws).
  destruct (is_multiple_of _ _); cbn [negb]; [|by split; [|intros [(_ & _ & ? & _) _]]].
  unfold u32_checked_add. destruct (Z.ltb_spec (transfer_next_offset t + zlen payload) (2 ^ 32));
    [|by split; [|lia]].
  destruct (Z.ltb_spec (stg_capacity s) (transfer_next_offset t + zlen payload)); [by split; [|lia]|].
  rewrite Z.mod_small by lia.
  destruct (Z.leb_spec (transfer_next_offset t + zlen payload) (transfer_size t)).
  - rewrite zdrop_full by lia. split; [intros [= <-]|intros [_ ->]; f_equal; lia].
    split_and!; try done; zlia || constructor.
  - unfold payload_padding. destruct (Z.ltb_spec (transfer_size t - transfer_next_offset t) (zlen payload)); [|lia].
    rewrite <- forallb_erased. destruct (forallb _ _); cbn [negb].
    + split; [intros [= <-]; split_and!; try done; zlia|intros [_ ->]; f_equal; lia].
    + by split; [|intros [(_ & _ & _ & _ & ?) _]].
Qed.

(** * What one operation does to the transfer *)

Section Transfers.
Context `{Formats}.

(** Only the bookkeeping of the MQTT side differs. *)
Definition mqtt_only (s s' : StagingService) : Prop :=
  exists inflight pending startup subscribed max_rx,
    s' = set_max_rx (set_mqtt s inflight pending startup subscribed) max_rx.

#[global] Instance mqtt_only_preorder : PreOrder mqtt_only.
Proof.
  split; [intros s|intros s1 s2 s3 (a & b & c & d & e & ->) (a' & b' & c' & d' & e' & ->)].
  - exists (stg_inflight s), (stg_pending s), (stg_startup_publish s), (stg_subscribed s),
      (stg_max_rx_packet_size s). by destruct s.
  - by exists a', b', c', d', e'.
Qed.

Lemma mqtt_only_set s inflight pending startup subscribed :
  mqtt_only s (set_mqtt s inflight pending startup subscribed).
Proof. exists inflight, pending, startup, subscribed, (stg_max_rx_packet_size s). by destruct s. Qed.

Lemma queue_action_only s action : mqtt_only s (queue_action s action).
Proof.
  unfold queue_action. destruct (_ || _); [destruct action; [apply mqtt_only_set|done]|].
  apply mqtt_only_set.
Qed.

Lemma begin_startup_only s event : mqtt_only s (begin_startup s event).
Proof.
  unfold begin_startup. set (s1 := match event with ConnectEvent.Connected => _ | _ => _ end).
  assert (mqtt_only s s1) as H1 by (destruct event; [apply mqtt_only_set|done]).
  destruct (stg_subscribed s1).
  - destruct (replay_status s); [etrans; [|apply queue_action_only]|];
      etrans; eauto using mqtt_only_set.
  - etrans; [|apply queue_action_only]. etrans; eauto using mqtt_only_set.
Qed.

(** What [handle] can do. *)
Inductive handled (s : StagingService) (p : InboundPublish)
  : StagingService -> StagingHandle -> Prop :=
| handled_ignored s' h :
    mqtt_only s s' -> h = StagingUnhandled \/ h = StagingConsumed -> handled s p s' h
| handled_manifest t s' :
    stg_state s = State.Idle -> parse_manifest (ip_payload p) = Ok t ->
    0 < transfer_size t <= stg_capacity s -> transfer_next_offset t = 0 ->
    required_rx_bytes (chunk_topic s) (transfer_id t) (stg_max_chunk_size s) <=
      stg_max_rx_packet_size s ->
    mqtt_only (set_transfer s State.Preparing (Some t) (Some PendingRequest.Prepare)) s' ->
    handled s p s' (StagingRequested (StagingRequest.Prepare (transfer_size t)))
| handled_chunk t offset next :
    stg_state s = State.Ready -> stg_transfer s = Some t ->
    validate_chunk t offset (ip_payload p) (stg_capacity s) (stg_max_chunk_size s)
      (stg_write_size s) = Ok next ->
    handled s p
      (set_transfer s State.Writing (Some t)
         (Some (PendingRequest.Write next (next =? transfer_size t))))
      (StagingRequested (StagingRequest.Write (mkStagingWrite offset (ip_payload p)
         (transfer_size t) (if next =? transfer_size t then Some (transfer_fnv1a64 t) else None))))
| handled_failed t s' :
    stg_state s = State.Ready -> stg_transfer s = Some t ->
    mqtt_only (set_transfer s State.Error (Some t) (stg_request s)) s' ->
    handled s p s' StagingConsumed.

Lemma parse_manifest_ok payload t :
  parse_manifest payload = Ok t ->
  is_u32 (transfer_size t) /\ transfer_next_offset t = 0 /\ valid_id (transfer_id t) = true.
Proof.
  unfold parse_manifest. destruct (from_slice payload) as [[m used]|] eqn:Hf; [|done].
  destruct (from_slice_ok _ _ _ Hf) as [Hs _].
  destruct (valid_id (manifest_id m)) eqn:Hv; [|done].
  destruct (forallb _ _); [|done]. simpl. unfold string_try_from.
  destruct (_ <? _); [done|]. by intros [= <-].
Qed.

Lemma handle_manifest_cases s p s' h :
  handle_manifest s (ip_payload p) = (s', h) -> handled s p s' h.
Proof.
  unfold handle_manifest.
  assert (forall code, handled s p (queue_action s (Action.Publish code)) StagingConsumed) as Hq.
  { intros code. apply handled_ignored; [apply queue_action_only|by right]. }
  assert (handled s p s StagingConsumed) as Hs by (apply handled_ignored; [done|by right]).
  destruct (parse_manifest (ip_payload p)) as [t|[]] eqn:Hp.
  2: { intros [= <- <-]. by destruct (bool_decide _). }
  destruct (parse_manifest_ok _ _ Hp) as (Hu & Hn & _). unfold is_u32 in Hu.
  destruct (bool_decide_reflect (stg_state s = State.Idle)) as [Hi|]; cbn [negb].
  2: { by destruct (match stg_transfer s with Some _ => _ | None => _ end); intros [= <- <-]. }
  destruct (Z.eqb_spec (transfer_size t) 0); [by intros [= <- <-]|].
  destruct (Z.ltb_spec (stg_capacity s) (transfer_size t)); [by intros [= <- <-]|].
  destruct (Z.ltb_spec (stg_max_rx_packet_size s)
    (required_rx_bytes (chunk_topic s) (transfer_id t) (stg_max_chunk_size s))); [by intros [= <- <-]|].
  intros [= <- <-]. apply handled_manifest; try done; [lia|].
  destruct (queue_action_only (set_transfer s State.Preparing (Some t) (stg_request s))
    (Action.Publish StatusCode.Accepted)) as (a & b & c & d & e & ->).
  by exists a, b, c, d, e.
Qed.

Lemma handle_chunk_cases s p id offset s' h :
  handle_chunk s id offset (ip_payload p) = (s', h) -> handled s p s' h.
Proof.
  unfold handle_chunk.
  assert (forall code, handled s p (queue_action s (Action.Publish code)) StagingConsumed) as Hq.
  { intros code. apply handled_ignored; [apply queue_action_only|by right]. }
  assert (handled s p s StagingConsumed) as Hs by (apply handled_ignored; [done|by right]).
  destruct (stg_transfer s) as [t|] eqn:Ht; [|by intros [= <- <-]].
  destruct (negb _); [by intros [= <- <-]|].
  destruct (stg_state s) eqn:Hst; try (by intros [= <- <-]).
  destruct (validate_chunk _ _ _ _ _ _) as [next|[code|code]] eqn:Hv; intros [= <- <-]; [|done|].
  - by apply handled_chunk.
  - eapply handled_failed; [done..|apply queue_action_only].
Qed.

Lemma staging_handle_cases s p s' h : staging_handle s p = (s', h) -> handled s p s' h.
Proof.
  unfold staging_handle, handle_publish_with_properties.
  assert (forall h, h = StagingUnhandled \/ h = StagingConsumed -> handled s p s h) as Hs
    by (intros; by apply handled_ignored).
  destruct (negb _); [intros [= <- <-]; auto|].
  destruct (ip_retained p); [intros [= <- <-]; auto|].
  destruct (bool_decide _); [apply handle_manifest_cases|].
  destruct (chunk_properties _); [apply handle_chunk_cases|intros [= <- <-]; auto].
Qed.

(** What [abort] and [complete_request] do. *)
Lemma abort_cases s :
  (exists s', abort s = (s', true) /\ mqtt_only (set_transfer s State.Error (stg_transfer s) None) s' /\
     (stg_state s = State.Preparing \/ stg_state s = State.Ready \/ stg_state s = State.Writing)) \/
  (abort s = (s, false) /\
     (stg_state s = State.Idle \/ stg_state s = State.Complete \/ stg_state s = State.Error)).
Proof.
  unfold abort. destruct (stg_state s) eqn:Hst;
    try (right; split; [done|tauto]);
    left; eexists; (split; [reflexivity|split; [apply queue_action_only|tauto]]).
Qed.

Definition at_offset (t : Transfer) (next : Z) : Transfer :=
  mkTransfer (transfer_id t) (transfer_size t) next (transfer_fnv1a64 t).

Lemma complete_request_idle s success : stg_request s = None -> complete_request s success = s.
Proof. unfold complete_request. by intros ->. Qed.

Lemma complete_request_failed s request t :
  stg_request s = Some request -> stg_transfer s = Some t ->
  mqtt_only (set_transfer s State.Error (Some t) None) (complete_request s false).
Proof. unfold complete_request. intros -> Ht. simpl. rewrite Ht. apply queue_action_only. Qed.

Lemma complete_request_prepared s t :
  stg_request s = Some PendingRequest.Prepare -> stg_transfer s = Some t ->
  mqtt_only (set_transfer s State.Ready (Some t) None) (complete_request s true).
Proof. unfold complete_request. intros -> Ht. simpl. rewrite Ht. apply queue_action_only. Qed.

Lemma complete_request_written s t next final :
  stg_request s = Some (PendingRequest.Write next final) -> stg_transfer s = Some t ->
  mqtt_only
    (if final then set_transfer s State.Complete (Some (at_offset t (transfer_size t))) None
     else set_transfer s State.Ready (Some (at_offset t next)) None)
    (complete_request s true).
Proof.
  unfold complete_request. intros -> Ht. simpl. rewrite Ht. destruct final; apply queue_action_only.
Qed.

(** * The device *)

(** The checksum of the manifest, which the application computes. *)
Variable hash : bytes -> Z.

Context {IO E : Type} `{Transport IO E} {T : Time} `{!Clock IO T}.

Record Device : Type := mkDevice {
  dev_service : StagingService;
  dev_image : bytes;               (** the staging area *)
  dev_job : option StagingRequest; (** the request handed out and not yet reported *)
  dev_log : list StagingWrite      (** the writes reported successful *)
}.

(** Erase the area, or program a chunk. *)
Definition perform (d : Device) (r : StagingRequest) : bytes :=
  match r with
  | StagingRequest.Prepare _ => erased (stg_capacity (dev_service d))
  | StagingRequest.Write w => zwrite (dev_image d) (sw_offset w) (sw_payload w)
  end.

(** The checksum a final chunk carries is that of the first [size] bytes. *)
Definition verified (image : bytes) (r : StagingRequest) : Prop :=
  match r with
  | StagingRequest.Write w =>
      match sw_fnv1a64 w with
      | Some fnv1a64 => hash (ztake (sw_size w) image) = fnv1a64
      | None => True
      end
  | StagingRequest.Prepare _ => True
  end.

Definition log_of (r : StagingRequest) : list StagingWrite :=
  match r with StagingRequest.Write w => [w] | StagingRequest.Prepare _ => [] end.

Definition with_service (d : Device) (s : StagingService) : Device :=
  mkDevice s (dev_image d) (dev_job d) (dev_log d).

Inductive dev_step : Device -> Device -> Prop :=
| dev_inbound d p s' h :
    zlen (ip_payload p) <= MQTT_VARINT_MAX ->
    staging_handle (dev_service d) p = (s', h) ->
    dev_step d (mkDevice s' (dev_image d)
      (match h with StagingRequested r => Some r | _ => dev_job d end) (dev_log d))
| dev_done d r :
    dev_job d = Some r -> verified (perform d r) r ->
    dev_step d (mkDevice (complete_request (dev_service d) true) (perform d r) None
      (dev_log d ++ log_of r))
| dev_failed d r image :
    dev_job d = Some r ->
    dev_step d (mkDevice (complete_request (dev_service d) false) image None (dev_log d))
| dev_spurious d success :
    dev_job d = None ->
    dev_step d (with_service d (complete_request (dev_service d) success))
| dev_abort d : dev_step d (with_service d (fst (abort (dev_service d))))
| dev_startup d event : dev_step d (with_service d (begin_startup (dev_service d) event))
| dev_drive d (c c' : Connection IO) s' r :
    staging_step (E := E) (dev_service d, c) = ((s', c'), r) ->
    dev_step d (with_service d s').

(** A device as [Service::new] makes it; the storage holds anything. *)
Inductive dev_initial : Device -> Prop :=
| dev_new prefix config s image :
    is_u32 (config_capacity config) -> 0 <= config_max_chunk_size config ->
    0 <= config_write_size config -> staging_new prefix config = Ok s ->
    dev_initial (mkDevice s image None []).

Definition reachable (d : Device) : Prop := exists d0, dev_initial d0 /\ rtc dev_step d0 d.

(** * The invariant *)

(** The limits as [Service::new] admits them; the derived topics fit. *)
Definition service_wf (s : StagingService) : Prop :=
  0 < stg_write_size s /\ 0 < stg_max_chunk_size s /\
  divides (stg_write_size s) (stg_max_chunk_size s) /\ is_u32 (stg_capacity s) /\
  zlen (stg_prefix s) + zlen MANIFEST_SUFFIX <= MAX_STAGING_TOPIC.

(** Logging a status never divides by zero: the chunk size of a service is positive. *)
Lemma log_status_total s code : service_wf s -> log_status code (status_with s code) <> None.
Proof.
  intros (_ & Hchunk & _). destruct code; try done. simpl. unfold should_log_chunk_progress.
  destruct (_ =? 0); [done|]. destruct (_ <=? _); [done|].
  rewrite (proj2 (Z.eqb_neq _ _)) by lia. by destruct (is_multiple_of _ _).
Qed.

Definition written (log : list StagingWrite) : bytes := concat (map sw_payload log).

(** Each write starts where the one before it ended, and is aligned. *)
Fixpoint contiguous (max_chunk write_size offset : Z) (log : list StagingWrite) : Prop :=
  match log with
  | [] => True
  | w :: log' =>
      sw_offset w = offset /\ 0 < zlen (sw_payload w) <= max_chunk /\
      divides write_size (sw_offset w) /\ divides write_size (zlen (sw_payload w)) /\
      contiguous max_chunk write_size (offset + zlen (sw_payload w)) log'
  end.

(** The area holds what was written, and is erased behind it. *)
Definition staged (d : Device) : Prop :=
  dev_image d = written (dev_log d) ++
    erased (stg_capacity (dev_service d) - zlen (written (dev_log d))) /\
  zlen (written (dev_log d)) <= stg_capacity (dev_service d) /\
  contiguous (stg_max_chunk_size (dev_service d)) (stg_write_size (dev_service d)) 0 (dev_log d).

Definition no_checksum (w : StagingWrite) : Prop := sw_fnv1a64 w = None.

(** Up to the position of the transfer, no write was the final one. *)
Definition staged_to (d : Device) (t : Transfer) : Prop :=
  staged d /\ zlen (written (dev_log d)) = transfer_next_offset t /\
  Forall no_checksum (dev_log d).

(** The whole object, with one final write. *)
Definition staged_all (d : Device) (t : Transfer) : Prop :=
  staged d /\ transfer_size t <= zlen (written (dev_log d)) /\
  is_erased (zdrop (transfer_size t) (written (dev_log d))) /\
  hash (ztake (transfer_size t) (dev_image d)) = transfer_fnv1a64 t /\
  exists log w, dev_log d = log ++ [w] /\ Forall no_checksum log /\
    sw_fnv1a64 w = Some (transfer_fnv1a64 t).

Definition write_job (t : Transfer) (payload : bytes) (next : Z) : StagingRequest :=
  StagingRequest.Write (mkStagingWrite (transfer_next_offset t) payload (transfer_size t)
    (if next =? transfer_size t then Some (transfer_fnv1a64 t) else None)).

Definition phase_inv (d : Device) : Prop :=
  let s := dev_service d in
  match stg_state s with
  | State.Idle =>
      stg_transfer s = None /\ stg_request s = None /\ dev_job d = None /\ dev_log d = []
  | State.Preparing => exists t,
      stg_transfer s = Some t /\ stg_request s = Some PendingRequest.Prepare /\
      transfer_ok s t /\ transfer_next_offset t = 0 /\
      dev_job d = Some (StagingRequest.Prepare (transfer_size t)) /\ dev_log d = []
  | State.Ready => exists t,
      stg_transfer s = Some t /\ stg_request s = None /\ dev_job d = None /\
      transfer_ok s t /\ staged_to d t
  | State.Writing => exists t payload,
      let next := Z.min (transfer_next_offset t + zlen payload) (transfer_size t) in
      stg_transfer s = Some t /\
      stg_request s = Some (PendingRequest.Write next (next =? transfer_size t)) /\
      dev_job d = Some (write_job t payload next) /\
      transfer_ok s t /\ chunk_ok s t (transfer_next_offset t) payload /\ staged_to d t
  | State.Complete => exists t,
      stg_transfer s = Some t /\ stg_request s = None /\ dev_job d = None /\
      0 < transfer_size t <= stg_capacity s /\ transfer_next_offset t = transfer_size t /\
      staged_all d t
  | State.Error => exists t, stg_transfer s = Some t /\ stg_request s = None
  end.

Definition dev_inv (d : Device) : Prop := service_wf (dev_service d) /\ phase_inv d.

Lemma written_app l1 l2 : written (l1 ++ l2) = written l1 ++ written l2.
Proof. unfold written. by rewrite map_app, concat_app. Qed.

Lemma contiguous_app m ws offset l1 l2 :
  contiguous m ws offset (l1 ++ l2) <->
  contiguous m ws offset l1 /\ contiguous m ws (offset + zlen (written l1)) l2.
Proof.
  revert offset. induction l1 as [|w l1 IH]; intros offset; simpl.
  { rewrite Z.add_0_r. tauto. }
  rewrite IH. change (written (w :: l1)) with (sw_payload w ++ written l1).
  rewrite zlen_app, Z.add_assoc. tauto.
Qed.

(** The invariant does not depend on the MQTT side. *)
Lemma dev_inv_mqtt d s image job log :
  mqtt_only (dev_service d) s -> image = dev_image d -> job = dev_job d -> log = dev_log d ->
  dev_inv d -> dev_inv (mkDevice s image job log).
Proof. destruct d. intros (a & b & c & e & f & ->) -> -> -> Hd. exact Hd. Qed.

Lemma dev_inv_via s s' image job log :
  mqtt_only s s' -> dev_inv (mkDevice s image job log) -> dev_inv (mkDevice s' image job log).
Proof.
  intros Hm Hd. exact (dev_inv_mqtt (mkDevice s image job log) s' _ _ _ Hm eq_refl eq_refl eq_refl Hd).
Qed.

Lemma dev_initial_inv d : dev_initial d -> dev_inv d.
Proof.
  intros [prefix config s image Hcap Hmax Hws Hnew]. revert Hnew. unfold staging_new.
  destruct (_ || _) eqn:Hb; [done|].
  apply orb_false_iff in Hb as [[H1%Z.eqb_neq H2%Z.eqb_neq]%orb_false_iff H3%negb_false_iff].
  unfold string_try_from. destruct (_ <? _); [done|]. simpl. unfold staging_topic at 1.
  destruct (push_str _ _ _) as [topic|] eqn:Hp; [|done]. apply push_str_some in Hp as [Hp _]. simpl.
  destruct (map_err _ _); [|done]. destruct (map_err _ _); [|done]. intros [= <-].
  split; [|done]. unfold service_wf. simpl.
  split_and!; try done; [lia|lia|]. apply is_multiple_of_divides; [lia|].
  unfold is_multiple_of. by destruct (Z.eqb_spec (config_write_size config) 0).
Qed.

(** A state of the invariant other than the one at hand. *)
Ltac in_state Hd Hst := destruct Hd as [Hwf Hd]; unfold phase_inv in Hd; rewrite Hst in Hd.
Ltac open_state Hd Hst :=
  in_state Hd Hst; cbv zeta in Hd;
  repeat match type of Hd with exists _, _ => destruct Hd as [? Hd] end; destruct_and? Hd.

Lemma dev_inbound_inv d p s' h :
  dev_inv d -> zlen (ip_payload p) <= MQTT_VARINT_MAX ->
  handled (dev_service d) p s' h ->
  dev_inv (mkDevice s' (dev_image d)
    (match h with StagingRequested r => Some r | _ => dev_job d end) (dev_log d)).
Proof.
  intros Hd Hlen [s'' h' Hm Hh|t s'' Hst _ Hsize Hnext _ Hm|t offset next Hst Ht Hv|t s'' Hst Ht Hm].
  - eapply dev_inv_mqtt; [exact Hm|done| |done|done]. by destruct Hh as [-> | ->].
  - in_state Hd Hst. destruct Hd as (_ & _ & _ & Hlog). apply (dev_inv_via _ _ _ _ _ Hm).
    split; [exact Hwf|]. exists t. unfold transfer_ok. simpl. rewrite Hnext.
    split_and!; try done; try lia. by exists 0.
  - in_state Hd Hst. destruct Hd as (t' & Ht' & _ & _ & Hok & Hto). simplify_eq.
    destruct Hwf as (Hws & Hmax & Hdiv & Hcap & Hp).
    apply validate_chunk_ok in Hv as [Hc ->]; [|done..|by eapply Z.le_lt_trans; [exact Hlen|]].
    split; [done|]. exists t', (ip_payload p). destruct Hc as (-> & Hc). by split_and!.
  - in_state Hd Hst. destruct Hd as (t' & Ht' & Hr & _ & _). simplify_eq.
    apply (dev_inv_via _ _ _ _ _ Hm). split; [exact Hwf|]. by exists t'.
Qed.

(** Programming an accepted chunk at the position of the transfer. *)
Lemma staged_write d t payload next s' :
  service_wf (dev_service d) -> transfer_ok (dev_service d) t ->
  chunk_ok (dev_service d) t (transfer_next_offset t) payload -> staged_to d t ->
  next = Z.min (transfer_next_offset t + zlen payload) (transfer_size t) ->
  stg_capacity s' = stg_capacity (dev_service d) ->
  stg_max_chunk_size s' = stg_max_chunk_size (dev_service d) ->
  stg_write_size s' = stg_write_size (dev_service d) ->
  let d' := mkDevice s' (perform d (write_job t payload next)) None
              (dev_log d ++ log_of (write_job t payload next)) in
  staged d' /\ written (dev_log d') = written (dev_log d) ++ payload.
Proof.
  intros Hwf (Hsize & Hn & Hal) (_ & Hlen & Hdiv & Hend & _) ((Himg & Hle & Hcont) & Hw & _) -> Hc Hm Hws.
  cbn [dev_log log_of write_job]. rewrite written_app.
  change (written [_]) with (payload ++ []). rewrite app_nil_r. split; [|done].
  unfold staged. cbn [dev_service dev_image dev_log]. rewrite written_app.
  change (written [_]) with (payload ++ []). rewrite app_nil_r, Hc, Hm, Hws.
  split_and!; [|zlia|].
  - cbn [perform write_job sw_offset sw_payload]. rewrite Himg.
    rewrite zwrite_app, zdrop_erased by (rewrite ?zlen_erased; zlia).
    rewrite <- app_assoc. do 3 f_equal. zlia.
  - apply contiguous_app. split; [done|]. rewrite Z.add_0_l, Hw. cbn [contiguous sw_offset sw_payload].
    by split_and!; try lia.
Qed.

Lemma dev_written_inv d t payload next :
  service_wf (dev_service d) -> stg_transfer (dev_service d) = Some t ->
  transfer_ok (dev_service d) t ->
  chunk_ok (dev_service d) t (transfer_next_offset t) payload -> staged_to d t ->
  next = Z.min (transfer_next_offset t + zlen payload) (transfer_size t) ->
  verified (perform d (write_job t payload next)) (write_job t payload next) ->
  dev_inv (mkDevice
    (if next =? transfer_size t
     then set_transfer (dev_service d) State.Complete (Some (at_offset t (transfer_size t))) None
     else set_transfer (dev_service d) State.Ready (Some (at_offset t next)) None)
    (perform d (write_job t payload next)) None (dev_log d ++ log_of (write_job t payload next))).
Proof.
  intros Hwf Ht Hok Hc Hto Hnext Hv.
  assert (Hl := Hto). destruct Hl as (_ & Hw & Hno).
  assert (forall s', stg_capacity s' = _ -> stg_max_chunk_size s' = _ -> stg_write_size s' = _ -> _)
    as Hs by exact (fun s' => staged_write d t payload next s' Hwf Hok Hc Hto Hnext).
  destruct Hok as (Hsize & Hn & Hal). destruct Hc as (_ & Hlen & Hdiv & Hend & Her).
  unfold verified in Hv. cbn [write_job sw_fnv1a64 sw_size] in Hv.
  split; [by destruct (next =? transfer_size t)|].
  destruct (Z.eqb_spec next (transfer_size t)) as [Hf|Hf]; unfold phase_inv; simpl stg_state; cbv iota zeta.
  - exists (at_offset t (transfer_size t)). split_and!; try done; try (simpl; lia).
    destruct (Hs (set_transfer (dev_service d) State.Complete (Some (at_offset t (transfer_size t))) None)
      eq_refl eq_refl eq_refl) as [Hst Hwr].
    split_and!; [exact Hst|rewrite Hwr; simpl; zlia| |exact Hv|].
    + rewrite Hwr. simpl. rewrite zdrop_app_ge by lia. by rewrite Hw.
    + eexists (dev_log d), _. split_and!; [reflexivity|done|]. cbn.
      by destruct (Z.eqb_spec next (transfer_size t)).
  - exists (at_offset t next).
    destruct (Hs (set_transfer (dev_service d) State.Ready (Some (at_offset t next)) None)
      eq_refl eq_refl eq_refl) as [Hst Hwr].
    split_and!; try done; [unfold transfer_ok; simpl; split_and!; try zlia|split_and!; [done|..]].
    + replace next with (transfer_next_offset t + zlen payload) by lia. by apply divides_add.
    + rewrite Hwr. simpl. zlia.
    + apply Forall_app. split; [done|]. repeat constructor. unfold no_checksum. cbn.
      by destruct (Z.eqb_spec next (transfer_size t)).
Qed.

Lemma dev_done_inv d r :
  dev_inv d -> dev_job d = Some r -> verified (perform d r) r ->
  dev_inv (mkDevice (complete_request (dev_service d) true) (perform d r) None
    (dev_log d ++ log_of r)).
Proof.
  intros Hd Hj Hv. destruct (stg_state (dev_service d)) eqn:Hst; in_state Hd Hst.
  - destruct Hd as (_ & _ & ? & _). congruence.
  - destruct Hd as (t & Ht & Hr & Hok & Hn & Hj' & Hlog). rewrite Hj in Hj'. simplify_eq.
    eapply dev_inv_via; [by apply complete_request_prepared|]. split; [exact Hwf|].
    exists t. rewrite Hlog. unfold staged_to, staged. simpl. rewrite Hn, Z.sub_0_r.
    destruct Hwf as (_ & _ & _ & Hcap & _). unfold is_u32 in Hcap. by split_and!; try zlia.
  - destruct Hd as (t & _ & _ & ? & _). congruence.
  - destruct Hd as (t & payload & Ht & Hr & Hj' & Hok & Hc & Hto). rewrite Hj in Hj'. simplify_eq.
    eapply dev_inv_via; [by apply complete_request_written|]. by apply dev_written_inv.
  - destruct Hd as (t & _ & _ & ? & _). congruence.
  - destruct Hd as (t & Ht & Hr). rewrite complete_request_idle by done.
    split; [exact Hwf|]. unfold phase_inv. simpl. rewrite Hst. by exists t.
Qed.

Lemma start_pending_only s (c c' : Connection IO) s' r :
  start_pending (E := E) (s, c) = ((s', c'), r) -> mqtt_only s s'.
Proof.
  unfold start_pending. destruct (stg_pending s) as [action|]; [|by intros [= <- _ _]].
  destruct (start_action s action c) as [c1 r1].
  repeat case_match; intros; simplify_eq/=; done || apply mqtt_only_set.
Qed.

Lemma action_done_only s action : mqtt_only s (action_done s action).
Proof.
  unfold action_done. destruct action; [done|].
  destruct (stg_startup_publish s); [etrans; [|apply queue_action_only]|]; apply mqtt_only_set.
Qed.

Lemma staging_step_only s (c c' : Connection IO) s' r :
  staging_step (E := E) (s, c) = ((s', c'), r) -> mqtt_only s s'.
Proof.
  unfold staging_step. set (s1 := set_max_rx s _).
  assert (mqtt_only s s1) as H1.
  { exists (stg_inflight s), (stg_pending s), (stg_startup_publish s), (stg_subscribed s),
      (max_rx_packet_size (session c)). by destruct s. }
  destruct (stg_inflight s1) as [inflight|].
  - destruct (is_pending _ _); [by intros [= <- _ _]|]. destruct (is_invalidated _ _).
    + intros [= <- _ _]. etrans; [|apply queue_action_only]. etrans; [done|apply mqtt_only_set].
    + intros Hs%start_pending_only. etrans; [|exact Hs]. etrans; [|apply action_done_only].
      etrans; [done|apply mqtt_only_set].
  - intros Hs%start_pending_only. by etrans.
Qed.

Lemma dev_failed_inv d r image :
  dev_inv d -> dev_job d = Some r ->
  dev_inv (mkDevice (complete_request (dev_service d) false) image None (dev_log d)).
Proof.
  intros Hd Hj. destruct (stg_state (dev_service d)) eqn:Hst.
  1, 3, 5: by open_state Hd Hst; congruence.
  all: in_state Hd Hst.
  1, 2: destruct Hd as (t & Hd).
  - destruct Hd as (Ht & Hr & _). eapply dev_inv_via; [by eapply complete_request_failed|].
    split; [exact Hwf|by exists t].
  - destruct Hd as (payload & Ht & Hr & _). eapply dev_inv_via; [by eapply complete_request_failed|].
    split; [exact Hwf|by exists t].
  - destruct Hd as (t & Ht & Hr). rewrite complete_request_idle by done.
    split; [exact Hwf|]. unfold phase_inv. simpl. rewrite Hst. by exists t.
Qed.

(** Without a job there is no request, except that of a job already taken back. *)
Lemma dev_inv_no_job d : dev_inv d -> dev_job d = None -> stg_request (dev_service d) = None.
Proof.
  intros Hd Hj. destruct (stg_state (dev_service d)) eqn:Hst; open_state Hd Hst; congruence.
Qed.

Lemma dev_abort_inv d : dev_inv d -> dev_inv (with_service d (fst (abort (dev_service d)))).
Proof.
  intros Hd. destruct (abort_cases (dev_service d)) as [(s' & -> & Hm & Hst)|[-> _]].
  - apply (dev_inv_via _ _ _ _ _ Hm).
    assert (exists t, stg_transfer (dev_service d) = Some t) as [t Ht].
    { destruct Hst as [Hst|[Hst|Hst]]; open_state Hd Hst; eauto. }
    destruct Hd as [Hwf _]. split; [exact Hwf|]. by exists t.
  - by apply (dev_inv_mqtt d).
Qed.

Lemma dev_step_inv d d' : dev_step d d' -> dev_inv d -> dev_inv d'.
Proof.
  intros [d0 p s' h Hlen Hh|d0 r Hj Hv|d0 r image Hj|d0 success Hj|d0|d0 event|d0 c c' s' r Hs] Hd.
  - apply staging_handle_cases in Hh. by eapply dev_inbound_inv.
  - by apply dev_done_inv.
  - by eapply dev_failed_inv.
  - rewrite complete_request_idle by by apply dev_inv_no_job. by apply (dev_inv_mqtt d0).
  - by apply dev_abort_inv.
  - by apply (dev_inv_mqtt d0); [apply begin_startup_only|..].
  - by apply (dev_inv_mqtt d0); [by eapply staging_step_only|..].
Qed.

Lemma reachable_inv d : reachable d -> dev_inv d.
Proof.
  intros (d0 & Hi & Hr). apply dev_initial_inv in Hi.
  induction Hr as [|d0 d1 d Hs _ IH]; [done|]. apply IH. by eapply dev_step_inv.
Qed.

(** * Theorems *)

(** C14: a completed transfer is the whole object. In every state a device can
    reach by any order of publications, storage results, aborts, reconnections
    and steps, if the transfer is complete then the staging area holds exactly
    [size] bytes of object followed by erased bytes up to its capacity, the object
    has the checksum of the manifest, and it is what the successful writes wrote,
    one after the other without gap or overlap, each aligned and within the chunk
    size, the last of them and no other carrying the checksum; whatever was
    written past the object are erased bytes. *)
Theorem complete_transfer_is_whole_object d :
  reachable d -> stg_state (dev_service d) = State.Complete ->
  exists t object padding,
    stg_transfer (dev_service d) = Some t /\ transfer_next_offset t = transfer_size t /\
    zlen object = transfer_size t /\ hash object = transfer_fnv1a64 t /\
    dev_image d = object ++ erased (stg_capacity (dev_service d) - transfer_size t) /\
    written (dev_log d) = object ++ padding /\ is_erased padding /\
    contiguous (stg_max_chunk_size (dev_service d)) (stg_write_size (dev_service d)) 0 (dev_log d) /\
    exists log w, dev_log d = log ++ [w] /\ Forall no_checksum log /\
      sw_fnv1a64 w = Some (transfer_fnv1a64 t).
Proof.
  intros Hd%reachable_inv Hst. in_state Hd Hst.
  destruct Hd as (t & Ht & _ & _ & Hsize & Hn & (Himg & Hle & Hcont) & Hs & Her & Hh & Hlog).
  set (data := written (dev_log d)) in *.
  exists t, (ztake (transfer_size t) data), (zdrop (transfer_size t) data).
  assert (dev_image d = ztake (transfer_size t) data ++
    erased (stg_capacity (dev_service d) - transfer_size t)) as Himg'.
  { rewrite Himg. rewrite <- (ztake_zdrop (transfer_size t) data) at 1.
    rewrite <- app_assoc. f_equal. rewrite (is_erased_eq _ Her), erased_app by zlia.
    f_equal. rewrite zlen_zdrop by lia. lia. }
  rewrite Himg', ztake_app_exact in Hh by (rewrite zlen_ztake; lia).
  split_and!; try done; [apply zlen_ztake; lia|by rewrite ztake_zdrop].
Qed.

(** The order of the phases. *)
Definition may_follow (a b : State) : bool :=
  match a, b with
  | State.Idle, (State.Idle | State.Preparing)
  | State.Preparing, (State.Preparing | State.Ready | State.Error)
  | State.Ready, (State.Ready | State.Writing | State.Error)
  | State.Writing, (State.Writing | State.Ready | State.Complete | State.Error)
  | State.Complete, State.Complete
  | State.Error, State.Error => true
  | _, _ => false
  end.

(** The same manifest, no less progress. *)
Definition continues (t t' : Transfer) : Prop :=
  transfer_id t' = transfer_id t /\ transfer_size t' = transfer_size t /\
  transfer_fnv1a64 t' = transfer_fnv1a64 t /\ transfer_next_offset t <= transfer_next_offset t'.

Definition follows (d d' : Device) : Prop :=
  may_follow (stg_state (dev_service d)) (stg_state (dev_service d')) = true /\
  (forall t, stg_transfer (dev_service d) = Some t ->
     exists t', stg_transfer (dev_service d') = Some t' /\ continues t t') /\
  (forall r, dev_job d' = Some r -> dev_job d = Some r \/ dev_job d = None) /\
  (forall r, dev_job d' = Some r -> dev_job d = None ->
     stg_state (dev_service d) = State.Idle \/ stg_state (dev_service d) = State.Ready).

Lemma continues_refl t : continues t t.
Proof. by split_and!. Qed.

Lemma follows_mqtt d s : mqtt_only (dev_service d) s -> follows d (with_service d s).
Proof.
  intros (a & b & c & e & f & ->). split_and!; simpl; [by destruct (stg_state _)|
    eauto using continues_refl|by left|congruence].
Qed.

(** The transfer part of the new service decides. *)
Lemma follows_via d s s' image job log :
  mqtt_only s s' -> follows d (mkDevice s image job log) -> follows d (mkDevice s' image job log).
Proof. by intros (a & b & c & e & f & ->). Qed.

(** Solves the parts of [follows] that the invariant of the state decides. *)
Ltac solve_follows Hst :=
  unfold follows; cbn; rewrite Hst;
  split_and!; intros; simplify_eq; eauto using continues_refl; congruence.

Lemma follows_inbound d p s' h :
  dev_inv d -> handled (dev_service d) p s' h ->
  follows d (mkDevice s' (dev_image d)
    (match h with StagingRequested r => Some r | _ => dev_job d end) (dev_log d)).
Proof.
  intros Hd [s'' h' Hm Hh|t s'' Hst _ _ _ _ Hm|t offset next Hst Ht Hv|t s'' Hst Ht Hm].
  - by destruct Hh as [-> | ->]; apply follows_mqtt.
  - apply (follows_via _ _ _ _ _ _ Hm). open_state Hd Hst. solve_follows Hst.
  - open_state Hd Hst. solve_follows Hst.
  - apply (follows_via _ _ _ _ _ _ Hm). open_state Hd Hst. solve_follows Hst.
Qed.

(** A storage result, whatever the storage holds. *)
Lemma follows_result d r success image log :
  dev_inv d -> dev_job d = Some r ->
  follows d (mkDevice (complete_request (dev_service d) success) image None log).
Proof.
  intros Hd Hj. destruct (stg_state (dev_service d)) eqn:Hst.
  1, 3, 5: by open_state Hd Hst; congruence.
  - open_state Hd Hst. destruct success; (eapply follows_via;
      [by apply complete_request_prepared || by eapply complete_request_failed|solve_follows Hst]).
  - in_state Hd Hst. destruct Hd as (t & payload & Ht & Hr & _ & (_ & Hn & _) & _).
    destruct success; [|eapply follows_via; [by eapply complete_request_failed|solve_follows Hst]].
    eapply follows_via; [by apply complete_request_written|]. pose proof (zlen_nonneg payload).
    destruct (_ =? _); unfold follows; cbn; rewrite Hst;
      (split_and!; [done| |done|done]); rewrite Ht; intros ? [= <-]; eexists; (split; [done|]);
      split_and!; cbn; lia || done.
  - open_state Hd Hst. rewrite complete_request_idle by done. solve_follows Hst.
Qed.

(** C15: a transfer goes forward. Whatever happens to the device, the state follows
    idle, preparing, ready, writing and ready again, complete, with error possible
    from every active phase, and complete and error final; a transfer keeps its
    identifier, size and checksum, and its position never goes back; the
    application is never handed a request while one is outstanding, and none after
    the transfer has ended, even when a late result or another manifest comes in. *)
Theorem transfer_goes_forward d d' : reachable d -> dev_step d d' -> follows d d'.
Proof.
  intros Hd%reachable_inv Hstep. revert Hd.
  destruct Hstep as [d p s' h Hlen Hh|d r Hj Hv|d r image Hj|d success Hj|d|d event|d c c' s' r Hs];
    intros Hd.
  - apply staging_handle_cases in Hh. by eapply follows_inbound.
  - by eapply follows_result.
  - by eapply follows_result.
  - rewrite complete_request_idle by by apply dev_inv_no_job. by apply follows_mqtt.
  - destruct (abort_cases (dev_service d)) as [(s' & -> & Hm & Hst)|[-> _]]; [|by apply follows_mqtt].
    apply (follows_via _ _ _ _ _ _ Hm).
    destruct Hst as [Hst|[Hst|Hst]]; open_state Hd Hst; solve_follows Hst.
  - apply follows_mqtt, begin_startup_only.
  - by eapply follows_mqtt, staging_step_only.
Qed.
End Transfers.

(** * An example device *)

(** A toy encoding stands for JSON: size, checksum, identifier. *)
Definition demo_from_slice (payload : bytes) : option (Manifest * Z) :=
  match payload with
  | size :: fnv1a64 :: id =>
      if (0 <=? size) && (size <? 2 ^ 32) && (0 <=? fnv1a64) && (fnv1a64 <? 2 ^ 64)
      then Some (mkManifest id size fnv1a64, zlen payload) else None
  | _ => None
  end.

#[refine] Instance demo_formats : Formats :=
  {| from_slice := demo_from_slice; to_slice := fun st => Some (status_id st); itoa := decimal |}.
Proof.
  - intros payload m used. unfold demo_from_slice. destruct payload as [|size [|fnv1a64 id]]; try done.
    destruct (_ && _) eqn:Hb; [|done]. intros [= <- <-]. unfold is_u32. simpl. zlia.
  - done.
Defined.

(** FNV-1a, 64 bits. *)
Definition fnv1a64 (data : bytes) : Z :=
  foldl (fun digest byte => (Z.lxor digest byte * 0x100000001b3) mod 2 ^ 64) 0xcbf29ce484222325 data.

Definition demo_config : StagingConfig := mkStagingConfig 12 4 4.

Definition demo_new : StagingService :=
  Eval vm_compute in
  match staging_new (str "p") demo_config with
  | Ok s => s
  | Err _ => mkStaging [] None None None false State.Idle None None 0 0 0 0
  end.

(** A connection with a larger receive buffer. *)
Definition demo_link : Connection Scripted.IO :=
  set_session (demo_conn []) (set_reader (session (demo_conn [])) (PacketReader_new (repeat 0 64))).

Definition demo_driven : StagingService :=
  Eval vm_compute in fst (fst (staging_step (E := unit) (demo_new, demo_link))).

Definition demo_manifest : InboundPublish :=
  mkInboundPublish (str "p/manifest") (6 :: 0x85944171f73967e8 :: str "a") (Slice [])
    Retain.NotRetained QoS.AtLeastOnce.
Definition demo_chunk (offset : Z) (payload : bytes) : InboundPublish :=
  mkInboundPublish (str "p/chunk") payload
    (Slice [Property.CorrelationData (str "a"); Property.UserProperty (str "offset") (decimal offset)])
    Retain.NotRetained QoS.AtLeastOnce.

(** One event of the device: a message with the storage untouched, or the result of
    the outstanding request. *)
Definition demo_inbound (d : Device) (p : InboundPublish) : Device :=
  let '(s, h) := staging_handle (dev_service d) p in
  mkDevice s (dev_image d) (match h with StagingRequested r => Some r | _ => dev_job d end) (dev_log d).
Definition demo_done (d : Device) : Device :=
  match dev_job d with
  | Some r => mkDevice (complete_request (dev_service d) true) (perform d r) None (dev_log d ++ log_of r)
  | None => d
  end.

Definition demo_erasing : Device :=
  Eval vm_compute in demo_inbound (mkDevice demo_driven [1; 2; 3] None []) demo_manifest.
Definition demo_ready : Device := Eval vm_compute in demo_done demo_erasing.
Definition demo_writing : Device :=
  Eval vm_compute in demo_inbound demo_ready (demo_chunk 0 (str "foob")).
Definition demo_half : Device := Eval vm_compute in demo_done demo_writing.
Definition demo_last : Device :=
  Eval vm_compute in demo_inbound demo_half (demo_chunk 4 (str "ar" ++ [255; 255])).
Definition demo_complete : Device := Eval vm_compute in demo_done demo_last.

Abbreviation demo_step := (dev_step (IO := Scripted.IO) (E := unit) (T := Scripted.time) fnv1a64).
Abbreviation demo_reach := (reachable (IO := Scripted.IO) (E := unit) (T := Scripted.time) fnv1a64).

Lemma demo_inbound_step d p :
  zlen (ip_payload p) <= MQTT_VARINT_MAX -> demo_step d (demo_inbound d p).
Proof.
  intros Hlen. unfold demo_inbound. destruct (staging_handle (dev_service d) p) as [s h] eqn:Hh.
  by eapply dev_inbound.
Qed.

Lemma demo_done_step d r :
  dev_job d = Some r -> verified fnv1a64 (perform d r) r -> demo_step d (demo_done d).
Proof. intros Hj Hv. unfold demo_done. rewrite Hj. by apply dev_done. Qed.

Lemma reachable_step d d' : demo_reach d -> demo_step d d' -> demo_reach d'.
Proof. intros (d0 & Hi & Hr) Hs. exists d0. split; [done|]. by eapply rtc_r. Qed.

Lemma demo_ready_reachable : demo_reach demo_ready.
Proof.
  apply (reachable_step demo_erasing).
  2: { apply (demo_done_step demo_erasing (StagingRequest.Prepare 6)); done. }
  apply (reachable_step (mkDevice demo_driven [1; 2; 3] None [])).
  2: { apply (demo_inbound_step (mkDevice demo_driven [1; 2; 3] None []) demo_manifest).
       by vm_compute. }
  apply (reachable_step (mkDevice demo_new [1; 2; 3] None [])).
  2: { refine (dev_drive fnv1a64 (mkDevice demo_new [1; 2; 3] None []) demo_link _ demo_driven _ _).
       by vm_compute. }
  exists (mkDevice demo_new [1; 2; 3] None []). split; [|done].
  apply (dev_new (str "p") demo_config); done.
Qed.

Lemma demo_last_reachable : demo_reach demo_last.
Proof.
  apply (reachable_step demo_half).
  2: { apply (demo_inbound_step demo_half (demo_chunk 4 (str "ar" ++ [255; 255]))). by vm_compute. }
  apply (reachable_step demo_writing).
  2: { eapply (demo_done_step demo_writing); [reflexivity|done]. }
  apply (reachable_step demo_ready), (demo_inbound_step demo_ready (demo_chunk 0 (str "foob")));
    [apply demo_ready_reachable|by vm_compute].
Qed.

Lemma demo_complete_step : demo_step demo_last demo_complete.
Proof. eapply (demo_done_step demo_last); [reflexivity|]. by vm_compute. Qed.

(** The example of the protocol description: six bytes in two chunks, the second
    one padded. *)
Lemma complete_transfer_is_whole_object_witness :
  stg_state (dev_service demo_complete) = State.Complete /\
  dev_image demo_complete = str "foobar" ++ erased 6 /\
  exists t object padding, stg_transfer (dev_service demo_complete) = Some t /\
    zlen object = transfer_size t /\ fnv1a64 object = transfer_fnv1a64 t /\
    written (dev_log demo_complete) = object ++ padding.
Proof.
  split; [reflexivity|]. split; [reflexivity|].
  destruct (complete_transfer_is_whole_object (E := unit) (T := Scripted.time) fnv1a64 demo_complete
    (reachable_step _ _ demo_last_reachable demo_complete_step) eq_refl)
    as (t & object & padding & Ht & _ & Hl & Hh & _ & Hw & _).
  exists t, object, padding. split; [exact Ht|]. split; [exact Hl|]. split; [exact Hh|exact Hw].
Defined.

Lemma transfer_goes_forward_witness :
  follows demo_last demo_complete /\
  may_follow (stg_state (dev_service demo_last)) (stg_state (dev_service demo_complete)) = true.
Proof.
  pose proof (transfer_goes_forward (E := unit) (T := Scripted.time) fnv1a64 demo_last demo_complete
    demo_last_reachable demo_complete_step) as Hf.
  split; [exact Hf|exact (proj1 Hf)].
Defined.
