(* ===== verification/Upload.v ===== *)
(** The host's side of a transfer: the messages of the protocol in
    [src/mqtt-staging/README.md], which chunks the device accepts, that an upload
    completes, and that the chunks of an accepted manifest fit the receive
    buffer. *)

From Stdlib Require Import String.
From S2P Require Import Prelude Varint Types Io Text Wire Ser Properties Packets Outbound Session.
From S2P Require Import De Received PacketReader Connection Driver Operations Staging Transfers.

Local Open Scope Z_scope.
Local Open Scope list_scope.

(** * The size of a chunk's packet *)

Lemma mqtt_varint_len_loop_spec n fuel v len :
  (0 < n)%nat -> 0 <= v < 128 ^ Z.of_nat n -> v < 2 ^ Z.of_nat fuel -> (0 < fuel)%nat ->
  mqtt_varint_len_loop fuel v len = len - 1 + zlen (base128 n v).
Proof.
  revert fuel v len. induction n as [|n IH]; intros [|fuel] v len Hn Hv Hf H0; try lia.
  rewrite Nat2Z.inj_succ, Z.pow_succ_r in Hv, Hf by lia. cbn [mqtt_varint_len_loop base128].
  destruct (Z.leb_spec 128 v), (Z.ltb_spec v 128); try lia; [|zlia].
  assert (v / 128 < 128 ^ Z.of_nat n) by (apply Z.div_lt_upper_bound; lia).
  assert (v / 128 < 2 ^ Z.of_nat fuel) by (apply Z.div_lt_upper_bound; lia).
  assert (1 <= v / 128) by (apply Z.div_le_lower_bound; lia).
  destruct n as [|n]; [simpl in *; lia|]. destruct fuel as [|fuel]; [simpl in *; lia|].
  rewrite IH by lia. zlia.
Qed.

Lemma mqtt_varint_len_eq v :
  0 <= v <= MQTT_VARINT_MAX -> mqtt_varint_len v = zlen (varint_bytes v).
Proof.
  rewrite MQTT_VARINT_MAX_eq. intros Hv. unfold mqtt_varint_len, varint_bytes, MQTT_VARINT_MAX_BYTES.
  rewrite (mqtt_varint_len_loop_spec 4); [lia|lia|simpl; lia| |lia].
  rewrite Nat2Z.inj_succ, Z2Nat.id by apply Z.log2_nonneg.
  destruct (Z.eq_dec v 0) as [->|]; [done|]. apply Z.log2_spec. lia.
Qed.

Lemma varint_bytes_mono a b : 0 <= a <= b -> zlen (varint_bytes a) <= zlen (varint_bytes b).
Proof.
  intros. unfold varint_bytes, MQTT_VARINT_MAX_BYTES. cbn [base128].
  assert (a / 128 <= b / 128) by (apply Z.div_le_mono; lia).
  assert (a / 128 / 128 <= b / 128 / 128) by (apply Z.div_le_mono; lia).
  assert (a / 128 / 128 / 128 <= b / 128 / 128 / 128) by (apply Z.div_le_mono; lia).
  repeat match goal with |- context [?x <? 128] => destruct (Z.ltb_spec x 128) end; zlia.
Qed.

(** The properties of a chunk. *)
Definition chunk_message_properties (id : bytes) (offset : Z) : list Property :=
  [Property.PayloadFormatIndicator 0; Property.CorrelationData id;
   Property.UserProperty (str "offset") (decimal offset)].

Definition chunk_header (topic id : bytes) (offset packet_id : Z) (retain : Retain) (dup : bool)
  : PublishHeader :=
  mkPublishHeader topic (Some packet_id) (Slice (chunk_message_properties id offset)) retain
    QoS.AtLeastOnce dup.

Lemma chunk_properties_size id offset :
  properties_size (Slice (chunk_message_properties id offset)) =
  16 + zlen id + zlen (decimal offset).
Proof.
  simpl. change (zlen (str "offset")) with 6.
  change (encoded_len (mkVarint 1)) with 1. change (encoded_len (mkVarint 9)) with 1.
  change (encoded_len (mkVarint 38)) with 1. lia.
Qed.

Lemma chunk_properties_enc id offset :
  is_u32 offset -> zlen id <= MAX_TRANSFER_ID_BYTES ->
  exists block, zlen block = 16 + zlen id + zlen (decimal offset) /\
    enc_properties (Slice (chunk_message_properties id offset)) = Ok (varint_bytes (zlen block) ++ block).
Proof.
  intros Ho Hid. destruct (decimal_spec offset Ho) as [_ Hd]. unfold MAX_TRANSFER_ID_BYTES in Hid.
  set (n := 16 + zlen id + zlen (decimal offset)).
  pose proof (chunk_properties_size id offset) as Hn. fold n in Hn.
  unfold enc_properties. rewrite Hn, Z.mod_small, enc_varint_ok
    by (rewrite ?MQTT_VARINT_MAX_eq; unfold n; zlia).
  unfold chunk_message_properties, enc_property_list, enc_property. cbn [map enc_concat].
  rewrite !enc_field_ok by (try change (zlen (str "offset")) with 6; lia).
  generalize dependent (decimal offset). intros dec _ n _.
  cbn -[zlen varint_bytes to_be_bytes str app].
  match goal with |- context [varint_bytes n ++ ?b] => exists b; assert (zlen b = n) as -> end; [|done].
  rewrite !zlen_app, !zlen_to_be_bytes. change (zlen (str "offset")) with 6. unfold n. zlia.
Qed.

Lemma chunk_header_len topic id offset packet_id retain dup hb :
  is_u32 offset -> zlen id <= MAX_TRANSFER_ID_BYTES -> zlen topic <= MAX_STAGING_TOPIC ->
  enc_publish_header (chunk_header topic id offset packet_id retain dup) = Ok hb ->
  0 < zlen hb <= 2 + zlen topic + 2 + mqtt_varint_len (26 + zlen id) + (26 + zlen id).
Proof.
  intros Ho Hid Ht. destruct (decimal_spec offset Ho) as [_ Hd].
  destruct (chunk_properties_enc id offset Ho Hid) as (block & Hlen & Henc).
  unfold MAX_TRANSFER_ID_BYTES, MAX_STAGING_TOPIC in *.
  unfold enc_publish_header. cbn [chunk_header ph_topic ph_packet_id ph_properties enc_option].
  rewrite Henc, enc_field_ok by lia. unfold enc_u16. cbn [enc_app]. intros [= <-].
  rewrite mqtt_varint_len_eq by (rewrite MQTT_VARINT_MAX_eq; zlia).
  pose proof (varint_bytes_mono (zlen block) (26 + zlen id) ltac:(zlia)).
  pose proof (varint_bytes_length (zlen block) ltac:(zlia)).
  rewrite !zlen_cons, !zlen_app, !zlen_cons, zlen_app. zlia.
Qed.

Lemma mqtt_varint_len_loop_ge fuel v len : len <= mqtt_varint_len_loop fuel v len.
Proof.
  revert v len. induction fuel as [|fuel IH]; intros v len; simpl; [lia|].
  destruct (128 <=? v); [|lia]. specialize (IH (v / 128) (len + 1)). lia.
Qed.

(** Past the largest varint the loop counts on, to more than four bytes. *)
Lemma mqtt_varint_len_large v : MQTT_VARINT_MAX < v -> 4 <= mqtt_varint_len v.
Proof.
  rewrite MQTT_VARINT_MAX_eq. intros Hv. unfold mqtt_varint_len.
  assert (21 <= Z.log2 v) by (apply (Z.log2_le_mono (2 ^ 21)); lia).
  destruct (Z.to_nat (Z.log2 v)) as [|[|[|fuel]]] eqn:Hf; [lia|lia|lia|].
  cbn [mqtt_varint_len_loop].
  assert (2 ^ 20 <= v / 128) by (apply Z.div_le_lower_bound; lia).
  assert (2 ^ 13 <= v / 128 / 128) by (apply Z.div_le_lower_bound; lia).
  destruct (Z.leb_spec 128 v); [|lia]. destruct (Z.leb_spec 128 (v / 128)); [|lia].
  destruct (Z.leb_spec 128 (v / 128 / 128)); [|lia].
  destruct (_ <=? _); [|done]. eapply Z.le_trans; [|apply mqtt_varint_len_loop_ge]. done.
Qed.

Lemma varint_bytes_le_len a b :
  0 <= a <= b -> a <= MQTT_VARINT_MAX -> zlen (varint_bytes a) <= mqtt_varint_len b.
Proof.
  intros Hab Ha. destruct (Z.le_gt_cases b MQTT_VARINT_MAX).
  - rewrite mqtt_varint_len_eq by lia. by apply varint_bytes_mono.
  - pose proof (mqtt_varint_len_large b). pose proof (varint_bytes_length a). lia.
Qed.

(** The body of a chunk's packet, and the whole packet. *)
Lemma chunk_packet_len h topic id offset packet_id retain dup hb payload max_chunk :
  is_u32 offset -> zlen id <= MAX_TRANSFER_ID_BYTES -> zlen topic <= MAX_STAGING_TOPIC ->
  enc_publish_header (chunk_header topic id offset packet_id retain dup) = Ok hb ->
  zlen payload <= max_chunk -> zlen (hb ++ payload) <= MQTT_VARINT_MAX ->
  zlen (packet_bytes h (hb ++ payload)) <= required_rx_bytes topic id max_chunk.
Proof.
  intros Ho Hid Ht Hh Hp Hmax. apply chunk_header_len in Hh as [_ Hh]; [|done..].
  unfold required_rx_bytes, packet_bytes. change (zlen (str "offset")) with 6.
  replace (2 + 1 + 2 + zlen id + 1 + 2 + 6 + 2 + 10) with (26 + zlen id) by lia.
  set (remaining := 2 + zlen topic + 2 + _ + _ + max_chunk).
  assert (zlen (hb ++ payload) <= remaining) as Hle by (rewrite zlen_app; unfold remaining; lia).
  pose proof (varint_bytes_le_len _ _ (conj (zlen_nonneg _) Hle) Hmax).
  rewrite zlen_cons, zlen_app. lia.
Qed.

Section Upload.
Context `{Formats}.

(** The derived topics fit: none of the source's [expect]s panics. *)
Lemma topic_or_panic_ok s suffix :
  service_wf s -> zlen suffix <= zlen MANIFEST_SUFFIX ->
  topic_or_panic (stg_prefix s) suffix = stg_prefix s ++ suffix /\
  zlen (stg_prefix s ++ suffix) <= MAX_STAGING_TOPIC.
Proof.
  intros (_ & _ & _ & _ & Hp) Hs. unfold topic_or_panic, staging_topic, push_str.
  destruct (Z.ltb_spec MAX_STAGING_TOPIC (zlen (stg_prefix s) + zlen suffix)); [lia|].
  split; [done|]. rewrite zlen_app. lia.
Qed.

Lemma derived_topics s :
  service_wf s ->
  manifest_topic s = stg_prefix s ++ MANIFEST_SUFFIX /\
  status_topic s = stg_prefix s ++ STATUS_SUFFIX /\ chunk_topic s = stg_prefix s ++ CHUNK_SUFFIX.
Proof. intros Hwf. by split_and!; apply topic_or_panic_ok. Qed.

Lemma chunk_topic_ok s : service_wf s -> chunk_topic s = stg_prefix s ++ CHUNK_SUFFIX /\
  zlen (chunk_topic s) <= MAX_STAGING_TOPIC.
Proof.
  intros Hwf. destruct (topic_or_panic_ok s CHUNK_SUFFIX Hwf) as [Ht Hl]; [done|].
  change (chunk_topic s) with (topic_or_panic (stg_prefix s) CHUNK_SUFFIX). by rewrite Ht.
Qed.

Lemma slice_payload_ok payload buf slice len :
  to_payload (bytes_payload payload) buf = (slice, Ok len) ->
  len = zlen payload /\ ztake (zlen payload) slice = payload /\ zlen payload <= zlen buf.
Proof.
  simpl. unfold slice_payload. destruct (Z.ltb_spec (zlen buf) (zlen payload)); [done|].
  intros [= <- <-]. split_and!; [done| |lia]. unfold zwrite. simpl. by rewrite ztake_app_exact.
Qed.

Lemma valid_id_len id : valid_id id = true -> zlen id <= MAX_TRANSFER_ID_BYTES.
Proof. unfold valid_id. intros Hv. apply andb_prop in Hv as [[_ Hv]%andb_prop _]. lia. Qed.

(** C26: the chunks of an accepted manifest can be received. When the service
    accepts a manifest (it then asks for the storage to be prepared), every chunk
    within the chunk size limit, at any offset and with any packet identifier and
    flags, encoded with the properties of the protocol as the library's own
    encoder does it, is no longer than the receive buffer the service knows of. *)
Theorem accepted_chunks_fit_receive_buffer s p s' size t offset packet_id retain dup
    payload buf buf' off packet :
  service_wf s -> staging_handle s p = (s', StagingRequested (StagingRequest.Prepare size)) ->
  stg_transfer s' = Some t -> is_u32 offset -> zlen payload <= stg_max_chunk_size s' ->
  zlen buf <= MQTT_VARINT_MAX ->
  let header := chunk_header (chunk_topic s') (transfer_id t) offset packet_id retain dup in
  encode_publish_with_offset buf (serialize header) (publish_header_fixed_header header)
    (bytes_payload payload) = (buf', Ok (off, packet)) ->
  zlen packet <= stg_max_rx_packet_size s.
Proof.
  intros Hwf Hs Ht Ho Hp Hbuf header He. apply staging_handle_cases in Hs.
  inversion Hs as [? ? _ [?|?]|t' ? Hst Hm Hsize Hn Hrx Hmq Heq|?|?]; simplify_eq.
  destruct Hmq as (a & b & c & d & e & ->). simpl in Ht, Hp. simplify_eq.
  change (chunk_topic _) with (chunk_topic s) in *.
  destruct (chunk_topic_ok s Hwf) as [_ Htopic].
  destruct (parse_manifest_ok _ _ Hm) as (_ & _ & Hid%valid_id_len).
  assert (properties_ok (ph_properties header)) as Hok by (repeat constructor; done).
  pose proof (encode_publish_cases buf _ _ (publish_header_fixed_header header)
    (bytes_payload payload) (implements_publish_header _ Hok)) as Hc.
  rewrite He in Hc. destruct Hc as [_ (hb & slice & len & Hh & Hfit & Hpay & -> & Hoff)].
  { intros hb Hhb. by eapply chunk_header_len. } { done. }
  apply slice_payload_ok in Hpay as (-> & -> & Hroom).
  rewrite zlen_zdrop in Hroom by (unfold MAX_FIXED_HEADER_SIZE in *; zlia).
  eapply Z.le_trans; [|exact Hrx]. eapply chunk_packet_len; try done.
  rewrite zlen_app. unfold MAX_FIXED_HEADER_SIZE in *. lia.
Qed.

(** * Chunks, one at a time *)

Definition chunk_message (s : StagingService) (id : bytes) (offset : Z) (payload : bytes)
  : InboundPublish :=
  mkInboundPublish (chunk_topic s) payload (Slice (chunk_message_properties id offset))
    Retain.NotRetained QoS.AtLeastOnce.

Lemma handle_chunk_message s id offset payload :
  service_wf s -> is_u32 offset ->
  staging_handle s (chunk_message s id offset payload) = handle_chunk s id offset payload.
Proof.
  intros Hwf Ho. destruct (chunk_topic_ok s Hwf) as [Ht _].
  unfold staging_handle, handle_publish_with_properties. cbn [chunk_message ip_topic ip_payload
    ip_properties ip_retained ip_retain].
  rewrite Ht, strip_prefix_app. cbn [ip_retained ip_retain].
  rewrite (bool_decide_eq_false_2 (Some CHUNK_SUFFIX = Some MANIFEST_SUFFIX)) by (by vm_compute).
  rewrite bool_decide_eq_true_2 by done. cbn [orb negb].
  unfold chunk_properties, correlation_data. rewrite iter_slice.
  unfold chunk_message_properties. cbn [map find_map foldl].
  rewrite bool_decide_eq_true_2 by done.
  destruct (decimal_spec offset Ho) as [-> _]. done.
Qed.

(** C25: which chunks the device accepts, exactly. In every reachable state that is
    ready for a chunk, a chunk of the transfer becomes a write request if and only
    if it is at the requested offset, non-empty, within the chunk size and the
    capacity, aligned, and has only erased bytes past the end of the object; the
    request carries offset, bytes and size, and the checksum exactly when the
    object is then complete. A chunk at an earlier or later offset changes nothing
    but the status to publish, and any other chunk ends the transfer in error. *)
Theorem chunk_verdict hash {IO E} `{Transport IO E} {T : Time} `{!Clock IO T} d offset payload :
  reachable (E := E) hash d -> stg_state (dev_service d) = State.Ready -> is_u32 offset ->
  zlen payload < 2 ^ 32 ->
  let s := dev_service d in
  exists t, stg_transfer s = Some t /\
  let '(s', h) := staging_handle s (chunk_message s (transfer_id t) offset payload) in
  (chunk_ok s t offset payload ->
     stg_state s' = State.Writing /\
     h = StagingRequested (StagingRequest.Write (mkStagingWrite offset payload (transfer_size t)
           (if transfer_size t <=? offset + zlen payload then Some (transfer_fnv1a64 t) else None)))) /\
  (~ chunk_ok s t offset payload -> h = StagingConsumed /\
     if offset =? transfer_next_offset t
     then stg_state s' = State.Error /\ stg_transfer s' = Some t /\ stg_request s' = None
     else s' = queue_action s (Action.Publish
            (if offset <? transfer_next_offset t then StatusCode.Duplicate else StatusCode.Offset))).
Proof.
  intros [Hwf Hd]%reachable_inv Hst Ho Hlen. unfold phase_inv in Hd. rewrite Hst in Hd.
  destruct Hd as (t & Ht & Hr & _ & Hok & _). exists t. split; [done|].
  rewrite handle_chunk_message by done. unfold handle_chunk. rewrite Ht, Hst.
  rewrite bool_decide_eq_true_2 by done. cbn [negb].
  assert (Hv := fun next => validate_chunk_ok (dev_service d) t offset payload next
    ltac:(apply Hwf) ltac:(apply Hwf) Hok Hlen).
  destruct (validate_chunk _ _ _ _ _ _) as [next|e] eqn:Hval.
  - destruct (proj1 (Hv next) eq_refl) as [Hc ->]. split; [intros _|done]. split; [done|].
    do 4 f_equal. destruct Hok as (_ & Hn & _), Hc as (-> & _).
    destruct (Z.leb_spec (transfer_size t) (transfer_next_offset t + zlen payload)).
    + by rewrite Z.min_r, Z.eqb_refl by lia.
    + rewrite Z.min_l by lia. destruct (Z.eqb_spec (transfer_next_offset t + zlen payload) (transfer_size t)); [lia|done].
  - assert (~ chunk_ok (dev_service d) t offset payload) as Hno.
    { intros Hc. discriminate (proj2 (Hv _) (conj Hc eq_refl)). }
    destruct (queue_action_only (set_transfer (dev_service d) State.Error (Some t) (stg_request (dev_service d)))
      (Action.Publish match e with ChunkError.Queue c | ChunkError.Fail c => c end))
      as (a & b & c & f & g & Hq).
    clear Hv. revert Hval. unfold validate_chunk.
    destruct (Z.ltb_spec offset (transfer_next_offset t)), (Z.eqb_spec offset (transfer_next_offset t));
      cbn [negb]; try lia; intros Hval.
    + injection Hval as <-. split; [done|]. intros _. split; done.
    + repeat case_match; simplify_eq; (split; [done|]); intros _; (split; [done|]);
        rewrite Hq; (split; [done|]); split; done.
    + injection Hval as <-. split; [done|]. intros _. split; done.
Qed.

(** * Chunks off the wire *)

Lemma valid_id_u8 id : valid_id id = true -> all_u8 id.
Proof.
  unfold valid_id. intros Hv. apply andb_prop in Hv as [_ Hv]. apply Is_true_true_2, forallb_True in Hv.
  eapply Forall_impl; [exact Hv|]. intros b Hb. cbv beta in Hb.
  apply Is_true_true, orb_true_iff in Hb as [Hb|Hb].
  - unfold is_ascii_alphanumeric, is_ascii_digit in Hb. unfold is_u8. lia.
  - apply existsb_exists in Hb as (x & Hx & ->%Z.eqb_eq). vm_compute in Hx. unfold is_u8.
    destruct Hx as [<-|[<-|[<-|[]]]]; lia.
Qed.

Lemma chunk_properties_sendable id offset :
  valid_id id = true -> is_u32 offset -> sendable (Slice (chunk_message_properties id offset)).
Proof.
  intros Hid Ho. pose proof (valid_id_len _ Hid). unfold MAX_TRANSFER_ID_BYTES in *.
  destruct (decimal_spec offset Ho) as [_ Hd].
  assert (str_wf (decimal offset)) as Hs
    by (split; [lia|by apply from_utf8_ascii, decimal_ascii]).
  assert (properties_wf (Slice (chunk_message_properties id offset))) as Hw.
  { repeat constructor; try done; try apply Hs; [lia|by apply valid_id_u8]. }
  split; [done|]. rewrite chunk_properties_size, MQTT_VARINT_MAX_eq. lia.
Qed.

(** The message a chunk's packet decodes to is handled as a chunk. *)
Lemma handle_received_chunk s id offset payload :
  service_wf s -> valid_id id = true -> is_u32 offset ->
  iter (received_properties (Slice (chunk_message_properties id offset))) =
    iter (Slice (chunk_message_properties id offset)) ->
  staging_handle s (mkInboundPublish (chunk_topic s) payload
    (received_properties (Slice (chunk_message_properties id offset))) Retain.NotRetained
    QoS.AtLeastOnce) = handle_chunk s id offset payload.
Proof.
  intros Hwf Hid Ho Hit. rewrite <- handle_chunk_message by done.
  unfold staging_handle, handle_publish_with_properties, chunk_properties, correlation_data.
  cbn [chunk_message ip_topic ip_payload ip_properties ip_retained ip_retain]. by rewrite Hit.
Qed.

(** A chunk reaches the service over the wire. A chunk that the host encoded,
    with any valid identifier and offset, packet identifier and duplicate flag,
    decodes in the receive buffer of the device's connection to a publication with
    the same bytes, and the service handles it as the chunk of that identifier and
    offset; the repetition of a chunk is no different from the first one. *)
Theorem chunk_survives_wire {IO E} `{Transport IO E} {T : Time} `{!Clock IO T}
    s (c : Connection IO) id offset packet_id dup payload buf buf' packet :
  service_wf s -> from_utf8 (chunk_topic s) = true -> valid_id id = true -> is_u32 offset ->
  is_u16 packet_id -> all_u8 payload -> zlen buf <= MQTT_VARINT_MAX ->
  let header := chunk_header (chunk_topic s) id offset packet_id Retain.NotRetained dup in
  encode_publish buf (serialize header) (publish_header_fixed_header header)
    (bytes_payload payload) = (buf', Ok packet) ->
  zlen packet <= zlen (buffer (conn_reader c)) ->
  ztake (zlen packet) (buffer (conn_reader c)) = packet ->
  exists msg, decode_inbound_publish (E := E) (zlen packet) c = (c, Some (Ok msg)) /\
    ip_payload msg = payload /\ staging_handle s msg = handle_chunk s id offset payload.
Proof.
  intros Hwf Hutf Hid Ho Hp Hpay Hbuf header He Hlen Hpk.
  destruct (chunk_topic_ok s Hwf) as [_ Htopic].
  pose proof (chunk_properties_sendable id offset Hid Ho) as Hsend.
  assert (properties_ok (ph_properties header)) as Hok by (apply properties_wf_ok, Hsend).
  pose proof (encode_publish_cases buf _ _ (publish_header_fixed_header header)
    (bytes_payload payload) (implements_publish_header _ Hok)) as Hc.
  unfold encode_publish in He.
  destruct (encode_publish_with_offset _ _ _ _) as [b1 [[off wire]|e]]; [|done].
  injection He as <- ->. destruct Hc as [_ (hb & slice & len & Hh & Hfit & Hw & -> & _)].
  { intros hb Hhb. apply valid_id_len in Hid. by eapply chunk_header_len. } { done. }
  apply slice_payload_ok in Hw as (-> & Htk & Hroom). rewrite Htk in *.
  destruct (publish_decodes header payload hb) as (_ & Hd & Hit); try done.
  { split; [unfold MAX_STAGING_TOPIC in *; simpl; lia|exact Hutf]. }
  { rewrite zlen_zdrop in Hroom; unfold MAX_FIXED_HEADER_SIZE in *; zlia. }
  unfold decode_inbound_publish. rewrite Hpk, Hd.
  destruct (Z.ltb_spec (zlen (buffer (conn_reader c))) (zlen (packet_bytes (publish_header_fixed_header header) (hb ++ payload)))); [lia|].
  eexists. split; [reflexivity|]. split; [done|]. by apply handle_received_chunk.
Qed.

(** * A whole upload *)

(** The host cuts the object into chunks of [n] bytes and pads the last one to the
    alignment with erased bytes. *)
Definition pad (write_size : Z) (data : bytes) : bytes :=
  data ++ erased ((- zlen data) mod write_size).

Fixpoint host_chunks (fuel : nat) (n write_size : Z) (data : bytes) : list bytes :=
  match fuel with
  | O => []
  | S fuel' =>
      if zlen data <=? n then [pad write_size data]
      else ztake n data :: host_chunks fuel' n write_size (zdrop n data)
  end.

(** The device handles a message, and the storage succeeds. *)
Definition deliver (s : StagingService) (p : InboundPublish)
  : StagingService * list StagingRequest :=
  match staging_handle s p with
  | (s', StagingRequested r) => (complete_request s' true, [r])
  | (s', _) => (s', [])
  end.

Fixpoint deliver_chunks (s : StagingService) (id : bytes) (offset : Z) (chunks : list bytes)
  : StagingService * list StagingRequest :=
  match chunks with
  | [] => (s, [])
  | chunk :: chunks' =>
      let '(s, r) := deliver s (chunk_message s id offset chunk) in
      let '(s, rs) := deliver_chunks s id (offset + zlen chunk) chunks' in
      (s, r ++ rs)
  end.

Lemma zlen_pad ws data :
  0 < ws -> divides ws (zlen (pad ws data)) /\ zlen data <= zlen (pad ws data) < zlen data + ws.
Proof.
  intros Hws. unfold pad. pose proof (Z.mod_pos_bound (- zlen data) ws Hws).
  rewrite zlen_app, zlen_erased by lia. split; [|lia].
  exists (- (- zlen data / ws)). pose proof (Z.div_mod (- zlen data) ws). lia.
Qed.

Lemma pad_le n ws data : 0 < ws -> divides ws n -> zlen data <= n -> zlen (pad ws data) <= n.
Proof.
  intros Hws [k ->] Hle. destruct (zlen_pad ws data Hws) as [[j Hj] Hb].
  assert (j < k + 1) by nia. nia.
Qed.

Lemma deliver_chunk s t payload :
  service_wf s -> stg_state s = State.Ready -> stg_transfer s = Some t -> transfer_ok s t ->
  zlen payload < 2 ^ 32 -> chunk_ok s t (transfer_next_offset t) payload ->
  let final := transfer_size t <=? transfer_next_offset t + zlen payload in
  exists s', deliver s (chunk_message s (transfer_id t) (transfer_next_offset t) payload) =
    (s', [write_job t payload
            (Z.min (transfer_next_offset t + zlen payload) (transfer_size t))]) /\
    mqtt_only
      (if final then set_transfer s State.Complete (Some (at_offset t (transfer_size t))) None
       else set_transfer s State.Ready
              (Some (at_offset t (transfer_next_offset t + zlen payload))) None) s'.
Proof.
  intros Hwf Hst Ht Hok Hlen Hc. unfold deliver.
  assert (is_u32 (transfer_next_offset t)) as Ho.
  { destruct Hok as (Hs & Hn & _), Hwf as (_ & _ & _ & Hcap & _). unfold is_u32 in *. lia. }
  rewrite handle_chunk_message by done. unfold handle_chunk. rewrite Ht, Hst.
  rewrite bool_decide_eq_true_2 by done. cbn [negb].
  assert (Hv := proj2 (validate_chunk_ok s t _ payload _ ltac:(apply Hwf) ltac:(apply Hwf) Hok Hlen)
    (conj Hc eq_refl)). rewrite Hv. eexists. split; [reflexivity|].
  match goal with |- mqtt_only _ (complete_request ?s1 true) =>
    pose proof (complete_request_written s1 t _ _ eq_refl eq_refl) as Hm end.
  destruct (Z.leb_spec (transfer_size t) (transfer_next_offset t + zlen payload)).
  - by rewrite Z.min_r, Z.eqb_refl in Hm |- * by lia.
  - rewrite Z.min_l in Hm |- * by lia.
    by destruct (Z.eqb_spec (transfer_next_offset t + zlen payload) (transfer_size t)); [lia|].
Qed.

Lemma is_erased_erased n : is_erased (erased n).
Proof. by apply Forall_replicate. Qed.

Lemma pad_last_chunk_ok s t n data :
  service_wf s -> transfer_ok s t -> 0 < n <= stg_max_chunk_size s -> divides (stg_write_size s) n ->
  zlen data = transfer_size t - transfer_next_offset t -> zlen data <= n ->
  transfer_next_offset t + zlen (pad (stg_write_size s) data) <= stg_capacity s ->
  chunk_ok s t (transfer_next_offset t) (pad (stg_write_size s) data).
Proof.
  intros (Hws & _) (_ & Ho & _) Hn Hdiv Hlen Hle Hcap.
  destruct (zlen_pad (stg_write_size s) data Hws) as [Hd Hb].
  pose proof (pad_le n (stg_write_size s) data Hws Hdiv Hle).
  unfold chunk_ok. split_and!; try done; try lia.
  unfold pad. rewrite zdrop_app_exact by done. apply is_erased_erased.
Qed.

Lemma full_chunk_ok s t n data :
  service_wf s -> transfer_ok s t -> 0 < n <= stg_max_chunk_size s -> divides (stg_write_size s) n ->
  zlen data = transfer_size t - transfer_next_offset t -> n < zlen data ->
  chunk_ok s t (transfer_next_offset t) (ztake n data).
Proof.
  intros Hwf (Hs & Ho & _) Hn Hdiv Hlen Hle. unfold chunk_ok. rewrite zlen_ztake by lia.
  split_and!; try done; try lia. rewrite zdrop_full by (rewrite zlen_ztake; lia). constructor.
Qed.

Lemma pad_zdrop n ws data :
  0 < ws -> divides ws n -> 0 <= n <= zlen data -> ztake n data ++ pad ws (zdrop n data) = pad ws data.
Proof.
  intros Hws [k Hk] Hn. unfold pad. rewrite app_assoc, ztake_zdrop. do 2 f_equal.
  rewrite zlen_zdrop by lia. replace (- (zlen data - n)) with (- zlen data + k * ws) by lia.
  by rewrite Z.mod_add by lia.
Qed.

Lemma deliver_chunks_complete fuel n s t data :
  service_wf s -> stg_state s = State.Ready -> stg_transfer s = Some t -> transfer_ok s t ->
  0 < n <= stg_max_chunk_size s -> n <= MQTT_VARINT_MAX -> divides (stg_write_size s) n ->
  zlen data = transfer_size t - transfer_next_offset t ->
  transfer_next_offset t + zlen (pad (stg_write_size s) data) <= stg_capacity s ->
  (length data <= fuel)%nat ->
  exists s' ws,
    deliver_chunks s (transfer_id t) (transfer_next_offset t)
      (host_chunks fuel n (stg_write_size s) data) = (s', map StagingRequest.Write ws) /\
    mqtt_only (set_transfer s State.Complete (Some (at_offset t (transfer_size t))) None) s' /\
    written ws = pad (stg_write_size s) data /\
    contiguous (stg_max_chunk_size s) (stg_write_size s) (transfer_next_offset t) ws.
Proof.
  revert s t data. induction fuel as [|fuel IH];
    intros s t data Hwf Hst Ht Hok Hn Hn' Hdiv Hlen Hcap Hf.
  { destruct Hok as (_ & ? & _). destruct data; [rewrite zlen_nil in Hlen|simpl in Hf]; lia. }
  assert (Hal := Hok). destruct Hal as (Hs & Ho & Hal). cbn [host_chunks].
  assert (Hws : 0 < stg_write_size s) by apply Hwf. assert (Hmax := MQTT_VARINT_MAX_eq).
  destruct (Z.leb_spec (zlen data) n) as [Hle|Hgt]; cbn [deliver_chunks].
  - pose proof (pad_last_chunk_ok s t n data Hwf Hok Hn Hdiv Hlen Hle Hcap) as Hc.
    destruct (zlen_pad (stg_write_size s) data Hws) as [_ Hb].
    pose proof (pad_le n _ data Hws Hdiv Hle).
    destruct (deliver_chunk s t (pad (stg_write_size s) data) Hwf Hst Ht Hok ltac:(lia) Hc) as (s' & -> & Hm).
    destruct (Z.leb_spec (transfer_size t) (transfer_next_offset t + zlen (pad (stg_write_size s) data))); [|lia].
    eexists s', [_]. split; [reflexivity|]. unfold written. simpl. rewrite app_nil_r.
    destruct Hc as (_ & ? & ? & _). by split_and!; try lia.
  - pose proof (full_chunk_ok s t n data Hwf Hok Hn Hdiv Hlen Hgt) as Hc.
    assert (zlen (ztake n data) = n) as Hz by (apply zlen_ztake; lia).
    destruct (deliver_chunk s t (ztake n data) Hwf Hst Ht Hok ltac:(lia) Hc) as (s1 & -> & Hm). rewrite Hz in *.
    destruct (Z.leb_spec (transfer_size t) (transfer_next_offset t + n)); [lia|].
    destruct Hm as (a & b & c & e & f & ->).
    pose proof (pad_zdrop n (stg_write_size s) data Hws Hdiv ltac:(lia)) as Hpad.
    pose proof (f_equal zlen Hpad) as Hpl. rewrite zlen_app, Hz in Hpl.
    match goal with |- context [deliver_chunks ?s1] =>
      destruct (IH s1 (at_offset t (transfer_next_offset t + n)) (zdrop n data))
        as (s2 & ws & Hd & Hm & Hw & Hcont) end; try done.
    + split_and!; simpl; try lia. by apply divides_add.
    + rewrite zlen_zdrop by lia. simpl. lia.
    + simpl. lia.
    + unfold zdrop. rewrite length_drop. lia.
    + simpl in Hd. rewrite Hd. eexists s2, (_ :: ws). split; [reflexivity|].
      split_and!; [exact Hm| |].
      * change (written (_ :: ws)) with (ztake n data ++ written ws). rewrite Hw. exact Hpad.
      * cbn [contiguous sw_offset sw_payload]. rewrite Hz. by split_and!; try lia.
Qed.

Definition manifest_message (s : StagingService) (payload : bytes) : InboundPublish :=
  mkInboundPublish (manifest_topic s) payload (Slice []) Retain.NotRetained QoS.AtLeastOnce.

Lemma handle_manifest_message s payload :
  service_wf s -> staging_handle s (manifest_message s payload) = handle_manifest s payload.
Proof.
  intros Hwf. unfold staging_handle, handle_publish_with_properties.
  cbn [manifest_message ip_topic ip_payload ip_properties ip_retained ip_retain].
  destruct (derived_topics s Hwf) as [-> _].
  by rewrite strip_prefix_app, bool_decide_eq_true_2 by done.
Qed.

Lemma deliver_manifest s payload t :
  service_wf s -> stg_state s = State.Idle -> parse_manifest payload = Ok t ->
  0 < transfer_size t <= stg_capacity s ->
  required_rx_bytes (chunk_topic s) (transfer_id t) (stg_max_chunk_size s) <=
    stg_max_rx_packet_size s ->
  exists s', deliver s (manifest_message s payload) =
    (s', [StagingRequest.Prepare (transfer_size t)]) /\
    mqtt_only (set_transfer s State.Ready (Some t) None) s'.
Proof.
  intros Hwf Hst Hp Hs Hrx. unfold deliver. rewrite handle_manifest_message by done.
  unfold handle_manifest. rewrite Hp, bool_decide_eq_true_2 by done. cbn [negb].
  destruct (Z.eqb_spec (transfer_size t) 0); [lia|].
  destruct (Z.ltb_spec (stg_capacity s) (transfer_size t)); [lia|].
  destruct (Z.ltb_spec (stg_max_rx_packet_size s)
    (required_rx_bytes (chunk_topic s) (transfer_id t) (stg_max_chunk_size s))); [lia|].
  eexists. split; [reflexivity|].
  destruct (queue_action_only (set_transfer s State.Preparing (Some t) (stg_request s))
    (Action.Publish StatusCode.Accepted)) as (a & b & c & d & e & ->).
  etrans; [|by apply complete_request_prepared]. by exists a, b, c, d, e.
Qed.

(** C16: an upload completes. Given an idle device whose receive buffer holds a packet
    with the largest chunk (a service learns the buffer's size in its first step after a
    connect; before that it refuses every manifest), a non-empty object whose padded size
    is within the capacity and a manifest that describes it, a host that follows the
    protocol (the manifest, then chunks of any size that is a multiple of the write size,
    within the device's limit and that of an MQTT packet, the last one padded with erased
    bytes) brings the device to the complete state, when the storage succeeds: every
    message is accepted, the storage is asked to prepare once and then to write, in order
    and without gaps, exactly the object and its padding. *)
Theorem upload_completes s payload t n object :
  service_wf s -> stg_state s = State.Idle -> parse_manifest payload = Ok t ->
  zlen object = transfer_size t -> 0 < zlen object ->
  zlen (pad (stg_write_size s) object) <= stg_capacity s ->
  required_rx_bytes (chunk_topic s) (transfer_id t) (stg_max_chunk_size s) <=
    stg_max_rx_packet_size s ->
  0 < n <= stg_max_chunk_size s -> n <= MQTT_VARINT_MAX -> divides (stg_write_size s) n ->
  let '(s1, prepare) := deliver s (manifest_message s payload) in
  let '(s2, writes) := deliver_chunks s1 (transfer_id t) 0
                         (host_chunks (length object) n (stg_write_size s) object) in
  prepare = [StagingRequest.Prepare (zlen object)] /\
  staging_status s2 = mkStatus State.Complete StatusCode.Complete (transfer_id t) (zlen object)
    (zlen object) (stg_max_chunk_size s) (stg_write_size s) /\
  exists ws, writes = map StagingRequest.Write ws /\
    written ws = pad (stg_write_size s) object /\
    contiguous (stg_max_chunk_size s) (stg_write_size s) 0 ws.
Proof.
  intros Hwf Hst Hp Hlen Hpos Hcap Hrx Hn Hn' Hdiv.
  assert (Hws : 0 < stg_write_size s) by apply Hwf.
  destruct (zlen_pad (stg_write_size s) object Hws) as [_ Hb].
  destruct (parse_manifest_ok _ _ Hp) as (_ & Hz & _).
  destruct (deliver_manifest s payload t) as (s1 & -> & a & b & c & d & e & ->); try done; [lia|].
  match goal with |- context [deliver_chunks ?s1] =>
    destruct (deliver_chunks_complete (length object) n s1 t object)
      as (s2 & ws & Hd & (a' & b' & c' & d' & e' & ->) & Hw & Hcont) end; try done; simpl; try (rewrite Hz; lia).
  { split_and!; simpl; try lia. rewrite Hz. by exists 0. }
  rewrite Hz in Hd, Hcont. simpl in Hd, Hcont. rewrite Hd, Hlen. split; [done|]. split; [done|by exists ws].
Qed.
End Upload.

(** * Examples *)

Lemma demo_driven_wf : service_wf demo_driven.
Proof. by split_and!. Qed.

Lemma demo_half_wf : service_wf (dev_service demo_half).
Proof. by split_and!. Qed.

Lemma demo_chunk_encodes :
  encode_publish_with_offset (repeat 0 64)
    (serialize (chunk_header (str "p/chunk") (str "a") 4 9 Retain.NotRetained false))
    (publish_header_fixed_header (chunk_header (str "p/chunk") (str "a") 4 9 Retain.NotRetained false))
    (bytes_payload (str "ar" ++ [255; 255])) =
  ([0; 0; 0; 50; 34; 0; 7; 112; 47; 99; 104; 117; 110; 107; 0; 9; 18; 1; 0; 9; 0; 1; 97; 38; 0; 6;
    111; 102; 102; 115; 101; 116; 0; 1; 52; 97; 114; 255; 255] ++ repeat 0 25,
   Ok (3, [50; 34; 0; 7; 112; 47; 99; 104; 117; 110; 107; 0; 9; 18; 1; 0; 9; 0; 1; 97; 38; 0; 6;
    111; 102; 102; 115; 101; 116; 0; 1; 52; 97; 114; 255; 255])).
Proof. by vm_compute. Qed.

Lemma accepted_chunks_fit_receive_buffer_witness :
  staging_handle demo_driven demo_manifest =
    (dev_service demo_erasing, StagingRequested (StagingRequest.Prepare 6)) /\
  zlen [50; 34; 0; 7; 112; 47; 99; 104; 117; 110; 107; 0; 9; 18; 1; 0; 9; 0; 1; 97; 38; 0; 6;
    111; 102; 102; 115; 101; 116; 0; 1; 52; 97; 114; 255; 255] <= 64.
Proof.
  split; [reflexivity|].
  eapply (accepted_chunks_fit_receive_buffer demo_driven demo_manifest (dev_service demo_erasing) 6
    (mkTransfer (str "a") 6 0 0x85944171f73967e8) 4 9 Retain.NotRetained false
    (str "ar" ++ [255; 255]) (repeat 0 64)).
  - exact demo_driven_wf.
  - reflexivity.
  - reflexivity.
  - split; [discriminate|reflexivity].
  - vm_compute. discriminate.
  - vm_compute. discriminate.
  - exact demo_chunk_encodes.
Defined.

Definition demo_packet : bytes :=
  [50; 34; 0; 7; 112; 47; 99; 104; 117; 110; 107; 0; 9; 18; 1; 0; 9; 0; 1; 97; 38; 0; 6;
   111; 102; 102; 115; 101; 116; 0; 1; 52; 97; 114; 255; 255].

(** The connection of the device with the chunk in its receive buffer. *)
Definition demo_received : Connection Scripted.IO :=
  set_session demo_link (set_reader (session demo_link) (PacketReader_new (demo_packet ++ repeat 0 28))).

Lemma chunk_survives_wire_witness :
  exists msg, decode_inbound_publish (E := unit) (zlen demo_packet) demo_received =
      (demo_received, Some (Ok msg)) /\
    ip_payload msg = str "ar" ++ [255; 255] /\
    staging_handle (dev_service demo_half) msg =
      handle_chunk (dev_service demo_half) (str "a") 4 (str "ar" ++ [255; 255]).
Proof.
  eapply (chunk_survives_wire (E := unit) (dev_service demo_half) demo_received (str "a") 4 9 false
    (str "ar" ++ [255; 255]) (repeat 0 64)).
  - exact demo_half_wf.
  - reflexivity.
  - reflexivity.
  - split; [discriminate|reflexivity].
  - split; [discriminate|reflexivity].
  - repeat constructor; discriminate.
  - vm_compute. discriminate.
  - change (chunk_topic (dev_service demo_half)) with (str "p/chunk").
    unfold encode_publish. rewrite demo_chunk_encodes. reflexivity.
  - vm_compute. discriminate.
  - reflexivity.
Defined.

Lemma demo_first_chunk_ok :
  chunk_ok (dev_service demo_ready) (mkTransfer (str "a") 6 0 0x85944171f73967e8) 0 (str "foob").
Proof. split_and!; try done. constructor. Qed.

Lemma chunk_verdict_witness :
  let '(s', h) := staging_handle (dev_service demo_ready)
                    (chunk_message (dev_service demo_ready) (str "a") 0 (str "foob")) in
  stg_state s' = State.Writing /\
  h = StagingRequested (StagingRequest.Write (mkStagingWrite 0 (str "foob") 6 None)).
Proof.
  destruct (chunk_verdict fnv1a64 (E := unit) (T := Scripted.time) demo_ready 0 (str "foob")
    demo_ready_reachable eq_refl (conj (Z.le_refl 0) eq_refl) eq_refl) as (t & Ht & Hv).
  assert (t = mkTransfer (str "a") 6 0 0x85944171f73967e8) as -> by (injection Ht as <-; reflexivity).
  cbn [transfer_id] in Hv.
  destruct (staging_handle (dev_service demo_ready)
    (chunk_message (dev_service demo_ready) (str "a") 0 (str "foob"))) as [s' h].
  exact (proj1 Hv demo_first_chunk_ok).
Defined.

Lemma upload_completes_witness :
  let '(s1, prepare) := deliver demo_driven (manifest_message demo_driven
                          (6 :: 0x85944171f73967e8 :: str "a")) in
  let '(s2, writes) := deliver_chunks s1 (str "a") 0 (host_chunks 6 4 4 (str "foobar")) in
  prepare = [StagingRequest.Prepare 6] /\ status_state (staging_status s2) = State.Complete.
Proof.
  pose proof (upload_completes demo_driven (6 :: 0x85944171f73967e8 :: str "a")
    (mkTransfer (str "a") 6 0 0x85944171f73967e8) 4 (str "foobar") demo_driven_wf eq_refl
    eq_refl eq_refl eq_refl ltac:(vm_compute; discriminate) ltac:(vm_compute; discriminate)
    ltac:(split; [reflexivity|vm_compute; discriminate]) ltac:(vm_compute; discriminate)
    (ex_intro _ 1 eq_refl)) as Hu.
  cbn [transfer_id] in Hu. change (length (str "foobar")) with 6%nat in Hu.
  change (stg_write_size demo_driven) with 4 in Hu.
  destruct (deliver demo_driven _) as [s1 prepare].
  destruct (deliver_chunks s1 _ _ _) as [s2 writes].
  destruct Hu as (Hp & Hs & _). split; [exact Hp|]. rewrite Hs. reflexivity.
Defined.
