(* ===== verification/Startup.v ===== *)
(** How the staging service of [Staging.v] uses the connection: it subscribes once
    per session, its status reports wait for the subscription, and a step starts
    at most one operation and keeps what is queued. *)

From S2P Require Import Prelude Types Io Text Wire Ser Properties Packets Outbound Session.
From S2P Require Import PacketReader Connection Driver Operations Staging Transfers.

Local Open Scope Z_scope.
Local Open Scope list_scope.

Section Startup.
Context `{Formats}.

(** * The subscription *)

Definition is_subscribe (action : option Action) : bool :=
  match action with Some Action.Subscribe => true | _ => false end.

Definition inflight_subscribe (s : StagingService) : bool :=
  is_subscribe (option_map inflight_action (stg_inflight s)).

(** The subscription is queued or on its way. *)
Definition waiting (s : StagingService) : bool :=
  is_subscribe (stg_pending s) || inflight_subscribe s.

(** Nothing is queued behind a subscription on its way; while there is one, the
    service is not subscribed, and only then a status is held back. *)
Definition mqtt_inv (s : StagingService) : Prop :=
  (inflight_subscribe s = true -> stg_pending s = None) /\
  (waiting s = true -> stg_subscribed s = false) /\
  (waiting s = false -> stg_startup_publish s = None).

Definition started (s : StagingService) : Prop :=
  mqtt_inv s /\ (stg_subscribed s = true \/ waiting s = true).

Lemma queue_action_eq s action :
  queue_action s action =
  if waiting s then
    match action with
    | Action.Publish code => set_mqtt s (stg_inflight s) (stg_pending s) (Some code) (stg_subscribed s)
    | Action.Subscribe => s
    end
  else set_mqtt s (stg_inflight s) (Some action) (stg_startup_publish s) (stg_subscribed s).
Proof.
  unfold queue_action, waiting, inflight_subscribe.
  destruct (stg_pending s) as [[]|], (stg_inflight s) as [[[] op]|]; done.
Qed.

(** Case analysis on what is pending and in flight. *)
Ltac mqtt_cases s :=
  rewrite ?queue_action_eq; unfold started, mqtt_inv, waiting, inflight_subscribe in *;
  destruct s as [? [[[?|] ?]|] [[?|]|] ? [] ? ? ? ? ? ? ?];
  simpl in *; intuition congruence.

Lemma queue_publish_inv s code :
  mqtt_inv s ->
  mqtt_inv (queue_action s (Action.Publish code)) /\
  waiting (queue_action s (Action.Publish code)) = waiting s /\
  stg_subscribed (queue_action s (Action.Publish code)) = stg_subscribed s.
Proof. mqtt_cases s. Qed.

Lemma queue_subscribe_inv s :
  mqtt_inv s -> stg_subscribed s = false -> started (queue_action s Action.Subscribe).
Proof. mqtt_cases s. Qed.

Lemma begin_startup_started s event : mqtt_inv s -> started (begin_startup s event).
Proof.
  unfold begin_startup. generalize (replay_status s). intros [code|]; destruct event; simpl; mqtt_cases s.
Qed.

Lemma begin_startup_connected s :
  mqtt_inv s ->
  let s0 := begin_startup s ConnectEvent.Connected in
  stg_inflight s0 = None /\ stg_pending s0 = Some Action.Subscribe /\ stg_subscribed s0 = false /\
  stg_startup_publish s0 = replay_status s.
Proof. unfold begin_startup. generalize (replay_status s). intros replay. simpl. mqtt_cases s. Qed.

(** The operations that neither subscribe nor complete a subscription. *)
Definition mqtt_keeps (s s' : StagingService) : Prop :=
  mqtt_inv s -> mqtt_inv s' /\ waiting s' = waiting s /\ stg_subscribed s' = stg_subscribed s.

Lemma mqtt_keeps_queue s s' code :
  mqtt_keeps s s' -> mqtt_keeps s (queue_action s' (Action.Publish code)).
Proof.
  intros Hk Hi. destruct (Hk Hi) as (Hi' & <- & <-). by apply queue_publish_inv.
Qed.

(** Changing the transfer leaves the MQTT side alone. *)
Lemma mqtt_keeps_transfer s s' state transfer request :
  mqtt_keeps s s' -> mqtt_keeps s (set_transfer s' state transfer request).
Proof. done. Qed.

Lemma mqtt_keeps_refl s : mqtt_keeps s s.
Proof. done. Qed.

Lemma mqtt_keeps_started s s' : mqtt_keeps s s' -> started s -> started s'.
Proof. intros Hk [Hi Hs]. unfold started. destruct (Hk Hi) as (Hi' & -> & ->). done. Qed.

Create HintDb staging.
#[local] Hint Resolve mqtt_keeps_refl mqtt_keeps_transfer mqtt_keeps_queue : staging.

Lemma staging_handle_keeps s p : mqtt_keeps s (fst (staging_handle s p)).
Proof.
  unfold staging_handle, handle_publish_with_properties, handle_manifest, handle_chunk.
  repeat case_match; simpl; auto with staging.
Qed.

Lemma complete_request_keeps s success : mqtt_keeps s (complete_request s success).
Proof. unfold complete_request. repeat case_match; auto with staging. Qed.

Lemma abort_keeps s : mqtt_keeps s (fst (abort s)).
Proof. unfold abort. repeat case_match; simpl; auto with staging. Qed.

(** * Steps *)

Context {IO E : Type} `{Transport IO E} {T : Time} `{!Clock IO T}.

(** Taking a completed or invalidated action out of flight. *)
Definition take_inflight (s : StagingService) : StagingService :=
  set_mqtt s None (stg_pending s) (stg_startup_publish s) (stg_subscribed s).

Lemma requeue_inv s inflight :
  stg_inflight s = Some inflight ->
  (mqtt_inv s -> mqtt_inv (queue_action (take_inflight s) (inflight_action inflight))) /\
  (started s -> started (queue_action (take_inflight s) (inflight_action inflight))).
Proof. destruct inflight as [[code|] op]. all: unfold take_inflight; simpl; mqtt_cases s. Qed.

Lemma action_done_inv s inflight :
  stg_inflight s = Some inflight ->
  (mqtt_inv s -> mqtt_inv (action_done (take_inflight s) (inflight_action inflight))) /\
  (started s -> started (action_done (take_inflight s) (inflight_action inflight))) /\
  stg_inflight (action_done (take_inflight s) (inflight_action inflight)) = None.
Proof.
  destruct inflight as [[code|] op]; unfold action_done, take_inflight; simpl; [mqtt_cases s|].
  destruct (stg_startup_publish s) eqn:Hst; simpl; mqtt_cases s.
Qed.

(** What starting the pending action can do. *)
Lemma start_pending_cases s (c : Connection IO) action :
  stg_pending s = Some action ->
  let '(c1, r1) := start_action (E := E) s action c in
  let '((s', c'), r) := start_pending (E := E) (s, c) in
  c' = c1 /\
  match r1 with
  | Some (Ok op) =>
      s' = set_mqtt s (Some (mkInFlight action op)) None (stg_startup_publish s) (stg_subscribed s) /\
      r = Some (Ok StepPending)
  | Some (Err e) => s' = s /\ (r = Some (Ok StepPending) \/ r = Some (Err e))
  | None => s' = s /\ r = None
  end.
Proof.
  intros Hp. unfold start_pending. rewrite Hp.
  destruct (start_action s action c) as [c1 [[op|e]|]]; [done| |done].
  destruct e as [| | |?|[]|?|]; try (split; [done|split; [done|tauto]]).
  all: destruct (negb _); split; [done|split; [done|tauto]|done|split; [done|tauto]].
Qed.

Lemma start_pending_inv s (c : Connection IO) :
  stg_inflight s = None ->
  let '((s', _), _) := start_pending (E := E) (s, c) in mqtt_keeps s s'.
Proof.
  intros Hin. destruct (stg_pending s) as [action|] eqn:Hp.
  2: { unfold start_pending. rewrite Hp. apply mqtt_keeps_refl. }
  pose proof (start_pending_cases s c action Hp) as Hc.
  destruct (start_action s action c) as [c1 r1], (start_pending (s, c)) as [[s' c'] r].
  destruct Hc as [_ Hc]. destruct r1 as [[op|e]|]; destruct Hc as [-> _]; try apply mqtt_keeps_refl.
  unfold mqtt_keeps. destruct action; mqtt_cases s.
Qed.

Lemma staging_step_inv s (c : Connection IO) :
  let '((s', _), _) := staging_step (E := E) (s, c) in
  (mqtt_inv s -> mqtt_inv s') /\ (started s -> started s').
Proof.
  unfold staging_step. set (s1 := set_max_rx s _).
  assert ((mqtt_inv s -> mqtt_inv s1) /\ (started s -> started s1)) as [H1 H2] by done.
  destruct (stg_inflight s1) as [inflight|] eqn:Hin.
  - fold (take_inflight s1). destruct (is_pending _ _); [done|]. destruct (is_invalidated _ _).
    + destruct (requeue_inv s1 inflight Hin). auto.
    + destruct (action_done_inv s1 inflight Hin) as (Hi & Hs & Hn).
      pose proof (start_pending_inv _ c Hn) as Hk. destruct (start_pending _) as [[s' c'] r].
      split; [intros; by apply Hk, Hi|]. intros Hst. eapply mqtt_keeps_started; eauto.
  - pose proof (start_pending_inv s1 c Hin) as Hk. destruct (start_pending _) as [[s' c'] r].
    split; [intros; by apply Hk|]. intros Hst. eapply mqtt_keeps_started; eauto.
Qed.

Lemma dev_step_started hash d d' :
  dev_step (E := E) hash d d' ->
  (mqtt_inv (dev_service d) -> mqtt_inv (dev_service d')) /\
  (started (dev_service d) -> started (dev_service d')).
Proof.
  assert (forall s s', mqtt_keeps s s' -> (mqtt_inv s -> mqtt_inv s') /\ (started s -> started s')) as Hk.
  { intros s s' Hk. split; [apply Hk|by apply mqtt_keeps_started]. }
  intros [d0 p s' h Hlen Hh|d0 r Hj Hv|d0 r image Hj|d0 success Hj|d0|d0 event|d0 c c' s' r Hs]; simpl.
  - apply Hk. change s' with (fst (s', h)). rewrite <- Hh. apply staging_handle_keeps.
  - apply Hk, complete_request_keeps.
  - apply Hk, complete_request_keeps.
  - apply Hk, complete_request_keeps.
  - apply Hk, abort_keeps.
  - split; intros Hi; [|destruct Hi as [Hi _]]; by apply begin_startup_started.
  - pose proof (staging_step_inv (dev_service d0) c) as Hi. by rewrite Hs in Hi.
Qed.

Lemma reachable_mqtt_inv hash d : reachable (E := E) hash d -> mqtt_inv (dev_service d).
Proof.
  intros (d0 & Hi & Hr). assert (mqtt_inv (dev_service d0)) as Hinit.
  { destruct Hi as [prefix config s image _ _ _ Hn]. revert Hn. unfold staging_new.
    repeat case_match; try done. intros [= <-]. done. }
  clear Hi. induction Hr as [|d0 d1 d2 Hs _ IH]; [done|]. apply IH. by apply (proj1 (dev_step_started _ _ _ Hs)).
Qed.

(** The operation an action starts. *)
Lemma start_action_spec s action (c c' : Connection IO) r :
  conn_inv c -> start_action (E := E) s action c = (c', r) ->
  conn_inv c' /\ match r with Some (Ok op) => status (conn_data c') op = Pending | _ => True end.
Proof.
  intros Hc. unfold start_action. destruct action as [code|].
  - unfold publish_status. destruct (to_slice _) as [payload|]; [|by intros [= <- <-]].
    destruct (publish _ c) as [c1 r1] eqn:Hp. intros [= <- <-].
    apply publish_spec in Hp as [Hc1 Hop]; [|done|by repeat constructor].
    split; [done|]. destruct r1 as [[[op|]|[e|e]]|]; try done.
    destruct Hop as (qos & _ & _ & _ & [Hl _] & _). by apply op_live_pending.
  - intros Hs. apply subscribe_spec in Hs as [Hc1 Hop]; [|done|by constructor].
    split; [done|]. destruct r as [[op|e]|]; try done. destruct Hop as [_ [Hl _]].
    by apply op_live_pending.
Qed.

(** The queued action [a] is still queued, or it is in flight. *)
Definition goes_on (a : Action) (s' : StagingService) (r : option (result (Error E) Step)) : Prop :=
  stg_pending s' = Some a \/
  (exists op, stg_inflight s' = Some (mkInFlight a op)) /\ stg_pending s' = None /\
    r = Some (Ok StepPending).

(** Starting the pending action when nothing is in flight. *)
Lemma start_pending_result s (c c' : Connection IO) s' r :
  conn_inv c -> stg_inflight s = None -> start_pending (E := E) (s, c) = ((s', c'), r) ->
  conn_inv c' /\ stg_subscribed s' = stg_subscribed s /\
  stg_max_rx_packet_size s' = stg_max_rx_packet_size s /\
  (forall i, stg_inflight s' = Some i ->
     status (conn_data c') (inflight_op i) = Pending /\ stg_pending s' = None) /\
  (r = Some (Ok Quiescent) -> stg_inflight s' = None /\ stg_pending s' = None) /\
  (forall a, stg_pending s = Some a -> goes_on a s' r).
Proof.
  intros Hc Hin. destruct (stg_pending s) as [action|] eqn:Hp.
  2: { unfold start_pending. rewrite Hp. intros [= <- <- <-]. rewrite Hin. by split_and!. }
  pose proof (start_pending_cases s c action Hp) as Hs.
  destruct (start_action s action c) as [c1 r1] eqn:Ha.
  apply start_action_spec in Ha as [Hc1 Hop]; [|done]. intros Hst. rewrite Hst in Hs.
  destruct Hs as [-> Hs]. destruct r1 as [[op|e]|].
  - destruct Hs as [-> ->]. split_and!; try done; [by intros i [= <-]|].
    intros a [= <-]. right. split_and!; [by exists op|done|done].
  - destruct Hs as [-> Hr]. unfold goes_on. rewrite Hin, Hp.
    split_and!; try done; [by destruct Hr as [-> | ->]|]. intros a [= <-]. by left.
  - destruct Hs as [-> ->]. unfold goes_on. rewrite Hin, Hp. split_and!; try done.
    intros a [= <-]. by left.
Qed.

Lemma requeue_pending s i :
  stg_inflight s = Some i ->
  let s' := queue_action (take_inflight s) (inflight_action i) in
  stg_inflight s' = None /\ stg_subscribed s' = stg_subscribed s /\
  stg_max_rx_packet_size s' = stg_max_rx_packet_size s /\
  match stg_pending s, inflight_action i with
  | Some Action.Subscribe, Action.Publish code =>
      stg_pending s' = Some Action.Subscribe /\ stg_startup_publish s' = Some code
  | _, action => stg_pending s' = Some action
  end.
Proof. destruct s, i as [[] ?]; simpl; intros ->; by destruct stg_pending as [[]|]. Qed.

Lemma action_done_pending s i :
  mqtt_inv s -> stg_inflight s = Some i ->
  let s' := action_done (take_inflight s) (inflight_action i) in
  stg_inflight s' = None /\
  (stg_subscribed s' = true -> stg_subscribed s = true \/ inflight_action i = Action.Subscribe) /\
  stg_max_rx_packet_size s' = stg_max_rx_packet_size s /\
  (forall a, stg_pending s = Some a -> stg_pending s' = Some a).
Proof.
  intros (Hp & _). destruct s, i as [[] ?]; unfold inflight_subscribe in Hp; simpl in *; intros ->;
    [by auto|]. rewrite Hp by done. destruct stg_startup_publish; simpl; split_and!; auto; done.
Qed.

(** * Theorems *)

(** C17: the subscription is neither lost nor overtaken. Once the application has
    called [begin_startup], whatever happens afterwards (publications, storage
    results, aborts, reconnections with or without a session, steps that succeed,
    fail or are dropped), the service is either subscribed or has exactly one
    subscription queued or on its way, never both; a status report is queued only
    when the service is subscribed, and the one held back during the subscription
    exists only while it is under way. After a connection without a session it is
    not subscribed any more, nothing of the old session is in flight, and the new
    subscription is queued, with the status of a transfer held back behind it. *)
Theorem staging_subscription_kept hash d0 event d :
  reachable (E := E) hash d0 ->
  rtc (dev_step (E := E) hash) (with_service d0 (begin_startup (dev_service d0) event)) d ->
  let s0 := begin_startup (dev_service d0) event in
  let s := dev_service d in
  (event = ConnectEvent.Connected ->
     stg_inflight s0 = None /\ stg_pending s0 = Some Action.Subscribe /\ stg_subscribed s0 = false /\
     stg_startup_publish s0 = replay_status (dev_service d0)) /\
  stg_subscribed s = negb (waiting s) /\
  (inflight_subscribe s = true -> stg_pending s = None) /\
  (forall code, stg_pending s = Some (Action.Publish code) -> stg_subscribed s = true) /\
  (stg_startup_publish s <> None -> waiting s = true).
Proof.
  intros Hr Hd. apply reachable_mqtt_inv in Hr.
  assert (started (dev_service d)) as [(H1 & H2 & H3) H4].
  { pose proof (begin_startup_started _ event Hr) as Hs.
    remember (with_service d0 _) as d1 eqn:He. assert (started (dev_service d1)) as Hs1 by by subst.
    clear -Hd Hs1. induction Hd as [|d1 d2 d Hs _ IH]; [done|]. apply IH. by apply (proj2 (dev_step_started _ _ _ Hs)). }
  cbv zeta. split.
  { intros ->. by apply begin_startup_connected. }
  destruct (waiting (dev_service d)) eqn:Hw.
  - rewrite H2 by done. split_and!; try done. intros code Hp. unfold waiting in Hw. rewrite Hp in Hw.
    rewrite H1 in Hp by done. done.
  - assert (stg_subscribed (dev_service d) = true) as -> by by destruct H4.
    split_and!; try done. rewrite H3 by done. done.
Qed.

(** C18: what a step of the staging service does. It keeps the connection's
    invariant and never touches the transfer; it takes over the size of the
    receive buffer. While its operation is on its way, nothing else changes. It has
    at most one operation in flight, and a new one is pending at the connection;
    it becomes subscribed only when the SUBSCRIBE it issued was acknowledged; it
    reports quiescence only when nothing is queued or in flight. When the session
    invalidated its operation, the step reports the lost connection and queues that
    action again, a status report behind a queued subscription, and otherwise in place
    of a report queued meanwhile. In every other case the queued action stays queued,
    also when the step fails or its future is dropped, or is the one in flight. *)
Theorem staging_step_drives s (c : Connection IO) :
  conn_inv c -> mqtt_inv s ->
  let '((s', c'), r) := staging_step (E := E) (s, c) in
  conn_inv c' /\ mqtt_only s s' /\ stg_max_rx_packet_size s' = max_rx_packet_size (session c) /\
  (forall i, stg_inflight s = Some i -> status (conn_data c) (inflight_op i) = Pending ->
     c' = c /\ s' = set_max_rx s (max_rx_packet_size (session c)) /\ r = Some (Ok StepPending)) /\
  (forall i, stg_inflight s' = Some i -> status (conn_data c') (inflight_op i) = Pending /\
     (stg_inflight s = Some i \/ stg_pending s' = None)) /\
  (stg_subscribed s' = true -> stg_subscribed s = true \/
     exists i, stg_inflight s = Some i /\ inflight_action i = Action.Subscribe /\
       status (conn_data c) (inflight_op i) = Complete) /\
  (r = Some (Ok Quiescent) -> stg_inflight s' = None /\ stg_pending s' = None) /\
  (forall i, stg_inflight s = Some i -> status (conn_data c) (inflight_op i) = Invalidated ->
     c' = c /\ r = Some (Err Error.Disconnected) /\ stg_inflight s' = None /\
     match stg_pending s, inflight_action i with
     | Some Action.Subscribe, Action.Publish code =>
         stg_pending s' = Some Action.Subscribe /\ stg_startup_publish s' = Some code
     | _, action => stg_pending s' = Some action
     end) /\
  (forall a, stg_pending s = Some a ->
     (forall i, stg_inflight s = Some i -> status (conn_data c) (inflight_op i) <> Invalidated) ->
     goes_on a s' r).
Proof.
  intros Hc Hinv. destruct (staging_step (E := E) (s, c)) as [[s' c'] r] eqn:Hs.
  assert (mqtt_only s s') as Hm by by eapply staging_step_only.
  revert Hs. unfold staging_step. set (s1 := set_max_rx s _). change (stg_inflight s1) with (stg_inflight s).
  destruct (stg_inflight s) as [i|] eqn:Hin.
  - unfold is_pending, is_invalidated. fold (conn_data c). fold (take_inflight s1).
    destruct (status (conn_data c) (inflight_op i)) eqn:Hst;
      rewrite ?bool_decide_eq_true_2, ?bool_decide_eq_false_2 by done.
    + intros [= <- <- <-]. simpl. rewrite Hin.
      split_and!; try done; auto; try (intros ? [= <-]; auto; congruence).
      intros a Ha _. by left.
    + destruct (action_done_pending s1 i Hinv Hin) as (Ha & Hsub & Hrx & Hpend). intros Hs.
      destruct (start_pending_result _ _ _ _ _ Hc Ha Hs) as (Hc' & Hsub' & Hrx' & Hi & Hq & Hp).
      split_and!; try done; [by rewrite Hrx', Hrx|intros ? [= <-]; congruence| | |intros ? [= <-]; congruence|by auto].
      * intros i' Hi'. destruct (Hi i' Hi'). auto.
      * rewrite Hsub'. intros [Hb|Hb]%Hsub; [by left|right; eauto].
    + intros [= <- <- <-]. destruct (requeue_pending s1 i Hin) as (-> & -> & -> & Hpend).
      split_and!; try done; auto; try (intros ? [= <-]; auto; congruence).
      intros a _ Hno. by destruct (Hno i eq_refl).
  - intros Hs. destruct (start_pending_result s1 c c' s' r Hc Hin Hs) as (Hc' & Hsub & Hrx & Hi & Hq & Hp).
    split_and!; try done; auto; [|rewrite Hsub; auto]. intros i' Hi'. destruct (Hi i' Hi'). auto.
Qed.
End Startup.

(** * Examples *)

Lemma demo_link_inv : conn_inv demo_link.
Proof.
  destruct (demo_conn_inv []) as (Hs & _ & Hf). split_and!; [exact Hs| |exact Hf].
  apply reader_wf_new. by repeat constructor.
Qed.

(** A service that is about to subscribe. *)
Definition demo_begun : StagingService := begin_startup demo_new ConnectEvent.Connected.

Lemma demo_begun_inv : mqtt_inv demo_begun.
Proof. by vm_compute. Qed.

Lemma demo_begun_subscribes :
  match staging_step (E := unit) (demo_begun, demo_link) with
  | ((s', _), Some (Ok StepPending)) =>
      match stg_inflight s' with Some i => bool_decide (inflight_action i = Action.Subscribe) | None => false end
  | _ => false
  end = true.
Proof. vm_compute. reflexivity. Qed.

Lemma staging_step_drives_witness :
  let '((s', c'), r) := staging_step (E := unit) (demo_begun, demo_link) in
  conn_inv c' /\ r = Some (Ok StepPending) /\
  exists i, stg_inflight s' = Some i /\ status (conn_data c') (inflight_op i) = Pending.
Proof.
  pose proof (staging_step_drives (E := unit) demo_begun demo_link demo_link_inv demo_begun_inv) as Hs.
  pose proof demo_begun_subscribes as Hd.
  destruct (staging_step (E := unit) (demo_begun, demo_link)) as [[s' c'] r].
  destruct Hs as (Hc & _ & _ & _ & Hi & _). split; [exact Hc|].
  destruct r as [[[]|]|]; try discriminate Hd. split; [reflexivity|].
  destruct (stg_inflight s') as [i|]; [|discriminate Hd]. exists i. split; [reflexivity|].
  exact (proj1 (Hi i eq_refl)).
Defined.

Lemma staging_subscription_kept_witness :
  let s := begin_startup (dev_service demo_complete) ConnectEvent.Reconnected in
  stg_startup_publish s = Some StatusCode.Complete /\ waiting s = true /\ stg_subscribed s = false.
Proof.
  destruct (staging_subscription_kept (E := unit) (T := Scripted.time) fnv1a64 demo_complete
    ConnectEvent.Reconnected _ (reachable_step _ _ demo_last_reachable demo_complete_step)
    (rtc_refl _ _)) as (_ & Hs & _ & _ & Hw).
  split; [reflexivity|]. split; [apply Hw; discriminate|exact Hs].
Defined.
